(* ===== verification/_CoqProject ===== *)
-Q . S2P
Prelude.v
Floats.v
Protocol.v
Interfaces.v
Json.v
ModeManager.v
Registry.v
Ownership.v
ProviderRegistry.v
Parameters.v
EventEmitter.v
FramedStdio.v
ProviderProcess.v
ProviderSession.v
Supervisor.v
StateCache.v
Health.v
Telemetry.v
RunJournal.v
DeviceLossLatch.v
LatchStore.v
ArgCheck.v
BtNodes.v
Automation.v
CallRouter.v
SafeState.v
ActuationGate.v
StopChain.v
RuntimeHooks.v
Runtime.v
Config.v
ConfigLoad.v
Startup.v
EntryPoint.v
HttpGate.v
HttpJson.v
HttpControl.v
HttpViews.v
HttpRuns.v
Sse.v
System.v
Workers.v
Logging.v
JournalWriter.v
