(* ===== verification/Prelude.v ===== *)
(** * Anolis runtime: verification library

    Anolis is a machine runtime: it starts device providers, discovers their
    devices, keeps a cached view of their signals, routes calls to them under
    mode, e-stop and device-loss gates, and drives the machine to a declared safe
    state when it is stopped.  This library models the control core under
    [src/core] and proves what makes it correct.

    ** Parts, and where they are modelled

    - [ModeManager.v]: [automation/mode_manager.cpp].  [set_mode] over a world
      that arbitrary callbacks may change, with the before-callbacks, the second
      critical section (commit guards included) and the change notifications.
    - [Registry.v]: [registry/device_registry.cpp].  Discovery, replacement of a
      provider's devices, capability flattening, the handle index.
    - [Parameters.v]: [automation/parameter_manager.cpp], [parameter_types.hpp]
      and the value bridges.
    - [Supervisor.v]: [provider/provider_supervisor.cpp], the supervision part of
      [Runtime::run], and [validate_restart_policy] of [runtime/config.cpp].
    - [StateCache.v]: [state/state_cache.cpp].  Polling, outages, rebuilds, change
      detection; availability events are recorded in the order they are
      published, reachability edges in the order they are decided, and the calls
      of the sink, made outside the lock, are steps of their own.
    - [DeviceLossLatch.v]: [control/device_loss_latch.cpp] and
      [control/reissue_worker.cpp].
    - [LatchStore.v]: [control/latch_store.cpp], over a file system whose durable
      contents a crash may expose.
    - [ArgCheck.v] and [CallRouter.v]: [control/call_router.cpp].
    - [SafeState.v]: [control/safe_state.cpp].
    - [ActuationGate.v]: [runtime/actuation_gate.cpp].
    - [StopChain.v]: [control/stop_chain.cpp].
    - [runtime/runtime.cpp]: [RuntimeHooks.v] has the mode callbacks of
      [init_automation] with what they publish; [Runtime.v] the stop-chain tick,
      [restart_provider], the main loop and the shutdown order; [Startup.v]
      [initialize], stage by stage under its deadline, and the preflight.
    - [System.v]: the parts [Runtime] holds, put together; one step per operation
      of one thread.
    - [EntryPoint.v]: [src/main.cpp] and [runtime/signal_handler.cpp]; [Logging.v]:
      [logging/logger.cpp].
    - [Config.v] and [ConfigLoad.v]: [runtime/config.cpp], validation and loading
      over an abstract YAML document.
    - [EventEmitter.v]: [events/event_emitter.cpp], bounded queues and fan-out as
      steps of concurrent threads.
    - [FramedStdio.v] and [ProviderSession.v]: [provider/framed_stdio_client.cpp],
      the frame codec over a pipe, and [provider/provider_handle.cpp], the
      request/response session over it.
    - [ProviderProcess.v] and [ProviderRegistry.v]: [provider/provider_process.cpp],
      spawning and the shutdown ladder, and [provider/provider_registry.cpp], the
      shared ownership of the handles.
    - [http/]: [HttpGate.v] has the server's admission and routes, [HttpJson.v] the
      value codec, [HttpControl.v], [HttpViews.v] and [HttpRuns.v] the handlers, and
      [Sse.v] the event stream.
    - [Ownership.v]: [runtime/ownership_validation.cpp] and
      [runtime/poll_hint_check.cpp].
    - [Health.v]: [health/health_snapshot.cpp].
    - [Telemetry.v]: [telemetry/], the line protocol and the sink's batching.
    - [Workers.v]: the threads of [StateCache::start_polling], [HealthSnapshotTask]
      and [InfluxSink], and how [Runtime::shutdown] stops them.
    - [RunJournal.v]: [runs/run_journal.cpp], runs and event streams over files;
      [JournalWriter.v] its writer thread.
    - [BtNodes.v] and [Automation.v]: [automation/bt_nodes.cpp], the tree nodes, and
      [automation/bt_runtime.cpp], the engine that ticks them.
    - [Interfaces.v] has the two latch interfaces ([control/i_*_latch.hpp]) as
      classes; [Protocol.v] the protocol messages; [Json.v] JSON documents and
      the text codec as a class; [Floats.v] the exactness of integer-to-double
      conversion; this file the shared types, strings, ordered maps and tactics.

    The components meet as in the code.  The cache's edges feed the loss latch;
    the router consults both latches through their interfaces and polls the
    cache after a call; the safe-state controller's ladder is a sequence of
    router calls, its latch is written through the store, and its FAULT entry is
    a [set_mode]; the gates and hooks are callbacks and guards of the mode
    manager; the stop-chain monitor reads the cache and guards the controller's
    clear; a throwing tick of the engine is a [set_mode] to FAULT, and a tree's
    calls are router calls whose results the engine counts; the event emitter's
    events are the journal's and the sink's input; the health rows are built from
    the registry, the cache and the supervisor's snapshots.  [Runtime] creates them,
    hands each the others it calls, and passes the HTTP handlers the same objects.

    ** How the code is represented

    A component's members are a record, its methods are functions on that record,
    a [bool]-and-error result is [result], an optional is [option], an exception
    that leaves a method is [None] of its result.  Machine integers are [Z] with
    their width as a predicate and conversions that can wrap written with the
    wrap; doubles are binary64 ([spec_float]).  Time points are [Z] (steady or
    system clock, ns or ms as the code has them).  The state cache's 64-bit edge
    counter is not wrapped.

    Concurrency is explicit where the code depends on it: each check of
    [execute_call] reads the environment of its own checkpoint, so everything
    other threads can do between two checks is covered; mode callbacks may change
    the mode while a transition is running; the reachability sink is called, and
    edges are applied, in any order; the
    re-issue worker, the registry, the parameter store, the cache, the controller
    and the monitor are step relations over their operations; [System.sys_step] is
    the step relation of the whole core, and [Workers.moves] schedules the telemetry
    threads between their lock sections.  Elsewhere an
    operation is one step, as under its component's mutex.

    Recursion is structural, over the lists the code loops over.  Fuel is used in
    two places: draining the bits of a ULID, where the bits left in the
    accumulator bound it, and the row reader the telemetry theorems are stated
    with, where the length of the line does.  A read or write that the code
    retries is a function of the list of answers the system gives it.

    ** What is proved

    - The whole core: from a successful start-up on, after any operations of any
      threads, an observed stop is obeyed by every part ([observed_stop_obeyed]) and
      AUTO is in force only on a machine that may run by itself
      ([auto_always_allowed]); both say what a latch record that cannot be printed
      costs, since the printer throws.  The controller's operations are proved on the part
      of the world they touch; [fault_through_view] and [on_controller] carry them
      over to the whole.
    - Runtime: a restart is all or nothing and doubles no process but one that a
      dropped replacement left ([restart_all_or_nothing],
      [restarts_never_double]); shutdown ends the loop
      and the service threads ([shutdown_ends_loop], [polling_stops],
      [telemetry_stop_returns]) and accounts for every telemetry row
      ([shutdown_accounts_for_rows]); start-up opens HTTP last, with the
      outputs driven, obeys a stop it finds and reports what cannot be dispatched ([http_opens_last],
      [boot_obeys_stop], [preflight_reports_failures]); mode changes are published
      once each ([mode_changes_published]); [exit_code_means] says what the
      process's exit code means.
    - Gating: no call reaches a provider past a gate, whatever runs in between
      ([dispatch_gated]); AUTO is committed only with the latch released and the
      hookless gate open ([auto_entry_gated], [set_mode_guarded],
      [hookless_gate_enforced]); FAULT is always reached
      ([set_mode_fault_always]); re-arming needs a deliberate entry into AUTO
      ([auto_only_through_manual], [rearm_only_on_auto_entry]).
    - E-stop: a trigger latches, runs the planned rung and ends in FAULT
      ([trigger_latches_and_faults]); its verdict and its coverage report mean
      what they say ([achieved_drives_every_actuator],
      [unlisted_functions_are_driven]); only a permitted clear releases it
      ([latch_released_only_by_clear], [observed_stop_holds_latch]); it survives
      restarts and crashes ([stop_survives_restart], [save_is_durable],
      [save_crash_atomic], [load_fails_toward_held]); the FAULT hooks run to the
      end ([fault_hooks_run_to_the_end]).  One path falls short:
      [unprintable_record_skips_ladder].
    - Arguments: exact coercion, validation as the declaration says, dry run as
      dispatch, spacing ([coercion_exact], [validation_refines_declaration],
      [dispatch_conforms], [dry_run_matches_dispatch], [min_interval_respected],
      [refused_call_has_no_effect]).
    - Reachability: alternating edges and events, order-independent latching,
      re-issue on return, nothing lost in the worker's queue
      ([reachability_edges_alternate], [availability_events_coherent],
      [failed_read_reports_once], [good_read_stores],
      [loss_latch_order_independent], [return_of_held_device_reissued],
      [reissue_worker_serves_posts], [reissue_worker_drains],
      [mismatch_alarms_alternate]).
    - Supervision, registry, parameters: restart budgets, backoff, recovery and
      totality; the index refines the inventory; stored values are valid, said
      without the code's checks ([parameter_values_always_valid]).
    - Providers: what is framed is read back ([frames_stay_in_sync]); requests and
      responses of a healthy session pair off, and a session whose pipes lost
      their place is marked broken ([healthy_session_in_step]); an answer belongs to
      its request ([call_answers_its_request]); a process gets its pipe ends and no
      other, and is ended with its group ([spawn_gives_pipe_ends],
      [shutdown_ladder]); the registry answers with the newest handle, and one in
      use is never destroyed ([handles_live_while_used]).
    - HTTP: the check before routing admits exactly the requests it should
      ([only_admitted_requests_are_routed]);
      an e-stop over HTTP stops the machine ([post_estop_stops]); a call is sent as
      it was asked for ([post_call_sends_what_is_asked]); the event stream reads
      back as the events it carries ([stream_roundtrip]).
    - Events, runs, telemetry: each subscriber gets exactly the events it asked
      for, bounded by its queue ([fan_out_exactly_once]);
      one open run, closed runs immutable, sequences rising, restarts faithful
      ([one_open_run], [closed_runs_immutable], [append_event_extends_stream],
      [restart_restores_runs]), and closing the journal leaves nothing queued
      ([closing_drains_the_queue]), unless the text of a fault cannot be printed
      ([raw_fault_ends_process]); what is posted reads back as the rows it means
      ([posted_body_reads_back]).
    - Configuration and health: [validate_config] and the ownership check decide
      their declarative rules ([validate_config_correct],
      [ownership_check_correct]); what loads is valid ([loaded_config_valid]);
      reports are neither lost nor invented ([reported_devices_all_shown]).
    - Automation: a throwing tick puts the runtime in FAULT ([throwing_tick_faults]); the
      status refines an abstract run ([status_reports_the_run]); call failures are
      counted per call ([call_fault_at_limit]); pulses are bounded
      ([requested_pulses_bounded]); arguments survive the way to the call
      ([built_args_reach_call]).

    ** What is not modelled

    Operating-system I/O (processes, pipes, sockets, signals, files, the log's
    stream), whose results are arguments of the models, and the Windows branches;
    the behaviour-tree engine, the YAML and JSON parsers, protobuf, the HTTP library
    with its listener and thread pool, and the InfluxDB client, which are outside
    the repository.  Log texts appear only where they are data (the preflight, the
    call record, the start-up warnings); of the tree nodes' ports the declarations
    are left to the tree library, and of the event stream the response headers and
    the reply without an emitter.  In [System.v] an operation is one step, so what
    another thread does in its middle is covered only by the component files (the
    checkpoints of [execute_call], the callbacks of [set_mode]); the interleavings
    inside one [rebuild_poll_configs], which takes its lock several times, and a
    definition loaded in the middle of a tick are not covered.  The two atomics of
    the e-stop latch that the router reads, whether it is engaged and the thread it
    admits, are one snapshot ([latch_holds]).  The build without automation
    ([ANOLIS_ENABLE_AUTOMATION=OFF]), where enabling it is only warned about, is not
    modelled, and the event emitter of [EventEmitter.emit_step] outlives its
    threads. *)

From Stdlib Require Export ZArith SpecFloat Ascii.
From stdpp Require Export base tactics option list list_numbers gmap fin_maps sets
  strings pretty sorting relations.

Set Default Proof Using "Type".

Declare Scope anolis_scope.
Delimit Scope anolis_scope with anolis.
Open Scope anolis_scope.
Open Scope string_scope.
Open Scope list_scope.
Open Scope Z_scope.

(** ** Results of fallible operations

    A C++ member that returns [bool] and fills a [std::string &error] is a
    function into [result]: [Ok] for [true], [Err msg] for [false]. *)

Inductive result (A : Type) : Type :=
| Ok (a : A)
| Err (msg : string).
Arguments Ok {A} a.
Arguments Err {A} msg.

Definition rbind {A B} (m : result A) (f : A → result B) : result B :=
  match m with Ok a => f a | Err e => Err e end.

Definition is_ok_b {A} (m : result A) : bool :=
  match m with Ok _ => true | Err _ => false end.

Notation "'try' x <- m ;; k" := (rbind m (λ x, k))
  (at level 100, x pattern, m at next level, right associativity,
   format "'try'  x  <-  m  ;; '//' k") : anolis_scope.

Lemma rbind_Ok {A B} (m : result A) (f : A → result B) b :
  rbind m f = Ok b ↔ ∃ a, m = Ok a ∧ f a = Ok b.
Proof. destruct m; simpl; split; [by eauto|by intros (? & [= <-] & ?)|done|by intros (? & ? & ?)]. Qed.

Lemma is_ok_b_true {A} (m : result A) : is_ok_b m = true ↔ ∃ a, m = Ok a.
Proof. destruct m; simpl; split; [by eauto|done|done|by intros [? ?]]. Qed.

(** ** Machine integers

    Integers are [Z] with their width as a predicate; a conversion that can
    wrap is written with the wrap. *)

Definition int64_max : Z := 2 ^ 63 - 1.
Definition int64_min : Z := - 2 ^ 63.
Definition uint64_max : Z := 2 ^ 64 - 1.
Definition in_int64 (z : Z) : Prop := int64_min ≤ z ≤ int64_max.
Definition in_uint64 (z : Z) : Prop := 0 ≤ z ≤ uint64_max.

(** [static_cast<uint64_t>] and [static_cast<int64_t>]. *)
Definition to_uint64 (z : Z) : Z := z mod 2 ^ 64.
Definition to_uint32 (z : Z) : Z := z mod 2 ^ 32.
Definition to_int32 (z : Z) : Z := (z + 2 ^ 31) mod 2 ^ 32 - 2 ^ 31.
Definition to_int64 (z : Z) : Z := (z + 2 ^ 63) mod 2 ^ 64 - 2 ^ 63.

Lemma to_uint64_id z : in_uint64 z → to_uint64 z = z.
Proof. unfold in_uint64, to_uint64, uint64_max. intros. apply Z.mod_small. lia. Qed.

Lemma to_int64_id z : in_int64 z → to_int64 z = z.
Proof.
  unfold in_int64, to_int64, int64_min, int64_max. intros.
  rewrite Z.mod_small; lia.
Qed.

(** ** Doubles

    IEEE-754 binary64, as [spec_float] with 53 digits of precision. *)

Abbreviation double := spec_float.

(** [static_cast<double>(z)]: round to nearest, ties to even. *)
Definition double_of_Z (z : Z) : double := binary_normalize 53 1024 z 0 false.

Definition double_zero : double := S754_zero false.

#[global] Instance spec_float_eq_dec : EqDecision spec_float.
Proof. solve_decision. Defined.

(** The real number a finite double denotes is [m * 2^e]; [double_is f z] says
    that it is exactly the integer [z]. *)
Definition double_is (f : double) (z : Z) : Prop :=
  match f with
  | S754_zero _ => z = 0
  | S754_finite s m e =>
      let sm := if s then Z.neg m else Z.pos m in
      if decide (0 ≤ e) then sm * 2 ^ e = z else sm = z * 2 ^ (- e)
  | _ => False
  end.

(** Text of a double: [operator<<], [std::to_string] and [std::format] of the
    standard library. Only their results are used, in messages. *)
Class FloatText := {
  ostream_double : double → string;
  to_string_double : double → string;
  format_double : double → string;
}.

(** [std::to_string] of an integer. *)
Definition to_string (z : Z) : string := pretty z.

(** ** Strings *)

Definition slash : ascii := "/"%char.

(** [s.find(c)] split: the text before the first [c] and the text after it;
    [None] is [npos]. *)
Fixpoint split_first (c : ascii) (s : string) : option (string * string) :=
  match s with
  | EmptyString => None
  | String a r =>
      if Ascii.eqb a c then Some (EmptyString, r)
      else match split_first c r with
           | Some (x, y) => Some (String a x, y)
           | None => None
           end
  end.

(** [s.rfind(c)] split: around the last [c]. *)
Fixpoint split_last (c : ascii) (s : string) : option (string * string) :=
  match s with
  | EmptyString => None
  | String a r =>
      match split_last c r with
      | Some (x, y) => Some (String a x, y)
      | None => if Ascii.eqb a c then Some (EmptyString, r) else None
      end
  end.

(** [s.find(sub) != npos]. *)
Definition contains_sub (sub s : string) : bool :=
  match String.index 0 sub s with Some _ => true | None => false end.

(** [s.find(prefix) == 0]. *)
Definition starts_with (pre s : string) : bool := String.prefix pre s.

(** [std::toupper] in the C locale. *)
Definition toupper (c : ascii) : ascii :=
  let n := nat_of_ascii c in
  if ((97 <=? n) && (n <=? 122))%nat then ascii_of_nat (n - 32) else c.

Fixpoint string_toupper (s : string) : string :=
  match s with
  | EmptyString => EmptyString
  | String c r => String (toupper c) (string_toupper r)
  end.

(** A list of strings joined with a separator. *)
Fixpoint join (sep : string) (l : list string) : string :=
  match l with
  | [] => ""
  | [x] => x
  | x :: r => x +:+ sep +:+ join sep r
  end.

Fixpoint has_char (c : ascii) (s : string) : bool :=
  match s with
  | EmptyString => false
  | String a r => Ascii.eqb a c || has_char c r
  end.

Lemma split_first_app c p d :
  has_char c p = false → split_first c (p +:+ String c d) = Some (p, d).
Proof.
  induction p as [|a p IH]; simpl; intros H.
  - by rewrite Ascii.eqb_refl.
  - apply orb_false_iff in H as [-> H]. by rewrite IH.
Qed.

Lemma split_first_sound c s x y :
  split_first c s = Some (x, y) → s = x +:+ String c y ∧ has_char c x = false.
Proof.
  revert x y. induction s as [|a s IH]; simpl; intros x y H; [done|].
  destruct (Ascii.eqb a c) eqn:E.
  - apply Ascii.eqb_eq in E. by simplify_eq.
  - destruct (split_first c s) as [[x' y']|]; simplify_eq.
    destruct (IH _ _ eq_refl) as [-> ?]. simpl. by rewrite E.
Qed.

Lemma split_first_None c s : split_first c s = None ↔ has_char c s = false.
Proof.
  induction s as [|a s IH]; simpl; [done|].
  destruct (Ascii.eqb a c); simpl; [by split|].
  rewrite <- IH. destruct (split_first c s) as [[]|]; by split.
Qed.

Lemma string_app_cons x (a b : string) : String x a +:+ b = String x (a +:+ b).
Proof. done. Qed.

Lemma string_app_assoc (a b c : string) : (a +:+ b) +:+ c = a +:+ (b +:+ c).
Proof. induction a as [|x a IH]; [done|]. by rewrite !string_app_cons, IH. Qed.

Lemma string_app_inj_r (a b c : string) : a +:+ b = a +:+ c → b = c.
Proof. induction a as [|x a IH]; [done|]. rewrite !string_app_cons. intros [= ?]. auto. Qed.

Lemma starts_with_app (a b : string) : starts_with a (a +:+ b) = true.
Proof.
  unfold starts_with. induction a as [|c a IH]; [by destruct b|].
  rewrite string_app_cons. simpl. by destruct (ascii_dec c c).
Qed.

Lemma starts_with_sound (a s : string) :
  starts_with a s = true → ∃ b, s = a +:+ b.
Proof.
  unfold starts_with. revert s. induction a as [|c a IH]; simpl; intros s H; [by exists s|].
  destruct s as [|c' s]; simpl in H; [done|]. destruct (ascii_dec c c') as [->|]; [|done].
  destruct (IH _ H) as [b ->]. by exists b.
Qed.

Lemma string_app_nil_r (a : string) : a +:+ "" = a.
Proof. induction a as [|x a IH]; [done|]. by rewrite string_app_cons, IH. Qed.

Lemma string_length_app (a b : string) :
  String.length (a +:+ b) = (String.length a + String.length b)%nat.
Proof. induction a as [|x a IH]; [done|]. rewrite string_app_cons. simpl. by rewrite IH. Qed.

(** [s.substr(n)]. *)
Definition str_drop (n : nat) (s : string) : string := String.substring n (String.length s - n) s.

Lemma substring_all (s : string) : String.substring 0 (String.length s) s = s.
Proof. induction s as [|c s IH]; simpl; [done|]. by rewrite IH. Qed.

Lemma str_drop_app (a b : string) : str_drop (String.length a) (a +:+ b) = b.
Proof.
  unfold str_drop. induction a as [|c a IH]; [|rewrite string_app_cons; exact IH].
  simpl. rewrite Nat.sub_0_r. apply substring_all.
Qed.

(** [s] ends with [suf], compared as [s.compare(s.size() - suf.size(), ...)] does. *)
Definition ends_with (suf s : string) : bool :=
  (String.length suf <=? String.length s)%nat &&
  bool_decide (str_drop (String.length s - String.length suf) s = suf).

Lemma string_app_inj_l (a b c : string) : a +:+ c = b +:+ c → a = b.
Proof.
  intros H. assert (String.length a = String.length b) as Hl.
  { apply (f_equal String.length) in H. rewrite !string_length_app in H. lia. }
  revert b H Hl. induction a as [|x a IH]; intros [|y b]; simpl; intros H Hl; try done.
  rewrite !string_app_cons in H. injection H as -> H. f_equal. apply IH; [done|lia].
Qed.

(** The text [s] without its first [n] characters, and those characters. *)
Lemma str_split (n : nat) (s : string) :
  (n ≤ String.length s)%nat → ∃ a, s = a +:+ str_drop n s ∧ String.length a = n.
Proof.
  revert s. induction n as [|n IH]; intros s Hn.
  - exists "". split; [|done]. unfold str_drop. by rewrite Nat.sub_0_r, substring_all.
  - destruct s as [|c s]; simpl in Hn; [lia|]. destruct (IH s) as (a & Hs & Ha); [lia|].
    exists (String c a). split; [|simpl; lia]. rewrite string_app_cons. unfold str_drop in *. simpl. by f_equal.
Qed.

Lemma ends_with_iff suf s : ends_with suf s = true ↔ ∃ a, s = a +:+ suf.
Proof.
  unfold ends_with. rewrite andb_true_iff, bool_decide_eq_true, Nat.leb_le. split.
  - intros [Hl Hs]. destruct (str_split (String.length s - String.length suf) s) as (a & Ha & _); [lia|].
    exists a. by rewrite Hs in Ha.
  - intros [a ->]. rewrite string_length_app. split; [lia|].
    replace (String.length a + String.length suf - String.length suf)%nat with (String.length a) by lia.
    apply str_drop_app.
Qed.

(** ** Lines of text *)

Definition LF : ascii := "010".
Definition char_string (c : ascii) : string := String c "".

Lemma has_char_app c a b : has_char c (a +:+ b) = has_char c a || has_char c b.
Proof. induction a as [|x a IH]; [done|]. rewrite string_app_cons. simpl. by rewrite IH, orb_assoc. Qed.

(** The lines of a newline-delimited payload, with the line being read. *)
Fixpoint read_lines_from (cur s : string) : list string :=
  match s with
  | EmptyString => if bool_decide (cur = "") then [] else [cur]
  | String c r =>
      if Ascii.eqb c LF then cur :: read_lines_from "" r
      else read_lines_from (cur +:+ char_string c) r
  end.

Definition read_lines (s : string) : list string := read_lines_from "" s.

Lemma read_line cur l rest :
  has_char LF l = false → read_lines_from cur (l +:+ String LF rest) = (cur +:+ l) :: read_lines_from "" rest.
Proof.
  revert cur. induction l as [|c l IH]; intros cur Hl.
  - change ("" +:+ String LF rest) with (String LF rest). cbn [read_lines_from]. rewrite Ascii.eqb_refl.
    by rewrite string_app_nil_r.
  - simpl in Hl. apply orb_false_iff in Hl as [Hc Hl]. rewrite string_app_cons. cbn [read_lines_from].
    rewrite Hc, IH by done. by rewrite string_app_assoc.
Qed.

(** ** Decimal text *)

Definition is_digit (c : ascii) : bool := (48 <=? nat_of_ascii c)%nat && (nat_of_ascii c <=? 57)%nat.

Definition digit_value (c : ascii) : Z := Z.of_nat (nat_of_ascii c) - 48.

Fixpoint digits_value (acc : Z) (s : string) : Z :=
  match s with
  | EmptyString => acc
  | String c r => digits_value (10 * acc + digit_value c) r
  end.

Fixpoint all_digits (s : string) : bool :=
  match s with EmptyString => true | String c r => is_digit c && all_digits r end.

(** [[0-9]*] at the front, and the rest. *)
Fixpoint span_digits (s : string) : string * string :=
  match s with
  | EmptyString => ("", "")
  | String c r => if is_digit c then let '(d, rest) := span_digits r in (String c d, rest) else ("", s)
  end.

(** [[+-]?]. *)
Definition strip_sign (s : string) : bool * string :=
  match s with
  | String "-" r => (true, r)
  | String "+" r => (false, r)
  | _ => (false, s)
  end.

Lemma all_digits_app a b : all_digits (a +:+ b) = all_digits a && all_digits b.
Proof. induction a as [|c a IH]; [done|]. rewrite string_app_cons. simpl. by rewrite IH, andb_assoc. Qed.

Lemma digits_value_app acc a b : digits_value acc (a +:+ b) = digits_value (digits_value acc a) b.
Proof. revert acc. induction a as [|c a IH]; intros acc; [done|]. rewrite string_app_cons. apply IH. Qed.

Lemma pretty_N_char_digit n :
  (n < 10)%N → is_digit (pretty_N_char n) = true ∧ digit_value (pretty_N_char n) = Z.of_N n.
Proof. intros Hn. assert (n ∈ [0;1;2;3;4;5;6;7;8;9]%N) as Hin by (rewrite !elem_of_cons; lia).
  repeat (apply elem_of_cons in Hin as [->|Hin]; [done|]). by apply elem_of_nil in Hin.
Qed.

Lemma pretty_N_go_digits x s :
  (0 < x)%N → ∃ d, pretty_N_go x s = d +:+ s ∧ d ≠ "" ∧ all_digits d = true ∧ digits_value 0 d = Z.of_N x.
Proof.
  revert s. induction (N.lt_wf_0 x) as [x _ IH]. intros s Hx. rewrite pretty_N_go_step by done.
  set (c := pretty_N_char (x mod 10)).
  destruct (pretty_N_char_digit (x mod 10)) as [Hd Hv]; [by apply N.mod_lt|]. fold c in Hd, Hv.
  destruct (decide (x / 10 = 0)%N) as [Hz|Hnz].
  - rewrite Hz, pretty_N_go_0. exists (String c ""). split_and!; [done|done|simpl; by rewrite Hd|].
    simpl. rewrite Hv, N.mod_small by (by apply N.div_small_iff). lia.
  - destruct (IH (x / 10)%N) with (s := String c s) as (d & -> & Hne & Ha & Hval);
      [by apply N.div_lt|by apply N.neq_0_lt_0|].
    exists (d +:+ String c ""). split_and!.
    + rewrite string_app_assoc. done.
    + by destruct d.
    + rewrite all_digits_app, Ha. simpl. by rewrite Hd.
    + rewrite digits_value_app, Hval. simpl. rewrite Hv. rewrite (N.div_mod x 10) at 3 by done. lia.
Qed.

Lemma to_string_digits z :
  0 ≤ z → ∃ d, to_string z = d ∧ d ≠ "" ∧ all_digits d = true ∧ digits_value 0 d = z.
Proof.
  intros Hz. destruct z as [|p|p]; [by exists "0"| |lia].
  destruct (pretty_N_go_digits (N.pos p) "") as (d & Hd & Hne & Ha & Hv); [lia|].
  exists d. split_and!; [|done|done|done].
  change (to_string (Z.pos p)) with (pretty_N_go (N.pos p) ""). rewrite Hd.
  clear. induction d as [|c d IH]; [done|]. rewrite string_app_cons. by f_equal.
Qed.

Lemma span_digits_all s : all_digits s = true → span_digits s = (s, "").
Proof.
  induction s as [|c s IH]; simpl; [done|]. intros [-> Hs]%andb_true_iff. by rewrite IH.
Qed.

(** The digits end where the rest begins. *)
Definition no_digit_first (s : string) : bool :=
  match s with String c _ => negb (is_digit c) | EmptyString => true end.

Lemma span_digits_app d s : all_digits d = true → no_digit_first s = true → span_digits (d +:+ s) = (d, s).
Proof.
  intros Hd Hs. induction d as [|c d IH].
  - destruct s as [|c s]; [done|]. simpl in *. by destruct (is_digit c).
  - rewrite string_app_cons. simpl in *. apply andb_true_iff in Hd as [-> Hd]. by rewrite IH.
Qed.

Lemma strip_sign_digit c s : is_digit c = true → strip_sign (String c s) = (false, String c s).
Proof. by destruct c as [[] [] [] [] [] [] [] []]. Qed.

Lemma to_string_neg p : to_string (Z.neg p) = String "-" (to_string (Z.pos p)).
Proof. done. Qed.

(** ** Lists *)

Lemma filter_length_pos {A} (P : A → Prop) `{∀ x, Decision (P x)} (l : list A) :
  0 < Z.of_nat (length (filter P l)) ↔ ∃ x, x ∈ l ∧ P x.
Proof.
  split.
  - intros Hlen. destruct (filter P l) as [|x k] eqn:E; [simpl in Hlen; lia|].
    assert (x ∈ filter P l) as Hin by (rewrite E; by left).
    apply list_elem_of_filter in Hin as [? ?]. by exists x.
  - intros (x & Hin & HP). assert (x ∈ filter P l) as Hf by (by apply list_elem_of_filter).
    destruct (filter P l); [by apply elem_of_nil in Hf|simpl; lia].
Qed.

Lemma StronglySorted_snoc (l : list Z) x :
  StronglySorted Z.lt l → Forall (λ y, y < x) l → StronglySorted Z.lt (l ++ [x]).
Proof.
  induction 1 as [|y l Hs IH Hf]; simpl; intros Hx; [by repeat constructor|].
  apply Forall_cons in Hx as [? ?]. constructor; [auto|].
  apply Forall_app. split; [done|by repeat constructor].
Qed.

(** ** Ordered containers

    [std::map<std::string, A>] is [gmap string A]; a range-for over it visits
    the keys in lexicographic order. *)

Definition str_le (a b : string) : Prop := String.leb a b = true.

#[global] Instance str_le_dec a b : Decision (str_le a b).
Proof. unfold str_le. apply _. Defined.

Definition key_le {A} (a b : string * A) : Prop := str_le a.1 b.1.

#[global] Instance key_le_dec {A} (a b : string * A) : Decision (key_le a b).
Proof. unfold key_le. apply _. Defined.

#[global] Instance str_le_total : Total str_le.
Proof. intros a b. apply String.leb_total. Qed.

#[global] Instance str_le_antisymm : AntiSymm (=) str_le.
Proof. intros a b. apply String.leb_antisym. Qed.

#[global] Instance str_le_trans : Transitive str_le.
Proof.
  unfold str_le, String.leb. intros a. induction a as [|x a IH]; intros [|y b] [|z c]; simpl; try done.
  unfold Ascii.compare.
  destruct (N.compare_spec (N_of_ascii x) (N_of_ascii y)), (N.compare_spec (N_of_ascii y) (N_of_ascii z)),
    (N.compare_spec (N_of_ascii x) (N_of_ascii z)); try done; try lia. apply IH.
Qed.

#[global] Instance key_le_total {A} : Total (@key_le A).
Proof. intros a b. apply str_le_total. Qed.

#[global] Instance key_le_trans {A} : Transitive (@key_le A).
Proof. intros a b c. apply str_le_trans. Qed.

Definition map_items {A} (m : gmap string A) : list (string * A) :=
  merge_sort key_le (map_to_list m).

Definition set_items (s : gset string) : list string := merge_sort str_le (elements s).

Lemma elem_of_map_items {A} (m : gmap string A) k v :
  (k, v) ∈ map_items m ↔ m !! k = Some v.
Proof. unfold map_items. by rewrite merge_sort_Permutation, elem_of_map_to_list. Qed.

Lemma map_items_NoDup {A} (m : gmap string A) : NoDup (fst <$> map_items m).
Proof. unfold map_items. rewrite merge_sort_Permutation. apply NoDup_fst_map_to_list. Qed.

Lemma map_items_sorted {A} (m : gmap string A) : merge_sort str_le (fst <$> map_items m) = fst <$> map_items m.
Proof.
  apply (Sorted_unique str_le).
  - apply Sorted_merge_sort; apply _.
  - assert (Sorted key_le (map_items m)) as Hs by (apply Sorted_merge_sort; apply _).
    apply Sorted_fmap with key_le; [done|]. exact Hs.
  - apply merge_sort_Permutation.
Qed.

Lemma list_to_map_items {A} (m : gmap string A) : list_to_map (map_items m) = m.
Proof.
  rewrite <- (list_to_map_to_list m) at 2. apply list_to_map_proper; [apply map_items_NoDup|].
  apply merge_sort_Permutation.
Qed.

Lemma elem_of_set_items (s : gset string) k : k ∈ set_items s ↔ k ∈ s.
Proof. unfold set_items. by rewrite merge_sort_Permutation, elem_of_elements. Qed.

(** ** Unordered containers that are iterated

    An [std::unordered_map] whose iteration order the code observes is an
    association list in that order: any order is a possible one.  Assigning
    through [operator[]] replaces the value in place or adds the key. *)

Section AssocList.
Context {A : Type}.
Implicit Types (l : list (string * A)) (k : string) (v : A).

Fixpoint alookup k l : option A :=
  match l with
  | [] => None
  | (k', v) :: r => if decide (k = k') then Some v else alookup k r
  end.

Fixpoint aset k v l : list (string * A) :=
  match l with
  | [] => [(k, v)]
  | (k', v') :: r => if decide (k = k') then (k, v) :: r else (k', v') :: aset k v r
  end.

Lemma alookup_elem l k v : alookup k l = Some v → (k, v) ∈ l.
Proof.
  induction l as [|[k' v'] l IH]; simpl; [done|].
  case_decide; intros; simplify_eq; set_solver.
Qed.

Lemma elem_alookup l k v : NoDup l.*1 → (k, v) ∈ l → alookup k l = Some v.
Proof.
  induction l as [|[k' v'] l IH]; simpl; [set_solver|].
  intros [Hn Hd]%NoDup_cons [?|?]%elem_of_cons; simplify_eq.
  - by rewrite decide_True.
  - rewrite decide_False; [auto|]. intros ->. apply Hn.
    apply list_elem_of_fmap. by exists (k', v).
Qed.

Lemma alookup_None l k : alookup k l = None ↔ k ∉ l.*1.
Proof.
  induction l as [|[k' v'] l IH]; simpl; [set_solver|].
  case_decide as Hk.
  - split; [done|]. intros []. subst. apply elem_of_cons. by left.
  - rewrite IH, not_elem_of_cons. tauto.
Qed.

Lemma alookup_aset_eq l k v : alookup k (aset k v l) = Some v.
Proof.
  induction l as [|[k' v'] l IH]; simpl; [by rewrite decide_True|].
  case_decide; simpl; [by rewrite decide_True|by rewrite decide_False].
Qed.

Lemma alookup_aset_ne l k k' v : k ≠ k' → alookup k' (aset k v l) = alookup k' l.
Proof.
  intros Hne. induction l as [|[k'' v''] l IH]; simpl; [by rewrite decide_False|].
  case_decide; simpl; [subst; by rewrite !decide_False|]. by case_decide.
Qed.

Lemma aset_keys_in l k v : k ∈ l.*1 → (aset k v l).*1 = l.*1.
Proof.
  induction l as [|[k' v'] l IH]; simpl; [set_solver|].
  intros [->|?]%elem_of_cons; [by rewrite decide_True|].
  case_decide; simpl; [by subst|]. f_equal. auto.
Qed.

Lemma aset_keys_out l k v : k ∉ l.*1 → (aset k v l).*1 = l.*1 ++ [k].
Proof.
  induction l as [|[k' v'] l IH]; simpl; [done|].
  intros [? ?]%not_elem_of_cons. rewrite decide_False by done. simpl. f_equal. auto.
Qed.

Lemma aset_NoDup l k v : NoDup l.*1 → NoDup (aset k v l).*1.
Proof.
  intros H. destruct (decide (k ∈ l.*1)).
  - by rewrite aset_keys_in.
  - rewrite aset_keys_out by done. apply NoDup_app. split_and!; [done|set_solver|].
    apply NoDup_singleton.
Qed.
End AssocList.

Lemma alookup_map_items {A} (m : gmap string A) k : alookup k (map_items m) = m !! k.
Proof.
  destruct (m !! k) as [v|] eqn:E.
  - apply elem_alookup; [apply map_items_NoDup|by apply elem_of_map_items].
  - apply alookup_None. intros ([k' v] & -> & Hin)%list_elem_of_fmap. apply elem_of_map_items in Hin. simpl in *. congruence.
Qed.

(** Two key-ordered lists with the same entries are the same list. *)
Lemma key_sorted_unique {A} (l1 l2 : list (string * A)) :
  Sorted key_le l1 → Sorted key_le l2 → NoDup l1.*1 → l1 ≡ₚ l2 → l1 = l2.
Proof.
  intros H1 H2 Hnd Hp. apply (Sorted_unique_strong key_le); [|done..].
  intros [k1 v1] [k2 v2] Hi1 Hi2 Hle1 Hle2. assert (k1 = k2) as -> by (by apply (anti_symm str_le)).
  f_equal. pose proof (elem_alookup _ _ _ Hnd Hi1). rewrite <- Hp in Hi2.
  pose proof (elem_alookup _ _ _ Hnd Hi2). congruence.
Qed.

Lemma map_items_fmap {A B} (f : A → B) (m : gmap string A) :
  map_items (f <$> m) = (λ p, (p.1, f p.2)) <$> map_items m.
Proof.
  apply key_sorted_unique.
  - apply Sorted_merge_sort; apply _.
  - eapply Sorted_fmap; [|apply Sorted_merge_sort; apply _]. done.
  - apply map_items_NoDup.
  - unfold map_items. rewrite !merge_sort_Permutation, map_to_list_fmap. done.
Qed.

(** ** Reachability

    An invariant that holds initially and across every step holds in every
    reachable state. *)
Lemma filter_all {A} (P : A → Prop) `{∀ x, Decision (P x)} l : Forall P l → filter P l = l.
Proof. induction 1; [done|]. rewrite filter_cons_True by done. by f_equal. Qed.

Lemma filter_none {A} (P : A → Prop) `{∀ x, Decision (P x)} l :
  Forall (λ x, ¬ P x) l → filter P l = [].
Proof. induction 1; [done|]. by rewrite filter_cons_False. Qed.

Lemma split_last_app c a b : has_char c b = false → split_last c (a +:+ String c b) = Some (a, b).
Proof.
  intros Hb. assert (split_last c b = None) as Hn.
  { induction b as [|x b IH]; [done|]. simpl in *. apply orb_false_iff in Hb as [-> Hb]. by rewrite IH. }
  induction a as [|x a IH].
  - simpl. by rewrite Hn, Ascii.eqb_refl.
  - rewrite string_app_cons. simpl. by rewrite IH.
Qed.

Lemma rtc_invariant {A} (R : relation A) (P : A → Prop) x y :
  P x → (∀ a b, P a → R a b → P b) → rtc R x y → P y.
Proof. intros Hx Hstep. induction 1; eauto. Qed.

(** ** Proof automation *)

Create HintDb anolis discriminated.
Create Rewrite HintDb anolis.
#[export] Hint Resolve alookup_aset_eq aset_NoDup : anolis.
#[export] Hint Rewrite @alookup_aset_eq : anolis.
#[export] Hint Rewrite @alookup_aset_ne using done : anolis.

(** Split every [match]/[if] in sight, keep the equations, close by congruence. *)
Ltac split_matches :=
  repeat (simpl in *; simplify_eq; try done; case_match).

(** Turn boolean tests in the context and the goal into propositions. *)
Ltac bool_facts :=
  repeat match goal with
  | H : (_ && _) = true |- _ => apply andb_true_iff in H as [? ?]
  | H : (_ && _) = false |- _ => apply andb_false_iff in H
  | H : (_ || _) = false |- _ => apply orb_false_iff in H as [? ?]
  | H : (_ || _) = true |- _ => apply orb_true_iff in H
  | H : negb _ = true |- _ => apply negb_true_iff in H
  | H : negb _ = false |- _ => apply negb_false_iff in H
  | H : bool_decide _ = true |- _ => apply bool_decide_eq_true in H
  | H : bool_decide _ = false |- _ => apply bool_decide_eq_false in H
  | H : (_ <? _)%Z = true |- _ => apply Z.ltb_lt in H
  | H : (_ <? _)%Z = false |- _ => apply Z.ltb_ge in H
  | H : (_ <=? _)%Z = true |- _ => apply Z.leb_le in H
  | H : (_ <=? _)%Z = false |- _ => apply Z.leb_gt in H
  | H : (_ =? _)%Z = true |- _ => apply Z.eqb_eq in H
  | H : (_ =? _)%Z = false |- _ => apply Z.eqb_neq in H
  end.
