(* ===== verification/Floats.v ===== *)
(** * Exactness of integer-to-double conversion

    Generic facts on [double_of_Z]: an integer of magnitude up to [2^53]
    converts to a double that denotes exactly it, and a double denotes at most
    one integer. *)

From S2P Require Import Prelude.

Lemma digits2_pos_bounds p :
  2 ^ (Z.pos (digits2_pos p) - 1) ≤ Z.pos p < 2 ^ Z.pos (digits2_pos p).
Proof.
  induction p as [p IH|p IH|]; simpl digits2_pos; [| |done];
    rewrite Pos2Z.inj_succ, Z.sub_succ_l; unfold Z.pred in *;
    replace (Z.succ (Z.pos (digits2_pos p) - 1)) with (Z.pos (digits2_pos p)) by lia;
    rewrite (Z.pow_succ_r _ (Z.pos _)) by lia;
    (replace (Z.pos (digits2_pos p)) with (Z.succ (Z.pos (digits2_pos p) - 1)) at 1 by lia);
    rewrite Z.pow_succ_r by lia; lia.
Qed.

Lemma digits2_pos_unique p n : 0 < n → 2 ^ (n - 1) ≤ Z.pos p < 2 ^ n → Z.pos (digits2_pos p) = n.
Proof.
  intros Hn [H1 H2]. destruct (digits2_pos_bounds p) as [B1 B2].
  assert (n - 1 < Z.pos (digits2_pos p)) by (apply (Z.pow_lt_mono_r_iff 2); lia).
  assert (Z.pos (digits2_pos p) - 1 < n) by (apply (Z.pow_lt_mono_r_iff 2); lia).
  lia.
Qed.

Lemma shift_eq d m : Z.pos (Pos.iter xO m d) = Z.pos m * 2 ^ Z.pos d.
Proof.
  induction d as [|d IH] using Pos.peano_ind; [simpl; lia|].
  rewrite Pos.iter_succ, Pos2Z.inj_succ, Z.pow_succ_r, (Pos2Z.inj_xO (Pos.iter _ _ _)), IH by lia. lia.
Qed.

Lemma digits2_shift d m : Z.pos (digits2_pos (Pos.iter xO m d)) = Z.pos (digits2_pos m) + Z.pos d.
Proof.
  destruct (digits2_pos_bounds m) as [B1 B2]. apply digits2_pos_unique; [lia|]. rewrite shift_eq.
  replace (Z.pos (digits2_pos m) + Z.pos d - 1) with ((Z.pos (digits2_pos m) - 1) + Z.pos d) by lia.
  rewrite !Z.pow_add_r by lia. nia.
Qed.

(** A mantissa of exactly 53 digits at a non-positive exponent is not rounded. *)
Lemma round_aux_full s m e :
  Z.pos (digits2_pos m) = 53 → -1074 ≤ e ≤ 0 →
  binary_round_aux 53 1024 s (Z.pos m) e loc_Exact = S754_finite s m e.
Proof.
  intros Hd He.
  assert (shr_fexp 53 1024 (Z.pos m) e loc_Exact = (Build_shr_record (Z.pos m) false false, e)) as Hs.
  { unfold shr_fexp. replace (fexp 53 1024 (Zdigits2 (Z.pos m) + e) - e) with 0; [done|].
    unfold fexp, emin. simpl Zdigits2. rewrite Hd. lia. }
  unfold binary_round_aux. rewrite Hs. simpl round_nearest_even. rewrite Hs. cbn [shr_m].
  by replace (e <=? 1024 - 53) with true by (symmetry; apply Z.leb_le; lia).
Qed.

Lemma double_of_pos_exact s m :
  Z.pos m ≤ 2 ^ 53 →
  double_is (binary_round 53 1024 s m 0) (if s then Z.neg m else Z.pos m).
Proof.
  intros Hm. destruct (decide (Z.pos m = 2 ^ 53)) as [E|Hne].
  { injection E as ->. by destruct s; vm_compute. }
  destruct (digits2_pos_bounds m) as [B1 B2].
  assert (Z.pos (digits2_pos m) ≤ 53) as Hd.
  { assert (Z.pos (digits2_pos m) - 1 < 53); [|lia]. apply (Z.pow_lt_mono_r_iff 2); lia. }
  unfold binary_round, shl_align.
  replace (fexp 53 1024 (Z.pos (digits2_pos m) + 0) - 0) with (Z.pos (digits2_pos m) - 53)
    by (unfold fexp, emin; lia).
  destruct (Z.pos (digits2_pos m) - 53) as [|p|p] eqn:Ep; [|lia|].
  - rewrite round_aux_full by lia. simpl. by destruct s; lia.
  - replace (fexp 53 1024 (Z.pos (digits2_pos m) + 0)) with (Z.neg p) by (unfold fexp, emin; lia).
    rewrite round_aux_full; [|rewrite digits2_shift; lia|lia].
    unfold double_is. rewrite decide_False by lia. change (- Z.neg p) with (Z.pos p).
    pose proof (shift_eq p m). destruct s; lia.
Qed.

Lemma double_of_Z_exact z : - 2 ^ 53 ≤ z ≤ 2 ^ 53 → double_is (double_of_Z z) z.
Proof.
  intros Hz. unfold double_of_Z, binary_normalize. destruct z as [|p|p]; [done|..].
  - apply (double_of_pos_exact false). lia.
  - apply (double_of_pos_exact true). lia.
Qed.

Lemma double_is_fun f z z' : double_is f z → double_is f z' → z = z'.
Proof.
  destruct f as [s| | |s m e]; simpl; [congruence|done..|].
  destruct (decide (0 ≤ e)); [congruence|]. intros -> H.
  apply Z.mul_reg_r in H; [done|]. pose proof (Z.pow_pos_nonneg 2 (- e)). lia.
Qed.
