(* ===== verification/Protocol.v ===== *)
(** * The device-provider protocol's messages

    The protocol's [.proto] file is a package of its own and is not part of
    this repository; the code uses the generated classes.  This file holds the
    messages' data with exactly the fields the code reads, as records and
    inductive types.  proto3 enums are open: each has a constructor for the
    values this code does not name. *)

From S2P Require Import Prelude.

(** [Status_Code]. *)
Inductive StatusCode :=
| CODE_OK | CODE_INVALID_ARGUMENT | CODE_OUT_OF_RANGE | CODE_NOT_FOUND
| CODE_FAILED_PRECONDITION | CODE_UNAVAILABLE | CODE_RESOURCE_EXHAUSTED
| CODE_DEADLINE_EXCEEDED | CODE_INTERNAL
| CODE_OTHER (n : Z).

(** [FunctionPolicy_Category]. *)
Inductive Category :=
| CATEGORY_UNSPECIFIED | CATEGORY_READ | CATEGORY_CONFIG | CATEGORY_ACTUATE
| CATEGORY_OTHER (n : Z).

(** [SignalValue_Quality]. *)
Inductive Quality :=
| QUALITY_UNSPECIFIED | QUALITY_OK | QUALITY_STALE | QUALITY_FAULT | QUALITY_UNKNOWN
| QUALITY_OTHER (n : Z).

(** [ValueType]. *)
Inductive ValueType :=
| VALUE_TYPE_BOOL | VALUE_TYPE_INT64 | VALUE_TYPE_UINT64 | VALUE_TYPE_DOUBLE
| VALUE_TYPE_STRING | VALUE_TYPE_BYTES
| VALUE_TYPE_OTHER (n : Z).

#[global] Instance StatusCode_eq_dec : EqDecision StatusCode.
Proof. solve_decision. Defined.
#[global] Instance Category_eq_dec : EqDecision Category.
Proof. solve_decision. Defined.
#[global] Instance Quality_eq_dec : EqDecision Quality.
Proof. solve_decision. Defined.
#[global] Instance ValueType_eq_dec : EqDecision ValueType.
Proof. solve_decision. Defined.

(** The [kind] oneof of [Value]. *)
Inductive ValueKind :=
| KBool (b : bool)
| KInt64 (z : Z)
| KUint64 (z : Z)
| KDouble (d : double)
| KString (s : string)
| KBytes (s : string)
| KUnset.

#[global] Instance ValueKind_eq_dec : EqDecision ValueKind.
Proof. solve_decision. Defined.

(** [Value]: a declared type and the oneof, which need not agree. *)
Record Value := mkValue { v_type : ValueType; v_kind : ValueKind }.

#[global] Instance Value_eq_dec : EqDecision Value.
Proof. solve_decision. Defined.

Definition has_bool_value (v : Value) : bool :=
  match v_kind v with KBool _ => true | _ => false end.
Definition has_int64_value (v : Value) : bool :=
  match v_kind v with KInt64 _ => true | _ => false end.
Definition has_uint64_value (v : Value) : bool :=
  match v_kind v with KUint64 _ => true | _ => false end.
Definition has_double_value (v : Value) : bool :=
  match v_kind v with KDouble _ => true | _ => false end.
Definition has_string_value (v : Value) : bool :=
  match v_kind v with KString _ => true | _ => false end.
Definition has_bytes_value (v : Value) : bool :=
  match v_kind v with KBytes _ => true | _ => false end.

(** proto3 getters return the type's default when the oneof holds something else. *)
Definition bool_value (v : Value) : bool :=
  match v_kind v with KBool b => b | _ => false end.
Definition int64_value (v : Value) : Z :=
  match v_kind v with KInt64 z => z | _ => 0 end.
Definition uint64_value (v : Value) : Z :=
  match v_kind v with KUint64 z => z | _ => 0 end.
Definition double_value (v : Value) : double :=
  match v_kind v with KDouble d => d | _ => double_zero end.
Definition string_value (v : Value) : string :=
  match v_kind v with KString s => s | _ => "" end.
Definition bytes_value (v : Value) : string :=
  match v_kind v with KBytes s => s | _ => "" end.

(** A [Value] as the wire can carry it: integers within their width. *)
Definition value_wf (v : Value) : Prop :=
  match v_kind v with
  | KInt64 z => in_int64 z
  | KUint64 z => in_uint64 z
  | _ => True
  end.

(** [ArgSpec]; the [has_min_*]/[has_max_*] accessors are the options. *)
Record ArgSpec := mkArgSpec {
  as_name : string;
  as_type : ValueType;
  as_required : bool;
  as_description : string;
  as_unit : string;
  as_min_double : option double;
  as_max_double : option double;
  as_min_int64 : option Z;
  as_max_int64 : option Z;
  as_min_uint64 : option Z;
  as_max_uint64 : option Z;
  as_allowed_values : list string;
}.

(** [FunctionPolicy], [FunctionSpec], [SignalSpec] and [CapabilitySet] as a provider sends them. *)
Record ProtoPolicy := mkProtoPolicy {
  pp_category : Category;
  pp_allowed_modes : list string;
  pp_min_interval_ms : Z;
  pp_requires_lease : bool;
}.

Record ProtoFunction := mkProtoFunction {
  pf_function_id : Z;
  pf_name : string;
  pf_description : string;
  pf_policy : ProtoPolicy;
  pf_args : list ArgSpec;
}.

Record ProtoSignal := mkProtoSignal {
  ps_signal_id : string;
  ps_name : string;
  ps_unit : string;
  ps_description : string;
  ps_value_type : ValueType;
  ps_poll_hint_hz : double;
  ps_stale_after_ms : Z;
}.

Record ProtoCaps := mkProtoCaps {
  pc_signals : list ProtoSignal;
  pc_functions : list ProtoFunction;
}.

(** [Device]: its id, and the descriptor identity it declares.  The tags are a
    protobuf map, in the order it is iterated in. *)
Record ProtoDevice := mkProtoDevice {
  pd_device_id : string;
  pd_label : string;
  pd_type_id : string;
  pd_type_version : string;
  pd_tags : list (string * string);
}.

(** [DeviceHealth], [ProviderHealth] and [GetHealthResponse]. *)
Inductive HealthState :=
| STATE_UNSPECIFIED | STATE_OK | STATE_DEGRADED | STATE_FAULT | STATE_UNREACHABLE
| STATE_OTHER (n : Z).

#[global] Instance HealthState_eq_dec : EqDecision HealthState.
Proof. solve_decision. Defined.

Record DeviceHealth := mkDeviceHealth {
  dh_device_id : string;
  dh_state : HealthState;
  dh_message : string;
  dh_metrics : list (string * string);
  dh_last_seen : option (Z * Z);
}.

Record ProviderHealth := mkProviderHealth {
  phl_state : HealthState;
  phl_message : string;
  phl_metrics : list (string * string);
}.

Record GetHealthResponse := mkGetHealth {
  gh_provider : ProviderHealth;
  gh_devices : list DeviceHealth;
}.

(** One [SignalValue] of a [ReadSignalsResponse]; the timestamp is the proto's
    seconds and nanos, when present. *)
Record SignalValue := mkSignalValue {
  sv_signal_id : string;
  sv_value : Value;
  sv_quality : Quality;
  sv_timestamp : option (Z * Z);
}.
