(* ===== verification/Interfaces.v ===== *)
(** * The interfaces between the control components

    [core/control/i_actuation_latch.hpp] and
    [core/control/i_device_loss_latch.hpp]: the read-only views through which the
    call router consults the two latches.  The router's theorems are proved
    against these classes; the latches declare the instances. *)

From S2P Require Import Prelude.

(** [IActuationLatch]. *)
Class IActuationLatch (L : Type) := {
  is_engaged : L → bool;
  admits_fault_entry_hooks : L → bool;
}.

(** [IDeviceLossLatch]. *)
Class IDeviceLossLatch (D : Type) := {
  loss_is_latched : D → string → bool;
  loss_latched : D → list string;
}.
