(* ===== verification/Json.v ===== *)
(** * JSON documents, as the code uses [nlohmann::json]

    The document type, the accessors the sources call, and the library's parser
    and printer as an interface: the library is not part of the repository. *)

From S2P Require Import Prelude.

(** Objects are [std::map], kept as their entries in key order.  A parsed
    non-negative integer is unsigned, a negative one signed; [JInt] is both. *)
#[warnings="-register-all"]
Inductive json :=
| JNull
| JBool (b : bool)
| JInt (z : Z)
| JFloat (d : double)
| JString (s : string)
| JArray (l : list json)
| JObject (l : list (string * json)).

(** [doc.contains(k)] and [doc[k]] of an object. *)
Definition jget (k : string) (d : json) : option json :=
  match d with JObject l => alookup k l | _ => None end.

Definition is_object (d : json) : bool := match d with JObject _ => true | _ => false end.

(** A flat record: scalar fields under distinct keys in key order, its integers
    within 64 bits. *)
Definition scalar (d : json) : bool :=
  match d with
  | JBool _ | JString _ => true
  | JInt z => (int64_min <=? z) && (z <=? uint64_max)
  | _ => false
  end.

Definition flat_record (d : json) : bool :=
  match d with
  | JObject l => forallb (λ p, scalar p.2) l &&
                 bool_decide (merge_sort str_le (fst <$> l) = fst <$> l) && bool_decide (NoDup (fst <$> l))
  | _ => false
  end.

(** [parse(text, nullptr, false)]: [None] is a discarded value.  [dump()]:
    [None] is the exception it throws on a string that is not UTF-8.  The text
    printed for a flat record parses back to it, white space after it
    notwithstanding. *)
Class JsonText := {
  json_parse : string → option json;
  json_dump : json → option string;
  json_parse_dump : ∀ d s, flat_record d = true → json_dump d = Some s →
    json_parse (s +:+ String "010"%char "") = Some d;
}.

(** ** Documents written one per line *)

(** A document as the library holds one: every object's entries in key order
    under distinct keys, integers within 64 bits, finite numbers. *)
Fixpoint canonical (d : json) : bool :=
  match d with
  | JNull | JBool _ | JString _ => true
  | JInt z => (int64_min <=? z) && (z <=? uint64_max)
  | JFloat d => match d with S754_nan | S754_infinity _ => false | _ => true end
  | JArray l => forallb canonical l
  | JObject l => forallb (λ p, canonical p.2) l &&
                 bool_decide (merge_sort str_le (fst <$> l) = fst <$> l) && bool_decide (NoDup (fst <$> l))
  end.

(** Every string of a document, keys included, is one [dump()] accepts. *)
Fixpoint printable (text_ok : string → bool) (d : json) : bool :=
  match d with
  | JString s => text_ok s
  | JArray l => forallb (printable text_ok) l
  | JObject l => forallb (λ p, text_ok p.1 && printable text_ok p.2) l
  | _ => true
  end.

Fixpoint ascii_text (s : string) : bool :=
  match s with EmptyString => true | String c r => (nat_of_ascii c <? 128)%nat && ascii_text r end.

(** [dump()] and [parse()] of whole documents, [None] for the exception of
    either.  [dump()] throws exactly on a string that is not UTF-8 ([text_ok]);
    what it prints is one line, not empty, that reads back as the document. *)
Class JsonLines := {
  text_ok : string → bool;
  line_parse : string → option json;
  line_dump : json → option string;
  text_ok_ascii : ∀ s, ascii_text s = true → text_ok s = true;
  line_dump_is_Some : ∀ d, is_Some (line_dump d) ↔ printable text_ok d = true;
  line_parse_dump : ∀ d s, canonical d = true → line_dump d = Some s → line_parse s = Some d;
  line_dump_one : ∀ d s, line_dump d = Some s → has_char LF s = false ∧ s ≠ "";
}.

(** [get<T>()] for the library's own integer types ([int64_t], [uint64_t]): of a
    number only.  [wrap] is the conversion to the width, [cast] the one from a
    floating-point number; [None] throws. *)
Definition jnumber (wrap : Z → Z) (cast : double → Z) (d : json) : option Z :=
  match d with JInt z => Some (wrap z) | JFloat x => Some (cast x) | _ => None end.

(** [get<double>()] and [get<bool>()]. *)
Definition jdouble (d : json) : option double :=
  match d with JInt z => Some (double_of_Z z) | JFloat x => Some x | _ => None end.
Definition jbool (d : json) : option bool := match d with JBool b => Some b | _ => None end.

(** [get<T>()] for another integer type ([unsigned long long] is one where
    [uint64_t] is [unsigned long]), which also takes a boolean. *)
Definition jinteger (wrap : Z → Z) (cast : double → Z) (d : json) : option Z :=
  match d with
  | JInt z => Some (wrap z)
  | JBool b => Some (if b then 1 else 0)
  | JFloat x => Some (cast x)
  | _ => None
  end.

Definition jstring (d : json) : option string := match d with JString s => Some s | _ => None end.

(** [j.value(key, default)]: the default for an absent key, the member
    converted otherwise; [None] throws. *)
Definition jvalue {A} (get : json → option A) (key : string) (default : A) (d : json) : option A :=
  match jget key d with None => Some default | Some v => get v end.

(** [j.contains(key) && j[key].is_...()], and the member. *)
Definition jmember {A} (get : json → option A) (key : string) (d : json) : option A := jget key d ≫= get.

Definition sorted_keys (ks : list string) : bool :=
  bool_decide (merge_sort str_le ks = ks) && bool_decide (NoDup ks).

Lemma canonical_object l :
  Forall (λ p, canonical p.2 = true) l → sorted_keys (fst <$> l) = true → canonical (JObject l) = true.
Proof.
  intros Hl Hk. cbn [canonical]. rewrite <- andb_assoc. apply andb_true_iff. split; [|done].
  clear Hk. induction Hl as [|p l Hp _ IH]; [done|]. cbn [forallb]. by rewrite Hp, IH.
Qed.

Lemma canonical_map (m : gmap string json) :
  (∀ k v, m !! k = Some v → canonical v = true) → canonical (JObject (map_items m)) = true.
Proof.
  intros Hm. apply canonical_object.
  - apply Forall_forall. intros [k v] Hin%elem_of_map_items. by apply Hm in Hin.
  - apply andb_true_iff. rewrite !bool_decide_eq_true. split; [apply map_items_sorted|apply map_items_NoDup].
Qed.

Lemma canonical_int z : int64_min ≤ z ≤ uint64_max → canonical (JInt z) = true.
Proof. intros. simpl. apply andb_true_iff. split; apply Z.leb_le; lia. Qed.

(** ** The interface can be met

    A codec that prints a document as the bits of its number in an enumeration
    of all documents. *)

Section JsonInd.
Context (P : json → Prop) (Hnull : P JNull) (Hbool : ∀ b, P (JBool b)) (Hint : ∀ z, P (JInt z))
  (Hfloat : ∀ d, P (JFloat d)) (Hstring : ∀ s, P (JString s))
  (Harray : ∀ l, Forall P l → P (JArray l)) (Hobject : ∀ l, Forall (λ p, P p.2) l → P (JObject l)).

Fixpoint json_nested_ind (d : json) : P d :=
  match d with
  | JNull => Hnull
  | JBool b => Hbool b
  | JInt z => Hint z
  | JFloat x => Hfloat x
  | JString s => Hstring s
  | JArray l =>
      Harray l ((fix go (l : list json) : Forall P l :=
        match l with [] => Forall_nil_2 P | x :: r => Forall_cons_2 P x r (json_nested_ind x) (go r) end) l)
  | JObject l =>
      Hobject l ((fix go (l : list (string * json)) : Forall (λ p, P p.2) l :=
        match l with
        | [] => Forall_nil_2 _
        | p :: r => Forall_cons_2 (λ p, P p.2) p r (json_nested_ind p.2) (go r)
        end) l)
  end.
End JsonInd.

#[global] Instance spec_float_countable : Countable spec_float.
Proof.
  refine (inj_countable' (λ d, match d with
    | S754_zero b => inl (inl b) | S754_infinity b => inl (inr b) | S754_nan => inr (inl tt)
    | S754_finite b m e => inr (inr (b, m, e)) end)
    (λ x, match x with
    | inl (inl b) => S754_zero b | inl (inr b) => S754_infinity b | inr (inl _) => S754_nan
    | inr (inr (b, m, e)) => S754_finite b m e end) _).
  by intros [].
Defined.

Abbreviation json_leaf := ((bool + Z) + (spec_float + string))%type.

Fixpoint to_tree (d : json) : gen_tree json_leaf :=
  match d with
  | JNull => GenNode 0 []
  | JBool b => GenLeaf (inl (inl b))
  | JInt z => GenLeaf (inl (inr z))
  | JFloat x => GenLeaf (inr (inl x))
  | JString s => GenLeaf (inr (inr s))
  | JArray l => GenNode 1 (to_tree <$> l)
  | JObject l => GenNode 2 ((λ p, GenNode 3 [GenLeaf (inr (inr p.1)); to_tree p.2]) <$> l)
  end.

Fixpoint of_tree (t : gen_tree json_leaf) : json :=
  match t with
  | GenLeaf (inl (inl b)) => JBool b
  | GenLeaf (inl (inr z)) => JInt z
  | GenLeaf (inr (inl x)) => JFloat x
  | GenLeaf (inr (inr s)) => JString s
  | GenNode 1 l => JArray (of_tree <$> l)
  | GenNode 2 l =>
      JObject ((λ t, match t with GenNode _ [GenLeaf (inr (inr k)); v] => (k, of_tree v) | _ => ("", JNull) end) <$> l)
  | _ => JNull
  end.

Lemma of_to_tree d : of_tree (to_tree d) = d.
Proof.
  induction d as [| | | | |l Hl|l Hl] using json_nested_ind; try done; simpl; f_equal.
  - induction Hl as [|x l Hx _ IH]; [done|]. simpl. by f_equal.
  - induction Hl as [|[k v] l Hx _ IH]; [done|]. simpl in *. rewrite Hx. f_equal. exact IH.
Qed.

(** The bits of a positive number, lowest first, as text. *)
Fixpoint bits_text (p : positive) : string :=
  match p with xH => "1" | xO p => String "a" (bits_text p) | xI p => String "b" (bits_text p) end.

Fixpoint text_bits (s : string) : option positive :=
  match s with
  | EmptyString => None
  | String c r =>
      if Ascii.eqb c "1" then Some xH
      else if Ascii.eqb c "a" then xO <$> text_bits r
      else xI <$> text_bits r
  end.

Lemma text_bits_text p : text_bits (bits_text p) = Some p.
Proof. induction p as [p IH|p IH|]; simpl; [by rewrite IH..|done]. Qed.

Lemma text_bits_app p s : text_bits (bits_text p +:+ s) = Some p.
Proof. induction p as [p IH|p IH|]; simpl; rewrite ?string_app_cons; simpl; by rewrite ?IH. Qed.

Lemma bits_text_line p : has_char LF (bits_text p) = false ∧ bits_text p ≠ "".
Proof. induction p as [p [IH _]|p [IH _]|]; simpl; by rewrite ?IH. Qed.

Lemma printable_all d : printable (λ _, true) d = true.
Proof.
  induction d as [| | | | |l Hl|l Hl] using json_nested_ind; try done; simpl.
  - induction Hl as [|x l Hx _ IH]; [done|]. cbn [forallb]. by rewrite Hx, IH.
  - induction Hl as [|x l Hx _ IH]; [done|]. cbn [forallb]. by rewrite Hx, IH.
Qed.

Definition bit_codec : JsonLines.
Proof.
  refine {| text_ok := λ _, true;
            line_dump d := Some (bits_text (encode (to_tree d)));
            line_parse s := p ← text_bits s; of_tree <$> decode p |}; try done.
  - intros d. rewrite printable_all. by split.
  - intros d s _ [= <-]. rewrite text_bits_text. simpl. rewrite decode_encode. simpl. by rewrite of_to_tree.
  - intros d s [= <-]. apply bits_text_line.
Defined.

(** A printer of single documents that never throws. *)
Definition bit_text : JsonText.
Proof.
  refine {| json_parse s := p ← text_bits s; of_tree <$> decode p;
            json_dump d := Some (bits_text (encode (to_tree d))) |}.
  intros d s _ [= <-]. rewrite text_bits_app. simpl. rewrite decode_encode. simpl. by rewrite of_to_tree.
Defined.

(** The same, refusing what is not ASCII. *)
Definition ascii_codec : JsonLines.
Proof.
  refine {| text_ok := ascii_text;
            line_dump d := if printable ascii_text d then Some (bits_text (encode (to_tree d))) else None;
            line_parse s := p ← text_bits s; of_tree <$> decode p |}; try done.
  - intros d. destruct (printable ascii_text d); by split.
  - intros d s _. destruct (printable ascii_text d); [|done]. intros [= <-].
    rewrite text_bits_text. simpl. rewrite decode_encode. simpl. by rewrite of_to_tree.
  - intros d s. destruct (printable ascii_text d); [|done]. intros [= <-]. apply bits_text_line.
Defined.
