(* ===== verification/ModeManager.v ===== *)
(** * The runtime mode state machine ([core/automation/mode_manager.cpp])

    The callbacks of a [ModeManager] run with no lock held and may do anything
    to the rest of the runtime, including (through another thread) committing
    another mode.  The state is therefore the current mode together with the
    rest of the runtime, [world], and a callback is a function on that pair.
    A commit guard runs under the mode lock and only reads. *)

From S2P Require Import Prelude.

(** [enum class RuntimeMode]. *)
Inductive RuntimeMode := MANUAL | AUTO | IDLE | FAULT.

#[global] Instance RuntimeMode_eq_dec : EqDecision RuntimeMode.
Proof. solve_decision. Defined.

Definition mode_to_string (mode : RuntimeMode) : string :=
  match mode with
  | MANUAL => "MANUAL"
  | AUTO => "AUTO"
  | IDLE => "IDLE"
  | FAULT => "FAULT"
  end.

Definition string_to_mode (str : string) : option RuntimeMode :=
  if decide (str = "MANUAL") then Some MANUAL
  else if decide (str = "AUTO") then Some AUTO
  else if decide (str = "IDLE") then Some IDLE
  else if decide (str = "FAULT") then Some FAULT
  else None.

Definition is_valid_transition (from to : RuntimeMode) : bool :=
  if decide (from = to) then true
  else if decide (to = FAULT) then true
  else if decide (from = FAULT) then bool_decide (to = MANUAL)
  else if decide (from = MANUAL) then bool_decide (to = AUTO) || bool_decide (to = IDLE)
  else if bool_decide (from = AUTO) || bool_decide (from = IDLE) then bool_decide (to = MANUAL)
  else false.

(** What a callback or guard does: return true, return false with an error, throw. *)
Inductive Verdict :=
| Allow
| Reject (error : string)
| Throw (what : string).

Section ModeManager.
Context {W : Type}.

Record MM := mkMM { current_mode_ : RuntimeMode; world : W }.

Definition BeforeModeChangeCallback := RuntimeMode → RuntimeMode → MM → Verdict * MM.
Definition CommitGuard := RuntimeMode → RuntimeMode → W → Verdict.
Definition ModeChangeCallback := RuntimeMode → RuntimeMode → MM → option string * MM.

(** The registered callbacks, in registration order. *)
Record Callbacks := mkCallbacks {
  before_callbacks_ : list BeforeModeChangeCallback;
  commit_guards_ : list CommitGuard;
  callbacks_ : list ModeChangeCallback;
}.

Definition on_before_mode_change (cb : BeforeModeChangeCallback) (cbs : Callbacks) : Callbacks :=
  mkCallbacks (before_callbacks_ cbs ++ [cb]) (commit_guards_ cbs) (callbacks_ cbs).
Definition add_commit_guard (g : CommitGuard) (cbs : Callbacks) : Callbacks :=
  mkCallbacks (before_callbacks_ cbs) (commit_guards_ cbs ++ [g]) (callbacks_ cbs).
Definition on_mode_change (cb : ModeChangeCallback) (cbs : Callbacks) : Callbacks :=
  mkCallbacks (before_callbacks_ cbs) (commit_guards_ cbs) (callbacks_ cbs ++ [cb]).

Definition invalid_transition (from to : RuntimeMode) : string :=
  "Invalid mode transition: " +:+ mode_to_string from +:+ " -> " +:+ mode_to_string to.

(** The before-callback loop: an error, or the state after all of them. *)
Fixpoint run_before (cbs : list BeforeModeChangeCallback) (previous_mode new_mode : RuntimeMode)
    (m : MM) : option string * MM :=
  match cbs with
  | [] => (None, m)
  | cb :: rest =>
      let '(v, m') := cb previous_mode new_mode m in
      match v with
      | Allow => run_before rest previous_mode new_mode m'
      | Reject callback_error =>
          if decide (new_mode = FAULT) then run_before rest previous_mode new_mode m'
          else (Some (if decide (callback_error = "")
                      then "Mode transition rejected by before-mode callback"
                      else callback_error), m')
      | Throw what =>
          if decide (new_mode = FAULT) then run_before rest previous_mode new_mode m'
          else (Some ("Before mode change callback error: " +:+ what), m')
      end
  end.

(** The commit-guard loop, under the mode lock. *)
Fixpoint check_guards (gs : list CommitGuard) (previous_mode new_mode : RuntimeMode) (w : W)
    : option string :=
  match gs with
  | [] => None
  | g :: rest =>
      match g previous_mode new_mode w with
      | Allow => check_guards rest previous_mode new_mode w
      | Reject guard_error =>
          Some (if decide (guard_error = "") then "Mode transition rejected at commit" else guard_error)
      | Throw what => Some ("Mode commit guard error: " +:+ what)
      end
  end.

(** The second critical section of [set_mode]: what it decides and writes. *)
Inductive CommitOutcome :=
| Committed (previous_mode : RuntimeMode)
| AlreadyFault
| Refused (error : string).

Definition commit_from (gs : list CommitGuard) (previous_mode new_mode : RuntimeMode) (m : MM)
    : CommitOutcome * MM :=
  if negb (is_valid_transition (current_mode_ m) new_mode) then
    (Refused (invalid_transition (current_mode_ m) new_mode), m)
  else
    match (if decide (new_mode = FAULT) then None
           else check_guards gs previous_mode new_mode (world m)) with
    | Some error => (Refused error, m)
    | None => (Committed previous_mode, mkMM new_mode (world m))
    end.

Definition commit_mode (gs : list CommitGuard) (previous_mode new_mode : RuntimeMode) (m : MM)
    : CommitOutcome * MM :=
  if decide (current_mode_ m = previous_mode) then commit_from gs previous_mode new_mode m
  else if decide (new_mode = FAULT) then
    if decide (current_mode_ m = FAULT) then (AlreadyFault, m)
    else commit_from gs (current_mode_ m) new_mode m
  else (Refused "Concurrent mode change detected while processing transition callbacks", m).

(** Change notifications; an exception is logged and the loop goes on. *)
Fixpoint run_after (cbs : list ModeChangeCallback) (previous_mode new_mode : RuntimeMode) (m : MM)
    : MM :=
  match cbs with
  | [] => m
  | cb :: rest => run_after rest previous_mode new_mode (snd (cb previous_mode new_mode m))
  end.

Definition set_mode (cbs : Callbacks) (new_mode : RuntimeMode) (m : MM) : result unit * MM :=
  if decide (current_mode_ m = new_mode) then (Ok tt, m)
  else if negb (is_valid_transition (current_mode_ m) new_mode) then
    (Err (invalid_transition (current_mode_ m) new_mode), m)
  else
    let previous_mode := current_mode_ m in
    match run_before (before_callbacks_ cbs) previous_mode new_mode m with
    | (Some error, m1) => (Err error, m1)
    | (None, m1) =>
        match commit_mode (commit_guards_ cbs) previous_mode new_mode m1 with
        | (Refused error, m2) => (Err error, m2)
        | (AlreadyFault, m2) => (Ok tt, m2)
        | (Committed prev, m2) => (Ok tt, run_after (callbacks_ cbs) prev new_mode m2)
        end
    end.

Definition current_mode (m : MM) : RuntimeMode := current_mode_ m.
Definition is_idle (m : MM) : bool := bool_decide (current_mode_ m = IDLE).

(** A callback list that leaves the mode to the transition that runs it. *)
Definition before_keeps_mode (cbs : list BeforeModeChangeCallback) : Prop :=
  Forall (λ cb : BeforeModeChangeCallback,
    ∀ p n m, current_mode_ (snd (cb p n m)) = current_mode_ m) cbs.
Definition after_keeps_mode (cbs : list ModeChangeCallback) : Prop :=
  Forall (λ cb : ModeChangeCallback,
    ∀ p n m, current_mode_ (snd (cb p n m)) = current_mode_ m) cbs.

(** ** Lemmas *)

Lemma run_before_FAULT cbs p m : fst (run_before cbs p FAULT m) = None.
Proof.
  revert m. induction cbs as [|cb cbs IH]; intros m; simpl; [done|].
  destruct (cb p FAULT m) as [[] m']; simpl; eauto.
Qed.

Lemma run_before_mode cbs p n m :
  before_keeps_mode cbs → current_mode_ (snd (run_before cbs p n m)) = current_mode_ m.
Proof.
  intros Hk. revert m. induction Hk as [|cb cbs Hcb _ IH]; intros m; simpl; [done|].
  specialize (Hcb p n m). destruct (cb p n m) as [[] m']; simpl in *; repeat case_decide; simpl;
    try rewrite IH; done.
Qed.

Lemma run_after_mode cbs p n m :
  after_keeps_mode cbs → current_mode_ (run_after cbs p n m) = current_mode_ m.
Proof.
  intros Hk. revert m. induction Hk as [|cb cbs Hcb _ IH]; intros m; simpl; [done|].
  by rewrite IH, Hcb.
Qed.

Lemma check_guards_None gs p n w :
  check_guards gs p n w = None ↔ Forall (λ g : CommitGuard, g p n w = Allow) gs.
Proof.
  induction gs as [|g gs IH]; simpl; [by split; auto|].
  rewrite Forall_cons, <- IH. destruct (g p n w); naive_solver.
Qed.

Lemma valid_transition_FAULT from : is_valid_transition from FAULT = true.
Proof. by destruct from. Qed.

Lemma commit_from_FAULT gs p m :
  commit_from gs p FAULT m = (Committed p, mkMM FAULT (world m)).
Proof. unfold commit_from. by rewrite valid_transition_FAULT. Qed.

Lemma commit_from_Committed gs p n m q m' :
  commit_from gs p n m = (Committed q, m') →
  q = p ∧ m' = mkMM n (world m) ∧ is_valid_transition (current_mode_ m) n = true ∧
  (n ≠ FAULT → Forall (λ g : CommitGuard, g p n (world m) = Allow) gs).
Proof.
  unfold commit_from. destruct (is_valid_transition _ _) eqn:Hv; simpl; [|done].
  case_decide; [by intros; simplify_eq|].
  destruct (check_guards _ _ _ _) eqn:Hg; [done|]. intros. simplify_eq.
  split_and!; [done..|]. intros _. by apply check_guards_None.
Qed.

(** A commit writes exactly the requested mode, from the mode then current,
    over a valid transition, and for a non-FAULT mode past every guard. *)
Lemma commit_mode_Committed gs p n m q m' :
  commit_mode gs p n m = (Committed q, m') →
  q = current_mode_ m ∧ m' = mkMM n (world m) ∧
  is_valid_transition (current_mode_ m) n = true ∧
  (n ≠ FAULT → q = p ∧ Forall (λ g : CommitGuard, g p n (world m) = Allow) gs).
Proof.
  unfold commit_mode. case_decide as H1.
  - intros Hc. apply commit_from_Committed in Hc as (-> & -> & ? & ?). naive_solver.
  - case_decide as H2; [|done]. case_decide; [done|]. subst.
    intros Hc. apply commit_from_Committed in Hc as (-> & -> & ? & ?). naive_solver.
Qed.

Lemma commit_mode_Refused gs p n m e m' :
  commit_mode gs p n m = (Refused e, m') → m' = m.
Proof.
  unfold commit_mode, commit_from. repeat case_decide; simpl; intros; split_matches.
Qed.

Lemma commit_mode_FAULT gs p m :
  ∃ o m', commit_mode gs p FAULT m = (o, m') ∧ current_mode_ m' = FAULT ∧
          (o = AlreadyFault ∨ o = Committed (current_mode_ m)).
Proof.
  unfold commit_mode. rewrite !commit_from_FAULT.
  destruct (decide (current_mode_ m = p)) as [<-|].
  { eexists _, _. split_and!; [done..|by right]. }
  simpl. destruct (decide (current_mode_ m = FAULT)) as [E|].
  { eexists _, _. split_and!; [done..|by left]. }
  eexists _, _. split_and!; [done..|by right].
Qed.
End ModeManager.
Arguments MM : clear implicits.
Arguments Callbacks : clear implicits.

(** A sequence of mode requests and the modes they leave behind. *)
Fixpoint run_requests {W} (cbs : Callbacks W) (reqs : list RuntimeMode) (m : MM W)
    : list RuntimeMode * MM W :=
  match reqs with
  | [] => ([], m)
  | r :: rest =>
      let m1 := snd (set_mode cbs r m) in
      let '(h, m2) := run_requests cbs rest m1 in
      (current_mode_ m1 :: h, m2)
  end.

(** One request moves the mode at most along one valid transition, to the
    requested mode, when the callbacks leave the mode alone. *)
Lemma set_mode_step {W} (cbs : Callbacks W) n m :
  before_keeps_mode (before_callbacks_ cbs) → after_keeps_mode (callbacks_ cbs) →
  let m' := snd (set_mode cbs n m) in
  current_mode_ m' = current_mode_ m ∨
  (current_mode_ m' = n ∧ is_valid_transition (current_mode_ m) n = true).
Proof.
  intros Hb Ha. unfold set_mode. case_decide; [by left|].
  destruct (is_valid_transition _ _) eqn:Hv; simpl; [|by left].
  pose proof (run_before_mode _ (current_mode_ m) n m Hb) as Hm1.
  destruct (run_before _ _ _ _) as [[e|] m1]; simpl in *; [by left|].
  destruct (commit_mode _ _ _ _) as [[q| |e] m2] eqn:Hc; simpl.
  - right. apply commit_mode_Committed in Hc as (_ & -> & ? & _).
    by rewrite run_after_mode.
  - left. rewrite <- Hm1. revert Hc. unfold commit_mode, commit_from.
    intros. split_matches.
  - apply commit_mode_Refused in Hc as ->. by left.
Qed.

Lemma set_mode_FAULT {W} (cbs : Callbacks W) (m : MM W) :
  after_keeps_mode (callbacks_ cbs) →
  ∃ m', set_mode cbs FAULT m = (Ok tt, m') ∧ current_mode_ m' = FAULT.
Proof.
  intros Ha. unfold set_mode. case_decide; [by eexists|].
  rewrite valid_transition_FAULT. simpl.
  pose proof (run_before_FAULT (before_callbacks_ cbs) (current_mode_ m) m) as Hb.
  destruct (run_before _ _ _ _) as [e m1]. simpl in Hb. subst e.
  destruct (commit_mode_FAULT (commit_guards_ cbs) (current_mode_ m) m1)
    as (o & m2 & -> & Hm2 & [->| ->]); eexists; (split; [done|]); [done|].
  by rewrite run_after_mode.
Qed.

Lemma set_mode_commits {W} (cbs : Callbacks W) (n : RuntimeMode) (m m' : MM W) :
  n ≠ FAULT → current_mode_ m ≠ n → set_mode cbs n m = (Ok tt, m') →
  ∃ mb, run_before (before_callbacks_ cbs) (current_mode_ m) n m = (None, mb) ∧
        current_mode_ mb = current_mode_ m ∧
        is_valid_transition (current_mode_ m) n = true ∧
        Forall (λ g : CommitGuard, g (current_mode_ m) n (world mb) = Allow) (commit_guards_ cbs) ∧
        m' = run_after (callbacks_ cbs) (current_mode_ m) n (mkMM n (world mb)).
Proof.
  intros Hn Hne. unfold set_mode. rewrite decide_False by done.
  destruct (is_valid_transition _ _) eqn:Hv; simpl; [|done].
  destruct (run_before _ _ _ _) as [[e|] mb] eqn:Hb; [done|].
  destruct (commit_mode _ _ _ _) as [[q| |e] m2] eqn:Hc; intros H; simplify_eq.
  - apply commit_mode_Committed in Hc as (Hq & -> & _ & Hg). destruct (Hg Hn) as [-> Hall].
    by exists mb.
  - revert Hc. unfold commit_mode, commit_from. intros. split_matches.
Qed.

(** Callbacks that keep a property of the world. *)
Definition callbacks_keep {W} (P : W → Prop) (cbs : Callbacks W) : Prop :=
  Forall (λ cb : BeforeModeChangeCallback, ∀ p n m, P (world m) → P (world (snd (cb p n m))))
    (before_callbacks_ cbs) ∧
  Forall (λ cb : ModeChangeCallback, ∀ p n m, P (world m) → P (world (snd (cb p n m)))) (callbacks_ cbs).

Lemma run_before_keeps {W} (P : W → Prop) (l : list BeforeModeChangeCallback) p n (m : MM W) :
  Forall (λ cb : BeforeModeChangeCallback, ∀ p n m, P (world m) → P (world (snd (cb p n m)))) l →
  P (world m) → P (world (snd (run_before l p n m))).
Proof.
  intros Hl. revert m. induction Hl as [|cb l Hcb _ IH]; intros m Hm; simpl; [done|].
  specialize (Hcb p n m Hm). destruct (cb p n m) as [[] m']; simpl in *; repeat case_decide; simpl; auto.
Qed.

Lemma run_after_keeps {W} (P : W → Prop) (l : list ModeChangeCallback) p n (m : MM W) :
  Forall (λ cb : ModeChangeCallback, ∀ p n m, P (world m) → P (world (snd (cb p n m)))) l →
  P (world m) → P (world (run_after l p n m)).
Proof. intros Hl. revert m. induction Hl as [|cb l Hcb _ IH]; intros m Hm; simpl; auto. Qed.

Lemma set_mode_keeps {W} (P : W → Prop) (cbs : Callbacks W) n m :
  callbacks_keep P cbs → P (world m) → P (world (snd (set_mode cbs n m))).
Proof.
  intros [Hb Ha] Hm. unfold set_mode. case_decide; [done|]. destruct (negb _); [done|].
  pose proof (run_before_keeps P _ (current_mode_ m) n m Hb Hm) as H1.
  destruct (run_before _ _ _ _) as [[e|] m1]; simpl in *; [done|].
  assert (world (snd (commit_mode (commit_guards_ cbs) (current_mode_ m) n m1)) = world m1) as H2.
  { unfold commit_mode, commit_from. by repeat case_match. }
  destruct (commit_mode _ _ _ _) as [[q| |e] m2]; simpl in *; try (by rewrite H2).
  apply run_after_keeps; [done|]. by rewrite H2.
Qed.

(** The two ways a request ends: without a commit, or with one followed by the
    change notifications. *)
Lemma set_mode_cases {W} (cbs : Callbacks W) n m :
  let '(r, m') := set_mode cbs n m in
  (world m' = world m ∨ ∃ e mb, run_before (before_callbacks_ cbs) (current_mode_ m) n m = (e, mb) ∧
                          world m' = world mb) ∧ (r = Ok tt → current_mode_ m = n ∨ n = FAULT) ∨
  ∃ mb q, run_before (before_callbacks_ cbs) (current_mode_ m) n m = (None, mb) ∧ r = Ok tt ∧
          (n ≠ FAULT → q = current_mode_ m) ∧ m' = run_after (callbacks_ cbs) q n (mkMM n (world mb)).
Proof.
  unfold set_mode. case_decide; [by left; eauto|]. destruct (negb _); [left; split; [by left|done]|].
  destruct (run_before _ _ _ _) as [[e|] mb] eqn:Eb; [left; split; [right; by eauto|done]|].
  destruct (commit_mode _ _ _ _) as [[q| |e] m2] eqn:Ec.
  - apply commit_mode_Committed in Ec as (_ & -> & _ & Hg). right. exists mb, q.
    split_and!; [done..| |done]. intros Hn. by destruct (Hg Hn).
  - left. revert Ec. unfold commit_mode, commit_from. repeat case_match; try done. intros [= <-].
    split; [right; by eauto|by right].
  - apply commit_mode_Refused in Ec as ->. left. split; [right; by eauto|done].
Qed.

(** The two outcomes of a request when the callbacks leave the mode alone: nothing
    committed, or a commit past every guard in the state it is written into. *)
Lemma set_mode_kept {W} (cbs : Callbacks W) n m :
  before_keeps_mode (before_callbacks_ cbs) → after_keeps_mode (callbacks_ cbs) →
  let '(r, m') := set_mode cbs n m in
  current_mode_ m' = current_mode_ m ∧
    (m' = m ∨ ∃ e, run_before (before_callbacks_ cbs) (current_mode_ m) n m = (e, m')) ∨
  current_mode_ m ≠ n ∧ current_mode_ m' = n ∧ r = Ok tt ∧
    ∃ mb, run_before (before_callbacks_ cbs) (current_mode_ m) n m = (None, mb) ∧
      (n ≠ FAULT → Forall (λ g : CommitGuard, g (current_mode_ m) n (world mb) = Allow) (commit_guards_ cbs)) ∧
      m' = run_after (callbacks_ cbs) (current_mode_ m) n (mkMM n (world mb)).
Proof.
  intros Hb Ha. unfold set_mode. case_decide as Hne; [by left; auto|]. destruct (negb _); [by left; auto|].
  pose proof (run_before_mode _ (current_mode_ m) n m Hb) as Hm.
  destruct (run_before _ _ _ _) as [[e|] mb]; simpl in Hm; [left; split; [done|right; by eexists]|].
  destruct (commit_mode _ _ _ _) as [[q| |e] m2] eqn:Ec.
  - apply commit_mode_Committed in Ec as (Hq & -> & _ & Hg). rewrite Hm in Hq. subst q. right.
    split; [done|]. split; [by rewrite run_after_mode|]. split; [done|]. exists mb. split_and!; [done| |done].
    intros Hn. by apply Hg.
  - left. revert Ec. unfold commit_mode, commit_from. rewrite Hm, decide_True by done. by repeat case_match.
  - apply commit_mode_Refused in Ec as ->. left. split; [done|right; by eexists].
Qed.

(** C10. A request for FAULT always succeeds and leaves the runtime in FAULT,
    whatever the before-callbacks do: they may reject, throw, or let another
    transition commit first, and the commit guards are not consulted. *)
Theorem set_mode_fault_always {W} (cbs : Callbacks W) (m : MM W) :
  after_keeps_mode (callbacks_ cbs) →
  ∃ m', set_mode cbs FAULT m = (Ok tt, m') ∧ current_mode_ m' = FAULT.
Proof. apply set_mode_FAULT. Qed.

(** Callbacks that reject, throw, and let AUTO commit concurrently. *)
Definition hostile_callbacks : Callbacks nat :=
  mkCallbacks
    [(λ _ _ m, (Reject "", m)); (λ _ _ m, (Throw "boom", m));
     (λ _ _ m, (Allow, mkMM AUTO (S (world m))))]
    [(λ _ _ _, Reject "no")]
    [(λ _ _ m, (Some "listener threw", m))].

Example set_mode_fault_always_witness :
  after_keeps_mode (callbacks_ hostile_callbacks) ∧
  ∃ m', set_mode hostile_callbacks FAULT (mkMM MANUAL 0%nat) = (Ok tt, m') ∧
        current_mode_ m' = FAULT.
Proof.
  assert (H : after_keeps_mode (callbacks_ hostile_callbacks)) by (repeat constructor).
  split; [exact H|]. exact (set_mode_fault_always hostile_callbacks (mkMM MANUAL 0%nat) H).
Defined.



(** A refused request writes no mode: it is never a request for FAULT, and
    the state it leaves is the one it started in or the one its own
    before-callbacks left. *)
Theorem set_mode_refused_no_write {W} (cbs : Callbacks W) (n : RuntimeMode) (m m' : MM W) e :
  set_mode cbs n m = (Err e, m') →
  n ≠ FAULT ∧
  (m' = m ∨ m' = snd (run_before (before_callbacks_ cbs) (current_mode_ m) n m)).
Proof.
  unfold set_mode. case_decide; [done|].
  destruct (is_valid_transition _ _) eqn:Hv; simpl.
  - destruct (run_before _ _ _ _) as [[e'|] mb] eqn:Hb; simpl.
    + intros; simplify_eq. split; [|by right]. intros ->.
      pose proof (run_before_FAULT (before_callbacks_ cbs) (current_mode_ m) m). by rewrite Hb in *.
    + destruct (commit_mode _ _ _ _) as [[q| |e'] m2] eqn:Hc; intros; simplify_eq.
      split; [|right; by apply commit_mode_Refused in Hc].
      intros ->. destruct (commit_mode_FAULT (commit_guards_ cbs) (current_mode_ m) mb)
        as (o & ? & Ho & _ & [->| ->]); congruence.
  - intros; simplify_eq. split; [|by left]. intros ->. by rewrite valid_transition_FAULT in Hv.
Qed.

Example set_mode_refused_no_write_witness :
  AUTO ≠ FAULT ∧
  (mkMM FAULT 7%nat = mkMM FAULT 7%nat ∨
   mkMM FAULT 7%nat = snd (run_before [] FAULT AUTO (mkMM FAULT 7%nat))).
Proof.
  apply (set_mode_refused_no_write (mkCallbacks [] [] []) AUTO (mkMM FAULT 7%nat)
           (mkMM FAULT 7%nat) "Invalid mode transition: FAULT -> AUTO"). reflexivity.
Defined.

(** From FAULT (or from the startup mode IDLE) the runtime reaches AUTO only
    through MANUAL: any sequence of mode requests that ends in AUTO left the
    runtime in MANUAL in between. *)
Theorem auto_only_through_manual {W} (cbs : Callbacks W) (reqs : list RuntimeMode) (m : MM W) :
  before_keeps_mode (before_callbacks_ cbs) → after_keeps_mode (callbacks_ cbs) →
  current_mode_ m = FAULT ∨ current_mode_ m = IDLE →
  current_mode_ (snd (run_requests cbs reqs m)) = AUTO →
  MANUAL ∈ fst (run_requests cbs reqs m).
Proof.
  intros Hb Ha. revert m. induction reqs as [|r reqs IH]; intros m Hm; simpl.
  { intros E. rewrite E in Hm. naive_solver. }
  pose proof (set_mode_step cbs r m Hb Ha) as Hstep. simpl in Hstep.
  specialize (IH (snd (set_mode cbs r m))).
  destruct (run_requests _ _ _) as [h m2]; simpl in *. intros E. apply elem_of_cons.
  destruct Hstep as [Hs|[Hs Hv]]; rewrite Hs in *; [right; auto|].
  destruct r; [by left|destruct Hm as [Hm|Hm]; by rewrite Hm in Hv|right; auto..].
Qed.

Example auto_only_through_manual_witness :
  MANUAL ∈ fst (run_requests (mkCallbacks [] [] []) [AUTO; MANUAL; AUTO] (mkMM FAULT tt)).
Proof.
  apply (auto_only_through_manual (mkCallbacks [] [] []) [AUTO; MANUAL; AUTO] (mkMM FAULT tt));
    [constructor|constructor|by left|reflexivity].
Defined.

(** Mode names parse back to the mode they print, and nothing else parses. *)
Theorem mode_string_roundtrip (s : string) (md : RuntimeMode) :
  string_to_mode s = Some md ↔ s = mode_to_string md.
Proof.
  unfold string_to_mode. split.
  - repeat case_decide; intros; by simplify_eq.
  - intros ->. by destruct md.
Qed.
