(* ===== verification/Registry.v ===== *)
(** * The device registry ([core/registry/device_registry.cpp])

    The published inventory: the devices in discovery order and an index from
    handle to position.  Discovery talks to a provider without touching the
    inventory; [commit_provider_devices] publishes the result. *)

From S2P Require Import Prelude Protocol.

(** Flattened signal metadata ([struct SignalSpec]). *)
Record SignalSpec := mkSignalSpec {
  ss_signal_id : string;
  ss_label : string;
  ss_unit : string;
  ss_description : string;
  ss_type : ValueType;
  ss_readable : bool;
  ss_writable : bool;
  ss_is_default : bool;
  ss_stale_after_ms : Z;
  ss_poll_hint_hz : double;
}.

(** Flattened function metadata ([struct FunctionSpec]). *)
Record FunctionSpec := mkFunctionSpec {
  fs_function_id : Z;
  fs_function_name : string;
  fs_label : string;
  fs_args : list ArgSpec;
  fs_category : Category;
  fs_allowed_modes : list string;
  fs_min_interval_ms : Z;
  fs_requires_lease : bool;
}.

(** The lookup maps are iterated by callers, so they keep an iteration order. *)
Record DeviceCapabilitySet := mkCaps {
  proto : ProtoDevice;
  signals_by_id : list (string * SignalSpec);
  functions_by_id : list (string * FunctionSpec);
}.

Record RegisteredDevice := mkDevice {
  provider_id : string;
  device_id : string;
  capabilities : DeviceCapabilitySet;
}.

Definition make_handle (provider device : string) : string := provider +:+ "/" +:+ device.

Definition get_handle (d : RegisteredDevice) : string := make_handle (provider_id d) (device_id d).

(** Fail closed: only an explicit CATEGORY_READ is treated as non-actuating. *)
Definition is_actuating (spec : FunctionSpec) : bool :=
  negb (bool_decide (fs_category spec = CATEGORY_READ)).

Record DeviceRegistry := mkRegistry {
  devices_ : list RegisteredDevice;
  handle_to_index_ : gmap string nat;
  error_ : string;
}.

Definition empty_registry : DeviceRegistry := mkRegistry [] ∅ "".

(** The discovery half of [IProviderHandle]: what ListDevices and DescribeDevice
    answer, [Err] carrying the handle's [last_error()]. *)
Record DiscoveryHandle := mkDiscoveryHandle {
  list_devices : result (list ProtoDevice);
  describe_device : string → result (ProtoDevice * ProtoCaps);
}.

Definition build_signal (signal : ProtoSignal) : SignalSpec :=
  mkSignalSpec (ps_signal_id signal) (ps_name signal) (ps_unit signal) (ps_description signal)
    (ps_value_type signal) true false (SFltb double_zero (ps_poll_hint_hz signal))
    (ps_stale_after_ms signal) (ps_poll_hint_hz signal).

Definition build_function (function : ProtoFunction) : FunctionSpec :=
  mkFunctionSpec (pf_function_id function) (pf_name function) (pf_description function)
    (pf_args function) (pp_category (pf_policy function)) (pp_allowed_modes (pf_policy function))
    (pp_min_interval_ms (pf_policy function)) (pp_requires_lease (pf_policy function)).

(** It always returns true. *)
Definition build_capabilities (proto_device : ProtoDevice) (proto_caps : ProtoCaps)
    : DeviceCapabilitySet :=
  mkCaps proto_device
    (foldl (λ m s, aset (ss_signal_id (build_signal s)) (build_signal s) m) [] (pc_signals proto_caps))
    (foldl (λ m f, aset (fs_function_name (build_function f)) (build_function f) m) []
       (pc_functions proto_caps)).

(** One listed device: registered, or skipped when DescribeDevice fails. *)
Definition inspect_device (pid : string) (provider : DiscoveryHandle) (device_brief : ProtoDevice)
    : list RegisteredDevice :=
  match describe_device provider (pd_device_id device_brief) with
  | Err _ => []
  | Ok (dev, caps) => [mkDevice pid (pd_device_id device_brief) (build_capabilities dev caps)]
  end.

Definition inspect_provider_devices (pid : string) (provider : DiscoveryHandle) (r : DeviceRegistry)
    : option (list RegisteredDevice) * DeviceRegistry :=
  match list_devices provider with
  | Err last_error =>
      (None, mkRegistry (devices_ r) (handle_to_index_ r) ("ListDevices failed: " +:+ last_error))
  | Ok device_list =>
      (Some (flat_map (inspect_device pid provider) device_list), r)
  end.

Fixpoint index_from (i : nat) (ds : list RegisteredDevice) (m : gmap string nat) : gmap string nat :=
  match ds with
  | [] => m
  | d :: rest => index_from (S i) rest (<[get_handle d := i]> m)
  end.

(** The rebuild loop of [handle_to_index_]. *)
Definition rebuild_index (ds : list RegisteredDevice) : gmap string nat := index_from 0 ds ∅.

Definition remove_provider (pid : string) (ds : list RegisteredDevice) : list RegisteredDevice :=
  filter (λ d, provider_id d ≠ pid) ds.

Definition commit_provider_devices (pid : string) (discovered : list RegisteredDevice)
    (replace_existing : bool) (r : DeviceRegistry) : DeviceRegistry :=
  let kept := if replace_existing then remove_provider pid (devices_ r) else devices_ r in
  let ds := kept ++ discovered in
  mkRegistry ds (rebuild_index ds) (error_ r).

Definition discover_provider (pid : string) (provider : DiscoveryHandle) (replace_existing : bool)
    (r : DeviceRegistry) : bool * DeviceRegistry :=
  match inspect_provider_devices pid provider r with
  | (None, r') => (false, r')
  | (Some new_devices, r') => (true, commit_provider_devices pid new_devices replace_existing r')
  end.

Definition clear_provider_devices (pid : string) (r : DeviceRegistry) : DeviceRegistry :=
  let ds := remove_provider pid (devices_ r) in
  mkRegistry ds (rebuild_index ds) (error_ r).

(** [devices_[it->second]] is unchecked in the code; an index out of range would
    show here as [None] for a present key. *)
Definition get_device_by_handle_copy (r : DeviceRegistry) (handle : string) : option RegisteredDevice :=
  match handle_to_index_ r !! handle with
  | None => None
  | Some i => devices_ r !! i
  end.

Definition get_device_copy (r : DeviceRegistry) (pid did : string) : option RegisteredDevice :=
  get_device_by_handle_copy r (make_handle pid did).

Definition get_all_devices (r : DeviceRegistry) : list RegisteredDevice := devices_ r.

Definition get_devices_for_provider (r : DeviceRegistry) (pid : string) : list RegisteredDevice :=
  filter (λ d, provider_id d = pid) (devices_ r).

Definition device_count (r : DeviceRegistry) : nat := length (devices_ r).

(** ** Invariant and its preservation *)

(** The index is the one the devices determine. *)
Definition registry_wf (r : DeviceRegistry) : Prop := handle_to_index_ r = rebuild_index (devices_ r).

(** The operations that change a registry, as a step relation. *)
Inductive registry_step : DeviceRegistry → DeviceRegistry → Prop :=
| step_discover pid p rep r : registry_step r (snd (discover_provider pid p rep r))
| step_inspect pid p r : registry_step r (snd (inspect_provider_devices pid p r))
| step_commit pid ds rep r : registry_step r (commit_provider_devices pid ds rep r)
| step_clear pid r : registry_step r (clear_provider_devices pid r).

Lemma index_from_app i l1 l2 m :
  index_from i (l1 ++ l2) m = index_from (i + length l1) l2 (index_from i l1 m).
Proof.
  revert i m. induction l1 as [|d l1 IH]; intros i m; simpl.
  - by rewrite Nat.add_0_r.
  - rewrite IH. by replace (S i + length l1)%nat with (i + S (length l1))%nat by lia.
Qed.

Lemma rebuild_index_snoc l d :
  rebuild_index (l ++ [d]) = <[get_handle d := length l]> (rebuild_index l).
Proof. unfold rebuild_index. by rewrite index_from_app. Qed.

(** The last device with a handle, the abstract meaning of a lookup. *)
Definition last_with_handle (ds : list RegisteredDevice) (handle : string) : option RegisteredDevice :=
  last (filter (λ d, get_handle d = handle) ds).

Lemma rebuild_index_lookup ds handle :
  match rebuild_index ds !! handle with
  | None => last_with_handle ds handle = None
  | Some i => is_Some (ds !! i) ∧ ds !! i = last_with_handle ds handle
  end.
Proof.
  unfold last_with_handle. induction ds as [|d ds IH] using rev_ind; [done|].
  rewrite rebuild_index_snoc, filter_app, lookup_insert.
  destruct (decide (get_handle d = handle)) as [<-|Hne].
  - rewrite list_lookup_middle by done. rewrite filter_cons_True by done.
    rewrite filter_nil, last_snoc. eauto.
  - rewrite filter_cons_False, filter_nil, app_nil_r by done.
    destruct (rebuild_index ds !! handle) as [i|]; [|done].
    destruct IH as [[x Hx] IH]. rewrite lookup_app_l by (by eapply lookup_lt_Some).
    eauto.
Qed.

Lemma registry_wf_step r r' : registry_wf r → registry_step r r' → registry_wf r'.
Proof.
  intros Hwf. destruct 1; try done.
  - unfold discover_provider, inspect_provider_devices. by destruct (list_devices p).
  - unfold inspect_provider_devices. by destruct (list_devices p).
Qed.

Lemma registry_wf_reachable r : rtc registry_step empty_registry r → registry_wf r.
Proof. apply rtc_invariant; [done|apply registry_wf_step]. Qed.

Lemma registry_wf_lookup r handle :
  registry_wf r → get_device_by_handle_copy r handle = last_with_handle (devices_ r) handle.
Proof.
  unfold registry_wf, get_device_by_handle_copy. intros ->.
  pose proof (rebuild_index_lookup (devices_ r) handle) as H.
  destruct (rebuild_index _ !! _); naive_solver.
Qed.

Lemma last_with_handle_handle ds handle d :
  last_with_handle ds handle = Some d → d ∈ ds ∧ get_handle d = handle.
Proof.
  unfold last_with_handle. intros H.
  apply last_Some_elem_of, list_elem_of_filter in H. naive_solver.
Qed.

Lemma foldl_aset_lookup {A B} (key : A → string) (val : A → B) (l : list A) (m : list (string * B)) k :
  alookup k (foldl (λ m x, aset (key x) (val x) m) m l) =
  match last (filter (λ x, key x = k) l) with
  | Some x => Some (val x)
  | None => alookup k m
  end.
Proof.
  induction l as [|x l IH] using rev_ind; [done|].
  rewrite foldl_app, filter_app. simpl.
  destruct (decide (key x = k)) as [<-|Hne].
  - rewrite filter_cons_True, filter_nil, last_snoc by done. by autorewrite with anolis.
  - rewrite filter_cons_False, filter_nil, app_nil_r by done. by rewrite alookup_aset_ne, IH.
Qed.

Lemma foldl_aset_NoDup {A B} (key : A → string) (val : A → B) (l : list A) (m : list (string * B)) :
  NoDup m.*1 → NoDup (foldl (λ m x, aset (key x) (val x) m) m l).*1.
Proof. revert m. induction l; simpl; eauto with anolis. Qed.

Lemma foldl_aset_keyed {A B} (key : A → string) (val : A → B) (kv : B → string) l m :
  (∀ x, kv (val x) = key x) → (∀ k v, (k, v) ∈ m → kv v = k) →
  ∀ k v, (k, v) ∈ foldl (λ m x, aset (key x) (val x) m) m l → kv v = k.
Proof.
  intros Hkv. revert m. induction l as [|x l IH]; simpl; intros m Hm k v; [apply Hm|].
  apply IH. intros k' v'. clear IH k v. induction m as [|[k2 v2] m IHm]; simpl.
  - intros [= -> ->]%list_elem_of_singleton. done.
  - case_decide; intros [[= -> ->]|?]%elem_of_cons; subst; auto;
      [apply Hm; set_solver..|apply IHm; set_solver].
Qed.

(** Function names are unique keys and each entry sits under its own name. *)
Definition caps_wf (c : DeviceCapabilitySet) : Prop :=
  NoDup (functions_by_id c).*1 ∧
  ∀ name spec, (name, spec) ∈ functions_by_id c → fs_function_name spec = name.

Lemma build_capabilities_wf dev caps : caps_wf (build_capabilities dev caps).
Proof.
  split; simpl.
  - apply foldl_aset_NoDup. constructor.
  - apply foldl_aset_keyed; [done|]. intros ? ? []%elem_of_nil.
Qed.

Lemma inspect_device_provider pid p dl d :
  d ∈ flat_map (inspect_device pid p) dl → provider_id d = pid ∧ caps_wf (capabilities d).
Proof.
  rewrite list_elem_of_In, in_flat_map. intros (b & _ & Hd). unfold inspect_device in Hd.
  destruct (describe_device _ _) as [[dev caps]|]; simpl in Hd; [|done].
  destruct Hd as [<-|[]]. split; [done|apply build_capabilities_wf].
Qed.

Lemma filter_remove_same pid ds : filter (λ d, provider_id d = pid) (remove_provider pid ds) = [].
Proof.
  apply filter_none, Forall_forall. intros d. unfold remove_provider.
  rewrite list_elem_of_filter. tauto.
Qed.

(** A handle lookup in any registry the operations can produce returns the
    last published device with that handle, and nothing when there is none: the
    index never points outside the inventory or at another device. *)
Theorem registry_lookup_refines (r : DeviceRegistry) (handle : string) :
  rtc registry_step empty_registry r →
  get_device_by_handle_copy r handle = last_with_handle (get_all_devices r) handle.
Proof. intros H. by apply registry_wf_lookup, registry_wf_reachable. Qed.

Definition sample_device (pid did : string) : RegisteredDevice :=
  mkDevice pid did (mkCaps (mkProtoDevice did "" "" "" []) [] []).

Example registry_lookup_refines_witness :
  let r := commit_provider_devices "sim0" [sample_device "sim0" "a"; sample_device "sim0" "b"]
             true empty_registry in
  get_device_by_handle_copy r "sim0/b" = last_with_handle (get_all_devices r) "sim0/b" ∧
  last_with_handle (get_all_devices r) "sim0/b" = Some (sample_device "sim0" "b").
Proof.
  split; [|reflexivity]. apply registry_lookup_refines, rtc_once. constructor.
Defined.

(** What [inspect_provider_devices] found, committed: the provider's devices are
    replaced and the others stay. *)
Lemma commit_replaces pid ds r :
  Forall (λ d, provider_id d = pid) ds →
  get_devices_for_provider (commit_provider_devices pid ds true r) pid = ds ∧
  remove_provider pid (get_all_devices (commit_provider_devices pid ds true r)) =
    remove_provider pid (get_all_devices r).
Proof.
  intros Hall. unfold get_devices_for_provider, get_all_devices. simpl. split.
  - rewrite filter_app, filter_remove_same. by apply filter_all.
  - unfold remove_provider. rewrite filter_app, (filter_none _ ds), app_nil_r.
    + apply filter_all, Forall_forall. intros d. rewrite list_elem_of_filter. tauto.
    + eapply Forall_impl; [exact Hall|]. tauto.
Qed.

Lemma inspected_devices pid p dl : Forall (λ d, provider_id d = pid) (flat_map (inspect_device pid p) dl).
Proof. apply Forall_forall. intros d Hd. by eapply inspect_device_provider. Qed.

(** Replacing discovery is atomic and scoped: when ListDevices fails the
    published inventory is unchanged; otherwise the provider's devices are
    exactly the ones that answered DescribeDevice, in list order, and every
    other provider's devices are unchanged. *)
Theorem discover_provider_replaces (pid : string) (p : DiscoveryHandle) (r : DeviceRegistry) :
  match discover_provider pid p true r with
  | (false, r') => (∃ e, list_devices p = Err e ∧ error_ r' = "ListDevices failed: " +:+ e) ∧
                   get_all_devices r' = get_all_devices r ∧
                   handle_to_index_ r' = handle_to_index_ r
  | (true, r') => ∃ dl, list_devices p = Ok dl ∧
                  get_devices_for_provider r' pid = flat_map (inspect_device pid p) dl ∧
                  remove_provider pid (get_all_devices r') = remove_provider pid (get_all_devices r)
  end.
Proof.
  unfold discover_provider, inspect_provider_devices.
  destruct (list_devices p) as [dl|e]; simpl; [|by eauto].
  exists dl. split; [done|]. apply commit_replaces, inspected_devices.
Qed.

(** Capability parsing keeps the last declaration of each function name and
    loses no classification: the entry under a name is the flattened form of
    the last declared function with that name. *)
Theorem build_capabilities_lookup (dev : ProtoDevice) (caps : ProtoCaps) (name : string) :
  alookup name (functions_by_id (build_capabilities dev caps)) =
  build_function <$> last (filter (λ f, pf_name f = name) (pc_functions caps)).
Proof.
  simpl. rewrite (foldl_aset_lookup pf_name build_function).
  by destruct (last _).
Qed.
