(* ===== verification/Ownership.v ===== *)
(** * Ownership claims and poll hints ([core/runtime/ownership_validation.cpp],
      [core/runtime/poll_hint_check.cpp])

    The uniqueness of claim keys over an inventory, its check of a replacement
    inventory before a restart publishes it, and the two start-up reports. *)

From S2P Require Import Prelude Protocol Registry.

(** ** Claims *)

Definition kClaimTag : string := "anolis.claim".
Definition kLegacyOwnershipTags : list string := ["hw.bus_path"; "hw.i2c_address"; "bus_path"; "i2c_address"].

(** [std::isspace] in the C locale. *)
Definition is_space (c : ascii) : bool :=
  let n := nat_of_ascii c in (n =? 32)%nat || ((9 <=? n) && (n <=? 13))%nat.

(** [while (in >> key)]: the words of a text, with the word being read. *)
Fixpoint words_from (cur : string) (s : string) : list string :=
  match s with
  | EmptyString => if bool_decide (cur = "") then [] else [cur]
  | String c r =>
      if is_space c then
        if bool_decide (cur = "") then words_from "" r else cur :: words_from "" r
      else words_from (cur +:+ String c "") r
  end.

Definition words (s : string) : list string := words_from "" s.

Definition claim_keys (d : RegisteredDevice) : gset string :=
  match alookup kClaimTag (pd_tags (proto (capabilities d))) with
  | None => ∅
  | Some text => list_to_set (words text)
  end.

(** [owners_by_key[key].insert(provider/device)]. *)
Definition add_owner (owner key : string) (m : gmap string (gset string)) : gmap string (gset string) :=
  <[key := {[owner]} ∪ default ∅ (m !! key)]> m.

Definition add_claims (d : RegisteredDevice) (m : gmap string (gset string)) : gmap string (gset string) :=
  foldr (add_owner (get_handle d)) m (elements (claim_keys d)).

Definition owners_by_key (devices : list RegisteredDevice) : gmap string (gset string) :=
  foldl (λ m d, add_claims d m) ∅ devices.

Definition conflict_line (key : string) (owners : gset string) : string :=
  "claim '" +:+ key +:+ "' held by " +:+ join ", " (set_items owners).

Definition conflicts (devices : list RegisteredDevice) : list string :=
  (λ ko, conflict_line ko.1 ko.2) <$>
    filter (λ ko, ¬ (size ko.2 < 2)%nat) (map_items (owners_by_key devices)).

Definition validate_ownership_claims (devices : list RegisteredDevice) : result unit :=
  match conflicts devices with
  | [] => Ok tt
  | cs => Err ("Ownership validation failed" +:+ foldr (λ c acc, "; " +:+ c +:+ acc) "" cs +:+
               ". Each anolis.claim key must belong to exactly one device.")
  end.

Definition replacement_candidate (current : list RegisteredDevice) (pid : string)
    (replacement : list RegisteredDevice) : list RegisteredDevice :=
  filter (λ d, provider_id d ≠ pid) current ++ replacement.

Definition validate_ownership_claims_after_provider_replacement (current : list RegisteredDevice)
    (pid : string) (replacement : list RegisteredDevice) : result unit :=
  match validate_ownership_claims (replacement_candidate current pid replacement) with
  | Ok _ => Ok tt
  | Err e => Err ("Restart-time ownership validation failed for provider '" +:+ pid +:+ "': " +:+ e)
  end.

Definition has_legacy_tags (d : RegisteredDevice) : bool :=
  let tags := pd_tags (proto (capabilities d)) in
  bool_decide (alookup kClaimTag tags = None) &&
  existsb (λ tag, bool_decide (is_Some (alookup tag tags))) kLegacyOwnershipTags.

Definition providers_with_unchecked_legacy_ownership (devices : list RegisteredDevice) : list string :=
  set_items (list_to_set (provider_id <$> filter (λ d, has_legacy_tags d = true) devices)).

(** ** Poll hints *)

Definition mismatched_hint (polling_hz hint : double) : bool :=
  let two := double_of_Z 2 in
  SFltb double_zero hint &&
  (SFltb (SFmul 53 1024 two polling_hz) hint || SFltb (SFmul 53 1024 hint two) polling_hz).

Section PollHints.
Context `{FloatText}.

Definition mismatched_hints (polling_hz : double) (d : RegisteredDevice) : list (string * double) :=
  merge_sort key_le
    ((λ s, (s.1, ss_poll_hint_hz s.2)) <$>
       filter (λ s, mismatched_hint polling_hz (ss_poll_hint_hz s.2) = true) (signals_by_id (capabilities d))).

Definition hint_text (l : list (string * double)) : string :=
  join ", " ((λ h, format_double h.2 +:+ " Hz (" +:+ h.1 +:+ ")") <$> l).

Definition poll_hint_line (interval_ms : Z) (polling_hz : double) (d : RegisteredDevice) : list string :=
  match mismatched_hints polling_hz d with
  | [] => []
  | l => [get_handle d +:+ ": poll_hint_hz more than 2x away from polling.interval_ms " +:+
          to_string interval_ms +:+ " (" +:+ format_double polling_hz +:+ " Hz): " +:+ hint_text l +:+
          ". The hint is advisory; this device is polled at polling.interval_ms."]
  end.

Definition poll_hint_mismatches (devices : list RegisteredDevice) (polling_interval_ms : Z) : list string :=
  if polling_interval_ms <=? 0 then []
  else
    let polling_hz := SFdiv 53 1024 (double_of_Z 1000) (double_of_Z polling_interval_ms) in
    devices ≫= poll_hint_line polling_interval_ms polling_hz.
End PollHints.

(** ** What the check decides *)

Lemma lookup_add_owner owner key m k :
  add_owner owner key m !! k =
  if decide (k = key) then Some ({[owner]} ∪ default ∅ (m !! k)) else m !! k.
Proof.
  unfold add_owner. case_decide as Hk; [subst; by rewrite lookup_insert_eq|].
  by rewrite lookup_insert_ne by done.
Qed.

(** The owners of a key after a device has been added. *)
Lemma owners_add_claims d m k o :
  o ∈ default ∅ (add_claims d m !! k) ↔
  o ∈ default ∅ (m !! k) ∨ (o = get_handle d ∧ k ∈ claim_keys d).
Proof.
  unfold add_claims. assert (k ∈ claim_keys d ↔ k ∈ elements (claim_keys d)) as -> by (by rewrite elem_of_elements).
  induction (elements (claim_keys d)) as [|key l IH]; simpl; [set_solver|].
  rewrite lookup_add_owner. case_decide as Hk; simpl.
  - subst. rewrite elem_of_union, IH. set_solver.
  - rewrite IH. set_solver.
Qed.

Lemma owners_by_key_spec devices k o :
  o ∈ default ∅ (owners_by_key devices !! k) ↔ ∃ d, d ∈ devices ∧ get_handle d = o ∧ k ∈ claim_keys d.
Proof.
  unfold owners_by_key. induction devices as [|d devices IH] using rev_ind.
  - simpl. rewrite lookup_empty. simpl. set_solver.
  - rewrite foldl_snoc, owners_add_claims, IH. set_solver.
Qed.

(** Two devices with different handles that claim a common key. *)
Definition claim_conflict (devices : list RegisteredDevice) : Prop :=
  ∃ d1 d2 key, d1 ∈ devices ∧ d2 ∈ devices ∧ key ∈ claim_keys d1 ∧ key ∈ claim_keys d2 ∧
    get_handle d1 ≠ get_handle d2.

Lemma size_two_owners (s : gset string) : ¬ (size s < 2)%nat ↔ ∃ a b, a ∈ s ∧ b ∈ s ∧ a ≠ b.
Proof.
  split.
  - intros Hs. destruct (set_choose_or_empty s) as [[a Ha]|He]; [|apply size_empty_iff in He; lia].
    destruct (set_choose_or_empty (s ∖ {[a]})) as [[b Hb]|He].
    + exists a, b. apply elem_of_difference in Hb as [Hb Hn]. rewrite elem_of_singleton in Hn. naive_solver.
    + exfalso. apply Hs. apply size_empty_iff in He. rewrite size_difference, size_singleton in He; [lia|].
      by apply singleton_subseteq_l.
  - intros (a & b & Ha & Hb & Hne) Hlt. apply Hne.
    apply (size_singleton_inv s); [|done..].
    assert (size s ≠ 0)%nat; [|lia]. intros He%size_empty_inv. by apply (He a), elem_of_empty in Ha.
Qed.

Lemma conflicts_nil_sizes devices :
  conflicts devices = [] ↔ ∀ k s, owners_by_key devices !! k = Some s → (size s < 2)%nat.
Proof.
  unfold conflicts. split.
  - intros Hf k s Hk. apply fmap_nil_inv in Hf. apply dec_stable. intros Hs.
    assert ((k, s) ∈ filter (λ ko : string * gset string, ¬ (size ko.2 < 2)%nat)
      (map_items (owners_by_key devices))) as Hin.
    { apply list_elem_of_filter. split; [done|]. by apply elem_of_map_items. }
    rewrite Hf in Hin. by apply elem_of_nil in Hin.
  - intros Hall. destruct (filter _ _) as [|[k s] l] eqn:E; [done|]. exfalso.
    assert ((k, s) ∈ (k, s) :: l) as Hin by (by left). rewrite <- E in Hin.
    apply list_elem_of_filter in Hin as [Hs Hin]. apply elem_of_map_items in Hin. by apply Hs, (Hall k).
Qed.

Lemma conflicts_nil devices : conflicts devices = [] ↔ ¬ claim_conflict devices.
Proof.
  rewrite conflicts_nil_sizes. pose proof (owners_by_key_spec devices) as Hspec. split.
  - intros Hall (d1 & d2 & key & H1 & H2 & K1 & K2 & Hne).
    assert (get_handle d1 ∈ default ∅ (owners_by_key devices !! key)) as Hin1 by (apply Hspec; eauto).
    assert (get_handle d2 ∈ default ∅ (owners_by_key devices !! key)) as Hin2 by (apply Hspec; eauto).
    destruct (owners_by_key devices !! key) as [s|] eqn:E; simpl in *; [|by apply elem_of_empty in Hin1].
    apply (proj2 (size_two_owners s)); [eauto|by apply (Hall key)].
  - intros Hno k s Hk. apply dec_stable. intros Hs. apply Hno.
    apply size_two_owners in Hs as (a & b & Ha & Hb & Hne).
    specialize (Hspec k). rewrite Hk in Hspec. simpl in Hspec.
    apply Hspec in Ha as (d1 & ? & <- & ?). apply Hspec in Hb as (d2 & ? & <- & ?). by exists d1, d2, k.
Qed.

Lemma conflict_found devices line : line ∈ conflicts devices → claim_conflict devices.
Proof.
  intros ([k s] & _ & [Hs Hin%elem_of_map_items]%list_elem_of_filter)%list_elem_of_fmap. simpl in Hs.
  apply size_two_owners in Hs as (a & b & Ha & Hb & Hne).
  pose proof (owners_by_key_spec devices k) as Hspec. rewrite Hin in Hspec. simpl in Hspec.
  apply Hspec in Ha as (d1 & ? & <- & ?). apply Hspec in Hb as (d2 & ? & <- & ?). by exists d1, d2, k.
Qed.

Lemma validate_ownership_Err devices e : validate_ownership_claims devices = Err e → claim_conflict devices.
Proof.
  unfold validate_ownership_claims. destruct (conflicts devices) as [|line l] eqn:E; [done|]. intros _.
  apply (conflict_found devices line). rewrite E. by left.
Qed.

Lemma validate_ownership_Ok devices : validate_ownership_claims devices = Ok tt ↔ ¬ claim_conflict devices.
Proof.
  rewrite <- conflicts_nil. unfold validate_ownership_claims. by destruct (conflicts devices).
Qed.

(** ** The check as the runtime uses it *)

(** The ownership check accepts an inventory exactly when no claim key is
    held by two devices with different handles, and a restart whose check of the
    replacement passed publishes, with [commit_provider_devices], an inventory
    in which every claim key still belongs to one handle. *)
Theorem ownership_check_correct (r : DeviceRegistry) (pid : string) (replacement : list RegisteredDevice) :
  (validate_ownership_claims (get_all_devices r) = Ok tt ↔ ¬ claim_conflict (get_all_devices r)) ∧
  (validate_ownership_claims_after_provider_replacement (get_all_devices r) pid replacement = Ok tt ↔
   ¬ claim_conflict (get_all_devices (commit_provider_devices pid replacement true r))).
Proof.
  split; [apply validate_ownership_Ok|].
  rewrite <- validate_ownership_Ok.
  unfold validate_ownership_claims_after_provider_replacement, replacement_candidate, get_all_devices,
    commit_provider_devices, remove_provider. simpl.
  destruct (validate_ownership_claims _) as [[]|]; naive_solver.
Qed.

Definition claiming_device (pid did claim : string) : RegisteredDevice :=
  mkDevice pid did (mkCaps (mkProtoDevice did "" "" "" [(kClaimTag, claim)]) [] []).

(** Two devices of two providers on one bus address are refused, the error
    naming the key and both owners in order. *)
Example shared_claim_refused :
  validate_ownership_claims
    [claiming_device "sim1" "b" " bus0:0x48 aux"; claiming_device "sim0" "a" "bus0:0x48"] =
  Err ("Ownership validation failed; claim 'bus0:0x48' held by sim0/a, sim1/b. " +:+
       "Each anolis.claim key must belong to exactly one device.").
Proof. vm_compute. reflexivity. Qed.

(** A provider that takes over another's claim is refused at its restart, and
    one that keeps its own is accepted. *)
Example restart_check_cases :
  let current := [claiming_device "sim0" "a" "k0"; claiming_device "sim1" "b" "k1"] in
  validate_ownership_claims_after_provider_replacement current "sim1" [claiming_device "sim1" "c" "k1"] = Ok tt ∧
  is_ok_b (validate_ownership_claims_after_provider_replacement current "sim1" [claiming_device "sim1" "c" "k0"]) = false.
Proof. vm_compute. done. Qed.
