(* ===== verification/ProviderRegistry.v ===== *)
(** * The provider registry ([core/provider/provider_registry.cpp])

    A map from provider ids to shared handles.  Handles are named by the number
    they were created with; what the registry and its readers hold are
    [std::shared_ptr] copies, so the second half follows the copies, with the
    standard library's rule that a handle is destroyed, and so its process shut
    down, when the last copy of it is released. *)

From stdpp Require Import gmultiset list.
From S2P Require Import Prelude.

Definition Handle : Type := nat.

(** [providers_]. *)
Abbreviation ProviderRegistry := (gmap string Handle).

Definition add_provider (pid : string) (provider : Handle) (r : ProviderRegistry) : ProviderRegistry :=
  <[pid := provider]> r.

Definition remove_provider (pid : string) (r : ProviderRegistry) : bool * ProviderRegistry :=
  (bool_decide (is_Some (r !! pid)), delete pid r).

Definition get_provider (r : ProviderRegistry) (pid : string) : option Handle := r !! pid.

(** A copy of the map; the order in which it is walked is unspecified. *)
Definition get_all_providers (r : ProviderRegistry) : gmap string Handle := r.

Definition get_provider_ids (r : ProviderRegistry) : list string := fst <$> map_to_list r.

Definition has_provider (r : ProviderRegistry) (pid : string) : bool := bool_decide (is_Some (r !! pid)).

Definition provider_count (r : ProviderRegistry) : nat := size r.

Definition clear (r : ProviderRegistry) : ProviderRegistry := ∅.

(** ** Shared ownership *)

(** What was asked of the registry, newest first. *)
Inductive Request := Added (pid : string) (h : Handle) | Removed (pid : string) | Cleared.

(** The handle an id names by what was asked: the newest one added under it, unless
    it was removed, or everything was, since. *)
Fixpoint newest (log : list Request) (pid : string) : option Handle :=
  match log with
  | [] => None
  | Added p h :: older => if decide (p = pid) then Some h else newest older pid
  | Removed p :: older => if decide (p = pid) then None else newest older pid
  | Cleared :: _ => None
  end.

(** The registry's copies, everybody else's copies, the handles ever made, the
    destructors run, in order, and what was asked so far. *)
Record Owners := mkOwners {
  ow_providers : ProviderRegistry;
  ow_held : gmultiset Handle;
  ow_created : gset Handle;
  ow_destroyed : list Handle;
  ow_log : list Request;
}.

Definition no_owners : Owners := mkOwners ∅ ∅ ∅ [] [].

Definition registered (r : ProviderRegistry) (h : Handle) : gmap string Handle := filter (λ p, p.2 = h) r.

(** [use_count()]. *)
Definition refs (o : Owners) (h : Handle) : nat :=
  (size (registered (ow_providers o) h) + multiplicity h (ow_held o))%nat.

(** [std::shared_ptr]: of the handles [hs], copies of which an operation let go of,
    each without a copy left is destroyed. *)
Definition collect (hs : gset Handle) (o : Owners) : Owners :=
  mkOwners (ow_providers o) (ow_held o) (ow_created o)
    (ow_destroyed o ++ filter (λ h, refs o h = 0%nat) (elements hs)) (ow_log o).

Definition put_providers (r : ProviderRegistry) (q : Request) (o : Owners) : Owners :=
  mkOwners r (ow_held o) (ow_created o) (ow_destroyed o) (q :: ow_log o).
Definition put_held (m : gmultiset Handle) (o : Owners) : Owners :=
  mkOwners (ow_providers o) m (ow_created o) (ow_destroyed o) (ow_log o).

(** The operations, from any thread: each is one step under the registry's lock. *)
Inductive owner_step : Owners → Owners → Prop :=
| own_create h o :                                         (* [std::make_shared] *)
    h ∉ ow_created o →
    owner_step o (mkOwners (ow_providers o) (ow_held o ⊎ {[+ h +]}) ({[h]} ∪ ow_created o) (ow_destroyed o)
                  (ow_log o))
| own_add pid h o :
    h ∈ ow_held o →
    owner_step o (collect (option_to_set (ow_providers o !! pid))
                    (put_providers (add_provider pid h (ow_providers o)) (Added pid h) o))
| own_remove pid o :
    owner_step o (collect (option_to_set (ow_providers o !! pid))
                    (put_providers (remove_provider pid (ow_providers o)).2 (Removed pid) o))
| own_get pid h o :
    get_provider (ow_providers o) pid = Some h → owner_step o (put_held (ow_held o ⊎ {[+ h +]}) o)
| own_get_all o :
    owner_step o (put_held (ow_held o ⊎ list_to_set_disj (snd <$> map_to_list (get_all_providers (ow_providers o)))) o)
| own_clear o :
    owner_step o (collect (list_to_set (snd <$> map_to_list (ow_providers o)))
                    (put_providers (clear (ow_providers o)) Cleared o))
| own_release h o :                                        (* a copy goes out of scope *)
    h ∈ ow_held o → owner_step o (collect {[h]} (put_held (ow_held o ∖ {[+ h +]}) o)).

(** A handle is destroyed exactly when it was made and no copy is left. *)
Record owners_ok (o : Owners) : Prop := {
  ok_created : ∀ h, (0 < refs o h)%nat → h ∈ ow_created o;
  ok_destroyed : ∀ h, h ∈ ow_destroyed o ↔ h ∈ ow_created o ∧ refs o h = 0%nat;
  ok_once : NoDup (ow_destroyed o);
}.

Lemma registered_pos r h : (0 < size (registered r h))%nat ↔ ∃ pid, r !! pid = Some h.
Proof.
  split.
  - intros Hp. destruct (map_choose (registered r h)) as (pid & h' & Hl).
    + intros E. rewrite E, map_size_empty in Hp. lia.
    + exists pid. apply map_lookup_filter_Some in Hl as [Hl E]. simpl in E. by subst.
  - intros [pid Hl]. apply Nat.neq_0_lt_0. intros E%map_size_empty_inv.
    assert (registered r h !! pid = Some h) as Hr by (by apply map_lookup_filter_Some).
    unfold registered in *. rewrite E in Hr. done.
Qed.

Lemma refs_pos o h : (0 < refs o h)%nat ↔ (∃ pid, ow_providers o !! pid = Some h) ∨ h ∈ ow_held o.
Proof. unfold refs. rewrite <- registered_pos, elem_of_multiplicity. lia. Qed.

(** Letting go of copies of [hs] only. *)
Lemma collect_ok hs o o' :
  owners_ok o → ow_created o' = ow_created o → ow_destroyed o' = ow_destroyed o →
  (∀ h, (0 < refs o' h)%nat → (0 < refs o h)%nat) →
  (∀ h, (0 < refs o h)%nat → h ∉ hs → (0 < refs o' h)%nat) →
  (∀ h, h ∈ hs → (0 < refs o h)%nat) →
  owners_ok (collect hs o').
Proof.
  intros [Hc Hd Hn] Ec Ed Hle Hkeep Hhs.
  assert (∀ h, refs (collect hs o') h = refs o' h) as Hr by done.
  split; simpl; rewrite ?Ec, ?Ed.
  - intros h. rewrite Hr. intros Hp. by apply Hc, Hle.
  - intros h. rewrite Hr, elem_of_app, list_elem_of_filter, elem_of_elements, Hd. split.
    + intros [[Hin E]|[E Hin]].
      * split; [done|]. destruct (decide (refs o' h = 0%nat)) as [|Hne]; [done|].
        specialize (Hle h ltac:(lia)). lia.
      * split; [|done]. by apply Hc, Hhs.
    + intros [Hin E]. destruct (decide (h ∈ hs)) as [Hh|Hh]; [by right|left]. split; [done|].
      destruct (decide (refs o h = 0%nat)) as [|Hne]; [done|]. specialize (Hkeep h ltac:(lia) Hh). lia.
  - apply NoDup_app. split_and!; [done| |apply NoDup_filter, NoDup_elements].
    intros h Hin [_ Hh%elem_of_elements]%list_elem_of_filter. apply Hd in Hin as [_ E].
    specialize (Hhs h Hh). lia.
Qed.

(** A new copy of handles that were already alive. *)
Lemma copy_ok m o : owners_ok o → (∀ h, h ∈ m → (0 < refs o h)%nat) → owners_ok (put_held (ow_held o ⊎ m) o).
Proof.
  intros [Hc Hd Hn] Hm.
  assert (∀ h, refs (put_held (ow_held o ⊎ m) o) h = (refs o h + multiplicity h m)%nat) as Hr.
  { intros h. unfold refs. simpl. rewrite multiplicity_disj_union. lia. }
  assert (∀ h, (0 < refs o h + multiplicity h m)%nat ↔ (0 < refs o h)%nat) as Hz.
  { intros h. specialize (Hm h). rewrite elem_of_multiplicity in Hm. lia. }
  split; simpl; [|intros h|done].
  - intros h. rewrite Hr, Hz. apply Hc.
  - rewrite Hd, Hr. specialize (Hz h). split; intros []; split; try done; lia.
Qed.

Lemma owner_step_ok o o' : owner_step o o' → owners_ok o → owners_ok o'.
Proof.
  intros Hs Ho. destruct Hs as [h o Hh|pid h o Hh|pid o|pid h o Hh|o|o|h o Hh].
  - destruct Ho as [Hc Hd Hn].
    set (o' := mkOwners _ _ _ _ _).
    assert (∀ h', refs o' h' = (refs o h' + if decide (h' = h) then 1 else 0)%nat) as Hr.
    { intros h'. unfold refs. simpl. rewrite multiplicity_disj_union.
      case_decide; [subst; rewrite multiplicity_singleton, ?decide_True by done|rewrite multiplicity_singleton_ne by done]; lia. }
    split; simpl; [|intros h'|done].
    + intros h'. rewrite Hr. case_decide; [subst; set_solver|]. intros Hp.
      apply elem_of_union_r, Hc. lia.
    + rewrite Hd, Hr, elem_of_union, elem_of_singleton. case_decide; [subst; split; intros [? ?]; [done|lia]|].
      rewrite Nat.add_0_r. naive_solver.
  - eapply collect_ok; [done..| | |]; intros h'; rewrite ?refs_pos; simpl; unfold add_provider.
    + intros [[p Hp]|?]; [|by right]. apply lookup_insert_Some in Hp as [[-> ->]|[_ Hp]]; [by right|left; by exists p].
    + intros [[p Hp]|?] Hn; [|by right]. left. exists p. rewrite lookup_insert_ne; [done|]. intros ->.
      by apply Hn, elem_of_option_to_set.
    + rewrite elem_of_option_to_set. intros Hp. left. by exists pid.
  - eapply collect_ok; [done..| | |]; intros h'; rewrite ?refs_pos; simpl.
    + intros [[p [_ Hp]%lookup_delete_Some]|?]; [left; by exists p|by right].
    + intros [[p Hp]|?] Hn; [|by right]. left. exists p. rewrite lookup_delete_ne; [done|]. intros ->.
      by apply Hn, elem_of_option_to_set.
    + rewrite elem_of_option_to_set. intros Hp. left. by exists pid.
  - apply copy_ok; [done|]. intros h' ->%gmultiset_elem_of_singleton. apply refs_pos. left. by exists pid.
  - apply copy_ok; [done|]. intros h' Hin%elem_of_list_to_set_disj. apply refs_pos. left.
    apply list_elem_of_fmap in Hin as ([p h2] & -> & Hp%elem_of_map_to_list). by exists p.
  - eapply collect_ok; [done..| | |]; intros h'; rewrite ?refs_pos; simpl.
    + intros [[p Hp]|?]; [done|by right].
    + intros [[p Hp]|?] Hn; [|by right]. destruct Hn. apply elem_of_list_to_set, list_elem_of_fmap.
      exists (p, h'). split; [done|]. by apply elem_of_map_to_list.
    + rewrite elem_of_list_to_set, list_elem_of_fmap. intros ([p h2] & -> & Hp%elem_of_map_to_list).
      left. by exists p.
  - eapply collect_ok; [done..| | |]; intros h'; rewrite ?refs_pos; simpl.
    + intros [?|Hin]; [by left|right]. multiset_solver.
    + intros [?|Hin] Hn; [by left|right]. apply not_elem_of_singleton in Hn. multiset_solver.
    + intros ->%elem_of_singleton. by right.
Qed.

(** The map holds what was asked for. *)
Definition as_asked (o : Owners) : Prop := ∀ pid, ow_providers o !! pid = newest (ow_log o) pid.

Lemma owner_step_asked o o' : owner_step o o' → as_asked o → as_asked o'.
Proof.
  intros Hs Ho. destruct Hs; try exact Ho; intros p; simpl.
  - unfold add_provider. rewrite lookup_insert, Ho. by case_decide.
  - rewrite lookup_delete, Ho. by case_decide.
  - apply lookup_empty.
Qed.

(** C29. The registry names what it was last told, and a handle lives as long as
    anyone uses it: over any history of additions, replacements, removals, clears,
    lookups and releases by any threads, every reader of the map answers with the
    newest handle added under an id and not removed or cleared since, and a removal
    says whether there was one; and a handle has been destroyed exactly when it was
    made, no id names it any more and nobody holds a copy, and only once. *)
Theorem handles_live_while_used (o : Owners) :
  rtc owner_step no_owners o →
  let r := ow_providers o in
  (∀ pid, get_provider r pid = newest (ow_log o) pid ∧ get_all_providers r !! pid = newest (ow_log o) pid ∧
     (has_provider r pid = true ↔ is_Some (newest (ow_log o) pid)) ∧
     (pid ∈ get_provider_ids r ↔ is_Some (newest (ow_log o) pid)) ∧
     ((remove_provider pid r).1 = true ↔ is_Some (newest (ow_log o) pid))) ∧
  NoDup (get_provider_ids r) ∧ provider_count r = length (get_provider_ids r) ∧
  (∀ h, h ∈ ow_destroyed o ↔
     h ∈ ow_created o ∧ (∀ pid, newest (ow_log o) pid ≠ Some h) ∧ h ∉ ow_held o) ∧
  NoDup (ow_destroyed o).
Proof.
  intros Hr r. assert (as_asked o) as Hask.
  { eapply (rtc_invariant _ as_asked); [|by intros ? ? ? ?; eapply owner_step_asked|exact Hr]. intros pid. done. }
  assert (owners_ok o) as [Hc Hd Hn].
  { eapply (rtc_invariant _ owners_ok); [|by intros ? ? ? ?; eapply owner_step_ok|exact Hr].
    split; simpl; [|set_solver|constructor]. intros h [[? ?]|?]%refs_pos; simpl in *; [done|multiset_solver]. }
  split_and!; [|apply NoDup_fst_map_to_list|unfold provider_count, get_provider_ids; by rewrite length_fmap, length_map_to_list| |done].
  - intros pid. rewrite <- (Hask pid). fold r. unfold has_provider, remove_provider. simpl.
    rewrite bool_decide_eq_true. split; [done|]. split; [done|]. split; [done|]. split; [|done].
    unfold get_provider_ids. rewrite list_elem_of_fmap. split.
    + intros ([p h] & -> & Hp%elem_of_map_to_list). by exists h.
    + intros [h Hp]. exists (pid, h). split; [done|]. by apply elem_of_map_to_list.
  - intros h. rewrite Hd. pose proof (refs_pos o h) as Hp. split.
    + intros [Hin E]. split; [done|]. split; [intros pid Hl|intros Hh]; assert (0 < refs o h)%nat; try lia; apply Hp;
        [left; exists pid; by rewrite Hask|by right].
    + intros (Hin & Hnone & Hh). split; [done|]. apply Nat.le_0_r, Nat.nlt_ge.
      intros [[pid Hl]|?]%Hp; [apply (Hnone pid); by rewrite <- Hask|done].
Qed.

(** "sim0" is replaced while a reader holds its old handle, and that is released. *)
Example handles_live_while_used_witness :
  let o := mkOwners {["sim0" := 1%nat]} {[+ 1%nat +]} {[0%nat; 1%nat]} [0%nat] [Added "sim0" 1%nat; Added "sim0" 0%nat] in
  rtc owner_step no_owners o ∧ get_provider (ow_providers o) "sim0" = Some 1%nat ∧ 1%nat ∉ ow_destroyed o.
Proof.
  cbv zeta. set (o := mkOwners _ _ _ _ _). assert (rtc owner_step no_owners o) as Hr.
  { eapply rtc_l; [apply (own_create 0%nat); set_solver|].
    eapply rtc_l; [apply (own_add "sim0" 0%nat); simpl; multiset_solver|].
    eapply rtc_l; [apply (own_create 1%nat); simpl; set_solver|].
    eapply rtc_l; [apply (own_add "sim0" 1%nat); simpl; multiset_solver|].
    eapply rtc_l; [apply (own_release 0%nat); simpl; multiset_solver|].
    apply reflexive_eq. vm_compute. reflexivity. }
  destruct (handles_live_while_used o Hr) as (Hmap & _ & _ & Hgone & _).
  split; [exact Hr|]. split; [exact (proj1 (Hmap "sim0"))|]. intros (_ & Hn & _)%Hgone. exact (Hn "sim0" eq_refl).
Defined.
