(* ===== verification/Parameters.v ===== *)
(** * Runtime parameters ([core/automation/parameter_*.{hpp,cpp}])

    The typed parameter store of the automation layer: type and range checks,
    operator updates with change notification, and the conversions between the
    control plane's [ParameterValue], the event layer's [TypedValue] and the
    provider protocol's [Value]. *)

From S2P Require Import Prelude Protocol.

Inductive ParameterType := DOUBLE | INT64 | BOOL | STRING.

#[global] Instance ParameterType_eq_dec : EqDecision ParameterType.
Proof. solve_decision. Defined.

(** [std::variant<double, int64_t, bool, std::string>]. *)
Inductive ParameterValue :=
| PDouble (d : double)
| PInt64 (z : Z)
| PBool (b : bool)
| PString (s : string).

#[global] Instance ParameterValue_eq_dec : EqDecision ParameterValue.
Proof. solve_decision. Defined.

(** [events::TypedValue]. *)
Inductive TypedValue :=
| TDouble (d : double)
| TInt64 (z : Z)
| TUint64 (z : Z)
| TBool (b : bool)
| TString (s : string).

Definition parameter_type_to_string (type : ParameterType) : string :=
  match type with
  | DOUBLE => "double" | INT64 => "int64" | BOOL => "bool" | STRING => "string"
  end.

Definition parameter_type_from_string (type_name : string) : option ParameterType :=
  if decide (type_name = "double") then Some DOUBLE
  else if decide (type_name = "int64") then Some INT64
  else if decide (type_name = "bool") then Some BOOL
  else if decide (type_name = "string") then Some STRING
  else None.

Definition parameter_value_type_name (value : ParameterValue) : string :=
  match value with
  | PDouble _ => "double" | PInt64 _ => "int64" | PBool _ => "bool" | PString _ => "string"
  end.

Definition parameter_value_matches_type (type : ParameterType) (value : ParameterValue) : bool :=
  match type, value with
  | DOUBLE, PDouble _ | INT64, PInt64 _ | BOOL, PBool _ | STRING, PString _ => true
  | _, _ => false
  end.

(** ** Conversions *)

Definition parameter_value_to_typed_value (value : ParameterValue) : TypedValue :=
  match value with
  | PDouble d => TDouble d
  | PInt64 z => TInt64 z
  | PBool b => TBool b
  | PString s => TString s
  end.

Definition parameter_value_from_typed_value (value : TypedValue) : result ParameterValue :=
  match value with
  | TDouble d => Ok (PDouble d)
  | TInt64 z => Ok (PInt64 z)
  | TBool b => Ok (PBool b)
  | TString s => Ok (PString s)
  | TUint64 raw =>
      if raw >? to_uint64 int64_max then Err "uint64 value exceeds int64 range for ParameterValue"
      else Ok (PInt64 (to_int64 raw))
  end.

(** [control::to_provider_value]. *)
Definition to_provider_value (input : ParameterValue) : Value :=
  match input with
  | PDouble d => mkValue VALUE_TYPE_DOUBLE (KDouble d)
  | PInt64 z => mkValue VALUE_TYPE_INT64 (KInt64 z)
  | PBool b => mkValue VALUE_TYPE_BOOL (KBool b)
  | PString s => mkValue VALUE_TYPE_STRING (KString s)
  end.

Section Parameters.
Context `{FloatText}.

Definition parameter_value_to_string (value : ParameterValue) : string :=
  match value with
  | PDouble d => to_string_double d
  | PInt64 z => to_string z
  | PBool b => if b then "true" else "false"
  | PString s => s
  end.

(** ** Definitions and validation *)

Record ParameterDef := mkParameterDef {
  pd_name : string;
  pd_type : ParameterType;
  pd_value : ParameterValue;
  pd_min : option double;
  pd_max : option double;
  pd_allowed_values : option (list string);
  pd_set_by_operator : bool;
}.

(** The numeric view the range check works on. *)
Definition numeric_value (new_value : ParameterValue) : double :=
  match new_value with
  | PDouble d => d
  | PInt64 z => double_of_Z z
  | _ => double_zero
  end.

Definition validate_range (def : ParameterDef) (numeric : double) : result unit :=
  match pd_min def with
  | Some lo =>
      if SFltb numeric lo then
        Err ("Value " +:+ to_string_double numeric +:+ " is below minimum " +:+ to_string_double lo)
      else Ok tt
  | None => Ok tt
  end.

Definition validate_range_max (def : ParameterDef) (numeric : double) : result unit :=
  match pd_max def with
  | Some hi =>
      if SFltb hi numeric then
        Err ("Value " +:+ to_string_double numeric +:+ " exceeds maximum " +:+ to_string_double hi)
      else Ok tt
  | None => Ok tt
  end.

Definition validate_enum (def : ParameterDef) (new_value : ParameterValue) : result unit :=
  match pd_type def, pd_allowed_values def, new_value with
  | STRING, Some allowed, PString str_value =>
      if decide (str_value ∈ allowed) then Ok tt
      else Err ("Value '" +:+ str_value +:+ "' not in allowed values: [" +:+
                join ", " allowed +:+ "]")
  | _, _, _ => Ok tt
  end.

Definition validate (def : ParameterDef) (new_value : ParameterValue) : result unit :=
  if negb (parameter_value_matches_type (pd_type def) new_value) then
    Err ("Type mismatch: expected " +:+ parameter_type_to_string (pd_type def) +:+ ", got " +:+
         parameter_value_type_name new_value)
  else
    try _ <- (if bool_decide (pd_type def = DOUBLE) || bool_decide (pd_type def = INT64) then
                try _ <- validate_range def (numeric_value new_value) ;;
                validate_range_max def (numeric_value new_value)
              else Ok tt) ;;
    validate_enum def new_value.

(** ** The manager *)

(** Registered change callbacks are identified by their position's tag. *)
Record ParameterManager := mkPM {
  parameters_ : gmap string ParameterDef;
  pm_callbacks_ : list nat;
}.

(** A callback invocation: which callback, name, old value, new value. *)
Definition Notification : Type := nat * string * ParameterValue * ParameterValue.

Definition define (name : string) (type : ParameterType) (default_value : ParameterValue)
    (min max : option double) (allowed_values : option (list string)) (pm : ParameterManager)
    : bool * ParameterManager :=
  match parameters_ pm !! name with
  | Some _ => (false, pm)
  | None =>
      let def := mkParameterDef name type default_value min max allowed_values false in
      match validate def default_value with
      | Err _ => (false, pm)
      | Ok _ => (true, mkPM (<[name := def]> (parameters_ pm)) (pm_callbacks_ pm))
      end
  end.

(** [old_val == new_val] inside [std::visit], for values of the same alternative. *)
Definition same_value (old_value value : ParameterValue) : bool :=
  match old_value, value with
  | PDouble a, PDouble b => SFeqb a b
  | PInt64 a, PInt64 b => bool_decide (a = b)
  | PBool a, PBool b => bool_decide (a = b)
  | PString a, PString b => bool_decide (a = b)
  | _, _ => false
  end.

Definition with_value (def : ParameterDef) (value : ParameterValue) : ParameterDef :=
  mkParameterDef (pd_name def) (pd_type def) value (pd_min def) (pd_max def)
    (pd_allowed_values def) true.

Definition set (name : string) (value : ParameterValue) (pm : ParameterManager)
    : result unit * list Notification * ParameterManager :=
  match parameters_ pm !! name with
  | None => (Err ("Parameter '" +:+ name +:+ "' not found"), [], pm)
  | Some def =>
      match validate def value with
      | Err error => (Err error, [], pm)
      | Ok _ =>
          let old_value := pd_value def in
          if same_value old_value value then (Ok tt, [], pm)
          else (Ok tt, (λ cb, (cb, name, old_value, value)) <$> pm_callbacks_ pm,
                mkPM (<[name := with_value def value]> (parameters_ pm)) (pm_callbacks_ pm))
      end
  end.

Definition get (name : string) (pm : ParameterManager) : option ParameterValue :=
  pd_value <$> parameters_ pm !! name.

Definition get_double (name : string) (default_value : double) (pm : ParameterManager) : double :=
  match get name pm with Some (PDouble d) => d | _ => default_value end.
Definition get_int64 (name : string) (default_value : Z) (pm : ParameterManager) : Z :=
  match get name pm with Some (PInt64 z) => z | _ => default_value end.
Definition get_bool (name : string) (default_value : bool) (pm : ParameterManager) : bool :=
  match get name pm with Some (PBool b) => b | _ => default_value end.
Definition get_string (name : string) (default_value : string) (pm : ParameterManager) : string :=
  match get name pm with Some (PString s) => s | _ => default_value end.

Definition get_definition (name : string) (pm : ParameterManager) : option ParameterDef :=
  parameters_ pm !! name.
Definition get_all_definitions (pm : ParameterManager) : gmap string ParameterDef := parameters_ pm.
Definition on_parameter_change (cb : nat) (pm : ParameterManager) : ParameterManager :=
  mkPM (parameters_ pm) (pm_callbacks_ pm ++ [cb]).
Definition has_parameter (name : string) (pm : ParameterManager) : bool :=
  match parameters_ pm !! name with Some _ => true | None => false end.
Definition parameter_count (pm : ParameterManager) : nat := size (parameters_ pm).

Definition empty_pm : ParameterManager := mkPM ∅ [].

(** The operations that change a manager, and the manager after a sequence. *)
Inductive PmOp :=
| Define (name : string) (type : ParameterType) (default_value : ParameterValue) (min max : option double)
    (allowed_values : option (list string))
| Set_ (name : string) (value : ParameterValue)
| OnChange (cb : nat).

Definition run_op (pm : ParameterManager) (o : PmOp) : ParameterManager :=
  match o with
  | Define name type dv lo hi allowed => snd (define name type dv lo hi allowed pm)
  | Set_ name v => snd (set name v pm)
  | OnChange cb => on_parameter_change cb pm
  end.
Definition run_ops (ops : list PmOp) : ParameterManager := foldl run_op empty_pm ops.

(** ** What a valid value is

    Said without the code's checks.  An IEEE comparison with a NaN is false
    whichever way it is asked, so a NaN is outside no range. *)
Definition has_type (type : ParameterType) (v : ParameterValue) : Prop :=
  match type with
  | DOUBLE => ∃ d, v = PDouble d
  | INT64 => ∃ z, v = PInt64 z
  | BOOL => ∃ b, v = PBool b
  | STRING => ∃ s, v = PString s
  end.

(** [x ≤ y], or one of them is a NaN. *)
Definition at_most (x y : double) : Prop := x = S754_nan ∨ y = S754_nan ∨ SFleb x y = true.

(** The double that a value is compared as; an integer is rounded to nearest. *)
Definition as_double (v : ParameterValue) : option double :=
  match v with PDouble d => Some d | PInt64 z => Some (double_of_Z z) | _ => None end.

Definition within (def : ParameterDef) (v : ParameterValue) : Prop :=
  ∀ x, as_double v = Some x →
    (∀ lo, pd_min def = Some lo → at_most lo x) ∧ (∀ hi, pd_max def = Some hi → at_most x hi).

Definition listed (def : ParameterDef) (v : ParameterValue) : Prop :=
  ∀ s allowed, v = PString s → pd_allowed_values def = Some allowed → s ∈ allowed.

Definition valid_value (def : ParameterDef) (v : ParameterValue) : Prop :=
  has_type (pd_type def) v ∧ within def v ∧ listed def v.

Lemma matches_has_type type v : parameter_value_matches_type type v = true ↔ has_type type v.
Proof. destruct type, v; simpl; naive_solver. Qed.

Lemma SFcompare_flip x y : SFcompare y x = CompOpp <$> SFcompare x y.
Proof.
  unfold SFcompare. destruct x as [s|s| |s m e], y as [s'|s'| |s' m' e']; try destruct s; try destruct s'; try done.
  all: rewrite (Z.compare_antisym e e'); destruct (e ?= e')%Z; try done; simpl; f_equal.
  all: change (Pos.compare_cont Eq m' m) with (m' ?= m)%positive; change (Pos.compare_cont Eq m m') with (m ?= m')%positive.
  all: rewrite (Pos.compare_antisym m m'); by destruct (m ?= m')%positive.
Qed.

Lemma SFcompare_None x y : SFcompare x y = None → x = S754_nan ∨ y = S754_nan.
Proof.
  unfold SFcompare. destruct x as [s|s| |s m e], y as [s'|s'| |s' m' e']; try destruct s; try destruct s'; auto;
    try done; by destruct (e ?= e')%Z.
Qed.

Lemma SFcompare_nan x : SFcompare x S754_nan = None ∧ SFcompare S754_nan x = None.
Proof. by destruct x as [s|s| |s m e]; try destruct s. Qed.

(** [y < x] is false exactly when [x ≤ y] or they do not compare. *)
Lemma not_SFltb x y : SFltb y x = false ↔ at_most x y.
Proof.
  unfold at_most, SFltb, SFleb. rewrite (SFcompare_flip x y).
  pose proof (SFcompare_None x y) as Hn. destruct (SFcompare x y) as [[]|] eqn:E; simpl; try naive_solver.
  split; [done|]. destruct (SFcompare_nan x), (SFcompare_nan y). intros [->|[->|?]]; congruence.
Qed.

Lemma validate_range_ok def x :
  (∃ u, validate_range def x = Ok u) ↔ ∀ lo, pd_min def = Some lo → at_most lo x.
Proof.
  unfold validate_range. setoid_rewrite <- not_SFltb. destruct (pd_min def) as [lo|]; [|naive_solver].
  destruct (SFltb x lo) eqn:E; naive_solver congruence.
Qed.

Lemma validate_range_max_ok def x :
  (∃ u, validate_range_max def x = Ok u) ↔ ∀ hi, pd_max def = Some hi → at_most x hi.
Proof.
  unfold validate_range_max. setoid_rewrite <- not_SFltb. destruct (pd_max def) as [hi|]; [|naive_solver].
  destruct (SFltb hi x) eqn:E; naive_solver congruence.
Qed.

Lemma validate_enum_ok def v :
  has_type (pd_type def) v → (∃ u, validate_enum def v = Ok u) ↔ listed def v.
Proof.
  unfold validate_enum, listed. intros Ht.
  destruct (pd_type def), v; simpl in Ht; try naive_solver; destruct (pd_allowed_values def); try naive_solver.
  case_decide; naive_solver.
Qed.

Lemma validate_ok def v : validate def v = Ok tt ↔ valid_value def v.
Proof.
  unfold validate, valid_value. rewrite <- matches_has_type.
  destruct (parameter_value_matches_type _ _) eqn:Hm; simpl; [|naive_solver].
  apply matches_has_type in Hm as Ht. rewrite <- (validate_enum_ok def v Ht).
  assert (within def v ↔ (∃ u, (if bool_decide (pd_type def = DOUBLE) || bool_decide (pd_type def = INT64) then
            try _ <- validate_range def (numeric_value v) ;; validate_range_max def (numeric_value v)
          else Ok tt) = Ok u)) as ->.
  { unfold within. setoid_rewrite <- validate_range_ok. setoid_rewrite <- validate_range_max_ok.
    destruct (pd_type def); destruct Ht as [y ->]; simpl; [| |by split; eauto..].
    all: split; [intros Hx; by destruct (Hx _ eq_refl) as [[? ->] [? ->]]; eauto|].
    all: intros [u Hu] x [= <-]; destruct (validate_range _ _) as [[]|], (validate_range_max _ _); by eauto. }
  destruct (if _ || _ then _ else _) as [[]|]; [|naive_solver].
  destruct (validate_enum def v) as [[]|]; naive_solver.
Qed.

(** Where a stored definition and its value come from. *)
Definition stored_by (ops : list PmOp) (name : string) (def : ParameterDef) : Prop :=
  ∃ dv, Define name (pd_type def) dv (pd_min def) (pd_max def) (pd_allowed_values def) ∈ ops ∧
    (pd_value def = dv ∨ Set_ name (pd_value def) ∈ ops).

Lemma stored_by_app ops ops' name def : stored_by ops name def → stored_by (ops ++ ops') name def.
Proof. intros (dv & ? & [?|?]); exists dv; set_solver. Qed.

Lemma run_ops_inv ops name def :
  parameters_ (run_ops ops) !! name = Some def → valid_value def (pd_value def) ∧ stored_by ops name def.
Proof.
  unfold run_ops. revert name def. induction ops as [|o ops IH] using rev_ind; intros n d.
  { simpl. by rewrite lookup_empty. }
  rewrite foldl_snoc. set (pm := foldl run_op empty_pm ops) in *.
  assert (parameters_ pm !! n = Some d → valid_value d (pd_value d) ∧ stored_by (ops ++ [o]) n d) as Hold.
  { intros [? ?]%IH. split; [done|by apply stored_by_app]. }
  destruct o as [name type dv lo hi allowed|name v|cb]; simpl; [| |done].
  - unfold define. destruct (parameters_ pm !! name) eqn:E; [done|].
    destruct (validate _ _) as [[]|] eqn:Hv; simpl; [|done].
    intros [[<- <-]|[? ?]]%lookup_insert_Some; [|auto]. split; [by apply validate_ok|].
    exists dv. simpl. set_solver.
  - unfold set. destruct (parameters_ pm !! name) as [def|] eqn:E; [|done].
    destruct (validate def v) as [[]|] eqn:Hv; simpl; [|done]. destruct (same_value _ _); simpl; [done|].
    intros [[<- <-]|[? ?]]%lookup_insert_Some; [|auto]. split; [by apply validate_ok in Hv|].
    destruct (IH _ _ E) as [_ (dv & ? & _)]. exists dv. simpl. set_solver.
Qed.
End Parameters.

(** C38. After any sequence of definitions, updates and registrations, a stored
    parameter has the type, bounds and allowed values some [define] gave it,
    and its value is that definition's default or one a [set] asked for.  The
    value is valid: of the declared type; if a number, not below the minimum
    and not above the maximum, where an integer is compared as the nearest
    double and a NaN, which compares with nothing, is not refused; and if a
    string with allowed values, one of them.  And [set] draws the same line: it
    accepts exactly the valid values, after which the parameter reads as the
    value set or one equal to it, and refuses the others, changing nothing. *)
Theorem parameter_values_always_valid `{FloatText} ops name def :
  get_definition name (run_ops ops) = Some def →
  stored_by ops name def ∧ valid_value def (pd_value def) ∧
  ∀ v, match set name v (run_ops ops) with
       | (Ok _, _, pm') =>
           valid_value def v ∧ ∃ w, get name pm' = Some w ∧ (w = v ∨ same_value w v = true)
       | (Err _, notes, pm') => ¬ valid_value def v ∧ notes = [] ∧ pm' = run_ops ops
       end.
Proof.
  intros Hd. unfold get_definition in Hd. destruct (run_ops_inv _ _ _ Hd) as [Hv Hs]. split_and!; [done..|].
  intros v. unfold set, get. rewrite Hd. pose proof (validate_ok def v) as Hok.
  destruct (validate def v) as [[]|]; [|split_and!; [by intros ?%Hok|done..]].
  destruct (same_value (pd_value def) v) eqn:Es; (split; [by apply Hok|]); simpl.
  - exists (pd_value def). rewrite Hd. auto.
  - exists v. rewrite lookup_insert_eq. auto.
Qed.

Definition plain_text : FloatText := Build_FloatText (λ _, "d") (λ _, "d") (λ _, "d").

(** A bounded integer, set out of range, in range, and to a value of another type. *)
Definition sample_ops : list PmOp :=
  [Define "gain" INT64 (PInt64 5) (Some (double_of_Z 0)) (Some (double_of_Z 10)) None;
   Set_ "gain" (PInt64 11); Set_ "gain" (PInt64 7); Set_ "gain" (PBool true)].

Definition sample_def : ParameterDef :=
  mkParameterDef "gain" INT64 (PInt64 7) (Some (double_of_Z 0)) (Some (double_of_Z 10)) None true.

Example parameter_values_always_valid_witness :
  let _ := plain_text in
  stored_by sample_ops "gain" sample_def ∧ valid_value sample_def (PInt64 7) ∧
  ∀ v, match set "gain" v (run_ops sample_ops) with
       | (Ok _, _, pm') =>
           valid_value sample_def v ∧ ∃ w, get "gain" pm' = Some w ∧ (w = v ∨ same_value w v = true)
       | (Err _, notes, pm') => ¬ valid_value sample_def v ∧ notes = [] ∧ pm' = run_ops sample_ops
       end.
Proof.
  exact (parameter_values_always_valid (H := plain_text) sample_ops "gain" sample_def
    ltac:(vm_compute; reflexivity)).
Defined.

(** An update either fails and changes nothing, notifying nobody, or
    succeeds; then the value read back equals the one set (by the value's own
    ==), every other parameter is untouched, the definition's type and
    constraints are kept, and each registered callback is notified exactly once
    and only if the value changed. *)
Theorem set_behaviour `{FloatText} (name : string) (value : ParameterValue) (pm : ParameterManager) :
  match set name value pm with
  | (Err _, notes, pm') =>
      notes = [] ∧ pm' = pm ∧
      (∀ def, get_definition name pm = Some def → validate def value ≠ Ok tt)
  | (Ok _, notes, pm') =>
      (∀ other, other ≠ name → get_definition other pm' = get_definition other pm) ∧
      pm_callbacks_ pm' = pm_callbacks_ pm ∧
      ∃ def, get_definition name pm = Some def ∧ validate def value = Ok tt ∧
             ((same_value (pd_value def) value = true ∧ pm' = pm ∧ notes = []) ∨
              (same_value (pd_value def) value = false ∧ get name pm' = Some value ∧
               get_definition name pm' = Some (with_value def value) ∧
               notes = (λ cb, (cb, name, pd_value def, value)) <$> pm_callbacks_ pm))
  end.
Proof.
  unfold set, get, get_definition.
  destruct (parameters_ pm !! name) as [def|] eqn:E; [|by split_and!].
  destruct (validate def value) as [[]|] eqn:Hv.
  - destruct (same_value _ _) eqn:Hs; simpl; (split; [|split; [done|]]).
    + done.
    + exists def. split_and!; [done..|]. by left.
    + intros other Hne. by rewrite lookup_insert_ne.
    + exists def. split_and!; [done..|]. right. by rewrite lookup_insert_eq.
  - split_and!; [done..|]. intros ? [= <-]. congruence.
Qed.

(** The event layer's form of a parameter value converts back to it, and a
    uint64 converts to the same integer or is refused: it never wraps. *)
Theorem typed_value_conversion (v : ParameterValue) (z : Z) :
  in_uint64 z →
  parameter_value_from_typed_value (parameter_value_to_typed_value v) = Ok v ∧
  parameter_value_from_typed_value (TUint64 z) =
    (if decide (z ≤ int64_max) then Ok (PInt64 z)
     else Err "uint64 value exceeds int64 range for ParameterValue").
Proof.
  intros Hz. split; [by destruct v|]. unfold parameter_value_from_typed_value.
  change (to_uint64 int64_max) with int64_max. rewrite Z.gtb_ltb.
  case_decide; [rewrite (proj2 (Z.ltb_ge _ _)) by lia|by rewrite (proj2 (Z.ltb_lt _ _)) by lia].
  rewrite to_int64_id; [done|]. unfold in_uint64, in_int64, int64_min in *. lia.
Qed.

Example typed_value_conversion_witness :
  parameter_value_from_typed_value (parameter_value_to_typed_value (PBool true)) = Ok (PBool true) ∧
  parameter_value_from_typed_value (TUint64 (2 ^ 63)) =
    (if decide (2 ^ 63 ≤ int64_max) then Ok (PInt64 (2 ^ 63))
     else Err "uint64 value exceeds int64 range for ParameterValue").
Proof. apply (typed_value_conversion (PBool true) (2 ^ 63)). by unfold in_uint64, uint64_max. Defined.
