(* ===== verification/EventEmitter.v ===== *)
(** * The event emitter ([core/events/event_emitter.cpp], [event_types.hpp])

    The event variants, the bounded per-subscriber queues, the subscriptions
    and the fan-out.  Queues are shared between an emitter and its
    subscriptions, so they live in a heap and are named by pointers.  [emit]
    chooses its targets under the emitter's mutex and pushes after releasing it:
    concurrent emits are a step relation in which the pushes of different
    threads interleave.  [front()] of an empty queue, and a call into a
    destroyed emitter, are undefined behaviour: [None].  Log lines other than
    the overflow warning are left out, and so is the wait of [pop], which only
    delays the section modelled here. *)

From S2P Require Import Prelude Parameters.

(** ** Events *)

(** [events::Quality]. *)
Inductive EQuality := Q_OK | Q_STALE | Q_UNAVAILABLE | Q_FAULT.

Inductive Event :=
| StateUpdate (event_id : Z) (provider_id device_id signal_id : string) (value : TypedValue)
    (quality : EQuality) (timestamp_ms : Z)
| QualityChange (event_id : Z) (provider_id device_id signal_id : string)
    (old_quality new_quality : EQuality) (timestamp_ms : Z)
| DeviceAvailability (event_id : Z) (provider_id device_id : string) (available : bool)
    (timestamp_ms : Z)
| ModeChange (event_id : Z) (previous_mode new_mode : string) (timestamp_ms : Z)
| ParameterChange (event_id : Z) (parameter_name old_value_str new_value_str : string)
    (timestamp_ms : Z)
| AutomationFault (event_id : Z) (locus error : string) (timestamp_ms : Z)
| AutomationCallFailed (event_id : Z) (device_handle function error : string)
    (consecutive_failures : Z) (timestamp_ms : Z)
| DeviceRemoved (event_id : Z) (provider_id device_id : string) (timestamp_ms : Z)
| StopChainChange (event_id : Z) (previous_state new_state reason : string) (timestamp_ms : Z)
| StopChainMismatchChange (event_id : Z) (device expect : string) (raised : bool)
    (reason : string) (timestamp_ms : Z).

Definition get_event_id (e : Event) : Z :=
  match e with
  | StateUpdate i _ _ _ _ _ _ | QualityChange i _ _ _ _ _ _ | DeviceAvailability i _ _ _ _
  | ModeChange i _ _ _ | ParameterChange i _ _ _ _ | AutomationFault i _ _ _
  | AutomationCallFailed i _ _ _ _ _ | DeviceRemoved i _ _ _ | StopChainChange i _ _ _ _
  | StopChainMismatchChange i _ _ _ _ _ => i
  end.

Definition get_timestamp_ms (e : Event) : Z :=
  match e with
  | StateUpdate _ _ _ _ _ _ t | QualityChange _ _ _ _ _ _ t | DeviceAvailability _ _ _ _ t
  | ModeChange _ _ _ t | ParameterChange _ _ _ _ t | AutomationFault _ _ _ t
  | AutomationCallFailed _ _ _ _ _ t | DeviceRemoved _ _ _ t | StopChainChange _ _ _ _ t
  | StopChainMismatchChange _ _ _ _ _ t => t
  end.

(** [std::visit([id](auto &&e) { e.event_id = id; }, event)]. *)
Definition assign_id (i : Z) (e : Event) : Event :=
  match e with
  | StateUpdate _ a b c v q t => StateUpdate i a b c v q t
  | QualityChange _ a b c o n t => QualityChange i a b c o n t
  | DeviceAvailability _ a b v t => DeviceAvailability i a b v t
  | ModeChange _ a b t => ModeChange i a b t
  | ParameterChange _ a b c t => ParameterChange i a b c t
  | AutomationFault _ a b t => AutomationFault i a b t
  | AutomationCallFailed _ a b c n t => AutomationCallFailed i a b c n t
  | DeviceRemoved _ a b t => DeviceRemoved i a b t
  | StopChainChange _ a b c t => StopChainChange i a b c t
  | StopChainMismatchChange _ a b r c t => StopChainMismatchChange i a b r c t
  end.

(** ** Filters *)

Record EventFilter := mkFilter { f_provider_id : string; f_device_id : string; f_signal_id : string }.

Definition all : EventFilter := mkFilter "" "" "".

(** The members a filter can look at, per event type. *)
Definition e_provider_id (e : Event) : option string :=
  match e with
  | StateUpdate _ p _ _ _ _ _ | QualityChange _ p _ _ _ _ _ | DeviceAvailability _ p _ _ _
  | DeviceRemoved _ p _ _ => Some p
  | _ => None
  end.

Definition e_device_id (e : Event) : option string :=
  match e with
  | StateUpdate _ _ d _ _ _ _ | QualityChange _ _ d _ _ _ _ | DeviceAvailability _ _ d _ _
  | DeviceRemoved _ _ d _ => Some d
  | _ => None
  end.

Definition e_signal_id (e : Event) : option string :=
  match e with
  | StateUpdate _ _ _ s _ _ _ | QualityChange _ _ _ s _ _ _ => Some s
  | _ => None
  end.

(** One of the three blocks: a non-empty filter refuses an event that has the
    member with another value. *)
Definition member_matches (wanted : string) (member : option string) : bool :=
  if bool_decide (wanted = "") then true
  else match member with Some x => bool_decide (x = wanted) | None => true end.

Definition matches (f : EventFilter) (e : Event) : bool :=
  if negb (member_matches (f_provider_id f) (e_provider_id e)) then false
  else if negb (member_matches (f_device_id f) (e_device_id e)) then false
  else if negb (member_matches (f_signal_id f) (e_signal_id e)) then false
  else true.

(** ** One subscriber's queue *)

Record SubscriberQueue := mkSubQueue {
  max_size_ : Z;
  name_ : string;
  queue_ : list Event;
  dropped_count_ : Z;
  closed_ : bool;
}.

Definition new_queue (max_size : Z) (name : string) : SubscriberQueue :=
  mkSubQueue max_size name [] 0 false.

Definition queue_size (q : SubscriberQueue) : Z := Z.of_nat (length (queue_ q)).

(** What [push] returns: [!overflowed], and whether it logs the overflow. *)
Record PushOutcome := mkPushed { accepted_without_drop : bool; should_log : bool }.

(** [dropped_count_] is a [size_t]. *)
Definition push (e : Event) (q : SubscriberQueue) : option (PushOutcome * SubscriberQueue) :=
  if max_size_ q <=? queue_size q then
    match queue_ q with
    | [] => None
    | _ :: rest =>
        let dropped := to_uint64 (dropped_count_ q + 1) in
        Some (mkPushed false (dropped mod 100 =? 1),
              mkSubQueue (max_size_ q) (name_ q) (rest ++ [e]) dropped (closed_ q))
    end
  else
    Some (mkPushed true false,
          mkSubQueue (max_size_ q) (name_ q) (queue_ q ++ [e]) (dropped_count_ q) (closed_ q)).

(** What a blocked [pop] waits for, within its timeout. *)
Definition pop_wakes (q : SubscriberQueue) : bool := negb (bool_decide (queue_ q = [])) || closed_ q.

Definition pop (q : SubscriberQueue) : option Event * SubscriberQueue :=
  match queue_ q with
  | [] => (None, q)
  | e :: rest => (Some e, mkSubQueue (max_size_ q) (name_ q) rest (dropped_count_ q) (closed_ q))
  end.

Definition try_pop (q : SubscriberQueue) : option Event * SubscriberQueue := pop q.

Definition close (q : SubscriberQueue) : SubscriberQueue :=
  mkSubQueue (max_size_ q) (name_ q) (queue_ q) (dropped_count_ q) true.

(** ** The emitter *)

(** [std::shared_ptr<SubscriberQueue>]: an index into the queues allocated so far. *)
Abbreviation queue_ptr := nat.
Abbreviation Queues := (list SubscriberQueue).

Record SubscriberInfo := mkInfo { si_queue : queue_ptr; si_filter : EventFilter; si_name : string }.

Record EventEmitter := mkEmitter {
  default_queue_size_ : Z;
  max_subscribers_ : Z;
  subscribers_ : gmap Z SubscriberInfo;
  next_subscription_id_ : Z;
  next_event_id_ : Z;
}.

Definition new_emitter (default_queue_size max_subscribers : Z) : EventEmitter :=
  mkEmitter default_queue_size max_subscribers ∅ 1 1.

Definition subscriber_count (em : EventEmitter) : Z := Z.of_nat (size (subscribers_ em)).

Definition at_capacity (em : EventEmitter) : bool :=
  (0 <? max_subscribers_ em) && (max_subscribers_ em <=? subscriber_count em).

(** A subscription handle. [sub_fn] says that [unsubscribe_fn_] is set. *)
Record Subscription := mkSubscription { sub_id : Z; sub_queue : option queue_ptr; sub_fn : bool }.

Definition subscribe (filter : EventFilter) (queue_size : Z) (name : string)
    (em : EventEmitter) (h : Queues) : option Subscription * EventEmitter * Queues :=
  if at_capacity em then (None, em, h)
  else
    let id := next_subscription_id_ em in
    let actual_queue_size := if 0 <? queue_size then queue_size else default_queue_size_ em in
    let p := length h in
    (Some (mkSubscription id (Some p) true),
     mkEmitter (default_queue_size_ em) (max_subscribers_ em)
       (<[id := mkInfo p filter name]> (subscribers_ em)) (to_uint64 (id + 1)) (next_event_id_ em),
     h ++ [new_queue actual_queue_size name]).

(** [EventEmitter::unsubscribe]. *)
Definition emitter_unsubscribe (id : Z) (em : EventEmitter) (h : Queues) : EventEmitter * Queues :=
  match subscribers_ em !! id with
  | None => (em, h)
  | Some info =>
      (mkEmitter (default_queue_size_ em) (max_subscribers_ em) (delete id (subscribers_ em))
         (next_subscription_id_ em) (next_event_id_ em),
       alter close (si_queue info) h)
  end.

(** [~EventEmitter]: close every queue. *)
Definition destroy_emitter (em : EventEmitter) (h : Queues) : Queues :=
  foldr (λ kv h, alter close (si_queue kv.2) h) h (map_to_list (subscribers_ em)).

(** The locked half of [emit]: the event with its id, and the queues it goes to. *)
Definition targets (em : EventEmitter) (e : Event) : list queue_ptr :=
  (λ kv, si_queue kv.2) <$> filter (λ kv, matches (si_filter kv.2) e = true) (map_to_list (subscribers_ em)).

Definition emit_begin (e : Event) (em : EventEmitter) : Event * list queue_ptr * EventEmitter :=
  let id := next_event_id_ em in
  let e' := assign_id id e in
  (e', targets em e',
   mkEmitter (default_queue_size_ em) (max_subscribers_ em) (subscribers_ em)
     (next_subscription_id_ em) (to_uint64 (id + 1))).

Definition push_at (e : Event) (p : queue_ptr) (h : Queues) : option Queues :=
  match h !! p with
  | None => None
  | Some q => match push e q with Some (_, q') => Some (<[p := q']> h) | None => None end
  end.

Fixpoint push_all (e : Event) (ps : list queue_ptr) (h : Queues) : option Queues :=
  match ps with
  | [] => Some h
  | p :: r => match push_at e p h with Some h' => push_all e r h' | None => None end
  end.

(** [emit] with no other thread in between. *)
Definition emit (e : Event) (em : EventEmitter) (h : Queues) : option (EventEmitter * Queues) :=
  let '(e', ps, em') := emit_begin e em in
  match push_all e' ps h with Some h' => Some (em', h') | None => None end.

(** ** Subscriptions

    An emitter that may have been destroyed: [None]. *)

Definition queue_at (h : Queues) (s : Subscription) : option SubscriberQueue :=
  match sub_queue s with Some p => h !! p | None => None end.

Definition sub_pop (s : Subscription) (h : Queues) : option Event * Queues :=
  match sub_queue s with
  | None => (None, h)
  | Some p => match h !! p with
              | Some q => let '(r, q') := pop q in (r, <[p := q']> h)
              | None => (None, h)
              end
  end.

Definition is_active (h : Queues) (s : Subscription) : bool :=
  match queue_at h s with Some q => negb (closed_ q) | None => false end.

(** [Subscription::unsubscribe]; [None]: the callback ran on a destroyed emitter. *)
Definition sub_unsubscribe (s : Subscription) (em : option EventEmitter) (h : Queues)
    : option (Subscription * option EventEmitter * Queues) :=
  if negb (sub_id s =? 0) && sub_fn s then
    let s' := mkSubscription 0 (sub_queue s) (sub_fn s) in
    let finish em h :=
      Some (s', em, match sub_queue s with Some p => alter close p h | None => h end) in
    if is_active h s then
      match em with
      | Some em => let '(em', h') := emitter_unsubscribe (sub_id s) em h in finish (Some em') h'
      | None => None
      end
    else finish em h
  else Some (s, em, h).

(** The moved-to and the moved-from handle of the move constructor. *)
Definition sub_move (other : Subscription) : Subscription * Subscription :=
  (mkSubscription (sub_id other) (sub_queue other) (sub_fn other), mkSubscription 0 None false).

(** Move assignment of two different handles. *)
Definition sub_move_assign (s other : Subscription) (em : option EventEmitter) (h : Queues)
    : option (Subscription * Subscription * option EventEmitter * Queues) :=
  match sub_unsubscribe s em h with
  | None => None
  | Some (_, em', h') => let '(s', other') := sub_move other in Some (s', other', em', h')
  end.

(** ** The queue against its history *)

Inductive QueueOp := OpPush (e : Event) | OpPop | OpClose.

(** The queue after a sequence of operations, with every event pushed and every
    event popped so far. *)
Fixpoint run_queue (ops : list QueueOp) (q : SubscriberQueue) (pushed popped : list Event)
    : option (SubscriberQueue * list Event * list Event) :=
  match ops with
  | [] => Some (q, pushed, popped)
  | OpPush e :: r =>
      match push e q with
      | Some (_, q') => run_queue r q' (pushed ++ [e]) popped
      | None => None
      end
  | OpPop :: r =>
      let '(x, q') := pop q in run_queue r q' pushed (popped ++ option_list x)
  | OpClose :: r => run_queue r (close q) pushed popped
  end.

(** The queue holds the events that follow the popped and the dropped ones. *)
Record queue_tracks (q : SubscriberQueue) (pushed popped : list Event) : Prop := {
  qt_bound : queue_size q ≤ max_size_ q;
  qt_tail : queue_ q = drop (length popped + Z.to_nat (dropped_count_ q)) pushed;
  qt_count : (length popped + Z.to_nat (dropped_count_ q) + length (queue_ q) = length pushed)%nat;
  qt_order : (popped ++ queue_ q) `sublist_of` pushed;
  qt_dropped : 0 ≤ dropped_count_ q ≤ Z.of_nat (length pushed);
}.

Lemma queue_tracks_new n name : 0 ≤ n → queue_tracks (new_queue n name) [] [].
Proof. by constructor. Qed.

Lemma queue_tracks_push q pushed popped e :
  0 < max_size_ q → Z.of_nat (length pushed) < uint64_max → queue_tracks q pushed popped →
  ∃ o q', push e q = Some (o, q') ∧ max_size_ q' = max_size_ q ∧
          queue_tracks q' (pushed ++ [e]) popped.
Proof.
  intros Hmax Hlen [Hb Ht Hc Ho Hd]. unfold push, queue_size in *.
  destruct (Z.leb_spec (max_size_ q) (Z.of_nat (length (queue_ q)))).
  - destruct (queue_ q) as [|x rest] eqn:Hq; simpl in *; [lia|].
    assert (to_uint64 (dropped_count_ q + 1) = dropped_count_ q + 1) as Hw
      by (apply to_uint64_id; unfold in_uint64; lia).
    do 2 eexists. split; [done|]. split; [done|].
    assert (rest = drop (length popped + Z.to_nat (dropped_count_ q + 1)) pushed) as Hrest.
    { replace (length popped + Z.to_nat (dropped_count_ q + 1))%nat
        with (length popped + Z.to_nat (dropped_count_ q) + 1)%nat by lia.
      by rewrite <- drop_drop, <- Ht. }
    constructor; unfold queue_size; simpl; rewrite ?Hw, ?length_app; simpl; [lia| |lia| |lia].
    + rewrite drop_app_le by lia. by rewrite <- Hrest.
    + rewrite app_assoc. apply sublist_app; [|done]. etrans; [|apply Ho].
      apply sublist_app; [done|]. by apply sublist_cons.
  - do 2 eexists. split; [done|]. split; [done|].
    constructor; unfold queue_size; simpl; rewrite ?length_app; simpl; [lia| |lia| |lia].
    + rewrite drop_app_le by lia. by rewrite <- Ht.
    + rewrite app_assoc. by apply sublist_app.
Qed.

Lemma queue_tracks_pop q pushed popped :
  queue_tracks q pushed popped →
  max_size_ (pop q).2 = max_size_ q ∧
  queue_tracks (pop q).2 pushed (popped ++ option_list (pop q).1).
Proof.
  intros [Hb Ht Hc Ho Hd]. unfold pop, queue_size in *.
  destruct (queue_ q) as [|x rest] eqn:Hq; simpl; split; try done.
  - rewrite app_nil_r. constructor; unfold queue_size; rewrite ?Hq; done.
  - simpl in *. constructor; unfold queue_size; simpl; rewrite ?length_app; simpl; [lia| |lia| |lia].
    + replace (length popped + 1 + Z.to_nat (dropped_count_ q))%nat
        with (length popped + Z.to_nat (dropped_count_ q) + 1)%nat by lia.
      by rewrite <- drop_drop, <- Ht.
    + by rewrite <- app_assoc.
Qed.

Lemma queue_tracks_close q pushed popped :
  queue_tracks q pushed popped → queue_tracks (close q) pushed popped.
Proof. intros [? ? ? ? ?]. by constructor. Qed.

Lemma run_queue_tracks ops q pushed popped :
  0 < max_size_ q → Z.of_nat (length pushed + length ops) ≤ uint64_max →
  queue_tracks q pushed popped →
  ∃ q' pushed' popped', run_queue ops q pushed popped = Some (q', pushed', popped') ∧
    max_size_ q' = max_size_ q ∧ queue_tracks q' pushed' popped'.
Proof.
  revert q pushed popped. induction ops as [|o ops IH]; intros q pushed popped Hm Hl Hq; simpl in *.
  { by exists q, pushed, popped. }
  destruct o as [e| |].
  - destruct (queue_tracks_push q pushed popped e) as (o & q' & -> & Hmax & Ht); [done|lia|done|].
    rewrite <- Hmax in *. apply IH; [done| |done]. rewrite length_app. simpl. lia.
  - destruct (queue_tracks_pop _ _ _ Hq) as [Hmax Ht]. destruct (pop q) as [x q']. simpl in *.
    rewrite <- Hmax in *. apply IH; [done|lia|done].
  - apply (IH (close q)); [done|lia|by apply queue_tracks_close].
Qed.

(** A subscriber's queue of positive capacity is never undefined and never
    exceeds it: after any sequence of pushes, pops and closes it holds exactly
    the newest events not yet popped, in order, the oldest having been dropped
    and counted, so the consumer sees a subsequence of what was pushed. *)
Theorem queue_keeps_newest ops n name :
  0 < n → Z.of_nat (length ops) ≤ uint64_max →
  ∃ q pushed popped, run_queue ops (new_queue n name) [] [] = Some (q, pushed, popped) ∧
    queue_size q ≤ n ∧
    queue_ q = drop (length popped + Z.to_nat (dropped_count_ q)) pushed ∧
    Z.of_nat (length pushed) = Z.of_nat (length popped) + dropped_count_ q + queue_size q ∧
    (popped ++ queue_ q) `sublist_of` pushed.
Proof.
  intros Hn Hl. destruct (run_queue_tracks ops (new_queue n name) [] []) as (q & us & ps & Hr & Hm & H).
  { done. } { simpl. lia. } { apply queue_tracks_new. lia. }
  exists q, us, ps. destruct H as [Hb Ht Hc Ho Hd]. simpl in Hm. unfold queue_size in *.
  split_and!; [done|lia|done|lia|done].
Qed.

Example queue_keeps_newest_witness :
  ∃ q pushed popped,
    run_queue [OpPush (ModeChange 1 "IDLE" "MANUAL" 0); OpPush (ModeChange 2 "MANUAL" "AUTO" 0);
               OpPush (ModeChange 3 "AUTO" "FAULT" 0); OpPop] (new_queue 2 "sse") [] []
      = Some (q, pushed, popped) ∧
    queue_size q ≤ 2 ∧
    queue_ q = drop (length popped + Z.to_nat (dropped_count_ q)) pushed ∧
    Z.of_nat (length pushed) = Z.of_nat (length popped) + dropped_count_ q + queue_size q ∧
    (popped ++ queue_ q) `sublist_of` pushed.
Proof. apply (queue_keeps_newest _ 2 "sse"); [lia|vm_compute; discriminate]. Defined.

(** ** Concurrent emits

    What threads do with the emitter, in the order it happens: subscriptions
    granted, unsubscriptions, the locked sections of [emit], the calls of [push]
    and of [pop] on a queue, with what the pop returned. *)
Inductive Act :=
| Subscribed (f : EventFilter) (s : Subscription)
| Unsubscribed (id : Z)
| Emitted (e : Event)
| Pushed (p : queue_ptr) (e : Event)
| Popped (p : queue_ptr) (r : option Event).

(** [sys_threads] are the threads inside [emit] that have released the mutex,
    with the pushes they still owe; [sys_acts] is only the record of what has
    happened. *)
Record System := mkSys {
  sys_emitter : EventEmitter;
  sys_queues : Queues;
  sys_threads : list (Event * list queue_ptr);
  sys_acts : list Act;
}.

Inductive emit_step : System → System → Prop :=
| step_begin e e' ps ps' em em' h ts acts :
    (* the map is unordered: any order of the targets *)
    emit_begin e em = (e', ps, em') → ps' ≡ₚ ps →
    emit_step (mkSys em h ts acts) (mkSys em' h (ts ++ [(e', ps')]) (acts ++ [Emitted e]))
| step_push e p ps ts1 ts2 em h h' acts :
    push_at e p h = Some h' →
    emit_step (mkSys em h (ts1 ++ (e, p :: ps) :: ts2) acts)
              (mkSys em h' (ts1 ++ (e, ps) :: ts2) (acts ++ [Pushed p e]))
| step_return e ts1 ts2 em h acts :
    emit_step (mkSys em h (ts1 ++ (e, []) :: ts2) acts) (mkSys em h (ts1 ++ ts2) acts)
| step_subscribe f n name s em em' h h' ts acts :
    0 ≤ n → subscribe f n name em h = (s, em', h') →
    emit_step (mkSys em h ts acts) (mkSys em' h' ts (acts ++ option_list (Subscribed f <$> s)))
| step_unsubscribe id em em' h h' ts acts :
    emitter_unsubscribe id em h = (em', h') →
    emit_step (mkSys em h ts acts) (mkSys em' h' ts (acts ++ [Unsubscribed id]))
| step_pop p q em h ts acts :
    h !! p = Some q →
    emit_step (mkSys em h ts acts) (mkSys em (<[p := (pop q).2]> h) ts (acts ++ [Popped p (pop q).1])).

Definition start (default_queue_size max_subscribers : Z) : System :=
  mkSys (new_emitter default_queue_size max_subscribers) [] [] [].

(** *** What a subscriber is owed

    Said of the acts alone.  A filter selects an event unless the filter names
    a member that the event carries with another value. *)
Definition member_ok (wanted : string) (member : option string) : Prop :=
  wanted = "" ∨ member = None ∨ member = Some wanted.

Definition selects (f : EventFilter) (e : Event) : Prop :=
  member_ok (f_provider_id f) (e_provider_id e) ∧ member_ok (f_device_id f) (e_device_id e) ∧
  member_ok (f_signal_id f) (e_signal_id e).

#[global] Instance selects_dec f e : Decision (selects f e).
Proof. unfold selects, member_ok. apply _. Defined.

(** The number the next event gets, the subscription the queue now belongs to,
    and the events it is owed so far. *)
Record Owed := mkOwed { ow_next : Z; ow_live : option (Z * EventFilter); ow_events : list Event }.

Definition owe (p : queue_ptr) (o : Owed) (a : Act) : Owed :=
  match a with
  | Subscribed f s =>
      if decide (sub_queue s = Some p) then mkOwed (ow_next o) (Some (sub_id s, f)) (ow_events o) else o
  | Unsubscribed id =>
      if decide (fst <$> ow_live o = Some id) then mkOwed (ow_next o) None (ow_events o) else o
  | Emitted e =>
      mkOwed (ow_next o + 1) (ow_live o)
        (ow_events o ++
         match ow_live o with
         | Some (_, f) => if decide (selects f e) then [assign_id (ow_next o) e] else []
         | None => []
         end)
  | Pushed _ _ | Popped _ _ => o
  end.

Definition owed (p : queue_ptr) (acts : list Act) : Owed := foldl (owe p) (mkOwed 1 None []) acts.

(** *** What a bounded queue holds

    A push keeps the newest [cap] events and counts the others; a pop takes
    the oldest. *)
Definition hold_act (p : queue_ptr) (cap : nat) (k : list Event * nat) (a : Act) : list Event * nat :=
  match a with
  | Pushed p' e =>
      if decide (p' = p) then
        let over := (S (length k.1) - cap)%nat in (drop over (k.1 ++ [e]), (k.2 + over)%nat)
      else k
  | Popped p' _ => if decide (p' = p) then (tail k.1, k.2) else k
  | _ => k
  end.

Definition held (p : queue_ptr) (cap : nat) (acts : list Act) : list Event * nat := foldl (hold_act p cap) ([], 0%nat) acts.

(** Every pop of [p] returned the oldest event held, none when there was none. *)
Definition pops_oldest (p : queue_ptr) (cap : nat) (acts : list Act) : Prop :=
  ∀ before r after, acts = before ++ Popped p r :: after → r = head (held p cap before).1.

(** The pushes that were made, and those a list of emits comes to. *)
Definition sys_log (s : System) : list (queue_ptr * Event) :=
  omap (λ a, match a with Pushed p e => Some (p, e) | _ => None end) (sys_acts s).

Definition pushes (l : list (Event * list queue_ptr)) : list (queue_ptr * Event) :=
  l ≫= λ ep, (λ p, (p, ep.1)) <$> ep.2.

Definition pushed_to (p : queue_ptr) (log : list (queue_ptr * Event)) : list Event :=
  snd <$> filter (λ pe, pe.1 = p) log.

Lemma pushes_app l l' : pushes (l ++ l') = pushes l ++ pushes l'.
Proof. apply bind_app. Qed.

Lemma pushed_to_app p l l' : pushed_to p (l ++ l') = pushed_to p l ++ pushed_to p l'.
Proof. unfold pushed_to. by rewrite filter_app, fmap_app. Qed.

Lemma pushed_to_one p p' e : pushed_to p [(p', e)] = if decide (p' = p) then [e] else [].
Proof. unfold pushed_to. rewrite filter_cons. by case_decide; case_decide. Qed.

#[global] Instance pushed_to_perm p : Proper ((≡ₚ) ==> (≡ₚ)) (pushed_to p).
Proof. intros l l' Hl. unfold pushed_to. by rewrite Hl. Qed.

Lemma sys_log_app em h ts acts acts' :
  sys_log (mkSys em h ts (acts ++ acts')) = sys_log (mkSys em h ts acts) ++ sys_log (mkSys em h ts acts').
Proof. apply omap_app. Qed.

Lemma get_assign_id i e : get_event_id (assign_id i e) = i.
Proof. by destruct e. Qed.

Lemma assign_id_selects i f e : selects f (assign_id i e) ↔ selects f e.
Proof. by destruct e. Qed.

Lemma member_matches_ok w m : member_matches w m = true ↔ member_ok w m.
Proof.
  unfold member_matches, member_ok. case_bool_decide; [by split; [left|]|].
  destruct m; [rewrite bool_decide_eq_true|]; naive_solver.
Qed.

Lemma matches_selects f e : matches f e = true ↔ selects f e.
Proof.
  unfold matches, selects. rewrite <- !member_matches_ok.
  repeat match goal with |- context [member_matches ?w ?m] => destruct (member_matches w m) end; naive_solver.
Qed.

Lemma elem_of_targets em e p :
  p ∈ targets em e ↔
  ∃ id i, subscribers_ em !! id = Some i ∧ si_queue i = p ∧ selects (si_filter i) e.
Proof.
  unfold targets. rewrite list_elem_of_fmap. setoid_rewrite <- matches_selects. split.
  - intros ([id i] & -> & [Hm Hin]%list_elem_of_filter). apply elem_of_map_to_list in Hin. eauto.
  - intros (id & i & Hi & <- & Hm). exists (id, i). split; [done|].
    by rewrite list_elem_of_filter, elem_of_map_to_list.
Qed.

Definition queues_differ (em : EventEmitter) : Prop :=
  ∀ id1 id2 i1 i2, subscribers_ em !! id1 = Some i1 → subscribers_ em !! id2 = Some i2 →
    si_queue i1 = si_queue i2 → id1 = id2.

Lemma targets_NoDup em e : queues_differ em → NoDup (targets em e).
Proof.
  intros Hinj. unfold targets. apply NoDup_fmap_2_strong; [|apply NoDup_filter, NoDup_map_to_list].
  intros [id1 i1] [id2 i2] [_ H1]%list_elem_of_filter [_ H2]%list_elem_of_filter Heq. simpl in Heq.
  apply elem_of_map_to_list in H1, H2. assert (id1 = id2) as <- by eauto. by simplify_eq.
Qed.

Lemma elem_of_pushes p e l : (p, e) ∈ pushes l ↔ ∃ ps, (e, ps) ∈ l ∧ p ∈ ps.
Proof.
  unfold pushes. rewrite list_elem_of_bind. split.
  - intros ([e' ps] & Hin & Hl). apply list_elem_of_fmap in Hin as (? & [= -> ->] & ?). eauto.
  - intros (ps & Hl & Hp). exists (e, ps). split; [|done]. apply list_elem_of_fmap. eauto.
Qed.

Lemma elem_of_pushed_to p e l : e ∈ pushed_to p l ↔ (p, e) ∈ l.
Proof.
  unfold pushed_to. rewrite list_elem_of_fmap. split.
  - by intros ([p' e'] & -> & [<- ?]%list_elem_of_filter).
  - intros. exists (p, e). by rewrite list_elem_of_filter.
Qed.

(** One emit pushes into a queue at most once. *)
Lemma pushed_to_targets p e ps :
  NoDup ps → pushed_to p (pushes [(e, ps)]) = if decide (p ∈ ps) then [e] else [].
Proof.
  unfold pushes. csimpl. rewrite app_nil_r. induction 1 as [|p' ps Hnin _ IH]; [done|].
  change ((λ p0, (p0, e)) <$> p' :: ps) with ([(p', e)] ++ ((λ p0, (p0, e)) <$> ps)).
  rewrite pushed_to_app, pushed_to_one, IH. repeat case_decide; set_solver.
Qed.

(** *** The invariant *)

Record queue_ok (p : queue_ptr) (q : SubscriberQueue) (acts : list Act) : Prop := {
  qo_max : 0 < max_size_ q;
  qo_bound : queue_size q ≤ max_size_ q;
  qo_queue : queue_ q = (held p (Z.to_nat (max_size_ q)) acts).1;
  qo_dropped : dropped_count_ q = Z.of_nat (held p (Z.to_nat (max_size_ q)) acts).2;
  qo_few : dropped_count_ q ≤ Z.of_nat (length acts);
  qo_pops : pops_oldest p (Z.to_nat (max_size_ q)) acts;
}.

(** The subscription a queue belongs to is the one registered with it. *)
Definition owner_ok (em : EventEmitter) (p : queue_ptr) (live : option (Z * EventFilter)) : Prop :=
  ∀ id f, live = Some (id, f) ↔ ∃ i, subscribers_ em !! id = Some i ∧ si_queue i = p ∧ si_filter i = f.

Record system_ok (n : nat) (s : System) : Prop := {
  so_default : 0 < default_queue_size_ (sys_emitter s);
  so_ptr : ∀ id i, subscribers_ (sys_emitter s) !! id = Some i →
    id < next_subscription_id_ (sys_emitter s) ∧ (si_queue i < length (sys_queues s))%nat;
  so_inj : queues_differ (sys_emitter s);
  so_pending : ∀ p e, (p, e) ∈ pushes (sys_threads s) → (p < length (sys_queues s))%nat;
  so_queues : ∀ p q, sys_queues s !! p = Some q → queue_ok p q (sys_acts s);
  so_unborn : ∀ p cap, (length (sys_queues s) ≤ p)%nat →
    held p cap (sys_acts s) = ([], 0%nat) ∧ ∀ r, Popped p r ∉ sys_acts s;
  so_owner : ∀ p, owner_ok (sys_emitter s) p (ow_live (owed p (sys_acts s)));
  so_owed : ∀ p, pushed_to p (sys_log s) ++ pushed_to p (pushes (sys_threads s)) ≡ₚ ow_events (owed p (sys_acts s));
  so_next : ∀ p, ow_next (owed p (sys_acts s)) = next_event_id_ (sys_emitter s);
  so_steps : (length (sys_acts s) ≤ n)%nat ∧ 1 ≤ next_event_id_ (sys_emitter s) ≤ 1 + Z.of_nat n ∧
    1 ≤ next_subscription_id_ (sys_emitter s) ≤ 1 + Z.of_nat n;
}.

Lemma held_snoc p cap acts a : held p cap (acts ++ [a]) = hold_act p cap (held p cap acts) a.
Proof. apply foldl_snoc. Qed.

Lemma owed_snoc p acts a : owed p (acts ++ [a]) = owe p (owed p acts) a.
Proof. apply foldl_snoc. Qed.

Lemma pops_oldest_snoc p cap acts a :
  pops_oldest p cap acts → (∀ r, a = Popped p r → r = head (held p cap acts).1) → pops_oldest p cap (acts ++ [a]).
Proof.
  intros Hold Ha before r after. destruct after as [|x after _] using rev_ind; intros Heq.
  - apply app_inj_tail in Heq as [-> ->]. by apply Ha.
  - rewrite app_comm_cons, app_assoc in Heq. apply app_inj_tail in Heq as [-> _]. by eapply Hold.
Qed.

(** An act that does not touch the queue. *)
Definition elsewhere (p : queue_ptr) (a : Act) : Prop :=
  match a with Pushed p' _ | Popped p' _ => p' ≠ p | _ => True end.

Lemma hold_act_elsewhere p cap k a : elsewhere p a → hold_act p cap k a = k.
Proof. by destruct a; simpl; intros; rewrite ?decide_False. Qed.

Lemma queue_ok_elsewhere p q acts a : elsewhere p a → queue_ok p q acts → queue_ok p q (acts ++ [a]).
Proof.
  intros Ha [Hm Hb Hq Hd Hf Hp]. constructor; rewrite ?held_snoc, ?hold_act_elsewhere by done; try done.
  - rewrite length_app. lia.
  - apply pops_oldest_snoc; [done|]. intros r ->. done.
Qed.

Lemma queue_ok_push p q acts e :
  queue_ok p q acts → Z.of_nat (length acts) < uint64_max →
  ∃ o q', push e q = Some (o, q') ∧ queue_ok p q' (acts ++ [Pushed p e]).
Proof.
  intros [Hm Hb Hq Hd Hf Hp] Hlen. unfold push, queue_size in *.
  assert (pops_oldest p (Z.to_nat (max_size_ q)) (acts ++ [Pushed p e])) as Hp' by by apply pops_oldest_snoc.
  destruct (Z.leb_spec (max_size_ q) (Z.of_nat (length (queue_ q)))).
  - destruct (queue_ q) as [|x rest] eqn:E; simpl in *; [lia|].
    assert (to_uint64 (dropped_count_ q + 1) = dropped_count_ q + 1) as Hw
      by (apply to_uint64_id; unfold in_uint64; lia).
    do 2 eexists. split; [done|]. constructor; unfold queue_size; simpl;
      rewrite ?held_snoc, ?length_app; simpl; rewrite ?decide_True, <- ?Hq, ?Hw by done; simpl; [lia|lia| |lia|lia|done].
    by replace (S (S (length rest)) - Z.to_nat (max_size_ q))%nat with 1%nat by lia.
  - do 2 eexists. split; [done|]. constructor; unfold queue_size; simpl;
      rewrite ?held_snoc, ?length_app; simpl; rewrite ?decide_True, <- ?Hq by done; simpl; [lia|lia| |lia|lia|done].
    by replace (S (length (queue_ q)) - Z.to_nat (max_size_ q))%nat with 0%nat by lia.
Qed.

Lemma queue_ok_pop p q acts : queue_ok p q acts → queue_ok p (pop q).2 (acts ++ [Popped p (pop q).1]).
Proof.
  intros [Hm Hb Hq Hd Hf Hp].
  assert (max_size_ (pop q).2 = max_size_ q ∧ dropped_count_ (pop q).2 = dropped_count_ q ∧
          queue_ (pop q).2 = tail (queue_ q) ∧ (pop q).1 = head (queue_ q)) as (Em & Ed & Eq & Er).
  { unfold pop. by destruct (queue_ q) eqn:E. }
  unfold queue_size in *.
  constructor; unfold queue_size; rewrite ?Em, ?Ed, ?Eq, ?held_snoc, ?length_app; simpl;
    rewrite ?decide_True, <- ?Hq by done; simpl; [done| |done|done|lia|].
  - destruct (queue_ q); simpl in *; lia.
  - apply pops_oldest_snoc; [done|]. intros r [= <-]. by rewrite Er, Hq.
Qed.

Lemma queue_ok_close p q acts : queue_ok p q acts → queue_ok p (close q) acts.
Proof. intros [? ? ? ? ? ?]. by constructor. Qed.

Lemma queue_ok_new p n name acts :
  0 < n → held p (Z.to_nat n) acts = ([], 0%nat) → (∀ r, Popped p r ∉ acts) → queue_ok p (new_queue n name) acts.
Proof.
  intros Hn Hh Hp. constructor; unfold queue_size; simpl; rewrite ?Hh; try done; try lia.
  intros before r after ->. destruct (Hp r). set_solver.
Qed.

(** A thread that has a push to make can always make it. *)
Lemma push_at_defined n s e p :
  system_ok n s → Z.of_nat n < uint64_max → (p, e) ∈ pushes (sys_threads s) →
  ∃ h', push_at e p (sys_queues s) = Some h'.
Proof.
  intros Hok Hn Hin. apply (so_pending _ _ Hok), lookup_lt_is_Some in Hin as [q Hq].
  unfold push_at. rewrite Hq. pose proof (so_steps _ _ Hok) as [Hlen _].
  destruct (queue_ok_push p q (sys_acts s) e) as (o & q' & -> & _); [by eapply so_queues|lia|eauto].
Qed.

(** The queues chosen for an event are those whose subscription selects it. *)
Lemma targets_owner em p live e ps :
  owner_ok em p live → queues_differ em → ps ≡ₚ targets em e →
  pushed_to p (pushes [(e, ps)]) =
  match live with Some (_, f) => if decide (selects f e) then [e] else [] | None => [] end.
Proof.
  intros Hown Hinj Hps. rewrite pushed_to_targets by (rewrite Hps; by apply targets_NoDup).
  assert (p ∈ ps ↔ ∃ id f, live = Some (id, f) ∧ selects f e) as Hin.
  { rewrite Hps, elem_of_targets. unfold owner_ok in Hown. setoid_rewrite Hown. naive_solver. }
  destruct live as [[id f]|]; repeat case_decide; naive_solver.
Qed.

Lemma begin_ok n em h ts acts e e' ps ps' em' :
  system_ok n (mkSys em h ts acts) → Z.of_nat n + 1 < uint64_max →
  emit_begin e em = (e', ps, em') → ps' ≡ₚ ps →
  system_ok (S n) (mkSys em' h (ts ++ [(e', ps')]) (acts ++ [Emitted e])).
Proof.
  intros [Hd Hp Hinj Hpe Hq Hu How Hwd Hnx Hst] Hlt Hb Hps. unfold emit_begin in Hb. simplify_eq/=.
  assert (to_uint64 (next_event_id_ em + 1) = next_event_id_ em + 1) as Hw
    by (apply to_uint64_id; unfold in_uint64; lia).
  constructor; simpl; rewrite ?Hw; try done.
  - intros p e0. rewrite pushes_app, elem_of_app. intros [?|Hin]; [by eapply Hpe|].
    apply elem_of_pushes in Hin as (qs & [= -> ->]%list_elem_of_singleton & Hpin).
    rewrite Hps in Hpin. apply elem_of_targets in Hpin as (id & i & Hsub & <- & _). by eapply Hp.
  - intros p q Hl. apply queue_ok_elsewhere; [done|eauto].
  - intros p cap Hge. rewrite held_snoc. simpl. destruct (Hu p cap Hge) as [-> Hpop]. split; [done|].
    intros r. specialize (Hpop r). set_solver.
  - intros p. rewrite owed_snoc. apply How.
  - intros p. rewrite owed_snoc. simpl. rewrite <- Hwd, Hnx. unfold sys_log. simpl.
    rewrite omap_app, pushes_app, !pushed_to_app, app_assoc, app_nil_r. f_equiv.
    rewrite (targets_owner em p (ow_live (owed p acts))); [|apply How|done|done].
    destruct (ow_live _) as [[id f]|]; [|done].
    case_decide as H1; case_decide; rewrite assign_id_selects in H1; done.
  - intros p. rewrite owed_snoc. simpl. by rewrite Hnx.
  - rewrite length_app. simpl. lia.
Qed.

Lemma push_ok n em h h' ts1 ts2 acts e p ps :
  system_ok n (mkSys em h (ts1 ++ (e, p :: ps) :: ts2) acts) → Z.of_nat n + 1 < uint64_max →
  push_at e p h = Some h' →
  system_ok (S n) (mkSys em h' (ts1 ++ (e, ps) :: ts2) (acts ++ [Pushed p e])).
Proof.
  intros [Hd Hp Hinj Hpe Hq Hu How Hwd Hnx Hst] Hlt Hpush; simpl in *. unfold push_at in Hpush.
  destruct (h !! p) as [q|] eqn:Hhp; [|done].
  destruct (queue_ok_push p q acts e) as (o & q' & Hpq & Hok'); [by eapply Hq|lia|].
  rewrite Hpq in Hpush. simplify_eq. assert (p < length h)%nat as Hlp by by apply lookup_lt_Some in Hhp.
  assert (pushes (ts1 ++ (e, p :: ps) :: ts2) ≡ₚ (p, e) :: pushes (ts1 ++ (e, ps) :: ts2)) as Hperm.
  { rewrite !pushes_app. change ((e, p :: ps) :: ts2) with ([(e, p :: ps)] ++ ts2).
    simpl. by rewrite <- Permutation_middle. }
  constructor; simpl; try done.
  - intros id i ?. rewrite length_insert. eauto.
  - intros p0 e0 Hin. rewrite length_insert. apply (Hpe p0 e0). rewrite Hperm. set_solver.
  - intros p0 q0 Hl. destruct (decide (p = p0)) as [<-|Hne].
    + rewrite list_lookup_insert_eq in Hl by done. by simplify_eq.
    + rewrite list_lookup_insert_ne in Hl by done. apply queue_ok_elsewhere; eauto.
  - intros p0 cap. rewrite length_insert. intros Hge. rewrite held_snoc. simpl.
    destruct (Hu p0 cap Hge) as [-> Hpop]. rewrite decide_False by lia. split; [done|].
    intros r. specialize (Hpop r). set_solver.
  - intros p0. rewrite owed_snoc. apply How.
  - intros p0. rewrite owed_snoc. simpl. rewrite <- Hwd, Hperm. unfold sys_log. simpl.
    rewrite omap_app. csimpl. rewrite pushed_to_app.
    change ((p, e) :: pushes (ts1 ++ (e, ps) :: ts2)) with ([(p, e)] ++ pushes (ts1 ++ (e, ps) :: ts2)).
    by rewrite pushed_to_app, app_assoc.
  - intros p0. rewrite owed_snoc. apply Hnx.
  - rewrite length_app. simpl. lia.
Qed.

Lemma subscribe_ok n em h ts acts f sz name s em' h' :
  system_ok n (mkSys em h ts acts) → Z.of_nat n + 1 < uint64_max → 0 ≤ sz →
  subscribe f sz name em h = (s, em', h') →
  system_ok (S n) (mkSys em' h' ts (acts ++ option_list (Subscribed f <$> s))).
Proof.
  intros Hok Hlt Hsz Hsub. unfold subscribe in Hsub.
  destruct Hok as [Hd Hp Hinj Hpe Hq Hu How Hwd Hnx Hst]; simpl in *.
  case_match; simplify_eq; simpl.
  { rewrite app_nil_r. constructor; try done. simpl. lia. }
  assert (subscribers_ em !! next_subscription_id_ em = None) as Hfresh.
  { destruct (_ !! _) eqn:E; [|done]. apply Hp in E. lia. }
  constructor; simpl; try done.
  - intros id i. rewrite length_app, to_uint64_id by (unfold in_uint64; lia). simpl.
    intros [[<- <-]|[? Hl]]%lookup_insert_Some; simpl; [lia|]. apply Hp in Hl. lia.
  - intros id1 id2 i1 i2. simpl. intros [[<- <-]|[? Hx1]]%lookup_insert_Some [[<- <-]|[? Hx2]]%lookup_insert_Some Heq;
      simpl in *; [done| | |by eauto]; [apply Hp in Hx2|apply Hp in Hx1]; lia.
  - intros p e Hin. rewrite length_app. apply Hpe in Hin. lia.
  - intros p q Hl. apply queue_ok_elsewhere; [done|].
    apply lookup_app_Some in Hl as [Hl|[Hge Hl]]; [by apply Hq|].
    apply list_lookup_singleton_Some in Hl as [_ <-].
    apply queue_ok_new; [destruct (Z.ltb_spec 0 sz); lia|by apply Hu..].
  - intros p cap. rewrite length_app. intros Hge. rewrite held_snoc.
    destruct (Hu p cap ltac:(lia)) as [-> Hpop]. split; [done|]. intros r. specialize (Hpop r). set_solver.
  - intros p id f'. rewrite owed_snoc. simpl. specialize (How p). case_decide as Hdp; simpl.
    + simplify_eq. split.
      * intros [= <- <-]. eexists. by rewrite lookup_insert_eq.
      * intros (i & [[<- <-]|[_ Hl]]%lookup_insert_Some & Hi & <-); [done|]. apply Hp in Hl. lia.
    + rewrite (How id f'). split.
      * intros (i & Hi & ? & ?). exists i. rewrite lookup_insert_ne; [done|]. intros <-. congruence.
      * intros (i & [[<- <-]|[_ Hl]]%lookup_insert_Some & Hi & <-); [simpl in Hi; congruence|eauto].
  - intros p. rewrite owed_snoc. unfold sys_log. simpl. rewrite omap_app. simpl. rewrite app_nil_r.
    case_decide; apply Hwd.
  - intros p. rewrite owed_snoc. simpl. case_decide; apply Hnx.
  - rewrite length_app. simpl. rewrite to_uint64_id by (unfold in_uint64; lia). lia.
Qed.

Lemma unsubscribe_ok n em h ts acts id em' h' :
  system_ok n (mkSys em h ts acts) → emitter_unsubscribe id em h = (em', h') →
  system_ok (S n) (mkSys em' h' ts (acts ++ [Unsubscribed id])).
Proof.
  intros [Hd Hp Hinj Hpe Hq Hu How Hwd Hnx Hst] Hun; simpl in *. unfold emitter_unsubscribe in Hun.
  assert (subscribers_ em' = delete id (subscribers_ em) ∧ length h' = length h ∧
    default_queue_size_ em' = default_queue_size_ em ∧ next_subscription_id_ em' = next_subscription_id_ em ∧
    next_event_id_ em' = next_event_id_ em ∧
    ∀ p q, h' !! p = Some q → ∃ q0, h !! p = Some q0 ∧ (q = q0 ∨ q = close q0)) as (Es & El & Ed & Ei & Ee & Hh).
  { destruct (subscribers_ em !! id) as [info|] eqn:E; simplify_eq; simpl.
    - rewrite length_alter. split_and!; try done. intros p q Hl.
      destruct (decide (si_queue info = p)) as [<-|].
      + rewrite list_lookup_alter_eq in Hl. apply fmap_Some in Hl as (q0 & ? & ->). eauto.
      + rewrite list_lookup_alter_ne in Hl by done. eauto.
    - rewrite delete_id by done. split_and!; eauto. }
  constructor; simpl; rewrite ?Es, ?El, ?Ed, ?Ei, ?Ee; try done.
  - intros id0 i [_ Hl]%lookup_delete_Some. eauto.
  - intros id1 id2 i1 i2. rewrite Es. intros [_ ?]%lookup_delete_Some [_ ?]%lookup_delete_Some. eauto.
  - intros p q (q0 & Hl & Hcl)%Hh. apply queue_ok_elsewhere; [done|].
    destruct Hcl as [->| ->]; [|apply queue_ok_close]; by apply Hq.
  - intros p cap Hge. rewrite held_snoc. destruct (Hu p cap Hge) as [-> Hpop]. split; [done|].
    intros r. specialize (Hpop r). set_solver.
  - intros p id0 f. rewrite owed_snoc, Es. simpl. specialize (How p). case_decide as Hlv; simpl.
    + split; [done|]. intros (i & [Hne Hl]%lookup_delete_Some & Hi & Hf).
      apply fmap_Some in Hlv as ([id1 f1] & Hlv & ->).
      assert (ow_live (owed p acts) = Some (id0, f)) by (apply How; eauto). by simplify_eq.
    + rewrite (How id0 f). split; [|intros (i & [_ ?]%lookup_delete_Some & ?); eauto].
      intros (i & Hl & Hi). exists i. rewrite lookup_delete_ne; [done|]. intros <-. apply Hlv.
      by rewrite (proj2 (How id f) ltac:(eauto)).
  - intros p. rewrite owed_snoc. unfold sys_log. simpl. rewrite omap_app. simpl. rewrite app_nil_r.
    case_decide; apply Hwd.
  - intros p. rewrite owed_snoc. simpl. case_decide; apply Hnx.
  - rewrite length_app. simpl. lia.
Qed.

Lemma pop_ok n em h ts acts p q :
  system_ok n (mkSys em h ts acts) → h !! p = Some q →
  system_ok (S n) (mkSys em (<[p := (pop q).2]> h) ts (acts ++ [Popped p (pop q).1])).
Proof.
  intros [Hd Hp Hinj Hpe Hq Hu How Hwd Hnx Hst] Hl; simpl in *. apply lookup_lt_Some in Hl as Hlt.
  constructor; simpl; rewrite ?length_insert; try done.
  - intros p0 q0 Hl0. destruct (decide (p = p0)) as [<-|Hne].
    + rewrite list_lookup_insert_eq in Hl0 by done. simplify_eq. apply queue_ok_pop. eauto.
    + rewrite list_lookup_insert_ne in Hl0 by done. apply queue_ok_elsewhere; eauto.
  - intros p0 cap Hge. rewrite held_snoc. simpl. destruct (Hu p0 cap Hge) as [-> Hpop].
    rewrite decide_False by lia. split; [done|]. intros r Hin. apply elem_of_app in Hin as [?|Hin]; [by eapply Hpop|].
    apply list_elem_of_singleton in Hin as [= -> ->]. lia.
  - intros p0. rewrite owed_snoc. apply How.
  - intros p0. rewrite owed_snoc. unfold sys_log. simpl. rewrite omap_app. simpl. rewrite app_nil_r. apply Hwd.
  - intros p0. rewrite owed_snoc. apply Hnx.
  - rewrite length_app. simpl. lia.
Qed.

Lemma emit_step_ok n s s' :
  system_ok n s → Z.of_nat n + 1 < uint64_max → emit_step s s' → system_ok (S n) s'.
Proof.
  intros Hok Hn Hstep. inversion Hstep; subst.
  - by eapply begin_ok.
  - by eapply push_ok.
  - destruct Hok as [Hd Hp Hinj Hpe Hq Hu How Hwd Hnx Hst]; simpl in *.
    assert (pushes (ts1 ++ (e, []) :: ts2) = pushes (ts1 ++ ts2)) as Heq by (by rewrite !pushes_app).
    rewrite Heq in *. constructor; try done. simpl. lia.
  - by eapply subscribe_ok.
  - by eapply unsubscribe_ok.
  - by apply pop_ok.
Qed.

Lemma start_ok d m : 0 < d → system_ok 0 (start d m).
Proof.
  intros. constructor; simpl; try done.
  - intros p e Hin. by apply elem_of_nil in Hin.
  - intros p cap _. split; [done|]. intros r. apply not_elem_of_nil.
  - intros p id f. split; [done|]. by intros (i & ? & _).
Qed.

Lemma reachable_ok d m n s :
  0 < d → Z.of_nat n < uint64_max → nsteps emit_step n (start d m) s → system_ok n s.
Proof.
  intros Hd Hn Hr. revert s Hr. induction n as [|n IH]; intros s Hr.
  - inversion Hr; subst. by apply start_ok.
  - replace (S n) with (n + 1)%nat in Hr by lia. apply nsteps_add_inv in Hr as (s1 & Hr1 & Hr2).
    apply nsteps_once_inv in Hr2. eapply emit_step_ok; [apply IH; [lia|done]|lia|done].
Qed.

(** C35. Fan-out.  Let threads subscribe, unsubscribe, emit, push and pop in
    any interleaving, fewer than 2^64 steps.  A queue [p] is owed, by what
    happened alone, every event emitted while its subscription was registered
    and selected by that subscription's filter, under the number it has among
    all events emitted.  The pushes made into the queue and the ones pending in
    a thread inside [emit] are together exactly those events, once each, and a
    pending one can always be made.  Of what was pushed, the queue holds, in
    that order, what a bounded queue holds that discards the oldest when full:
    each event discarded is counted, and every pop so far has returned the
    oldest event held, and none when there was none. *)
Theorem fan_out_exactly_once d m n s p q :
  0 < d → Z.of_nat n < uint64_max → nsteps emit_step n (start d m) s → sys_queues s !! p = Some q →
  let cap := Z.to_nat (max_size_ q) in
  let pending := pushed_to p (pushes (sys_threads s)) in
  pushed_to p (sys_log s) ++ pending ≡ₚ ow_events (owed p (sys_acts s)) ∧
  (∀ e, e ∈ pending → ∃ h', push_at e p (sys_queues s) = Some h') ∧
  queue_ q = (held p cap (sys_acts s)).1 ∧ dropped_count_ q = Z.of_nat (held p cap (sys_acts s)).2 ∧
  pops_oldest p cap (sys_acts s) ∧ 0 < max_size_ q ∧ queue_size q ≤ max_size_ q.
Proof.
  intros Hd Hn Hr Hq. pose proof (reachable_ok _ _ _ _ Hd Hn Hr) as Hok.
  destruct (so_queues _ _ Hok p q Hq). split_and!; try done; [by apply Hok|].
  intros e He%elem_of_pushed_to. by eapply push_at_defined.
Qed.

(** ** Order of delivery *)

Definition ids (l : list Event) : list Z := get_event_id <$> l.

(** No two emits overlap: an emit begins, and takes an id, only when none is pushing. *)
Definition serial_step (s s' : System) : Prop :=
  emit_step s s' ∧
  (next_event_id_ (sys_emitter s') = next_event_id_ (sys_emitter s) ∨ sys_threads s = []).

Record serial_ok (s : System) : Prop := {
  se_old : ∀ p, Forall (λ x, x < next_event_id_ (sys_emitter s)) (ids (pushed_to p (sys_log s)));
  se_sorted : ∀ p, StronglySorted Z.lt (ids (pushed_to p (sys_log s)));
  se_thread : sys_threads s = [] ∨
    ∃ e ps, sys_threads s = [(e, ps)] ∧ NoDup ps ∧ get_event_id e < next_event_id_ (sys_emitter s) ∧
      ∀ p, p ∈ ps → Forall (λ x, x < get_event_id e) (ids (pushed_to p (sys_log s)));
}.

(** An act that pushes nothing leaves the log as it is. *)
Lemma sys_log_quiet em h ts acts em' h' ts' acts' :
  omap (λ a, match a with Pushed p e => Some (p, e) | _ => None end) acts' = [] →
  sys_log (mkSys em h ts (acts ++ acts')) = sys_log (mkSys em' h' ts' acts).
Proof. intros Hq. unfold sys_log. simpl. by rewrite omap_app, Hq, app_nil_r. Qed.

Lemma Forall_ids_weaken a b l : a ≤ b → Forall (λ x, x < a) l → Forall (λ x, x < b) l.
Proof. intros ? H. eapply Forall_impl; [exact H|]. simpl. lia. Qed.

Lemma serial_ok_begin n em h ts acts e e' ps ps' em' :
  system_ok n (mkSys em h ts acts) → Z.of_nat n + 1 < uint64_max →
  serial_ok (mkSys em h ts acts) → emit_begin e em = (e', ps, em') → ps' ≡ₚ ps → ts = [] →
  serial_ok (mkSys em' h (ts ++ [(e', ps')]) (acts ++ [Emitted e])).
Proof.
  intros Hok Hlt [Hold Hs Ht] Hb Hps ->. unfold emit_begin in Hb. simplify_eq/=.
  pose proof (so_steps _ _ Hok) as Hst. pose proof (so_inj _ _ Hok) as Hinj. simpl in *.
  assert (to_uint64 (next_event_id_ em + 1) = next_event_id_ em + 1) as Hw
    by (apply to_uint64_id; unfold in_uint64; lia).
  constructor; simpl; rewrite ?Hw, (sys_log_quiet _ _ _ _ em h []) by done; [|done|].
  - intros p. eapply Forall_ids_weaken, Hold. lia.
  - right. do 2 eexists. split; [done|]. rewrite get_assign_id. split_and!; [|lia|auto].
    rewrite Hps. by apply targets_NoDup.
Qed.

Lemma serial_ok_push em h h' ts1 ts2 acts e p ps :
  serial_ok (mkSys em h (ts1 ++ (e, p :: ps) :: ts2) acts) →
  serial_ok (mkSys em h' (ts1 ++ (e, ps) :: ts2) (acts ++ [Pushed p e])).
Proof.
  intros [Hold Hs Ht]; simpl in *.
  destruct Ht as [Ht|(e0 & ps0 & Ht & Hnd & Hlt & Hf)]; [by destruct ts1|].
  destruct ts1 as [|? ts1]; simplify_eq/=; [|by destruct ts1].
  apply NoDup_cons in Hnd as [Hnin Hnd].
  assert (∀ q, ids (pushed_to q (sys_log (mkSys em h' [(e0, ps)] (acts ++ [Pushed p e0])))) =
               ids (pushed_to q (sys_log (mkSys em h [(e0, p :: ps)] acts))) ++
               (if decide (p = q) then [get_event_id e0] else [])) as Hids.
  { intros q. unfold ids, sys_log. simpl. rewrite omap_app. csimpl. rewrite pushed_to_app, pushed_to_one, fmap_app.
    by case_decide. }
  constructor; simpl.
  - intros q. rewrite Hids. apply Forall_app. split; [done|]. case_decide; repeat constructor. done.
  - intros q. rewrite Hids. case_decide; [|by rewrite app_nil_r]. subst.
    apply StronglySorted_snoc; [done|]. apply Hf. set_solver.
  - right. exists e0, ps. split_and!; [done|done|done|]. intros q Hq. rewrite Hids.
    rewrite decide_False by (by intros ->). rewrite app_nil_r. apply Hf. set_solver.
Qed.

Lemma serial_ok_quiet em em' h h' ts acts acts' :
  omap (λ a, match a with Pushed p e => Some (p, e) | _ => None end) acts' = [] →
  next_event_id_ em' = next_event_id_ em →
  serial_ok (mkSys em h ts acts) → serial_ok (mkSys em' h' ts (acts ++ acts')).
Proof.
  intros Hq Hn [Hold Hs Ht]. constructor; simpl in *; by rewrite ?Hn, (sys_log_quiet _ _ _ _ em h ts).
Qed.

Lemma serial_step_ok n s s' :
  system_ok n s → Z.of_nat n + 1 < uint64_max → serial_ok s → serial_step s s' → serial_ok s'.
Proof.
  intros Hok Hn Hse [Hstep Hser]. inversion Hstep; subst; simpl in *.
  - destruct Hser as [Hser|Hser]; [|by eapply serial_ok_begin].
    unfold emit_begin in H. simplify_eq/=. destruct (so_steps _ _ Hok) as (_ & ? & _). simpl in *.
    rewrite to_uint64_id in Hser by (unfold in_uint64; lia). lia.
  - by eapply serial_ok_push.
  - destruct Hse as [Hold Hs Ht]; simpl in *. constructor; simpl; try done.
    destruct Ht as [Ht|(e0 & ps0 & Ht & _)]; [by destruct ts1|].
    destruct ts1 as [|? ts1]; simplify_eq/=; [by left|by destruct ts1].
  - eapply serial_ok_quiet; [by destruct s0| |done]. unfold subscribe in *. by case_match; simplify_eq.
  - eapply serial_ok_quiet; [done| |done]. unfold emitter_unsubscribe in *. by case_match; simplify_eq.
  - by eapply serial_ok_quiet.
Qed.

(** As long as emits do not overlap, the ids of everything ever pushed into
    a queue are strictly increasing, and therefore
    never repeat. *)
Theorem serial_emits_in_order d m n s p :
  0 < d → Z.of_nat n < uint64_max → nsteps serial_step n (start d m) s →
  StronglySorted Z.lt (ids (pushed_to p (sys_log s))).
Proof.
  intros Hd Hn Hr. apply se_sorted.
  assert (system_ok n s ∧ serial_ok s) as [_ ?]; [|done].
  revert s Hr. induction n as [|n IH]; intros s Hr.
  - inversion Hr; subst. split; [by apply start_ok|]. constructor; simpl; [constructor|constructor|by left].
  - replace (S n) with (n + 1)%nat in Hr by lia. apply nsteps_add_inv in Hr as (s1 & Hr1 & Hr2).
    apply nsteps_once_inv in Hr2. destruct IH with s1 as [Hok Hse]; [lia|done|].
    destruct Hr2 as [Hstep ?]. split; [by eapply emit_step_ok; [|lia|]|].
    eapply serial_step_ok; [done|lia|done|by split].
Qed.

(** *** Two threads

    One subscriber, and two emits whose locked sections ran in one order and
    whose pushes ran in the other. *)
Definition ev1 : Event := ModeChange 0 "IDLE" "MANUAL" 5.
Definition ev2 : Event := ParameterChange 0 "gain" "1" "2" 5.

Definition one_subscriber : EventEmitter := (subscribe all 0 "sse" (new_emitter 100 32) []).1.2.

Definition overlapped : System :=
  mkSys (emit_begin ev2 (emit_begin ev1 one_subscriber).2).2
    [mkSubQueue 100 "sse" [assign_id 2 ev2; assign_id 1 ev1] 0 false]
    [(assign_id 1 ev1, []); (assign_id 2 ev2, [])]
    [Subscribed all (mkSubscription 1 (Some 0%nat) true); Emitted ev1; Emitted ev2;
     Pushed 0 (assign_id 2 ev2); Pushed 0 (assign_id 1 ev1)].

Lemma overlapped_reachable : nsteps emit_step 5 (start 100 32) overlapped.
Proof.
  eapply nsteps_l; [eapply (step_subscribe all 0 "sse"); [lia|reflexivity]|].
  eapply nsteps_l; [eapply (step_begin ev1); [reflexivity|reflexivity]|].
  eapply nsteps_l; [eapply (step_begin ev2); [reflexivity|reflexivity]|].
  eapply nsteps_l; [eapply (step_push _ _ _ [_] []); reflexivity|].
  eapply nsteps_l; [eapply (step_push _ _ _ [] [_]); reflexivity|].
  apply nsteps_O.
Qed.

(** The emitter does not order concurrent emits: one subscriber can receive
    event 2 before event 1, although ids are assigned in order. *)
Theorem concurrent_emits_can_reorder :
  ∃ s, nsteps emit_step 5 (start 100 32) s ∧
       ids (pushed_to 0 (sys_log s)) = [2; 1] ∧ ids <$> (queue_ <$> sys_queues s) = [[2; 1]].
Proof. exists overlapped. split; [apply overlapped_reachable|done]. Qed.

(** A queue of one, for one device: of the three events one is for another
    device, one is discarded, and the last is still to be pushed after a pop. *)
Definition ev_pump (v : bool) : Event := DeviceAvailability 0 "p" "pump" v 7.
Definition ev_valve : Event := DeviceAvailability 0 "p" "valve" true 7.
Definition for_pump : EventFilter := mkFilter "" "pump" "".

Definition begun (e : Event) (s : System) : System :=
  let '(e', ps, em) := emit_begin e (sys_emitter s) in
  mkSys em (sys_queues s) (sys_threads s ++ [(e', ps)]) (sys_acts s ++ [Emitted e]).

Definition watched : System :=
  mkSys (subscribe for_pump 1 "pump" (new_emitter 100 32) []).1.2 [new_queue 1 "pump"] []
    [Subscribed for_pump (mkSubscription 1 (Some 0%nat) true)].

Definition crowded : System :=
  let s := begun (ev_pump true) (begun ev_valve (begun (ev_pump false) (begun (ev_pump true) watched))) in
  mkSys (sys_emitter s) [mkSubQueue 1 "pump" [] 1 false]
    [(assign_id 1 (ev_pump true), []); (assign_id 2 (ev_pump false), []); (assign_id 3 ev_valve, []);
     (assign_id 4 (ev_pump true), [0%nat])]
    (sys_acts s ++ [Pushed 0 (assign_id 1 (ev_pump true)); Pushed 0 (assign_id 2 (ev_pump false));
                    Popped 0 (Some (assign_id 2 (ev_pump false)))]).

Lemma crowded_reachable : nsteps emit_step 8 (start 100 32) crowded.
Proof.
  eapply nsteps_l; [eapply (step_subscribe for_pump 1 "pump"); [lia|reflexivity]|].
  eapply nsteps_l; [eapply (step_begin (ev_pump true)); reflexivity|].
  eapply nsteps_l; [eapply (step_begin (ev_pump false)); reflexivity|].
  eapply nsteps_l; [eapply (step_begin ev_valve); reflexivity|].
  eapply nsteps_l; [eapply (step_begin (ev_pump true)); reflexivity|].
  eapply nsteps_l; [eapply (step_push _ _ _ [] [_; _; _]); reflexivity|].
  eapply nsteps_l; [eapply (step_push _ _ _ [_] [_; _]); reflexivity|].
  eapply nsteps_l.
  { eapply (step_pop 0 (mkSubQueue 1 "pump" [assign_id 2 (ev_pump false)] 1 false)). reflexivity. }
  apply nsteps_O.
Qed.

Example fan_out_exactly_once_witness :
  let s := crowded in
  let pending := pushed_to 0 (pushes (sys_threads s)) in
  ids (pushed_to 0 (sys_log s)) = [1; 2] ∧ ids pending = [4] ∧
  pushed_to 0 (sys_log s) ++ pending ≡ₚ ow_events (owed 0 (sys_acts s)) ∧
  (∀ e, e ∈ pending → ∃ h', push_at e 0 (sys_queues s) = Some h') ∧
  [] = (held 0 1 (sys_acts s)).1 ∧ 1 = Z.of_nat (held 0 1 (sys_acts s)).2 ∧
  pops_oldest 0 1 (sys_acts s) ∧ 0 < 1 ∧ 0 ≤ 1.
Proof.
  split; [reflexivity|]. split; [reflexivity|].
  apply (fan_out_exactly_once 100 32 8 crowded 0 (mkSubQueue 1 "pump" [] 1 false));
    [lia|vm_compute; reflexivity|apply crowded_reachable|reflexivity].
Defined.

Example serial_emits_in_order_witness :
  StronglySorted Z.lt (ids (pushed_to 0
    [(0%nat, assign_id 1 ev1); (0%nat, assign_id 2 ev2)])).
Proof.
  apply (serial_emits_in_order 100 32 6
    (mkSys (emit_begin ev2 (emit_begin ev1 one_subscriber).2).2
       [mkSubQueue 100 "sse" [assign_id 1 ev1; assign_id 2 ev2] 0 false]
       [(assign_id 2 ev2, [])]
       [Subscribed all (mkSubscription 1 (Some 0%nat) true); Emitted ev1; Pushed 0 (assign_id 1 ev1);
        Emitted ev2; Pushed 0 (assign_id 2 ev2)]) 0%nat); [lia|vm_compute; reflexivity|].
  eapply nsteps_l; [split; [eapply (step_subscribe all 0 "sse"); [lia|reflexivity]|by left]|].
  eapply nsteps_l; [split; [eapply (step_begin ev1); [reflexivity|reflexivity]|by right]|].
  eapply nsteps_l; [split; [eapply (step_push _ _ _ [] []); reflexivity|by left]|].
  eapply nsteps_l; [split; [eapply (step_return _ [] [])|by left]|].
  eapply nsteps_l; [split; [eapply (step_begin ev2); [reflexivity|reflexivity]|by right]|].
  eapply nsteps_l; [split; [eapply (step_push _ _ _ [] []); reflexivity|by left]|].
  apply nsteps_O.
Defined.

(** ** Subscriptions and the emitter's lifetime

    An emitter, until it is destroyed, the queues, and the subscription handles
    their owners hold. *)
Record Life := mkLife { l_emitter : option EventEmitter; l_queues : Queues; l_subs : list Subscription }.

Inductive life_step : Life → Life → Prop :=
| life_subscribe f n name s em em' h h' subs :
    subscribe f n name em h = (s, em', h') →
    life_step (mkLife (Some em) h subs) (mkLife (Some em') h' (subs ++ option_list s))
| life_emit e em em' h h' subs :
    emit e em h = Some (em', h') → life_step (mkLife (Some em) h subs) (mkLife (Some em') h' subs)
| life_pop i s em h subs :
    subs !! i = Some s → life_step (mkLife em h subs) (mkLife em (sub_pop s h).2 subs)
| life_unsubscribe i s s' em em' h h' subs :
    subs !! i = Some s → sub_unsubscribe s em h = Some (s', em', h') →
    life_step (mkLife em h subs) (mkLife em' h' (<[i := s']> subs))
| life_move i s em h subs :
    subs !! i = Some s →
    life_step (mkLife em h subs) (mkLife em h (<[i := (sub_move s).2]> subs ++ [(sub_move s).1]))
| life_move_assign i j s o s' o' em em' h h' subs :
    i ≠ j → subs !! i = Some s → subs !! j = Some o →
    sub_move_assign s o em h = Some (s', o', em', h') →
    life_step (mkLife em h subs) (mkLife em' h' (<[i := s']> (<[j := o']> subs)))
| life_release i s s' em em' h h' subs :
    subs !! i = Some s → sub_unsubscribe s em h = Some (s', em', h') →
    life_step (mkLife em h subs) (mkLife em' h' (delete i subs))
| life_destroy em h subs :
    life_step (mkLife (Some em) h subs) (mkLife None (destroy_emitter em h) subs).

Definition life_start (d m : Z) : Life := mkLife (Some (new_emitter d m)) [] [].

(** The callback a handle would run finds its registration. *)
Definition registered (em : option EventEmitter) (s : Subscription) : Prop :=
  ∃ em' i, em = Some em' ∧ subscribers_ em' !! sub_id s = Some i ∧ sub_queue s = Some (si_queue i).

Definition handle_ok (em : option EventEmitter) (h : Queues) (s : Subscription) : Prop :=
  sub_id s ≠ 0 → is_active h s = true → registered em s.

Definition ptr_ok (h : Queues) (s : Subscription) : Prop :=
  ∀ p, sub_queue s = Some p → (p < length h)%nat.

Record emitter_fits (m : Z) (n : nat) (em : EventEmitter) : Prop := {
  ef_max : max_subscribers_ em = m;
  ef_capacity : 0 < m → subscriber_count em ≤ m;
  ef_next : 1 ≤ next_subscription_id_ em ≤ 1 + Z.of_nat n;
  ef_fresh : ∀ id i, subscribers_ em !! id = Some i → id < next_subscription_id_ em;
}.

Record life_ok (m : Z) (n : nat) (l : Life) : Prop := {
  lo_handles : Forall (handle_ok (l_emitter l) (l_queues l)) (l_subs l);
  lo_emitter : ∀ em, l_emitter l = Some em → emitter_fits m n em;
  lo_ptr : Forall (ptr_ok (l_queues l)) (l_subs l);
}.

(** Queues only ever go from open to closed, and are never freed. *)
Definition queues_close (h h' : Queues) : Prop :=
  (length h ≤ length h')%nat ∧
  ∀ p q', (p < length h)%nat → h' !! p = Some q' → closed_ q' = false →
    ∃ q, h !! p = Some q ∧ closed_ q = false.

#[global] Instance queues_close_preorder : PreOrder queues_close.
Proof.
  split; [split; eauto|]. intros h1 h2 h3 [L1 H1] [L2 H2]. split; [lia|].
  intros p q Hp Hq Hc. destruct (H2 p q) as (q2 & ? & ?); [lia|done|done|]. eauto.
Qed.

Lemma queues_close_alter p f h :
  (∀ q, closed_ (f q) = false → closed_ q = false) → queues_close h (alter f p h).
Proof.
  intros Hf. split; [by rewrite length_alter|]. intros p' q' Hp' Hq' Hc.
  destruct (decide (p = p')) as [<-|Hne].
  - rewrite list_lookup_alter_eq in Hq'. apply fmap_Some in Hq' as (q & ? & ->). eauto.
  - rewrite list_lookup_alter_ne in Hq' by done. eauto.
Qed.

Lemma queues_close_insert p q q' h :
  h !! p = Some q → closed_ q' = closed_ q → queues_close h (<[p := q']> h).
Proof.
  intros Hp Hc. split; [by rewrite length_insert|]. intros p0 q0 _ Hq0 Hc0.
  destruct (decide (p = p0)) as [<-|Hne].
  - rewrite list_lookup_insert_eq in Hq0 by (by apply lookup_lt_Some in Hp). simplify_eq.
    rewrite Hc in Hc0. eauto.
  - rewrite list_lookup_insert_ne in Hq0 by done. eauto.
Qed.

Lemma push_all_close e ps h h' : push_all e ps h = Some h' → queues_close h h'.
Proof.
  revert h. induction ps as [|p ps IH]; simpl; intros h H; [by simplify_eq|].
  destruct (push_at e p h) as [h1|] eqn:E; [|done]. etrans; [|by apply IH].
  unfold push_at, push in E. repeat case_match; simplify_eq; by eapply queues_close_insert.
Qed.

Lemma sub_pop_close s h : queues_close h (sub_pop s h).2.
Proof.
  unfold sub_pop. repeat case_match; simplify_eq/=; try done.
  match goal with H : pop _ = _ |- _ => unfold pop in H end.
  repeat case_match; simplify_eq; by eapply queues_close_insert.
Qed.

Lemma emitter_unsubscribe_close id em h : queues_close h (emitter_unsubscribe id em h).2.
Proof. unfold emitter_unsubscribe. case_match; [|done]. by apply queues_close_alter. Qed.

Lemma destroy_close em h : queues_close h (destroy_emitter em h).
Proof.
  unfold destroy_emitter. induction (map_to_list _) as [|kv l IH]; [done|]. simpl.
  etrans; [exact IH|]. by apply queues_close_alter.
Qed.

Lemma active_back h h' s :
  queues_close h h' → ptr_ok h s → is_active h' s = true → is_active h s = true.
Proof.
  unfold is_active, queue_at, ptr_ok. intros [_ Hc] Hp. destruct (sub_queue s) as [p|]; [|done].
  destruct (h' !! p) as [q'|] eqn:E; [|done]. intros Ha%negb_true_iff.
  destruct (Hc p q') as (q & -> & ->); auto.
Qed.

Lemma handle_ok_close em h h' s :
  queues_close h h' → ptr_ok h s → handle_ok em h s → handle_ok em h' s.
Proof. intros Hc Hp Hs Hid Ha. apply Hs; [done|by eapply active_back]. Qed.

Lemma closed_not_active p h s : sub_queue s = Some p → is_active (alter close p h) s = false.
Proof.
  intros Hs. unfold is_active, queue_at. rewrite Hs, list_lookup_alter_eq. by destruct (h !! p).
Qed.

(** What closing one registration does to the other handles. *)
Lemma emitter_unsubscribe_handles id em h s :
  ptr_ok h s → handle_ok (Some em) h s →
  handle_ok (Some (emitter_unsubscribe id em h).1) (emitter_unsubscribe id em h).2 s.
Proof.
  intros Hp Hs Hid Ha.
  pose proof (emitter_unsubscribe_close id em h) as Hc.
  destruct Hs as (em0 & i & [= <-] & Hi & Hq); [done|by eapply active_back|].
  unfold emitter_unsubscribe in *. destruct (subscribers_ em !! id) as [info|] eqn:Hinfo; simpl in *;
    [|by exists em, i].
  eexists _, i. split; [done|]. simpl. split; [|done].
  apply lookup_delete_Some. split; [|done]. intros ->. simplify_eq.
  by rewrite closed_not_active in Ha.
Qed.

Lemma emitter_unsubscribe_fits m n id em h :
  emitter_fits m n em → emitter_fits m n (emitter_unsubscribe id em h).1.
Proof.
  intros [Hm Hc Hn Hf]. unfold emitter_unsubscribe. case_match; simpl; [|done].
  constructor; simpl; try done.
  - intros Hpos. specialize (Hc Hpos). unfold subscriber_count in *; simpl.
    rewrite map_size_delete. case_match; simpl; lia.
  - intros id0 i [_ ?]%lookup_delete_Some. eauto.
Qed.

Lemma sub_unsubscribe_defined em h s :
  handle_ok em h s → ∃ r, sub_unsubscribe s em h = Some r.
Proof.
  intros Hs. unfold sub_unsubscribe. destruct (Z.eqb_spec (sub_id s) 0); simpl; [eauto|].
  destruct (sub_fn s); [|eauto]. destruct (is_active h s) eqn:Ha; [|eauto].
  destruct Hs as (em' & i & -> & _); [done|done|]. destruct (emitter_unsubscribe _ _ _). eauto.
Qed.

Lemma emitter_unsubscribe_length id em h : length (emitter_unsubscribe id em h).2 = length h.
Proof. unfold emitter_unsubscribe. case_match; simpl; by rewrite ?length_alter. Qed.

Lemma sub_unsubscribe_spec m n em em' h h' s s' :
  sub_unsubscribe s em h = Some (s', em', h') →
  queues_close h h' ∧ length h' = length h ∧ sub_queue s' = sub_queue s ∧
  (sub_id s' = 0 ∨ s' = s) ∧
  (∀ s2, ptr_ok h s2 → handle_ok em h s2 → handle_ok em' h' s2) ∧
  ((∀ e, em = Some e → emitter_fits m n e) → ∀ e, em' = Some e → emitter_fits m n e).
Proof.
  unfold sub_unsubscribe. destruct (_ && _); intros H; simplify_eq; [|by split_and!; auto].
  destruct (is_active h s).
  - destruct em as [em|]; [|done].
    pose proof (emitter_unsubscribe_close (sub_id s) em h) as Hc.
    pose proof (emitter_unsubscribe_handles (sub_id s) em h) as Hh.
    pose proof (emitter_unsubscribe_fits m n (sub_id s) em h) as Hf.
    pose proof (emitter_unsubscribe_length (sub_id s) em h) as Hl.
    destruct (emitter_unsubscribe _ _ _) as [em1 h1]; simplify_eq/=.
    assert (queues_close h1 (match sub_queue s with Some p => alter close p h1 | None => h1 end)) as Hc1.
    { case_match; [|done]. by apply queues_close_alter. }
    split_and!; [by etrans|by case_match; rewrite ?length_alter|done|by left| |].
    + intros s2 Hp Hs2. eapply handle_ok_close; [done| |by apply Hh].
      intros p Hpq. rewrite Hl. by apply Hp.
    + intros Hem e [= <-]. auto.
  - simplify_eq. split_and!; [|by case_match; rewrite ?length_alter|done|by left| |done].
    + case_match; [|done]. by apply queues_close_alter.
    + intros s2 Hp Hs2. case_match; [|done]. eapply handle_ok_close; [|done|done].
      by apply queues_close_alter.
Qed.

Lemma destroy_not_active em h s : handle_ok (Some em) h s → ptr_ok h s → sub_id s ≠ 0 →
  is_active (destroy_emitter em h) s = false.
Proof.
  intros Hs Hp Hid. destruct (is_active (destroy_emitter em h) s) eqn:Ha; [|done].
  pose proof (active_back _ _ _ (destroy_close em h) Hp Ha) as Ha'.
  destruct (Hs Hid Ha') as (em0 & i & [= <-] & Hi & Hq). exfalso.
  apply elem_of_map_to_list in Hi. unfold destroy_emitter in Ha. revert Hi Ha.
  generalize (sub_id s). clear -Hq. intros id. induction (map_to_list _) as [|kv l IH]; simpl; [set_solver|].
  intros [<-|Hin]%elem_of_cons Ha; simpl in *; [by rewrite closed_not_active in Ha|].
  apply IH; [done|]. unfold is_active, queue_at in *. rewrite Hq in *.
  destruct (decide (si_queue kv.2 = si_queue i)) as [Heq|Hne].
  - rewrite Heq, list_lookup_alter_eq in Ha. by destruct (_ !! _).
  - by rewrite list_lookup_alter_ne in Ha.
Qed.

Lemma life_ok_mono m n l : life_ok m n l → life_ok m (S n) l.
Proof.
  intros [Hh He Hp]. constructor; [done| |done]. intros em Hem.
  destruct (He em Hem) as [? ? ? ?]. constructor; try done. lia.
Qed.

Lemma life_ok_queues m n em em' h h' subs :
  life_ok m n (mkLife em h subs) → queues_close h h' →
  (∀ s, ptr_ok h s → handle_ok em h' s → handle_ok em' h' s) →
  (∀ e, em' = Some e → emitter_fits m n e) →
  life_ok m n (mkLife em' h' subs).
Proof.
  intros [Hh He Hp] Hc Hs Hf. simpl in *. constructor; simpl; [|done|].
  - rewrite Forall_forall in *. intros s Hin. apply Hs; [exact (Hp _ Hin)|].
    eapply handle_ok_close; [done|exact (Hp _ Hin)|by apply Hh].
  - eapply Forall_impl; [exact Hp|]. intros s Hps p Hq. destruct Hc as [Hl _]. apply Hps in Hq. lia.
Qed.

Lemma life_ok_unsubscribe m n em em' h h' subs s s' :
  life_ok m n (mkLife em h subs) → s ∈ subs → sub_unsubscribe s em h = Some (s', em', h') →
  life_ok m n (mkLife em' h' subs) ∧ handle_ok em' h' s' ∧ ptr_ok h' s'.
Proof.
  intros [Hh He Hp] Hin Hu. simpl in *.
  destruct (sub_unsubscribe_spec m n _ _ _ _ _ _ Hu) as (Hc & Hl & Hq & Hs' & Hall & Hf).
  rewrite Forall_forall in Hh, Hp.
  split_and!; [constructor; simpl; [|auto|]| |].
  - apply Forall_forall. intros x Hx. apply Hall; [by apply Hp|by apply Hh].
  - apply Forall_forall. intros x Hx p ?. rewrite Hl. by eapply (Hp x).
  - destruct Hs' as [Hz| ->]; [by intros ?|]. apply Hall; [by apply Hp|by apply Hh].
  - intros p. rewrite Hq, Hl. by apply (Hp s).
Qed.

Lemma life_ok_subs m n em h subs subs' :
  life_ok m n (mkLife em h subs) →
  (∀ s, s ∈ subs' → s ∈ subs ∨ (handle_ok em h s ∧ ptr_ok h s)) →
  life_ok m n (mkLife em h subs').
Proof.
  intros [Hh He Hp] Hs. simpl in *. rewrite Forall_forall in Hh, Hp.
  constructor; simpl; [|done|]; apply Forall_forall; intros s Hin;
    destruct (Hs s Hin) as [Hi|[Ho Hpo]]; auto.
Qed.

Lemma elem_of_insert_cases {A} (l : list A) i x y : y ∈ <[i := x]> l → y = x ∨ y ∈ l.
Proof.
  intros (j & Hj)%list_elem_of_lookup_1. apply list_lookup_insert_Some in Hj as [(-> & -> & ?)|[? ?]]; [by left|].
  right. by eapply list_elem_of_lookup_2.
Qed.

Lemma subscribe_life_ok m n f sz name s em em' h h' subs :
  life_ok m n (mkLife (Some em) h subs) → Z.of_nat n + 1 < uint64_max →
  subscribe f sz name em h = (s, em', h') →
  life_ok m (S n) (mkLife (Some em') h' (subs ++ option_list s)).
Proof.
  intros Hok Hn Hsub. unfold subscribe in Hsub. case_match eqn:Hcap; simplify_eq.
  { simpl. rewrite app_nil_r. by apply life_ok_mono. }
  destruct (lo_emitter _ _ _ Hok em) as [Hm Hc Hnx Hf]; [done|].
  set (id := next_subscription_id_ em) in *. set (q := new_queue _ _).
  assert (to_uint64 (id + 1) = id + 1) as Hw by (apply to_uint64_id; unfold in_uint64; lia).
  assert (subscribers_ em !! id = None) as Hfresh.
  { apply eq_None_not_Some. intros [i Hi]. apply Hf in Hi. lia. }
  assert (queues_close h (h ++ [q])) as Hcl.
  { split; [rewrite length_app; lia|]. intros p q' Hp Hq Hcq. rewrite lookup_app_l in Hq by done. eauto. }
  apply life_ok_mono in Hok.
  eapply life_ok_subs; [eapply life_ok_queues; [exact Hok|exact Hcl| |]|].
  - intros s Hp Hs Hid Ha. destruct (Hs Hid Ha) as (em0 & i & [= <-] & Hi & Hq).
    eexists _, i. split; [done|]. simpl. split; [|done].
    rewrite lookup_insert_ne; [done|]. intros Heq. by rewrite <- Heq, Hfresh in Hi.
  - intros e [= <-]. constructor; simpl; [done| | |].
    + intros Hpos. unfold at_capacity in Hcap. unfold subscriber_count in *. simpl.
      rewrite map_size_insert_None by done. bool_facts. destruct Hcap; bool_facts; lia.
    + rewrite Hw. lia.
    + intros id' i [[<- _]|[_ Hi]]%lookup_insert_Some; [lia|]. apply Hf in Hi. lia.
  - intros s [Hin|Hin]%elem_of_app; [by left|]. right. apply list_elem_of_singleton in Hin as ->.
    split; [|intros p [= <-]; rewrite length_app; simpl; lia].
    intros Hid Ha. eexists _, _. split; [done|]. simpl. by rewrite lookup_insert_eq.
Qed.

Lemma life_step_ok m n l l' :
  life_ok m n l → Z.of_nat n + 1 < uint64_max → life_step l l' → life_ok m (S n) l'.
Proof.
  intros Hok Hn Hstep. inversion Hstep; subst.
  - by eapply subscribe_life_ok.
  - apply life_ok_mono. destruct (lo_emitter _ _ _ Hok em) as [Hm Hc Hnx Hf]; [done|].
    unfold emit, emit_begin in H. case_match eqn:E; simplify_eq.
    eapply life_ok_queues; [exact Hok|by eapply push_all_close| |].
    + intros s Hp Hs Hid Ha. destruct (Hs Hid Ha) as (em0 & i & [= <-] & Hi & Hq). by eexists _, i.
    + intros e0 [= <-]. by constructor.
  - apply life_ok_mono. eapply life_ok_queues; [exact Hok|apply sub_pop_close|done|by apply (lo_emitter _ _ _ Hok)].
  - apply life_ok_mono. apply list_elem_of_lookup_2 in H as Hin.
    destruct (life_ok_unsubscribe _ _ _ _ _ _ _ _ _ Hok Hin H0) as (Hok' & Hs' & Hp').
    eapply life_ok_subs; [exact Hok'|]. intros x [->|?]%elem_of_insert_cases; auto.
  - apply life_ok_mono. eapply life_ok_subs; [exact Hok|]. unfold sub_move; simpl.
    apply list_elem_of_lookup_2 in H as Hin.
    intros x [[->|?]%elem_of_insert_cases|Hx%list_elem_of_singleton]%elem_of_app; [| by left|].
    + right. split; by intros ?.
    + left. destruct s; simpl in *. by subst.
  - apply life_ok_mono. apply list_elem_of_lookup_2 in H0 as Hin. apply list_elem_of_lookup_2 in H1 as Hino.
    unfold sub_move_assign in H2. destruct (sub_unsubscribe s em h) as [[[s1 em1] h1]|] eqn:E; [|done].
    destruct (life_ok_unsubscribe _ _ _ _ _ _ _ _ _ Hok Hin E) as (Hok' & Hs' & Hp').
    unfold sub_move in H2. simplify_eq. eapply life_ok_subs; [exact Hok'|].
    intros x [->|[->|?]%elem_of_insert_cases]%elem_of_insert_cases; [|right; split; by intros ?|by left].
    left. by destruct o.
  - apply life_ok_mono. apply list_elem_of_lookup_2 in H as Hin.
    destruct (life_ok_unsubscribe _ _ _ _ _ _ _ _ _ Hok Hin H0) as (Hok' & _ & _).
    eapply life_ok_subs; [exact Hok'|]. intros x Hx. left.
    eapply elem_of_submseteq; [exact Hx|]. apply sublist_submseteq, sublist_delete.
  - apply life_ok_mono. destruct Hok as [Hh He Hp]; simpl in *. rewrite Forall_forall in Hh, Hp.
    constructor; simpl; [|done|]; apply Forall_forall; intros s Hs.
    + intros Hid Ha. rewrite destroy_not_active in Ha; [done|by apply Hh|by apply (Hp s)|done].
    + intros p Hq. destruct (destroy_close em h) as [Hl _]. apply (Hp s Hs) in Hq. lia.
Qed.

Lemma life_reachable_ok d m n l :
  Z.of_nat n < uint64_max → nsteps life_step n (life_start d m) l → life_ok m n l.
Proof.
  revert l. induction n as [|n IH]; intros l Hn Hr.
  - inversion Hr; subst. constructor; simpl; [constructor| |constructor].
    intros em [= <-]. constructor; simpl; [done| |lia|done]. unfold subscriber_count; simpl.
    rewrite map_size_empty. lia.
  - replace (S n) with (n + 1)%nat in Hr by lia. apply nsteps_add_inv in Hr as (l1 & Hr1 & Hr2).
    apply nsteps_once_inv in Hr2. eapply life_step_ok; [apply IH; [lia|done]|lia|done].
Qed.

(** Whatever order the emitter and the subscription handles are used, moved
    and destroyed in, releasing a handle never calls into a destroyed emitter,
    and the emitter never has more subscribers than its limit. *)
Theorem release_never_dangles d m n l :
  Z.of_nat n < uint64_max → nsteps life_step n (life_start d m) l →
  (∀ s, s ∈ l_subs l → ∃ r, sub_unsubscribe s (l_emitter l) (l_queues l) = Some r) ∧
  (∀ em, l_emitter l = Some em → 0 < m → subscriber_count em ≤ m).
Proof.
  intros Hn Hr. pose proof (life_reachable_ok _ _ _ _ Hn Hr) as [Hh He _]. split.
  - rewrite Forall_forall in Hh. intros s Hs. by apply sub_unsubscribe_defined, Hh.
  - intros em Hem Hm. by destruct (He em Hem) as [_ Hc _ _]; apply Hc.
Qed.

(** A handle that outlives its emitter. *)
Definition outlived : Life :=
  mkLife None (destroy_emitter one_subscriber [new_queue 100 "sse"]) [mkSubscription 1 (Some 0%nat) true].

Example release_never_dangles_witness :
  (∀ s, s ∈ l_subs outlived → ∃ r, sub_unsubscribe s (l_emitter outlived) (l_queues outlived) = Some r) ∧
  (∀ em, l_emitter outlived = Some em → 0 < 32 → subscriber_count em ≤ 32).
Proof.
  apply (release_never_dangles 100 32 2); [vm_compute; reflexivity|].
  eapply nsteps_l; [eapply (life_subscribe all 0 "sse"); reflexivity|].
  eapply nsteps_l; [eapply life_destroy|]. apply nsteps_O.
Defined.
