(* ===== verification/FramedStdio.v ===== *)
(** * The framed stdio client ([core/provider/framed_stdio_client.cpp])

    Length-prefixed frames over a provider's pipes: the POSIX branch.  The
    operating system is an argument: each turn of a read or write loop is a
    round that says what the clock, [poll] and the system call answer in it, and
    a call whose rounds run out has not returned yet ([None]).  Bytes are [Z]
    in [0, 256); the clock is in nanoseconds. *)

From S2P Require Import Prelude.

Definition kMaxFrameSize : Z := 1024 * 1024.

Definition is_byte (b : Z) : Prop := 0 ≤ b < 256.

Record FramedStdioClient := mkClient {
  stdin_write_ : Z;
  stdout_read_ : Z;
  error_ : string;
}.

Definition new_client : FramedStdioClient := mkClient (-1) (-1) "".

Definition set_handles (w r : Z) (c : FramedStdioClient) : FramedStdioClient := mkClient w r (error_ c).

Definition set_error (e : string) (c : FramedStdioClient) : FramedStdioClient :=
  mkClient (stdin_write_ c) (stdout_read_ c) e.

(** [if (error_.empty()) error_ = e]. *)
Definition default_error (e : string) (c : FramedStdioClient) : FramedStdioClient :=
  if bool_decide (error_ c = "") then set_error e c else c.

(** [duration_cast<milliseconds>(now - start).count()]. *)
Definition elapsed_ms (start now : Z) : Z := Z.quot (now - start) 1000000.

(** ** What the system answers *)

(** [poll]: an error, a timeout, or [revents]. *)
Inductive PollAnswer :=
| PollFailed (strerror : string)
| PollTimeout
| PollEvents (pollin err_hup_nval : bool).

(** [read]: up to that many of the bytes in the pipe, an interruption, an
    error.  No byte at all is the end of the file. *)
Inductive ReadAnswer := ReadSome (k : nat) | ReadInterrupted | ReadFailed (strerror : string).

(** [write]: that many of the bytes offered, or an error. *)
Inductive WriteAnswer :=
| WriteSome (k : nat) | WriteInterrupted | WriteAgain | WriteBroken | WriteFailed (strerror : string).

Record ReadRound := mkReadRound { rr_now : Z; rr_poll : PollAnswer; rr_read : ReadAnswer }.
Record WriteRound := mkWriteRound { wr_now : Z; wr_write : WriteAnswer }.

(** ** Waiting, reading and writing *)

Definition wait_for_data (p : PollAnswer) (c : FramedStdioClient) : bool * FramedStdioClient :=
  let c := set_error "" c in
  if stdout_read_ c <? 0 then (false, set_error "Invalid stdout pipe" c)
  else match p with
       | PollFailed e => (false, set_error ("poll failed: " +:+ e) c)
       | PollTimeout => (false, c)
       | PollEvents true _ => (true, c)
       | PollEvents false true => (false, set_error "poll error on stdout pipe" c)
       | PollEvents false false => (false, c)
       end.

(** The head of a turn of [read_exact] under a timeout: whether it goes on to read. *)
Definition read_gate (timeout_ms start : Z) (r : ReadRound) (c : FramedStdioClient)
    : bool * FramedStdioClient :=
  if 0 <=? timeout_ms then
    if timeout_ms <=? elapsed_ms start (rr_now r) then
      (false, default_error "Timeout reading frame" c)
    else
      let '(ready, c) := wait_for_data (rr_poll r) c in
      if ready then (true, c) else (false, default_error "Timeout waiting for data chunk" c)
  else (true, c).

(** [read_exact]: whether it succeeded, the bytes in the buffer, what is left in
    the pipe. [n] counts down from the bytes asked for. *)
Fixpoint read_exact (rs : list ReadRound) (timeout_ms start : Z) (n : nat) (buf pipe : list Z)
    (c : FramedStdioClient) : option (bool * list Z * list Z * FramedStdioClient) :=
  match n with
  | O => Some (true, buf, pipe, c)
  | _ =>
      match rs with
      | [] => None
      | r :: rs' =>
          let '(go, c) := read_gate timeout_ms start r c in
          if go then
            match rr_read r with
            | ReadInterrupted => read_exact rs' timeout_ms start n buf pipe c
            | ReadFailed e => Some (false, buf, pipe, set_error ("Read failed: " +:+ e) c)
            | ReadSome k =>
                let got := take (k `min` n) pipe in
                if bool_decide (got = []) then Some (false, buf, pipe, c)
                else read_exact rs' timeout_ms start (n - length got) (buf ++ got)
                       (drop (length got) pipe) c
            end
          else Some (false, buf, pipe, c)
      end
  end.

(** [write_exact]: whether it succeeded and what went into the pipe. *)
Fixpoint write_exact (ws : list WriteRound) (timeout_ms start : Z) (data out : list Z)
    (c : FramedStdioClient) : option (bool * list Z * FramedStdioClient) :=
  match data with
  | [] => Some (true, out, c)
  | _ =>
      match ws with
      | [] => None
      | w :: ws' =>
          if (0 <=? timeout_ms) && (timeout_ms <=? elapsed_ms start (wr_now w)) then
            Some (false, out, set_error "Timeout writing frame" c)
          else
            match wr_write w with
            | WriteInterrupted | WriteAgain => write_exact ws' timeout_ms start data out c
            | WriteBroken => Some (false, out, set_error "Broken pipe (provider terminated)" c)
            | WriteFailed e => Some (false, out, set_error ("Write failed: " +:+ e) c)
            | WriteSome O => Some (false, out, set_error "Write returned 0 bytes" c)
            | WriteSome k =>
                write_exact ws' timeout_ms start (drop k data) (out ++ take k data) c
            end
      end
  end.

(** ** Frames *)

(** [len_buf] of [write_frame]: the low four bytes, least significant first. *)
Definition len_buf (len32 : Z) : list Z :=
  [Z.land (Z.shiftr len32 0) 255; Z.land (Z.shiftr len32 8) 255;
   Z.land (Z.shiftr len32 16) 255; Z.land (Z.shiftr len32 24) 255].

(** The length [read_frame] assembles from its buffer. *)
Definition len_of_buf (b : list Z) : Z :=
  match b with
  | [b0; b1; b2; b3] =>
      Z.lor (Z.lor (Z.lor (Z.shiftl b0 0) (Z.shiftl b1 8)) (Z.shiftl b2 16)) (Z.shiftl b3 24)
  | _ => 0
  end.

(** One of the two halves of a frame call: when it started, and its rounds. *)
Record WriteHalf := mkWriteHalf { wh_start : Z; wh_rounds : list WriteRound }.
Record ReadHalf := mkReadHalf { rh_start : Z; rh_rounds : list ReadRound }.

Definition write_frame (w1 w2 : WriteHalf) (timeout_ms : Z) (data : list Z) (c : FramedStdioClient)
    : option (bool * list Z * FramedStdioClient) :=
  let len := Z.of_nat (length data) in
  if kMaxFrameSize <? len then
    Some (false, [], set_error ("Frame too large: " +:+ to_string len +:+ " bytes") c)
  else
    let len32 := len mod 2 ^ 32 in
    match write_exact (wh_rounds w1) timeout_ms (wh_start w1) (len_buf len32) [] c with
    | None => None
    | Some (false, out, c) => Some (false, out, c)
    | Some (true, out, c) =>
        if 0 <? len then
          match write_exact (wh_rounds w2) timeout_ms (wh_start w2) data out c with
          | None => None
          | Some (ok, out, c) => Some (ok, out, c)
          end
        else Some (true, out, c)
    end.

(** The frame read, what is left in the pipe. *)
Definition read_frame (r1 r2 : ReadHalf) (timeout_ms : Z) (pipe : list Z) (c : FramedStdioClient)
    : option (bool * list Z * list Z * FramedStdioClient) :=
  match read_exact (rh_rounds r1) timeout_ms (rh_start r1) 4 [] pipe c with
  | None => None
  | Some (false, _, pipe, c) => Some (false, [], pipe, default_error "EOF reading frame length" c)
  | Some (true, b, pipe, c) =>
      let len := len_of_buf b in
      if kMaxFrameSize <? len then
        Some (false, [], pipe, set_error ("Frame too large: " +:+ to_string len +:+ " bytes") c)
      else if 0 <? len then
        match read_exact (rh_rounds r2) timeout_ms (rh_start r2) (Z.to_nat len) [] pipe c with
        | None => None
        | Some (false, b, pipe, c) =>
            Some (false, b, pipe, default_error "EOF reading frame payload" c)
        | Some (true, b, pipe, c) => Some (true, b, pipe, c)
        end
      else Some (true, [], pipe, c)
  end.

(** [close_stdin] and [close_stdout]: what [close] was called on. *)
Definition close_stdin (c : FramedStdioClient) : option Z * FramedStdioClient :=
  if 0 <=? stdin_write_ c then (Some (stdin_write_ c), mkClient (-1) (stdout_read_ c) (error_ c))
  else (None, c).

Definition close_stdout (c : FramedStdioClient) : option Z * FramedStdioClient :=
  if 0 <=? stdout_read_ c then (Some (stdout_read_ c), mkClient (stdin_write_ c) (-1) (error_ c))
  else (None, c).

(** ** The length prefix *)

Lemma land_byte z : Z.land z 255 = Z.land z (Z.ones 8).
Proof. done. Qed.

Lemma testbit_byte z i : 0 ≤ i → Z.testbit (Z.land z 255) i = Z.testbit z i && (i <? 8).
Proof.
  intros Hi. rewrite land_byte, Z.land_spec. f_equal.
  destruct (Z.ltb_spec i 8); [apply Z.ones_spec_low|apply Z.ones_spec_high]; lia.
Qed.

(** The byte of [z] at bit [k], put back at bit [k]. *)
Lemma testbit_lane z k i : 0 ≤ i → 0 ≤ k →
  Z.testbit (Z.shiftl (Z.land (Z.shiftr z k) 255) k) i = Z.testbit z i && (k <=? i) && (i <? k + 8).
Proof.
  intros Hi Hk. rewrite Z.shiftl_spec by done. destruct (Z.leb_spec k i) as [H|H].
  - rewrite testbit_byte, Z.shiftr_spec by lia.
    replace (i - k + k) with i by lia. destruct (Z.ltb_spec (i - k) 8), (Z.ltb_spec i (k + 8)); try lia;
      by rewrite ?andb_true_r, ?andb_false_r.
  - rewrite Z.testbit_neg_r by lia. by rewrite andb_false_r.
Qed.

Lemma len_buf_roundtrip len : 0 ≤ len < 2 ^ 32 → len_of_buf (len_buf len) = len.
Proof.
  intros Hlen. unfold len_of_buf, len_buf. apply Z.bits_inj'. intros i Hi.
  rewrite !Z.lor_spec, !testbit_lane by lia.
  destruct (Z.lt_ge_cases i 32) as [Hlt|Hge].
  - destruct (Z.testbit len i); [|done]. simpl.
    destruct (Z.leb_spec 0 i), (Z.ltb_spec i (0 + 8)), (Z.leb_spec 8 i), (Z.ltb_spec i (8 + 8)),
      (Z.leb_spec 16 i), (Z.ltb_spec i (16 + 8)), (Z.leb_spec 24 i), (Z.ltb_spec i (24 + 8)); simpl; try done; lia.
  - assert (Z.testbit len i = false) as ->; [|done].
    destruct (decide (len = 0)) as [->|]; [apply Z.testbit_0_l|].
    apply Z.bits_above_log2; [lia|]. apply Z.lt_le_trans with 32; [|done].
    apply Z.log2_lt_pow2; lia.
Qed.

Lemma len_buf_length len : length (len_buf len) = 4%nat.
Proof. done. Qed.

(** ** What the loops move *)

Lemma wait_for_data_ready p c c' : wait_for_data p c = (true, c') → c' = set_error "" c.
Proof. unfold wait_for_data. intros H. by repeat case_match; simplify_eq. Qed.

Lemma take_drop_length {A} m (l : list A) : l = take m l ++ drop (length (take m l)) l.
Proof.
  rewrite length_take. destruct (Nat.min_spec m (length l)) as [[_ ->]|[? ->]]; [by rewrite take_drop|].
  by rewrite firstn_all2, drop_all, app_nil_r.
Qed.

Lemma read_exact_moves rs t s n buf pipe c ok b pipe' c' :
  read_exact rs t s n buf pipe c = Some (ok, b, pipe', c') →
  ∃ got, pipe = got ++ pipe' ∧ b = buf ++ got ∧ (length got ≤ n)%nat ∧ (ok = true → length got = n).
Proof.
  revert n buf pipe c. induction rs as [|r rs IH]; intros n buf pipe c H; destruct n as [|n]; simpl in H;
    try done.
  1,2: simplify_eq; exists []; by rewrite app_nil_r.
  assert (∃ got, pipe' = got ++ pipe' ∧ buf = buf ++ got ∧ (length got ≤ S n)%nat ∧
          (false = true → length got = S n)) as Hfail.
  { exists []. rewrite app_nil_r. split_and!; [done|done|simpl; lia|done]. }
  destruct (read_gate t s r c) as [[] c1]; [|by simplify_eq].
  destruct (rr_read r) as [k| |e]; [|by eapply IH|by simplify_eq].
  case_bool_decide as Hgot; [by simplify_eq|].
  apply IH in H as (got & Hp & -> & Hl & Hok).
  set (g := take (k `min` S n) pipe) in *.
  assert (length g ≤ S n)%nat as Hg by (unfold g; rewrite length_take; lia).
  exists (g ++ got). rewrite <- !app_assoc, length_app. split_and!; [|done|lia|].
  - rewrite <- Hp. apply take_drop_length.
  - intros Ht. rewrite (Hok Ht). lia.
Qed.

Lemma write_exact_moves ws t s data out c ok out' c' :
  write_exact ws t s data out c = Some (ok, out', c') →
  ∃ w, w `prefix_of` data ∧ out' = out ++ w ∧ (ok = true → w = data).
Proof.
  revert data out c. induction ws as [|w ws IH]; intros data out c H; destruct data as [|d data]; simpl in H;
    try done.
  1,2: simplify_eq; exists []; by rewrite app_nil_r.
  assert (∃ w, w `prefix_of` d :: data ∧ out = out ++ w ∧ (false = true → w = d :: data)) as Hfail.
  { exists []. rewrite app_nil_r. split_and!; [apply prefix_nil|done|done]. }
  case_match; [by simplify_eq|].
  destruct (wr_write w) as [[|k]| | | |]; try (by simplify_eq); try (by eapply IH).
  apply IH in H as (u & [rest Hrest] & -> & Hok). simpl in *.
  exists (d :: take k data ++ u). split_and!.
  - exists rest. rewrite <- app_comm_cons, <- app_assoc, <- Hrest. by rewrite take_drop.
  - by rewrite <- app_assoc.
  - intros Ht. rewrite (Hok Ht). by rewrite take_drop.
Qed.

(** ** Rounds that make progress

    A round in which the deadline has not passed, the pipe is readable and the
    call moves at least one byte or was interrupted. *)
Definition read_live (t s : Z) (r : ReadRound) : Prop :=
  (0 ≤ t → elapsed_ms s (rr_now r) < t ∧ ∃ e, rr_poll r = PollEvents true e) ∧
  match rr_read r with ReadSome (S _) | ReadInterrupted => True | _ => False end.

Definition write_live (t s : Z) (w : WriteRound) : Prop :=
  (0 ≤ t → elapsed_ms s (wr_now w) < t) ∧
  match wr_write w with WriteSome (S _) | WriteInterrupted | WriteAgain => True | _ => False end.

(** The rounds that move bytes. *)
Definition moves_in (r : ReadRound) : bool := match rr_read r with ReadSome _ => true | _ => false end.
Definition moves_out (w : WriteRound) : bool := match wr_write w with WriteSome _ => true | _ => false end.
Definition reads (rs : list ReadRound) : nat := sum_list ((λ r, Nat.b2n (moves_in r)) <$> rs).
Definition writes (ws : list WriteRound) : nat := sum_list ((λ w, Nat.b2n (moves_out w)) <$> ws).

Lemma read_gate_live t s r c :
  0 ≤ stdout_read_ c → read_live t s r → ∃ c', read_gate t s r c = (true, c') ∧ stdout_read_ c' = stdout_read_ c.
Proof.
  intros Hfd [Ht _]. unfold read_gate. destruct (Z.leb_spec 0 t) as [Hpos|]; [|eauto].
  destruct (Ht Hpos) as [He [e Hp]]. rewrite (proj2 (Z.leb_gt _ _) He), Hp. unfold wait_for_data.
  simpl. rewrite (proj2 (Z.ltb_ge _ _) Hfd). eauto.
Qed.

Lemma read_exact_live rs t s n buf pipe c :
  0 ≤ stdout_read_ c → Forall (read_live t s) rs → (n ≤ reads rs)%nat → (n ≤ length pipe)%nat →
  ∃ c', read_exact rs t s n buf pipe c = Some (true, buf ++ take n pipe, drop n pipe, c') ∧
        stdout_read_ c' = stdout_read_ c.
Proof.
  revert n buf pipe c. induction rs as [|r rs IH]; intros n buf pipe c Hfd Hl Hn Hp; simpl.
  { unfold reads in Hn. simpl in Hn. assert (n = 0%nat) as -> by lia. rewrite app_nil_r. eauto. }
  destruct n as [|n]; [rewrite app_nil_r; eauto|].
  apply Forall_cons in Hl as [Hr Hl]. destruct (read_gate_live t s r c Hfd Hr) as (c1 & -> & Hc1).
  rewrite <- Hc1 in Hfd |- *. destruct Hr as [_ Hr]. unfold reads, moves_in in *. csimpl in *. destruct (rr_read r) as [[|k]| |e]; try done.
  - simpl in Hn.
    set (got := take (S k `min` S n) pipe).
    assert (length got = S k `min` S n)%nat as Hg by (unfold got; rewrite length_take; lia).
    case_bool_decide as Hnil; [rewrite Hnil in Hg; simpl in Hg; lia|].
    destruct (IH (S n - length got)%nat (buf ++ got) (drop (length got) pipe) c1) as (c' & Hr' & Hc');
      [done|done|lia|rewrite length_drop; lia|].
    exists c'. rewrite Hr'. split; [|done]. do 2 f_equal. rewrite Hg. f_equal; [f_equal|].
    + rewrite <- app_assoc. f_equal. unfold got. rewrite take_take_drop. f_equal. lia.
    + rewrite drop_drop. f_equal. lia.
  - by apply IH.
Qed.

Lemma write_exact_live ws t s data out c :
  Forall (write_live t s) ws → (length data ≤ writes ws)%nat →
  write_exact ws t s data out c = Some (true, out ++ data, c).
Proof.
  revert data out. induction ws as [|w ws IH]; intros data out Hl Hn; simpl.
  { destruct data; [by rewrite app_nil_r|]. unfold writes in Hn. simpl in Hn. lia. }
  destruct data as [|d data]; [by rewrite app_nil_r|].
  apply Forall_cons in Hl as [[Ht Hw] Hl].
  assert ((0 <=? t) && (t <=? elapsed_ms s (wr_now w)) = false) as Hdl.
  { apply andb_false_iff. destruct (Z.leb_spec 0 t); [right|by left]. apply Z.leb_gt. auto. }
  rewrite Hdl.
  unfold writes, moves_out in *. csimpl in *.
  destruct (wr_write w) as [[|k]| | | |]; try done.
  - simpl in Hn. rewrite IH; [|done|rewrite length_drop; simpl; lia].
    rewrite <- app_assoc. simpl. by rewrite take_drop.
  - by apply IH.
  - by apply IH.
Qed.

(** ** Frames on the wire *)

Definition frame (data : list Z) : list Z := len_buf (Z.of_nat (length data) mod 2 ^ 32) ++ data.

Definition fits (data : list Z) : Prop := Z.of_nat (length data) ≤ kMaxFrameSize.

Lemma fits_len32 data : fits data → Z.of_nat (length data) mod 2 ^ 32 = Z.of_nat (length data).
Proof. unfold fits, kMaxFrameSize. intros. apply Z.mod_small. lia. Qed.

Lemma frame_len data : fits data → len_of_buf (take 4 (frame data)) = Z.of_nat (length data).
Proof.
  intros H. unfold frame. rewrite (take_app_length' _ _ 4) by done. rewrite (fits_len32 _ H).
  apply len_buf_roundtrip. unfold fits, kMaxFrameSize in H. lia.
Qed.

(** Whatever the system answers, [write_frame] puts a prefix of one frame
    into the pipe, all of it if it reports success, and nothing of a payload
    over the size limit, which it refuses. *)
Theorem write_frame_prefix w1 w2 t data c ok out c' :
  write_frame w1 w2 t data c = Some (ok, out, c') →
  out `prefix_of` frame data ∧ (ok = true → out = frame data ∧ fits data) ∧
  (¬ fits data → ok = false ∧ out = [] ∧
     error_ c' = "Frame too large: " +:+ to_string (Z.of_nat (length data)) +:+ " bytes").
Proof.
  unfold write_frame, fits. destruct (Z.ltb_spec kMaxFrameSize (Z.of_nat (length data))) as [Hbig|Hfit].
  { intros. simplify_eq. split_and!; [apply prefix_nil|done|done]. }
  intros H. split_and!; [| |lia].
  all: destruct (write_exact (wh_rounds w1) _ _ _ _ _) as [[[ok1 out1] c1]|] eqn:E1; [|done];
    apply write_exact_moves in E1 as (u & Hu & -> & Hok1); simpl in *;
    (destruct ok1; [|simplify_eq; (done || (unfold frame; by apply prefix_app_r))]);
    rewrite (Hok1 eq_refl) in *;
    (destruct (Z.ltb_spec 0 (Z.of_nat (length data))) as [Hpos|Hz];
     [destruct (write_exact (wh_rounds w2) _ _ _ _ _) as [[[ok2 out2] c2]|] eqn:E2; [|done];
      apply write_exact_moves in E2 as (v & Hv & -> & Hok2)
     |assert (data = []) as -> by (destruct data; [done|simpl in Hz; lia])]); simplify_eq.
  - unfold frame. by apply prefix_app.
  - unfold frame. by rewrite app_nil_r.
  - intros ->. by rewrite (Hok2 eq_refl).
  - done.
Qed.

Lemma testbit_small b i : is_byte b → 8 ≤ i → Z.testbit b i = false.
Proof.
  intros Hb Hi. destruct (decide (b = 0)) as [->|]; [apply Z.testbit_0_l|].
  unfold is_byte in Hb. apply Z.bits_above_log2; [lia|].
  apply Z.lt_le_trans with 8; [|done]. apply Z.log2_lt_pow2; lia.
Qed.

(** Evaluate the bits of the lanes other than bit [i] of its own byte. *)
Ltac byte_lanes i :=
  repeat match goal with
  | |- context [Z.testbit ?b ?j] =>
      lazymatch j with
      | i => fail
      | _ => first [rewrite (Z.testbit_neg_r b j) by lia
                   |rewrite (testbit_small b j) by (done || lia)
                   |replace j with i by lia]
      end
  end.

(** The prefix assembled from any four bytes splits back into them. *)
Lemma len_of_buf_roundtrip b0 b1 b2 b3 :
  is_byte b0 → is_byte b1 → is_byte b2 → is_byte b3 →
  len_buf (len_of_buf [b0; b1; b2; b3]) = [b0; b1; b2; b3] ∧ 0 ≤ len_of_buf [b0; b1; b2; b3].
Proof.
  intros H0 H1 H2 H3. split.
  - unfold len_buf, len_of_buf. repeat f_equal; apply Z.bits_inj'; intros i Hi;
      rewrite testbit_byte, Z.shiftr_spec, !Z.lor_spec, !Z.shiftl_spec by lia;
      (destruct (Z.ltb_spec i 8) as [Hl|Hg];
       [rewrite andb_true_r|rewrite andb_false_r; symmetry; by apply testbit_small]);
      byte_lanes i; by rewrite ?orb_false_r, ?orb_false_l.
  - unfold len_of_buf, is_byte in *. rewrite !Z.lor_nonneg, !Z.shiftl_nonneg. lia.
Qed.

(** A frame that [read_frame] accepts was in the pipe: whatever the system
    answers, success means that the bytes consumed are exactly one frame, the
    payload is that frame's, and it is within the limit. *)
Theorem read_frame_consumes_one_frame r1 r2 t pipe c data pipe' c' :
  Forall is_byte pipe → read_frame r1 r2 t pipe c = Some (true, data, pipe', c') →
  pipe = frame data ++ pipe' ∧ fits data.
Proof.
  intros Hb H. unfold read_frame in H.
  destruct (read_exact (rh_rounds r1) _ _ _ _ _ _) as [[[[[] b] p1] c1]|] eqn:E1; [|done|done].
  apply read_exact_moves in E1 as (got & -> & -> & _ & Hok). specialize (Hok eq_refl).
  destruct got as [|b0 [|b1 [|b2 [|b3 [|]]]]]; try done. simpl in H.
  apply Forall_app in Hb as [Hb Hb1]. repeat (apply Forall_cons in Hb as [? Hb]).
  destruct (len_of_buf_roundtrip b0 b1 b2 b3) as [Hrt Hpos]; [done..|].
  fold (len_of_buf [b0; b1; b2; b3]) in H. set (len := len_of_buf [b0; b1; b2; b3]) in *.
  destruct (Z.ltb_spec kMaxFrameSize len) as [|Hfit]; [done|].
  destruct (Z.ltb_spec 0 len) as [Hl|Hl].
  - destruct (read_exact (rh_rounds r2) _ _ _ _ _ _) as [[[[[] b] p2] c2]|] eqn:E2; simplify_eq.
    apply read_exact_moves in E2 as (got & -> & -> & _ & Hok2). specialize (Hok2 eq_refl). rewrite app_nil_l.
    assert (Z.of_nat (length got) = len) as Hlen by (rewrite Hok2; lia).
    unfold frame, fits. rewrite Hlen, Z.mod_small by (unfold kMaxFrameSize in Hfit; lia).
    rewrite Hrt. split; [by rewrite <- app_assoc|done].
  - simplify_eq. assert (len = 0) as Hz by lia. rewrite Hz in Hrt. unfold frame, fits.
    change (Z.of_nat (length []) mod 2 ^ 32) with 0. rewrite Hrt. done.
Qed.

Definition ready_reader (c : FramedStdioClient) : Prop := 0 ≤ stdout_read_ c.

(** Rounds that carry a frame of some payload through both halves. *)
Definition live_reads (t : Z) (r : ReadHalf * ReadHalf) (data : list Z) : Prop :=
  Forall (read_live t (rh_start r.1)) (rh_rounds r.1) ∧ (4 ≤ reads (rh_rounds r.1))%nat ∧
  Forall (read_live t (rh_start r.2)) (rh_rounds r.2) ∧ (length data ≤ reads (rh_rounds r.2))%nat.
Definition live_writes (t : Z) (w : WriteHalf * WriteHalf) (data : list Z) : Prop :=
  Forall (write_live t (wh_start w.1)) (wh_rounds w.1) ∧ (4 ≤ writes (wh_rounds w.1))%nat ∧
  Forall (write_live t (wh_start w.2)) (wh_rounds w.2) ∧ (length data ≤ writes (wh_rounds w.2))%nat.

Lemma write_frame_live w1 w2 t data c :
  fits data → live_writes t (w1, w2) data → write_frame w1 w2 t data c = Some (true, frame data, c).
Proof.
  intros Hf (W1 & NW1 & W2 & NW2). unfold write_frame.
  rewrite (proj2 (Z.ltb_ge _ _)) by done. rewrite write_exact_live by done. simpl app.
  destruct (Z.ltb_spec 0 (Z.of_nat (length data))) as [Hl|Hl].
  - by rewrite write_exact_live by done.
  - assert (data = []) as -> by (destruct data; [done|simpl in Hl; lia]). done.
Qed.

Lemma read_frame_live r1 r2 t data rest c :
  fits data → ready_reader c →
  Forall (read_live t (rh_start r1)) (rh_rounds r1) → (4 ≤ reads (rh_rounds r1))%nat →
  Forall (read_live t (rh_start r2)) (rh_rounds r2) → (length data ≤ reads (rh_rounds r2))%nat →
  ∃ c', read_frame r1 r2 t (frame data ++ rest) c = Some (true, data, rest, c') ∧ ready_reader c'.
Proof.
  intros Hf Hfd H1 N1 H2 N2. unfold read_frame.
  assert (length (frame data) = 4 + length data)%nat as Hlen by done.
  destruct (read_exact_live _ t (rh_start r1) 4 [] (frame data ++ rest) c Hfd H1 N1) as (c1 & -> & Hc1);
    [rewrite length_app; lia|].
  rewrite take_app_le, drop_app_le by lia. rewrite app_nil_l, frame_len by done.
  rewrite (proj2 (Z.ltb_ge _ _)) by done. unfold frame.
  rewrite (drop_app_length' _ _ 4) by done.
  destruct (Z.ltb_spec 0 (Z.of_nat (length data))) as [Hl|Hl].
  - rewrite Nat2Z.id. destruct (read_exact_live (rh_rounds r2) t (rh_start r2) (length data) []
      (data ++ rest) c1) as (c2 & -> & Hc2); [unfold ready_reader in Hfd; lia|done|done|rewrite length_app; lia|].
    rewrite take_app_length, drop_app_length. exists c2. split; [done|]. unfold ready_reader in *. lia.
  - assert (data = []) as -> by (destruct data; [done|simpl in Hl; lia]). exists c1. split; [done|].
    unfold ready_reader in *. lia.
Qed.

(** Round trip: a payload within the limit, written and then read in whatever
    pieces the system moves, with interruptions anywhere, arrives whole and
    alone; the bytes behind it stay in the pipe for the next frame. *)
Theorem frame_roundtrip w1 w2 r1 r2 tw tr data rest cw cr :
  fits data →
  Forall (write_live tw (wh_start w1)) (wh_rounds w1) → (4 ≤ writes (wh_rounds w1))%nat →
  Forall (write_live tw (wh_start w2)) (wh_rounds w2) → (length data ≤ writes (wh_rounds w2))%nat →
  ready_reader cr →
  Forall (read_live tr (rh_start r1)) (rh_rounds r1) → (4 ≤ reads (rh_rounds r1))%nat →
  Forall (read_live tr (rh_start r2)) (rh_rounds r2) → (length data ≤ reads (rh_rounds r2))%nat →
  ∃ out cr', write_frame w1 w2 tw data cw = Some (true, out, cw) ∧
             read_frame r1 r2 tr (out ++ rest) cr = Some (true, data, rest, cr').
Proof.
  intros Hf W1 NW1 W2 NW2 Hfd R1 NR1 R2 NR2.
  destruct (read_frame_live r1 r2 tr data rest cr) as (cr' & Hr & _); [done..|].
  exists (frame data), cr'. split; [by apply write_frame_live|done].
Qed.

(** ** Failures *)

Lemma default_error_set e c : e ≠ "" → error_ (default_error e c) ≠ "".
Proof. unfold default_error. by case_bool_decide. Qed.

(** A read that fails says why. *)
Lemma read_frame_false_error r1 r2 t pipe c data pipe' c' :
  read_frame r1 r2 t pipe c = Some (false, data, pipe', c') → error_ c' ≠ "".
Proof.
  unfold read_frame. intros H. repeat case_match; simplify_eq; first [by apply default_error_set|done].
Qed.

(** The deadline ends the loop: with a timeout, a round whose clock has reached
    it is the last. *)
Lemma read_exact_deadline rs t s n buf pipe c :
  0 ≤ t → Exists (λ r, t ≤ elapsed_ms s (rr_now r)) rs →
  ∃ res, read_exact rs t s n buf pipe c = Some res.
Proof.
  intros Ht He. revert n buf pipe c. induction He as [r rs Hr|r rs _ IH]; intros n buf pipe c;
    (destruct n as [|n]; simpl; [eauto|]).
  - unfold read_gate. rewrite (proj2 (Z.leb_le _ _) Ht), (proj2 (Z.leb_le _ _) Hr). eauto.
  - destruct (read_gate t s r c) as [[] c1]; [|eauto]. case_match; [|eauto|eauto].
    case_bool_decide; eauto.
Qed.

Lemma write_exact_deadline ws t s data out c :
  0 ≤ t → Exists (λ w, t ≤ elapsed_ms s (wr_now w)) ws →
  ∃ res, write_exact ws t s data out c = Some res.
Proof.
  intros Ht He. revert data out. induction He as [w ws Hw|w ws _ IH]; intros data out;
    (destruct data as [|d data]; simpl; [eauto|]).
  - rewrite (proj2 (Z.leb_le _ _) Ht), (proj2 (Z.leb_le _ _) Hw). simpl. eauto.
  - case_match; [eauto|]. repeat case_match; eauto.
Qed.

Lemma write_frame_returns w1 w2 t data c :
  0 ≤ t → Exists (λ w, t ≤ elapsed_ms (wh_start w1) (wr_now w)) (wh_rounds w1) →
  Exists (λ w, t ≤ elapsed_ms (wh_start w2) (wr_now w)) (wh_rounds w2) →
  ∃ res, write_frame w1 w2 t data c = Some res.
Proof.
  intros Ht W1 W2. unfold write_frame. case_match; [eauto|].
  destruct (write_exact_deadline _ _ _ (len_buf (Z.of_nat (length data) mod 2 ^ 32)) [] c Ht W1)
    as [[[[] out] c1] ->]; [|eauto].
  case_match; [|eauto]. destruct (write_exact_deadline _ _ _ data out c1 Ht W2) as [[[ok o] c2] ->]. eauto.
Qed.

Lemma read_frame_returns r1 r2 t pipe c :
  0 ≤ t → Exists (λ r, t ≤ elapsed_ms (rh_start r1) (rr_now r)) (rh_rounds r1) →
  Exists (λ r, t ≤ elapsed_ms (rh_start r2) (rr_now r)) (rh_rounds r2) →
  ∃ ok b pipe' c', read_frame r1 r2 t pipe c = Some (ok, b, pipe', c').
Proof.
  intros Ht R1 R2. unfold read_frame.
  destruct (read_exact_deadline _ _ _ 4 [] pipe c Ht R1) as [[[[[] b] p1] c1] ->]; [|by eauto 10].
  case_match; [by eauto 10|]. case_match; [|by eauto 10].
  destruct (read_exact_deadline _ _ _ (Z.to_nat (len_of_buf b)) [] p1 c1 Ht R2) as [[[[[] b2] p2] c2] ->];
    by eauto 10.
Qed.

(** ** A stream of frames *)

(** One [write_frame] per payload: what went into the pipe, when all succeed. *)
Fixpoint write_frames (ws : list (WriteHalf * WriteHalf)) (t : Z) (payloads : list (list Z)) (c : FramedStdioClient)
    {struct payloads} : option (list Z) :=
  match payloads with
  | [] => Some []
  | d :: ds =>
      match ws with
      | [] => None
      | (w1, w2) :: ws =>
          match write_frame w1 w2 t d c with
          | Some (true, out, c) => match write_frames ws t ds c with Some more => Some (out ++ more) | None => None end
          | _ => None
          end
      end
  end.

(** One [read_frame] after the other up to the first that fails or has not returned:
    the payloads, why it stopped, and what is left in the pipe. *)
Inductive ReadFate := AllRead | FrameFailed | StillReading.

Fixpoint read_frames (rs : list (ReadHalf * ReadHalf)) (t : Z) (pipe : list Z) (c : FramedStdioClient)
    : list (list Z) * ReadFate * list Z :=
  match rs with
  | [] => ([], AllRead, pipe)
  | (r1, r2) :: rs =>
      match read_frame r1 r2 t pipe c with
      | None => ([], StillReading, pipe)
      | Some (false, _, pipe, _) => ([], FrameFailed, pipe)
      | Some (true, data, pipe, c) => let '(l, fate, pipe) := read_frames rs t pipe c in (data :: l, fate, pipe)
      end
  end.

Lemma frame_app_inj d1 d2 p1 p2 :
  fits d1 → fits d2 → frame d1 ++ p1 = frame d2 ++ p2 → d1 = d2 ∧ p1 = p2.
Proof.
  intros F1 F2 Heq. unfold frame in Heq. rewrite <- !app_assoc in Heq.
  apply app_inj_1 in Heq as [Hl Hr]; [|done].
  assert (Z.of_nat (length d1) = Z.of_nat (length d2)) as Hlen.
  { apply (f_equal len_of_buf) in Hl. rewrite !fits_len32 in Hl by done.
    unfold fits, kMaxFrameSize in *. rewrite !len_buf_roundtrip in Hl by lia. done. }
  apply app_inj_1 in Hr; [done|lia].
Qed.

Lemma frame_bytes data : Forall is_byte data → Forall is_byte (frame data).
Proof.
  intros H. unfold frame. apply Forall_app. split; [|done].
  assert (∀ z, is_byte (Z.land z 255)) as Hb.
  { intros z. rewrite land_byte, Z.land_ones by lia. unfold is_byte. apply (Z.mod_pos_bound z 256). lia. }
  repeat constructor; apply Hb.
Qed.

#[local] Opaque frame.

Lemma write_frames_stream ws t payloads c out :
  write_frames ws t payloads c = Some out → out = payloads ≫= frame ∧ Forall fits payloads.
Proof.
  revert ws c out. induction payloads as [|d ds IH]; intros ws c out; csimpl; [by intros [= <-]|].
  destruct ws as [|[w1 w2] ws]; [done|].
  destruct (write_frame w1 w2 t d c) as [[[[] o] c1]|] eqn:E; [|done|done].
  apply write_frame_prefix in E as (_ & Ho & _). destruct (Ho eq_refl) as [-> Hd].
  destruct (write_frames ws t ds c1) as [more|] eqn:E2; [|done]. intros [= <-].
  apply IH in E2 as [-> Hds]. split; [done|by constructor].
Qed.

Lemma read_frames_prefix rs t payloads rest c :
  Forall (Forall is_byte) payloads → Forall fits payloads → Forall is_byte rest → length rs = length payloads →
  let '(l, fate, behind) := read_frames rs t ((payloads ≫= frame) ++ rest) c in
  l `prefix_of` payloads ∧ (fate = AllRead → l = payloads ∧ behind = rest).
Proof.
  intros Hb Hf Hr. revert payloads c Hb Hf. induction rs as [|[r1 r2] rs IH]; intros [|d ds] c Hb Hf Hlen; csimpl in *;
    try done.
  apply Forall_cons in Hb as [Hbd Hb]. apply Forall_cons in Hf as [Hfd Hf].
  destruct (read_frame r1 r2 t _ c) as [[[[[] data] pipe] c1]|] eqn:E; [|by split; [apply prefix_nil|]..].
  apply read_frame_consumes_one_frame in E as [Heq Hfit].
  - rewrite <- app_assoc in Heq. apply frame_app_inj in Heq as [<- <-]; [|done|done].
    specialize (IH ds c1 Hb Hf ltac:(lia)). destruct (read_frames rs t _ c1) as [[l fate] behind].
    destruct IH as [Hp Hall]. split; [by apply prefix_cons|]. intros Hfate. destruct (Hall Hfate) as [-> ->]. done.
  - rewrite <- app_assoc. apply Forall_app. split; [by apply frame_bytes|].
    apply Forall_app. split; [|done]. apply Forall_bind. eapply Forall_impl; [exact Hb|]. apply frame_bytes.
Qed.

Lemma write_frames_live ws t payloads c :
  Forall fits payloads → Forall2 (live_writes t) ws payloads → write_frames ws t payloads c = Some (payloads ≫= frame).
Proof.
  intros Hf Hw. revert c Hf. induction Hw as [|[w1 w2] d ws ds Hd _ IH]; intros c Hf; csimpl; [done|].
  apply Forall_cons in Hf as [Hfd Hf]. rewrite write_frame_live by done. by rewrite IH.
Qed.

Lemma read_frames_live rs t payloads rest c :
  Forall fits payloads → ready_reader c → Forall2 (live_reads t) rs payloads →
  read_frames rs t ((payloads ≫= frame) ++ rest) c = (payloads, AllRead, rest).
Proof.
  intros Hf Hc Hr. revert c Hc Hf. induction Hr as [|[r1 r2] d rs ds (L1 & N1 & L2 & N2) _ IH]; intros c Hc Hf; csimpl;
    [done|].
  apply Forall_cons in Hf as [Hfd Hf]. rewrite <- app_assoc.
  destruct (read_frame_live r1 r2 t d ((ds ≫= frame) ++ rest) c) as (c1 & -> & Hc1); [done..|]. by rewrite IH.
Qed.

(** C34. Framing keeps its place.  A list of payloads written with one [write_frame]
    each, all successful, and read back with as many [read_frame]s gives a prefix
    of those payloads whatever the pieces and wherever a read fails, and exactly
    those payloads, with the bytes behind them left for the next frame, when none
    fails: no payload can be mistaken for a frame boundary.  And none does fail, on
    either side, when the payloads are within the size limit, the output pipe is
    open, and every turn of the loops is in time and moves a byte or is
    interrupted, with enough turns to move what has to be moved. *)
Theorem frames_stay_in_sync ws rs tw tr payloads rest cw cr :
  Forall (Forall is_byte) payloads → Forall is_byte rest → length rs = length payloads →
  (∀ out, write_frames ws tw payloads cw = Some out →
     let '(l, fate, behind) := read_frames rs tr (out ++ rest) cr in
     l `prefix_of` payloads ∧ (fate = AllRead → l = payloads ∧ behind = rest)) ∧
  (Forall fits payloads → ready_reader cr → Forall2 (live_writes tw) ws payloads → Forall2 (live_reads tr) rs payloads →
   ∃ out, write_frames ws tw payloads cw = Some out ∧
          read_frames rs tr (out ++ rest) cr = (payloads, AllRead, rest)).
Proof.
  intros Hb Hr Hlen. split.
  - intros out [-> Hf]%write_frames_stream. by apply read_frames_prefix.
  - intros Hf Hc Hw Hl. eexists. split; [by apply write_frames_live|by apply read_frames_live].
Qed.

#[local] Transparent frame.

(** *** A run: three bytes in two writes and in reads of two, with interruptions *)
Definition some_writes : list WriteRound :=
  [mkWriteRound 5 WriteInterrupted; mkWriteRound 6 (WriteSome 3); mkWriteRound 7 WriteAgain;
   mkWriteRound 8 (WriteSome 1); mkWriteRound 8 (WriteSome 1); mkWriteRound 8 (WriteSome 1)].
Definition some_reads : list ReadRound :=
  let ready := PollEvents true false in
  [mkReadRound 5 ready (ReadSome 2); mkReadRound 6 ready ReadInterrupted;
   mkReadRound 6 ready (ReadSome 1); mkReadRound 6 ready (ReadSome 2);
   mkReadRound 6 ready (ReadSome 2); mkReadRound 6 ready (ReadSome 2)].
Definition open_client : FramedStdioClient := set_handles 4 5 new_client.

Example frame_roundtrip_witness :
  ∃ out cr', write_frame (mkWriteHalf 0 some_writes) (mkWriteHalf 0 some_writes) 100 [7; 0; 255] open_client
               = Some (true, out, open_client) ∧
             read_frame (mkReadHalf 0 some_reads) (mkReadHalf 0 some_reads) 100 (out ++ [1; 2]) open_client
               = Some (true, [7; 0; 255], [1; 2], cr').
Proof.
  apply (frame_roundtrip (mkWriteHalf 0 some_writes) (mkWriteHalf 0 some_writes)
           (mkReadHalf 0 some_reads) (mkReadHalf 0 some_reads)).
  - vm_compute. discriminate.
  - repeat constructor; simpl; lia.
  - vm_compute. lia.
  - repeat constructor; simpl; lia.
  - vm_compute. lia.
  - vm_compute. discriminate.
  - repeat constructor; simpl; try lia; eauto.
  - vm_compute. lia.
  - repeat constructor; simpl; try lia; eauto.
  - vm_compute. lia.
Defined.

Example write_frame_prefix_witness :
  [3; 0; 0; 0; 7; 0; 255] `prefix_of` frame [7; 0; 255] ∧
  (true = true → [3; 0; 0; 0; 7; 0; 255] = frame [7; 0; 255] ∧ fits [7; 0; 255]) ∧
  (¬ fits [7; 0; 255] → true = false ∧ [3; 0; 0; 0; 7; 0; 255] = [] ∧
     error_ open_client = "Frame too large: " +:+ to_string (Z.of_nat (length [7; 0; 255])) +:+ " bytes").
Proof.
  apply (write_frame_prefix (mkWriteHalf 0 some_writes) (mkWriteHalf 0 some_writes) 100 _ open_client).
  vm_compute. reflexivity.
Defined.

Example read_frame_consumes_one_frame_witness :
  [2; 0; 0; 0; 9; 9; 1] = frame [9; 9] ++ [1] ∧ fits [9; 9].
Proof.
  apply (read_frame_consumes_one_frame (mkReadHalf 0 some_reads) (mkReadHalf 0 some_reads) 100 _ open_client
           _ _ open_client).
  - repeat constructor; lia.
  - vm_compute. reflexivity.
Defined.

Example frames_stay_in_sync_witness :
  let half := (mkReadHalf 0 some_reads, mkReadHalf 0 some_reads) in
  let whalf := (mkWriteHalf 0 some_writes, mkWriteHalf 0 some_writes) in
  ∃ out, write_frames (replicate 3 whalf) 100 [[9; 9]; []; [4]] open_client = Some out ∧
         read_frames (replicate 3 half) 100 (out ++ [1]) open_client = ([[9; 9]; []; [4]], AllRead, [1]).
Proof.
  intros half whalf.
  destruct (frames_stay_in_sync (replicate 3 whalf) (replicate 3 half) 100 100 [[9; 9]; []; [4]] [1] open_client open_client)
    as [_ Hlive].
  - repeat constructor; lia.
  - repeat constructor; lia.
  - reflexivity.
  - apply Hlive.
    + repeat constructor; vm_compute; discriminate.
    + vm_compute. discriminate.
    + repeat (apply Forall2_cons; split); [..|apply Forall2_nil_2];
        (split; [repeat constructor; simpl; lia|]); (split; [vm_compute; lia|]);
        (split; [repeat constructor; simpl; lia|]); vm_compute; lia.
    + repeat (apply Forall2_cons; split); [..|apply Forall2_nil_2];
        (split; [repeat constructor; simpl; try lia; eauto|]); (split; [vm_compute; lia|]);
        (split; [repeat constructor; simpl; try lia; eauto|]); vm_compute; lia.
Defined.
