(* ===== verification/ProviderProcess.v ===== *)
(** * The provider's process ([core/provider/provider_process.cpp])

    Spawning a provider (the POSIX branch), looking whether it or anything of its
    process group is still running, and the shutdown ladder: end of input, a grace
    period, SIGKILL to the group, what is left of the group.  The system's answers
    are arguments: one answer of [waitpid] per turn of a wait with the time that
    has passed, what [kill(-group, 0)] and [/proc] show per look at the group.  A
    wait that outlasts its answers has not returned: [None].  The child's side of
    [fork] is modelled up to [exec] as its table of descriptors. *)

From S2P Require Import Prelude FramedStdio.

Record Process := mkProcess {
  px_pid : Z;
  px_pgid : Z;
  px_stdin_write_fd : Z;
  px_stdout_read_fd : Z;
  px_client : FramedStdioClient;
  px_error : string;
}.

Definition new_process : Process := mkProcess (-1) (-1) (-1) (-1) new_client "".

(** ** Is it running? *)

Inductive WaitErrno := EINTR | ECHILD | EOther.
Inductive WaitAnswer := StillRunning | Exited | WaitFailed (e : WaitErrno).   (* waitpid(pid, WNOHANG) *)

Fixpoint poll_child (ws : list WaitAnswer) : option bool :=
  match ws with
  | [] => None
  | StillRunning :: _ => Some true
  | Exited :: _ => Some false
  | WaitFailed EINTR :: r => poll_child r
  | WaitFailed _ :: _ => Some false
  end.

Definition is_running (ws : list WaitAnswer) (p : Process) : option bool :=
  if px_pid p <=? 0 then Some false else poll_child ws.

(** ** Waiting for it to exit *)

(** One turn: the answer, and the milliseconds since the wait began. *)
Definition WaitRound : Type := WaitAnswer * Z.

Fixpoint wait_child (rounds : list WaitRound) (timeout_ms : Z) : option bool :=
  match rounds with
  | [] => None
  | (Exited, _) :: _ => Some true
  | (WaitFailed ECHILD, _) :: _ => Some true
  | (WaitFailed EINTR, _) :: r => wait_child r timeout_ms
  | (WaitFailed EOther, _) :: _ => Some false
  | (StillRunning, elapsed) :: r => if timeout_ms <=? elapsed then Some false else wait_child r timeout_ms
  end.

Definition put_pid (pid : Z) (p : Process) : Process :=
  mkProcess pid (px_pgid p) (px_stdin_write_fd p) (px_stdout_read_fd p) (px_client p) (px_error p).
Definition put_pgid (pgid : Z) (p : Process) : Process :=
  mkProcess (px_pid p) pgid (px_stdin_write_fd p) (px_stdout_read_fd p) (px_client p) (px_error p).

Definition wait_for_exit (rounds : list WaitRound) (timeout_ms : Z) (p : Process) : option (bool * Process) :=
  if px_pid p <=? 0 then Some (true, p)
  else match wait_child rounds timeout_ms with
       | None => None
       | Some true => Some (true, put_pid (-1) p)
       | Some false => Some (false, p)
       end.

(** ** The process group *)

(** [sscanf(text, " %c %ld %ld", ...)]: the three conversions, of values a [long] holds. *)
Definition is_white (c : ascii) : bool :=
  let n := nat_of_ascii c in (n =? 32)%nat || ((9 <=? n)%nat && (n <=? 13)%nat).

Fixpoint skip_white (s : string) : string :=
  match s with
  | String c r => if is_white c then skip_white r else s
  | EmptyString => EmptyString
  end.

Definition scan_long (s : string) : option (Z * string) :=
  let '(neg, r) := strip_sign (skip_white s) in
  let '(d, rest) := span_digits r in
  if bool_decide (d = "") then None
  else Some (if neg then - digits_value 0 d else digits_value 0 d, rest).

Definition scan_state (s : string) : option (ascii * Z * Z) :=
  match skip_white s with
  | EmptyString => None
  | String state r =>
      match scan_long r with
      | None => None
      | Some (ppid, r1) => match scan_long r1 with Some (pgrp, _) => Some (state, ppid, pgrp) | None => None end
      end
  end.

(** One line of [/proc/<pid>/stat]: state, parent and group. *)
Definition stat_fields (line : string) : option (ascii * Z * Z) :=
  match split_last ")" line with Some (_, r) => scan_state r | None => None end.

(** What one look at the group shows: whether [kill(-group, 0)] found none, and
    the entries of [/proc] with the first line of their [stat], if it opens. *)
Record GroupLook := mkGroupLook {
  gl_no_such_group : bool;
  gl_proc : option (list (string * option string));
}.

Definition live_member (group : Z) (entry : string * option string) : bool :=
  if bool_decide (entry.1 = "") || negb (all_digits entry.1) then false
  else match entry.2 with
       | None => false
       | Some line =>
           match stat_fields line with
           | Some (state, _, pgrp) => (pgrp =? group) && negb (Ascii.eqb state "Z")
           | None => false
           end
       end.

Definition group_alive (look : GroupLook) (p : Process) : bool :=
  let group := px_pgid p in
  if group <=? 0 then false
  else if gl_no_such_group look then false
  else match gl_proc look with
       | None => true
       | Some entries => existsb (live_member group) entries
       end.

(** Each turn: the look, and whether the deadline has passed. *)
Fixpoint wait_for_group_exit (rounds : list (GroupLook * bool)) (p : Process) : option bool :=
  match rounds with
  | [] => None
  | (look, late) :: r =>
      if group_alive look p then if late then Some false else wait_for_group_exit r p
      else Some true
  end.

(** ** Shutdown *)

Inductive Action := CloseFd (fd : Z) | Kill (target : Z).   (* Kill (-g): SIGKILL to the group g *)

Definition force_terminate (p : Process) : list Action :=
  if 0 <? px_pgid p then [Kill (- px_pgid p)]
  else if 0 <? px_pid p then [Kill (px_pid p)] else [].

Definition put_client (c : FramedStdioClient) (p : Process) : Process :=
  mkProcess (px_pid p) (px_pgid p) (px_stdin_write_fd p) (px_stdout_read_fd p) c (px_error p).

Definition closed (fd : option Z) : list Action := match fd with Some fd => [CloseFd fd] | None => [] end.

Definition close_in (p : Process) : list Action * Process :=
  let '(fd, c) := close_stdin (px_client p) in (closed fd, put_client c p).
Definition close_out (p : Process) : list Action * Process :=
  let '(fd, c) := close_stdout (px_client p) in (closed fd, put_client c p).

Record ShutdownIO := mkShutdownIO {
  si_running : list WaitAnswer;
  si_grace : list WaitRound;
  si_killed : list WaitRound;
  si_reap : list WaitRound;
  si_look : GroupLook;
  si_group : list (GroupLook * bool);
}.

(** The child's part of the ladder: end of input, grace, SIGKILL. *)
Definition end_child (io : ShutdownIO) (shutdown_timeout_ms : Z) (p : Process)
    : option (bool * list Action * Process) :=
  let '(acts, p1) := close_in p in
  match wait_for_exit (si_grace io) shutdown_timeout_ms p1 with
  | None => None
  | Some (true, p2) => Some (true, acts, p2)
  | Some (false, p2) =>
      match wait_for_exit (si_killed io) 500 p2 with
      | None => None
      | Some (exited, p3) => Some (exited, acts ++ force_terminate p2, p3)
      end
  end.

(** What is done once the child is accounted for: the rest of its group, then the pipes. *)
Definition end_group (io : ShutdownIO) (exited : bool) (p : Process) : option (bool * list Action * Process) :=
  let kills := if group_alive (si_look io) p then force_terminate p else [] in
  match wait_for_group_exit (si_group io) p with
  | None => None
  | Some group_exited =>
      let '(a1, p1) := close_in p in
      let '(a2, p2) := close_out p1 in
      let p3 := mkProcess (px_pid p2) (if group_exited then -1 else px_pgid p2) (-1) (-1) (px_client p2) (px_error p2) in
      Some (exited && group_exited, kills ++ a1 ++ a2, p3)
  end.

Definition shutdown (io : ShutdownIO) (shutdown_timeout_ms : Z) (p : Process)
    : option (bool * list Action * Process) :=
  match is_running (si_running io) p with
  | None => None
  | Some true =>
      match end_child io shutdown_timeout_ms p with
      | None => None
      | Some (exited, acts, p1) =>
          match end_group io exited p1 with Some (ok, more, p2) => Some (ok, acts ++ more, p2) | None => None end
      end
  | Some false =>
      match wait_for_exit (si_reap io) 0 p with
      | None => None
      | Some (_, p1) => end_group io true p1
      end
  end.

(** ** Spawning *)

(** A descriptor names one of these. *)
Inductive Channel :=
| Inherited (fd : Z)                       (* what the runtime was started with *)
| StdinRead | StdinWrite | StdoutRead | StdoutWrite   (* the ends of the new pipes *)
| Other (n : Z).                           (* anything else the runtime has open *)

#[global] Instance Channel_eq_dec : EqDecision Channel.
Proof. solve_decision. Defined.

(** Descriptor table: the channel, and whether [exec] closes it. *)
Abbreviation FdTable := (gmap Z (Channel * bool)).

Definition dup2 (oldfd newfd : Z) (t : FdTable) : FdTable :=
  match t !! oldfd with
  | Some (ch, _) => if bool_decide (oldfd = newfd) then t else <[newfd := (ch, false)]> t
  | None => t
  end.

Definition exec (t : FdTable) : gmap Z Channel := fst <$> filter (λ e, e.2.2 = false) t.

Record SpawnIO := mkSpawnIO {
  sp_exists : bool;
  sp_stdin : option (Z * Z);      (* pipe2's read and write end *)
  sp_stdout : option (Z * Z);
  sp_fork : option Z;             (* the child's pid, in the parent *)
}.

(** [pipe2(..., O_CLOEXEC)]. *)
Definition open_pipe (ends : Z * Z) (rd wr : Channel) (t : FdTable) : FdTable :=
  <[ends.1 := (rd, true)]> (<[ends.2 := (wr, true)]> t).

Definition close (fd : Z) (t : FdTable) : FdTable := delete fd t.

(** The child between [fork] and [exec]. *)
Definition child_table (i o : Z * Z) (t : FdTable) : FdTable :=
  close o.2 (close o.1 (dup2 o.2 1 (close i.2 (close i.1 (dup2 i.1 0 t))))).

Definition fail_spawn (e : string) (p : Process) : Process :=
  mkProcess (px_pid p) (px_pgid p) (px_stdin_write_fd p) (px_stdout_read_fd p) (px_client p) e.

(** The result, the runtime's table afterwards, and, if a child was started, what
    it has open when the provider begins. *)
Definition spawn (executable_path : string) (io : SpawnIO) (t : FdTable) (p : Process)
    : bool * FdTable * option (gmap Z Channel) * Process :=
  if negb (sp_exists io) then (false, t, None, fail_spawn ("Executable not found: " +:+ executable_path) p)
  else match sp_stdin io with
  | None => (false, t, None, fail_spawn "Failed to create stdin pipe" p)
  | Some i =>
      let t1 := open_pipe i StdinRead StdinWrite t in
      match sp_stdout io with
      | None => (false, close i.2 (close i.1 t1), None, fail_spawn "Failed to create stdout pipe" p)
      | Some o =>
          let t2 := open_pipe o StdoutRead StdoutWrite t1 in
          match sp_fork io with
          | None =>
              (false, close o.2 (close o.1 (close i.2 (close i.1 t2))), None, fail_spawn "Fork failed" p)
          | Some pid =>
              (true, close o.2 (close i.1 t2), Some (exec (child_table i o t2)),
               mkProcess pid pid i.2 o.1 (set_handles i.2 o.1 (px_client p)) (px_error p))
          end
      end
  end.

(** ** The ladder *)

(** Answers that account for the child: it exited, or there is none to wait for. *)
Definition child_gone (rounds : list WaitRound) : Prop :=
  ∃ e, (Exited, e) ∈ rounds ∨ (WaitFailed ECHILD, e) ∈ rounds.

Lemma wait_child_true rounds timeout_ms : wait_child rounds timeout_ms = Some true → child_gone rounds.
Proof.
  induction rounds as [|[a e] rounds IH]; simpl; [done|].
  assert (child_gone rounds → child_gone ((a, e) :: rounds)) as Hc.
  { intros (x & [?|?]); exists x; [left|right]; by right. }
  destruct a as [| |[]]; [case_match; [done|auto]|intros _; exists e; left; left|auto|intros _; exists e; right; left|done].
Qed.

Lemma wait_for_exit_spec rounds timeout_ms p b p' :
  wait_for_exit rounds timeout_ms p = Some (b, p') →
  px_pgid p' = px_pgid p ∧ px_client p' = px_client p ∧
  (if b then px_pid p' ≤ 0 ∧ (px_pid p ≤ 0 ∨ child_gone rounds) else p' = p ∧ 0 < px_pid p).
Proof.
  unfold wait_for_exit. destruct (Z.leb_spec (px_pid p) 0); [intros [= <- <-]; by split_and!; auto|].
  pose proof (wait_child_true rounds timeout_ms) as Hc.
  destruct (wait_child rounds timeout_ms) as [[]|]; intros [= <- <-]; split_and!; auto; done.
Qed.

(** A look that shows no live process of a group: the system knows no such group,
    or every process of it that [/proc] lists is a zombie. *)
Definition shows_empty (group : Z) (look : GroupLook) : Prop :=
  gl_no_such_group look = true ∨
  ∃ entries, gl_proc look = Some entries ∧
    ∀ name line state ppid, (name, Some line) ∈ entries → name ≠ "" → all_digits name = true →
      stat_fields line = Some (state, ppid, group) → state = "Z"%char.

Lemma group_alive_false look p : group_alive look p = false ↔ px_pgid p ≤ 0 ∨ shows_empty (px_pgid p) look.
Proof.
  unfold group_alive, shows_empty. destruct (Z.leb_spec (px_pgid p) 0); [split; [by left|done]|].
  destruct (gl_no_such_group look); [split; [by right; left|done]|].
  destruct (gl_proc look) as [entries|]; [|split; [done|by intros [?|[?|(? & ? & _)]]; [lia| |]]].
  split.
  - intros Hn. right; right. exists entries. split; [done|]. intros name line state ppid Hin Hne Hd Hst.
    destruct (Ascii.eqb_spec state "Z") as [?|Hz]; [done|].
    assert (existsb (live_member (px_pgid p)) entries = true) as He; [|congruence].
    apply existsb_exists. exists (name, Some line). split; [by apply list_elem_of_In|]. unfold live_member. simpl.
    rewrite bool_decide_false, Hd, Hst, Z.eqb_refl by done. simpl. by destruct (Ascii.eqb_spec state "Z").
  - intros [?|[?|(l & [= <-] & Hall)]]; [lia|done|]. apply not_true_is_false.
    intros ([name [line|]] & Hin & Hl)%existsb_exists; unfold live_member in Hl; simpl in Hl;
      destruct (bool_decide_reflect (name = "")) as [|Hne], (all_digits name) eqn:Hd; try done.
    destruct (stat_fields line) as [[[state ppid] pgrp]|] eqn:Hst; [|done].
    apply andb_true_iff in Hl as [->%Z.eqb_eq Hz].
    rewrite (Hall name line state ppid) in Hz; [done|by apply list_elem_of_In|done..].
Qed.

(** What the wait for the group saw last. *)
Definition group_gone (rounds : list (GroupLook * bool)) (p : Process) : Prop :=
  px_pgid p ≤ 0 ∨ ∃ look late, (look, late) ∈ rounds ∧ shows_empty (px_pgid p) look.
Definition group_left (rounds : list (GroupLook * bool)) (p : Process) : Prop :=
  0 < px_pgid p ∧ ∃ look, (look, true) ∈ rounds ∧ ¬ shows_empty (px_pgid p) look.

Lemma wait_for_group_spec rounds p b :
  wait_for_group_exit rounds p = Some b → if b then group_gone rounds p else group_left rounds p.
Proof.
  induction rounds as [|[look late] rounds IH]; simpl; [done|]. destruct (group_alive look p) eqn:Ea.
  - apply not_false_iff_true in Ea. rewrite group_alive_false in Ea. destruct late.
    + intros [= <-]. split; [lia|]. exists look. split; [left|tauto].
    + intros Hb%IH. destruct b.
      * destruct Hb as [?|(l & t & ? & ?)]; [by left|right; exists l, t; split; [by right|done]].
      * destruct Hb as (? & l & ? & ?). split; [done|]. exists l. split; [by right|done].
  - intros [= <-]. apply group_alive_false in Ea as [?|?]; [by left|right]. exists look, late. split; [left|done].
Qed.

Definition is_kill (a : Action) : bool := match a with Kill _ => true | CloseFd _ => false end.
Definition kills (acts : list Action) : list Action := filter (λ a, is_kill a = true) acts.

(** The only targets of a SIGKILL: the provider's own group, or the child when it has none. *)
Definition own_target (p : Process) (a : Action) : Prop :=
  a = Kill (- px_pgid p) ∧ 0 < px_pgid p ∨ a = Kill (px_pid p) ∧ px_pgid p ≤ 0 ∧ 0 < px_pid p.

Lemma force_terminate_own p : Forall (own_target p) (force_terminate p).
Proof.
  unfold force_terminate, own_target. destruct (Z.ltb_spec 0 (px_pgid p)); [by repeat constructor|].
  destruct (Z.ltb_spec 0 (px_pid p)); [|done]. apply Forall_singleton. by right.
Qed.

Lemma kills_closed fd : kills (closed fd) = [].
Proof. by destruct fd. Qed.

Lemma close_in_spec p :
  kills (close_in p).1 = [] ∧ px_pid (close_in p).2 = px_pid p ∧ px_pgid (close_in p).2 = px_pgid p ∧
  stdin_write_ (px_client (close_in p).2) < 0 ∧ stdout_read_ (px_client (close_in p).2) = stdout_read_ (px_client p).
Proof.
  unfold close_in, close_stdin. destruct (Z.leb_spec 0 (stdin_write_ (px_client p))); simpl; by split_and!.
Qed.

Lemma close_out_spec p :
  kills (close_out p).1 = [] ∧ px_pid (close_out p).2 = px_pid p ∧ px_pgid (close_out p).2 = px_pgid p ∧
  stdin_write_ (px_client (close_out p).2) = stdin_write_ (px_client p) ∧ stdout_read_ (px_client (close_out p).2) < 0.
Proof.
  unfold close_out, close_stdout. destruct (Z.leb_spec 0 (stdout_read_ (px_client p))); simpl; by split_and!.
Qed.

Lemma kills_app a b : kills (a ++ b) = kills a ++ kills b.
Proof. apply filter_app. Qed.

Lemma kills_own p l : Forall (own_target p) l → kills l = l.
Proof. intros Hl. apply filter_all. eapply Forall_impl; [exact Hl|]. by intros a [[-> _]|[-> _]]. Qed.

Lemma end_group_spec io exited p ok acts p' :
  end_group io exited p = Some (ok, acts, p') →
  ∃ gone, ok = exited && gone ∧ px_pid p' = px_pid p ∧ px_pgid p' = (if gone then -1 else px_pgid p) ∧
    (if gone then group_gone (si_group io) p else group_left (si_group io) p) ∧ stdin_write_ (px_client p') < 0 ∧ stdout_read_ (px_client p') < 0 ∧
    kills acts = (if group_alive (si_look io) p then force_terminate p else []).
Proof.
  unfold end_group. destruct (wait_for_group_exit (si_group io) p) as [gone|] eqn:Eg; [|done].
  destruct (close_in_spec p) as (K1 & D1 & G1 & S1 & O1). destruct (close_in p) as [a1 p1]. simpl in *.
  destruct (close_out_spec p1) as (K2 & D2 & G2 & S2 & O2). destruct (close_out p1) as [a2 p2]. simpl in *.
  intros [= <- <- <-]. exists gone. simpl. rewrite !kills_app, K1, K2, app_nil_r, D2, D1, G2, G1.
  split_and!; [done|done|done| |lia|lia|].
  - by apply wait_for_group_spec.
  - destruct (group_alive _ _); [apply (kills_own p), force_terminate_own|done].
Qed.

(** The looks at the group do not depend on the pipes. *)
Lemma group_alive_pgid look p q : px_pgid q = px_pgid p → group_alive look q = group_alive look p.
Proof. intros E. unfold group_alive. by rewrite E. Qed.

(** What the ladder does to anything but the child: the pipes, the group, the kills. *)
Definition ladder_done (io : ShutdownIO) (p : Process) (ok : bool) (acts : list Action) (p' : Process) : Prop :=
  stdin_write_ (px_client p') < 0 ∧ stdout_read_ (px_client p') < 0 ∧ Forall (own_target p) (kills acts) ∧
  (if ok then group_gone (si_group io) p ∧ px_pgid p' = -1
   else 0 < px_pid p' ∨ px_pgid p' = px_pgid p ∧ group_left (si_group io) p).

(** The end of the ladder, once the child's part is over. *)
Lemma end_group_done io exited p p1 acts0 ok more p' :
  px_pgid p1 = px_pgid p → (exited = false → 0 < px_pid p1) →
  Forall (own_target p) (kills acts0) → end_group io exited p1 = Some (ok, more, p') →
  ladder_done io p ok (acts0 ++ more) p' ∧ px_pid p' = px_pid p1 ∧ (ok = true → exited = true) ∧
  (kills acts0 = [] → px_pgid p ≤ 0 ∨ shows_empty (px_pgid p) (si_look io) → kills (acts0 ++ more) = []).
Proof.
  intros G1 Hex K1 Eg. apply end_group_spec in Eg as (gone & -> & D3 & G3 & Hg & S3 & O3 & K3).
  assert ((if gone then group_gone (si_group io) p else group_left (si_group io) p)) as Hg'.
  { unfold group_gone, group_left in *. by rewrite G1 in Hg. }
  rewrite (group_alive_pgid _ p p1) in K3 by done. unfold ladder_done. rewrite kills_app, K3.
  split; [split_and!; [done|done| |]|split_and!].
  - apply Forall_app. split; [done|]. destruct (group_alive (si_look io) p) eqn:Ea; [|constructor].
    assert (0 < px_pgid p) as Hgp. { unfold group_alive in Ea. by destruct (Z.leb_spec (px_pgid p) 0). }
    eapply Forall_impl; [apply force_terminate_own|]. unfold own_target. rewrite G1.
    intros a [?|(_ & ? & _)]; [by left|lia].
  - destruct exited, gone; simpl; [by split|right; by rewrite G3, G1|left; rewrite D3; by apply Hex..].
  - done.
  - by destruct exited.
  - intros -> He%group_alive_false. by rewrite He.
Qed.

(** C24. The shutdown ladder, on every branch.  Whatever happens the runtime's ends
    of the pipes are closed.  Success means that a look at the group showed no live
    process of it (or that there is no group), and, when the child was running,
    that waitpid answered that it exited or that there is none; on failure the
    child stays tracked, or the group does, which a look past the deadline still
    showed alive, so that a later call tries again.  Only the provider's own group
    (or the child, when it has none) is ever killed; a running child is killed only
    when it outlasts the grace period after its input was closed; and a provider
    that exits in time and leaves nothing behind is not killed at all. *)
Theorem shutdown_ladder (io : ShutdownIO) (timeout_ms : Z) (p : Process) (ok : bool) (acts : list Action) (p' : Process) :
  shutdown io timeout_ms p = Some (ok, acts, p') →
  ladder_done io p ok acts p' ∧
  (is_running (si_running io) p = Some true →
   (ok = true → px_pid p' ≤ 0 ∧ child_gone (si_grace io ++ si_killed io)) ∧
   (0 ≤ stdin_write_ (px_client p) → head acts = Some (CloseFd (stdin_write_ (px_client p)))) ∧
   (wait_child (si_grace io) timeout_ms = Some true →
    px_pgid p ≤ 0 ∨ shows_empty (px_pgid p) (si_look io) → kills acts = [])).
Proof.
  unfold shutdown. destruct (is_running (si_running io) p) as [[]|] eqn:Er; [|clear Er|done].
  - assert (0 < px_pid p) as Hpid. { unfold is_running in Er. destruct (Z.leb_spec (px_pid p) 0); [done|lia]. }
    unfold end_child. destruct (close_in_spec p) as (K1 & D1 & G1 & _ & _).
    assert (0 ≤ stdin_write_ (px_client p) → (close_in p).1 = [CloseFd (stdin_write_ (px_client p))]) as Hhead.
    { intros Hfd. unfold close_in, close_stdin. by rewrite (proj2 (Z.leb_le _ _) Hfd). }
    destruct (close_in p) as [a0 p1]. simpl in *.
    destruct (wait_for_exit (si_grace io) timeout_ms p1) as [[[] p2]|] eqn:E2; [| |done].
    + apply wait_for_exit_spec in E2 as (G2 & _ & D2 & [?|Hgone]); [lia|].
      destruct (end_group io true p2) as [[[ok' more] p3]|] eqn:Eg; [|done]. intros [= <- <- <-].
      destruct (end_group_done io true p p2 a0 ok' more p3) as (Hd & Hp & _ & Hk); [congruence|done|rewrite K1; constructor|done|].
      split; [done|]. intros _. split_and!; [|intros Hfd; by rewrite Hhead|intros _; by apply Hk].
      intros _. split; [lia|]. destruct Hgone as (e & [?|?]); exists e; [left|right]; apply elem_of_app; by left.
    + assert (wait_child (si_grace io) timeout_ms ≠ Some true) as Hwait.
      { intros Hw. unfold wait_for_exit in E2. rewrite Hw in E2. by destruct (px_pid p1 <=? 0). }
      apply wait_for_exit_spec in E2 as (_ & _ & -> & _).
      destruct (wait_for_exit (si_killed io) 500 p1) as [[exited p3]|] eqn:E3; [|done].
      apply wait_for_exit_spec in E3 as (G3 & _ & D3).
      destruct (end_group io exited p3) as [[[ok' more] p4]|] eqn:Eg; [|done]. intros [= <- <- <-].
      destruct (end_group_done io exited p p3 (a0 ++ force_terminate p1) ok' more p4) as (Hd & Hp & Hex & _);
        [congruence|intros ->; by destruct D3 as [-> ?]| |done|].
      { rewrite kills_app, K1, (kills_own p1) by apply force_terminate_own. simpl.
        eapply Forall_impl; [apply force_terminate_own|]. unfold own_target. by rewrite G1, D1. }
      split; [done|]. intros _. split_and!; [|intros Hfd; by rewrite Hhead|done].
      intros ->. rewrite (Hex eq_refl) in D3. destruct D3 as [? [?|(e & Hgone)]]; [lia|]. split; [lia|].
      exists e. rewrite !elem_of_app. tauto.
  - destruct (wait_for_exit (si_reap io) 0 p) as [[b p1]|] eqn:E1; [|done].
    apply wait_for_exit_spec in E1 as (G1 & _ & D1). intros Eg. split; [|done].
    by apply (end_group_done io true p p1 [] ok acts p'); [..|constructor|].
Qed.

(** A provider that ignores the end of its input and dies with its group when killed. *)
Definition stubborn : Process := mkProcess 41 41 7 8 (set_handles 7 8 new_client) "".
Definition one_left : GroupLook := mkGroupLook false (Some [("41", Some "41 (sim) S 1 41 41 0"); ("self", None)]).
Definition none_left : GroupLook := mkGroupLook false (Some [("41", Some "41 (sim) Z 1 41 41 0")]).
Definition stubborn_io : ShutdownIO :=
  mkShutdownIO [StillRunning] [(StillRunning, 0); (WaitFailed EINTR, 0); (StillRunning, 2000)] [(StillRunning, 0); (Exited, 10)]
    [] none_left [(one_left, false); (none_left, false)].

Example shutdown_ladder_witness :
  ∃ p', shutdown stubborn_io 2000 stubborn = Some (true, [CloseFd 7; Kill (-41); CloseFd 8], p') ∧
        px_pid p' ≤ 0 ∧ px_pgid p' = -1 ∧ Forall (own_target stubborn) (kills [CloseFd 7; Kill (-41); CloseFd 8]) ∧
        group_gone (si_group stubborn_io) stubborn.
Proof.
  destruct (shutdown stubborn_io 2000 stubborn) as [[[ok acts] p']|] eqn:E; [|vm_compute in E; done].
  destruct (shutdown_ladder stubborn_io 2000 stubborn ok acts p' E) as [(_ & _ & Hown & Hg) Hrun].
  assert (ok = true ∧ acts = [CloseFd 7; Kill (-41); CloseFd 8]) as [-> ->] by (vm_compute in E; by injection E as <- <- _).
  exists p'. split; [reflexivity|]. destruct Hg as [Hgone Hp]. split; [by apply Hrun|]. by split_and!.
Defined.

(** ** The waits end *)

(** A wait is over at an answer that ends it, or when the time has passed. *)
Definition wait_ends (timeout_ms : Z) (rounds : list WaitRound) : Prop :=
  ∃ a elapsed, (a, elapsed) ∈ rounds ∧ a ≠ WaitFailed EINTR ∧ (a = StillRunning → timeout_ms ≤ elapsed).

Lemma wait_child_returns rounds timeout_ms : wait_ends timeout_ms rounds → is_Some (wait_child rounds timeout_ms).
Proof.
  induction rounds as [|[a e] rounds IH]; intros (a' & e' & Hin & Hne & Hlate); [by apply not_elem_of_nil in Hin|].
  apply elem_of_cons in Hin as [[= -> ->]|Hin].
  - destruct a as [| |[]]; simpl; [rewrite (proj2 (Z.leb_le _ _) (Hlate eq_refl))| |done|..]; by eexists.
  - assert (is_Some (wait_child rounds timeout_ms)) by (apply IH; by exists a', e').
    destruct a as [| |[]]; simpl; [destruct (timeout_ms <=? e)| |done|..]; done || by eexists.
Qed.

Lemma wait_for_exit_returns rounds timeout_ms p :
  wait_ends timeout_ms rounds → is_Some (wait_for_exit rounds timeout_ms p).
Proof.
  intros Hr. unfold wait_for_exit. destruct (_ <=? _); [by eexists|].
  destruct (wait_child_returns rounds timeout_ms Hr) as [[] ->]; by eexists.
Qed.

Lemma group_wait_returns rounds p :
  (∃ look, (look, true) ∈ rounds) → is_Some (wait_for_group_exit rounds p).
Proof.
  intros [look Hin]. induction rounds as [|[l late] rounds IH]; [by apply not_elem_of_nil in Hin|]. simpl.
  destruct (group_alive l p); [|by eexists]. destruct late; [by eexists|]. apply IH.
  by apply elem_of_cons in Hin as [[=]|].
Qed.

(** Shutdown always returns: when waitpid answers something other than "interrupted"
    sooner or later and the clock passes each wait's limit, whatever the provider
    does and whatever is left of its group. *)
Theorem shutdown_returns (io : ShutdownIO) (timeout_ms : Z) (p : Process) :
  (∃ a, a ∈ si_running io ∧ a ≠ WaitFailed EINTR) → wait_ends timeout_ms (si_grace io) → wait_ends 500 (si_killed io) →
  wait_ends 0 (si_reap io) → (∃ look, (look, true) ∈ si_group io) →
  is_Some (shutdown io timeout_ms p).
Proof.
  intros (a & Ha & Hne) Hg Hk Hr Hl.
  assert (∀ exited q, is_Some (end_group io exited q)) as Hend.
  { intros exited q. unfold end_group. destruct (group_wait_returns (si_group io) q Hl) as [gone ->].
    destruct (close_in q) as [a1 q1]. destruct (close_out q1) as [a2 q2]. by eexists. }
  assert (is_Some (poll_child (si_running io))) as Hp.
  { revert Ha. induction (si_running io) as [|x l IH]; [by intros ?%not_elem_of_nil|].
    intros [<-|Hin]%elem_of_cons; [destruct a as [| |[]]; [..|done| |]; by eexists|].
    destruct x as [| |[]]; simpl; [..|by apply IH| |]; by eexists. }
  unfold shutdown, is_running. destruct (px_pid p <=? 0).
  - destruct (wait_for_exit_returns (si_reap io) 0 p Hr) as [[b p1] ->]. apply Hend.
  - destruct Hp as [[] ->].
    + unfold end_child. destruct (close_in p) as [a0 p1].
      destruct (wait_for_exit_returns (si_grace io) timeout_ms p1 Hg) as [[[] p2] ->].
      * destruct (Hend true p2) as [[[ok more] p3] ->]. by eexists.
      * destruct (wait_for_exit_returns (si_killed io) 500 p2 Hk) as [[exited p3] ->].
        destruct (Hend exited p3) as [[[ok more] p4] ->]. by eexists.
    + destruct (wait_for_exit_returns (si_reap io) 0 p Hr) as [[b p1] ->]. apply Hend.
Qed.

Example shutdown_returns_witness :
  is_Some (shutdown (mkShutdownIO [WaitFailed EINTR; StillRunning] [(StillRunning, 2000)] [(WaitFailed ECHILD, 0)]
                       [(Exited, 0)] one_left [(one_left, true)]) 2000 stubborn).
Proof.
  apply shutdown_returns.
  - exists StillRunning. split; [right; left|done].
  - exists StillRunning, 2000. split; [left|]. split; [done|]. simpl. lia.
  - exists (WaitFailed ECHILD), 0. split; [left|]. split; done.
  - exists Exited, 0. split; [left|]. split; done.
  - exists one_left. left.
Defined.

(** ** Descriptors *)

Lemma close_twice_open_pipe ends rd wr t :
  t !! ends.1 = None → t !! ends.2 = None → close ends.2 (close ends.1 (open_pipe ends rd wr t)) = t.
Proof.
  intros H1 H2. unfold close, open_pipe. apply map_eq. intros i. rewrite !lookup_delete, !lookup_insert.
  repeat case_decide; congruence.
Qed.

Lemma exec_lookup t k : exec t !! k = match t !! k with Some (ch, false) => Some ch | _ => None end.
Proof.
  unfold exec. rewrite lookup_fmap. destruct (t !! k) as [[ch [|]]|] eqn:E.
  - rewrite map_lookup_filter_None_2; [done|]. right. intros x. rewrite E. by intros [= <-].
  - by rewrite (map_lookup_filter_Some_2 _ _ _ _ E).
  - rewrite map_lookup_filter_None_2; [done|]. by left.
Qed.

(** [pipe2] gives descriptors that were free. *)
Definition fresh_pipes (io : SpawnIO) (t : FdTable) : Prop :=
  (∀ i, sp_stdin io = Some i → t !! i.1 = None ∧ t !! i.2 = None ∧ i.1 ≠ i.2) ∧
  (∀ i o, sp_stdin io = Some i → sp_stdout io = Some o →
     t !! o.1 = None ∧ t !! o.2 = None ∧ NoDup [i.1; i.2; o.1; o.2]).

(** Spawning leaks no descriptor: when it fails, at any point, the runtime's table
    is as it was and the process stays unset; when it succeeds the table has gained
    exactly the two ends the client is given, both closed on exec.  The child then
    begins with its pipe ends as descriptors 0 and 1, and otherwise with exactly
    those of the runtime's descriptors that survive exec, so with no end of another
    provider's pipes: as long as the new pipes are not given the numbers 0 and 1
    themselves. *)
Theorem spawn_gives_pipe_ends (path : string) (io : SpawnIO) (t : FdTable) (p : Process) :
  fresh_pipes io t → is_Some (t !! 0) → is_Some (t !! 1) →
  let '(ok, t', child, p') := spawn path io t p in
  if ok then
    ∃ i o, sp_stdin io = Some i ∧ sp_stdout io = Some o ∧
      t' = <[i.2 := (StdinWrite, true)]> (<[o.1 := (StdoutRead, true)]> t) ∧
      px_client p' = set_handles i.2 o.1 (px_client p) ∧
      child = Some (<[0 := StdinRead]> (<[1 := StdoutWrite]> (exec t)))
  else t' = t ∧ child = None ∧ px_pid p' = px_pid p ∧ px_pgid p' = px_pgid p ∧ px_client p' = px_client p.
Proof.
  intros [Hi Hio] H0' H1'. unfold spawn. destruct (sp_exists io); simpl; [|done].
  destruct (sp_stdin io) as [i|] eqn:Ei; [|done]. destruct (Hi i eq_refl) as (F1 & F2 & Hne).
  destruct (sp_stdout io) as [o|] eqn:Eo; [|by split_and!; try apply close_twice_open_pipe].
  destruct (Hio i o eq_refl eq_refl) as (F3 & F4 & Hnd).
  assert (i.1 ≠ o.1 ∧ i.1 ≠ o.2 ∧ i.2 ≠ o.1 ∧ i.2 ≠ o.2 ∧ o.1 ≠ o.2) as (M1 & M2 & M3 & M4 & M5).
  { rewrite !NoDup_cons in Hnd. set_unfold in Hnd. naive_solver. }
  clear Hnd Hi Hio.
  destruct (sp_fork io) as [pid|].
  2:{ split; [|done]. apply map_eq. intros k. unfold close, open_pipe. rewrite !lookup_delete, !lookup_insert.
      repeat case_decide; congruence. }
  exists i, o. assert (i.1 ≠ 0 ∧ i.1 ≠ 1 ∧ i.2 ≠ 0 ∧ i.2 ≠ 1) as (N1 & N2 & N3 & N4).
  { destruct H0' as [? E0], H1' as [? E1]. split_and!; intros E; congruence. }
  assert (o.1 ≠ 0 ∧ o.1 ≠ 1 ∧ o.2 ≠ 0 ∧ o.2 ≠ 1) as (N5 & N6 & N7 & N8).
  { destruct H0' as [? E0], H1' as [? E1]. split_and!; intros E; congruence. }
  split_and!; [done|done| |done|].
  - unfold close, open_pipe. apply map_eq. intros k. rewrite !lookup_delete, !lookup_insert.
    repeat case_decide; congruence.
  - f_equal. set (t2 := open_pipe o _ _ _).
    assert (t2 !! i.1 = Some (StdinRead, true)) as L1.
    { subst t2. unfold open_pipe. rewrite !lookup_insert. repeat case_decide; congruence. }
    assert (t2 !! o.2 = Some (StdoutWrite, true)) as L2.
    { subst t2. unfold open_pipe. rewrite !lookup_insert. repeat case_decide; congruence. }
    assert (∀ k, exec (child_table i o t2) !! k =
      if decide (k = 0) then Some StdinRead else if decide (k = 1) then Some StdoutWrite
      else if decide (k = i.1 ∨ k = i.2 ∨ k = o.1 ∨ k = o.2) then None else exec t2 !! k) as Hchild.
    { intros k. rewrite !exec_lookup. unfold child_table, dup2. rewrite L1, bool_decide_false by done.
      assert (close i.2 (close i.1 (<[0 := (StdinRead, false)]> t2)) !! o.2 = Some (StdoutWrite, true)) as L3.
      { unfold close. by rewrite !lookup_delete_ne, lookup_insert_ne by congruence. }
      rewrite L3, bool_decide_false by done. unfold close.
      rewrite !lookup_delete, !lookup_insert, !lookup_delete, !lookup_insert.
      repeat case_decide; intuition congruence. }
    apply map_eq. intros k. rewrite Hchild, !lookup_insert, !exec_lookup.
    destruct (decide (k = 0)) as [->|K0]; [by rewrite decide_True|]. rewrite (decide_False (P := 0 = k)) by congruence.
    destruct (decide (k = 1)) as [->|K1]; [by rewrite decide_True|]. rewrite (decide_False (P := 1 = k)) by congruence.
    case_decide as Hk.
    + assert (t !! k = None) as -> by (by destruct Hk as [->|[->|[->| ->]]]). done.
    + subst t2. unfold open_pipe. rewrite !lookup_insert_ne by intuition congruence. done.
Qed.

Example spawn_gives_pipe_ends_witness :
  let t : FdTable := {[0 := (Inherited 0, false); 1 := (Inherited 1, false); 2 := (Inherited 2, false); 9 := (Other 9, true)]} in
  let '(ok, t', child, p') := spawn "/opt/sim" (mkSpawnIO true (Some (3, 4)) (Some (5, 6)) (Some 41)) t new_process in
  ok = true ∧ child = Some (<[0 := StdinRead]> (<[1 := StdoutWrite]> (exec t))).
Proof.
  cbv zeta. set (t := <[0 := _]> _).
  pose proof (spawn_gives_pipe_ends "/opt/sim" (mkSpawnIO true (Some (3, 4)) (Some (5, 6)) (Some 41)) t new_process) as Hs.
  assert (fresh_pipes (mkSpawnIO true (Some (3, 4)) (Some (5, 6)) (Some 41)) t) as Hf.
  { split; [intros i [= <-]|intros i o [= <-] [= <-]]; (split; [reflexivity|]); (split; [reflexivity|]); [done|].
    apply (bool_decide_unpack _). vm_compute. exact I. }
  specialize (Hs Hf ltac:(by eexists) ltac:(by eexists)).
  destruct (spawn _ _ _ _) as [[[ok t'] child] p'] eqn:E.
  assert (ok = true) as -> by (unfold spawn in E; simpl in E; by injection E as <-).
  destruct Hs as (i & o & _ & _ & _ & _ & Hc). split; [reflexivity|exact Hc].
Defined.

(** A runtime started without a standard input gives its first pipe the number 0:
    the child's [dup2] onto itself does nothing and the [close] that follows
    leaves the provider without an input. *)
Example closed_stdin_starves_provider :
  let t : FdTable := {[1 := (Inherited 1, false); 2 := (Inherited 2, false)]} in
  (λ c : option (gmap Z Channel), (λ m, m !! 0) <$> c)
    (spawn "/opt/sim" (mkSpawnIO true (Some (0, 3)) (Some (4, 5)) (Some 41)) t new_process).1.2 = Some None.
Proof. vm_compute. reflexivity. Qed.

(** ** Reading a group out of /proc *)

Lemma scan_long_to_string z s :
  no_digit_first s = true → scan_long (String " " (to_string z +:+ s)) = Some (z, s).
Proof.
  intros Hs. unfold scan_long.
  assert (∀ y, 0 ≤ y → ∃ c d, to_string y = String c d ∧ is_digit c = true ∧ all_digits (to_string y) = true ∧
    digits_value 0 (to_string y) = y) as Hpos.
  { intros y Hy. destruct (to_string_digits y Hy) as (d & -> & Hne & Ha & Hv). destruct d as [|c d]; [done|].
    exists c, d. split_and!; [done| |done|done]. simpl in Ha. by apply andb_true_iff in Ha as [? _]. }
  assert (∀ c r, is_digit c = true → skip_white (String c r) = String c r) as Hw.
  { intros c r Hc. simpl. unfold is_digit in Hc. apply andb_true_iff in Hc as [Hc _]. apply Nat.leb_le in Hc.
    unfold is_white. rewrite (proj2 (Nat.eqb_neq _ 32)), (proj2 (Nat.leb_gt _ 13)), andb_false_r by lia. done. }
  change (skip_white (String " " (to_string z +:+ s))) with (skip_white (to_string z +:+ s)).
  destruct (Z.neg_nonneg_cases z) as [Hneg|Hnn].
  - destruct z as [|p|p]; [lia|lia|]. rewrite to_string_neg, string_app_cons.
    change (skip_white (String "-" _)) with (String "-" (to_string (Z.pos p) +:+ s)).
    change (strip_sign (String "-" (to_string (Z.pos p) +:+ s))) with (true, to_string (Z.pos p) +:+ s). cbv beta iota.
    destruct (Hpos (Z.pos p)) as (c & d & E & _ & Ha & Hv); [lia|]. rewrite span_digits_app, Hv by done.
    rewrite bool_decide_false; [done|]. by rewrite E.
  - destruct (Hpos z Hnn) as (c & d & E & Hc & Ha & Hv).
    rewrite E, string_app_cons, Hw, strip_sign_digit by done. rewrite <- string_app_cons, <- E.
    rewrite span_digits_app, Hv by done. rewrite bool_decide_false; [done|]. by rewrite E.
Qed.

(** A line of [/proc/<pid>/stat] is read right whatever the program calls
    itself: the state and the group come from after the last parenthesis, so a
    name with spaces, parentheses or digits changes nothing. *)
Theorem stat_line_roundtrip (pid ppid pgrp : Z) (comm tail : string) (state : ascii) :
  is_white state = false → Ascii.eqb state ")" = false → has_char ")" tail = false →
  stat_fields (to_string pid +:+ " (" +:+ comm +:+ ") " +:+
    String state (" " +:+ to_string ppid +:+ " " +:+ to_string pgrp +:+ " " +:+ tail)) = Some (state, ppid, pgrp).
Proof.
  intros Hw Hs Ht.
  assert (∀ z, has_char ")" (to_string z) = false) as Hd.
  { assert (∀ d, all_digits d = true → has_char ")" d = false) as Had.
    { induction d as [|c d IH]; simpl; [done|]. intros [Hc Hd]%andb_true_iff. rewrite IH by done.
      destruct (Ascii.eqb_spec c ")"); [subst; done|done]. }
    intros z. destruct (Z.neg_nonneg_cases z) as [Hneg|Hnn].
    - destruct z as [|p|p]; [lia|lia|]. rewrite to_string_neg. cbn [has_char].
      destruct (to_string_digits (Z.pos p)) as (d & -> & _ & Ha & _); [lia|]. by rewrite Had.
    - destruct (to_string_digits z Hnn) as (d & -> & _ & Ha & _). by apply Had. }
  unfold stat_fields.
  set (after := String " " (String state (" " +:+ to_string ppid +:+ " " +:+ to_string pgrp +:+ " " +:+ tail))).
  assert (has_char ")" after = false) as Hafter.
  { subst after. cbn [has_char]. rewrite Hs, !has_char_app, !Hd, Ht. done. }
  assert (to_string pid +:+ " (" +:+ comm +:+ ") " +:+
    String state (" " +:+ to_string ppid +:+ " " +:+ to_string pgrp +:+ " " +:+ tail) =
    (to_string pid +:+ " (" +:+ comm) +:+ String ")" after) as ->.
  { by rewrite !string_app_assoc. }
  rewrite split_last_app by done. unfold scan_state, after.
  assert (∀ r, skip_white (String " " (String state r)) = String state r) as -> by (intros r; simpl; by rewrite Hw).
  change (" " +:+ to_string ppid +:+ " " +:+ to_string pgrp +:+ " " +:+ tail)
    with (String " " (to_string ppid +:+ String " " (to_string pgrp +:+ String " " tail))).
  rewrite scan_long_to_string by done. by rewrite scan_long_to_string.
Qed.

Example stat_line_roundtrip_witness :
  stat_fields (to_string 41 +:+ " (" +:+ "a) Z 1 7 (b" +:+ ") " +:+
    String "S" (" " +:+ to_string 1 +:+ " " +:+ to_string 41 +:+ " " +:+ "41 0 -1")) = Some ("S"%char, 1, 41).
Proof. apply stat_line_roundtrip; reflexivity. Defined.
