(* ===== verification/ProviderSession.v ===== *)
(** * The provider session ([core/provider/provider_handle.cpp])

    The synchronous protocol client over one provider's pipes: the exchange of
    one request and its response, the calls built on it, and the start-up
    handshake.  Protobuf is an interface; the process is what [is_running] and
    [spawn] answer; the clock and the pipes are the rounds of [FramedStdio].  An
    exchange that has not returned yet is [None].  An exchange runs under the
    handle's mutex and is one step here. *)

From S2P Require Import Prelude Protocol FramedStdio.

(** ** Messages *)

Inductive RequestBody :=
| ReqHello (protocol_version client_name client_version : string)
| ReqWaitReady (max_wait_ms_hint : Z)
| ReqListDevices
| ReqDescribeDevice (device_id : string)
| ReqReadSignals (device_id : string) (signal_ids : list string)
| ReqCall (device_id : string) (function_id : Z) (function_name : string) (args : gmap string Value)
| ReqGetHealth.

Record Request := mkRequest { request_id : Z; request_body : RequestBody }.

Record HelloResponse := mkHello {
  protocol_version : string;
  provider_name : string;
  provider_version : string;
  metadata : gmap string string;
}.

Inductive ResponseBody :=
| RespHello (r : HelloResponse)
| RespWaitReady (diagnostics : gmap string string)
| RespListDevices (devices : list ProtoDevice)
| RespDescribeDevice (device : ProtoDevice) (caps : ProtoCaps)
| RespReadSignals (values : list SignalValue)
| RespCall (results : gmap string Value)
| RespGetHealth (r : GetHealthResponse)
| RespNone.

Record Response := mkResponse {
  resp_request_id : Z;
  resp_status_code : StatusCode;
  resp_status_message : string;
  resp_body : ResponseBody;
}.

(** [SerializeToString] and [ParseFromArray]. *)
Class Protobuf := {
  serialize : Request → option (list Z);
  parse_response : list Z → option Response;
}.

(** ** The handle *)

(** [to_provider] is everything written into the provider's stdin and
    [from_provider] the bytes its stdout still holds. *)
Record Session := mkSession {
  session_healthy_ : bool;
  s_error_ : string;
  last_status_code_ : StatusCode;
  next_request_id_ : Z;
  timeout_ms_ : Z;
  hello_timeout_ms_ : Z;
  ready_timeout_ms_ : Z;
  client_ : FramedStdioClient;
  to_provider : list Z;
  from_provider : list Z;
}.

Definition new_session (timeout hello_timeout ready_timeout : Z) : Session :=
  mkSession false "" CODE_OK 1 timeout hello_timeout ready_timeout new_client [] [].

Definition set_healthy (b : bool) (s : Session) : Session :=
  mkSession b (s_error_ s) (last_status_code_ s) (next_request_id_ s) (timeout_ms_ s)
    (hello_timeout_ms_ s) (ready_timeout_ms_ s) (client_ s) (to_provider s) (from_provider s).
Definition set_session_error (e : string) (s : Session) : Session :=
  mkSession (session_healthy_ s) e (last_status_code_ s) (next_request_id_ s) (timeout_ms_ s)
    (hello_timeout_ms_ s) (ready_timeout_ms_ s) (client_ s) (to_provider s) (from_provider s).
Definition set_last_status (code : StatusCode) (s : Session) : Session :=
  mkSession (session_healthy_ s) (s_error_ s) code (next_request_id_ s) (timeout_ms_ s)
    (hello_timeout_ms_ s) (ready_timeout_ms_ s) (client_ s) (to_provider s) (from_provider s).
Definition set_client (c : FramedStdioClient) (s : Session) : Session :=
  mkSession (session_healthy_ s) (s_error_ s) (last_status_code_ s) (next_request_id_ s) (timeout_ms_ s)
    (hello_timeout_ms_ s) (ready_timeout_ms_ s) c (to_provider s) (from_provider s).
Definition written (c : FramedStdioClient) (out : list Z) (s : Session) : Session :=
  mkSession (session_healthy_ s) (s_error_ s) (last_status_code_ s) (next_request_id_ s) (timeout_ms_ s)
    (hello_timeout_ms_ s) (ready_timeout_ms_ s) c (to_provider s ++ out) (from_provider s).
Definition consumed (c : FramedStdioClient) (pipe : list Z) (s : Session) : Session :=
  mkSession (session_healthy_ s) (s_error_ s) (last_status_code_ s) (next_request_id_ s) (timeout_ms_ s)
    (hello_timeout_ms_ s) (ready_timeout_ms_ s) c (to_provider s) pipe.

(** [next_request_id_.fetch_add(1)] of a [uint32_t]. *)
Definition take_request_id (s : Session) : Z * Session :=
  (next_request_id_ s,
   mkSession (session_healthy_ s) (s_error_ s) (last_status_code_ s) ((next_request_id_ s + 1) mod 2 ^ 32)
     (timeout_ms_ s) (hello_timeout_ms_ s) (ready_timeout_ms_ s) (client_ s) (to_provider s) (from_provider s)).

(** One turn of [wait_for_response]: the clock, [poll], the clock after it, the
    frame read it leads to, and the liveness of the process. *)
Record WaitRound := mkWaitRound {
  wt_now : Z;
  wt_poll : PollAnswer;
  wt_now_ready : Z;
  wt_read1 : ReadHalf;
  wt_read2 : ReadHalf;
  wt_running : bool;
}.

(** What one exchange meets: whether a bounded lock was obtained, the process,
    the two halves of the write, and the wait. *)
Record Exchange := mkExchange {
  xe_locked : bool;
  xe_running : bool;
  xe_write1 : WriteHalf;
  xe_write2 : WriteHalf;
  xe_start : Z;
  xe_rounds : list WaitRound;
}.

Section Session.
Context `{Protobuf}.

Definition broken (e : string) (s : Session) : Session := set_session_error e (set_healthy false s).

(** What to do with a frame that arrived: the response, or the failure. *)
Definition accept_frame (data : list Z) (expected : Z) (s : Session)
    : option Response * StatusCode * Session :=
  match parse_response data with
  | None => (None, CODE_INTERNAL, broken "Failed to parse response protobuf" s)
  | Some r =>
      if negb (resp_request_id r =? expected) then
        (None, CODE_INTERNAL,
         broken ("Response request_id mismatch (expected " +:+ to_string expected +:+ ", got " +:+
                 to_string (resp_request_id r) +:+ ")") s)
      else (Some r, CODE_OK, s)
  end.

Fixpoint wait_for_response (rs : list WaitRound) (start expected timeout_ms : Z) (s : Session)
    : option (option Response * StatusCode * Session) :=
  match rs with
  | [] => None
  | r :: rs' =>
      if timeout_ms <=? elapsed_ms start (wt_now r) then
        Some (None, CODE_DEADLINE_EXCEEDED,
              broken ("Timeout waiting for response (" +:+ to_string timeout_ms +:+ "ms)") s)
      else
        let '(ready, c) := wait_for_data (wt_poll r) (client_ s) in
        let s := set_client c s in
        if ready then
          let read_timeout := Z.max 0 (timeout_ms - elapsed_ms start (wt_now_ready r)) in
          match read_frame (wt_read1 r) (wt_read2 r) read_timeout (from_provider s) c with
          | None => None
          | Some (true, data, pipe, c) => Some (accept_frame data expected (consumed c pipe s))
          | Some (false, _, pipe, c) =>
              let s := consumed c pipe s in
              if bool_decide (error_ c = "") then
                Some (None, CODE_DEADLINE_EXCEEDED, set_session_error "Timed out reading response payload" s)
              else
                Some (None, CODE_UNAVAILABLE, broken ("Failed to read response: " +:+ error_ c) s)
          end
        else if negb (bool_decide (error_ c = "")) then
          Some (None, CODE_UNAVAILABLE, broken ("Failed waiting for response: " +:+ error_ c) s)
        else if negb (wt_running r) then
          Some (None, CODE_UNAVAILABLE, broken "Provider process died while waiting for response" s)
        else wait_for_response rs' start expected timeout_ms s
  end.

(** The timeout the request's kind has. *)
Definition timeout_to_use (r : Request) (s : Session) : Z :=
  match request_body r with
  | ReqHello _ _ _ => hello_timeout_ms_ s
  | ReqWaitReady _ => ready_timeout_ms_ s
  | _ => timeout_ms_ s
  end.

(** The [fail] lambda. *)
Definition fail_with (code : StatusCode) (message : string) (s : Session)
    : option Response * StatusCode * Session :=
  (None, code, set_session_error message (set_last_status code s)).

(** [send_request]: the response when it returns true, the status it sets. *)
Definition send_request (x : Exchange) (lock_wait : bool) (r : Request) (s : Session)
    : option (option Response * StatusCode * Session) :=
  if lock_wait && negb (xe_locked x) then Some (None, CODE_DEADLINE_EXCEEDED, s)
  else if negb (session_healthy_ s) then Some (fail_with CODE_UNAVAILABLE "Provider session not healthy" s)
  else if negb (xe_running x) then
    Some (fail_with CODE_UNAVAILABLE "Provider process not running" (set_healthy false s))
  else
    match serialize r with
    | None => Some (fail_with CODE_INTERNAL "Failed to serialize request" s)
    | Some serialized =>
        let t := timeout_to_use r s in
        match write_frame (xe_write1 x) (xe_write2 x) t serialized (client_ s) with
        | None => None
        | Some (false, out, c) =>
            Some (fail_with CODE_UNAVAILABLE ("Failed to write request: " +:+ error_ c)
                    (set_healthy false (written c out s)))
        | Some (true, out, c) =>
            match wait_for_response (xe_rounds x) (xe_start x) (request_id r) t (written c out s) with
            | None => None
            | Some (None, status, s) => Some (None, status, set_last_status status s)
            | Some (Some resp, _, s) =>
                let status := resp_status_code resp in
                let s := set_last_status status s in
                if bool_decide (status = CODE_OK) then Some (Some resp, status, s)
                else Some (None, status,
                           set_session_error ("Provider returned error: " +:+ resp_status_message resp) s)
            end
        end
    end.

(** ** The calls *)

(** A call: a fresh id, the exchange, and the field its response must carry. *)
Definition rpc {A} (x : Exchange) (lock_wait : bool) (body : RequestBody)
    (field : ResponseBody → option A) (missing : string) (s : Session)
    : option (option A * StatusCode * Session) :=
  let '(id, s) := take_request_id s in
  match send_request x lock_wait (mkRequest id body) s with
  | None => None
  | Some (None, status, s) => Some (None, status, s)
  | Some (Some resp, status, s) =>
      match field (resp_body resp) with
      | Some a => Some (Some a, status, s)
      | None => Some (None, status, set_session_error missing s)
      end
  end.

Definition hello_field (b : ResponseBody) : option HelloResponse :=
  match b with RespHello r => Some r | _ => None end.
Definition wait_ready_field (b : ResponseBody) : option (gmap string string) :=
  match b with RespWaitReady d => Some d | _ => None end.
Definition list_devices_field (b : ResponseBody) : option (list ProtoDevice) :=
  match b with RespListDevices d => Some d | _ => None end.
Definition describe_device_field (b : ResponseBody) : option (ProtoDevice * ProtoCaps) :=
  match b with RespDescribeDevice d c => Some (d, c) | _ => None end.
Definition read_signals_field (b : ResponseBody) : option (list SignalValue) :=
  match b with RespReadSignals v => Some v | _ => None end.
Definition call_field (b : ResponseBody) : option (gmap string Value) :=
  match b with RespCall r => Some r | _ => None end.
Definition get_health_field (b : ResponseBody) : option GetHealthResponse :=
  match b with RespGetHealth r => Some r | _ => None end.

Definition hello (x : Exchange) (s : Session) : option (option HelloResponse * StatusCode * Session) :=
  match rpc x false (ReqHello "v1" "anolis-runtime" "0.1.0") hello_field "Response missing hello field" s with
  | Some (Some r, status, s) =>
      if negb (bool_decide (protocol_version r = "v1")) then
        Some (None, status,
              set_session_error ("Protocol version mismatch: runtime expects v1, provider reported " +:+
                                 protocol_version r) s)
      else Some (Some r, status, s)
  | r => r
  end.

Definition wait_ready (x : Exchange) (s : Session) : option (option (gmap string string) * StatusCode * Session) :=
  rpc x false (ReqWaitReady (ready_timeout_ms_ s)) wait_ready_field "Response missing wait_ready field" s.

Definition list_devices (x : Exchange) (s : Session) : option (option (list ProtoDevice) * StatusCode * Session) :=
  rpc x false ReqListDevices list_devices_field "Response missing list_devices field" s.

Definition describe_device (x : Exchange) (did : string) (s : Session)
    : option (option (ProtoDevice * ProtoCaps) * StatusCode * Session) :=
  rpc x false (ReqDescribeDevice did) describe_device_field "Response missing describe_device field" s.

(** [read_signals] also sets the status of a response without the field. *)
Definition read_signals (x : Exchange) (did : string) (signal_ids : list string) (s : Session)
    : option (option (list SignalValue) * StatusCode * Session) :=
  let '(id, s) := take_request_id s in
  match send_request x false (mkRequest id (ReqReadSignals did signal_ids)) s with
  | None => None
  | Some (None, status, s) => Some (None, status, s)
  | Some (Some resp, status, s) =>
      match read_signals_field (resp_body resp) with
      | Some v => Some (Some v, status, s)
      | None => Some (None, CODE_INTERNAL, set_session_error "Response missing read_signals field" s)
      end
  end.

Definition call (x : Exchange) (did : string) (function_id : Z) (function_name : string)
    (args : gmap string Value) (s : Session) : option (option (gmap string Value) * StatusCode * Session) :=
  rpc x false (ReqCall did function_id function_name args) call_field "Response missing call field" s.

Definition get_health_impl (x : Exchange) (lock_wait : bool) (s : Session)
    : option (option GetHealthResponse * StatusCode * Session) :=
  rpc x lock_wait ReqGetHealth get_health_field "Response missing get_health field" s.

Definition get_health (x : Exchange) (s : Session) := get_health_impl x false s.
Definition try_get_health (x : Exchange) (s : Session) := get_health_impl x true s.

(** ** Life cycle *)

Definition is_available (running : bool) (s : Session) : bool := session_healthy_ s && running.

(** [stop]: what [process_.shutdown()] returned. *)
Definition stop (shutdown : bool) (s : Session) : bool * Session := (shutdown, set_healthy false s).

(** The pipes of a new process. *)
Definition spawned (w r : Z) (arrives : list Z) (s : Session) : Session :=
  mkSession (session_healthy_ s) (s_error_ s) (last_status_code_ s) (next_request_id_ s) (timeout_ms_ s)
    (hello_timeout_ms_ s) (ready_timeout_ms_ s) (set_handles w r (client_ s)) [] arrives.

(** [spawn]'s answer: the descriptors of the new pipes, and what the process
    will send, or its error. *)
Definition supports_ready (r : HelloResponse) : bool :=
  bool_decide (metadata r !! "supports_wait_ready" = Some "true").

Definition start (spawn : result (Z * Z * list Z)) (xh xr : Exchange) (s : Session) : option (bool * Session) :=
  let s := set_healthy false s in
  match spawn with
  | Err e => Some (false, set_session_error e s)
  | Ok (w, r, arrives) =>
      let s := set_healthy true (spawned w r arrives s) in
      match hello xh s with
      | None => None
      | Some (None, _, s) => Some (false, set_healthy false s)
      | Some (Some h, _, s) =>
          if supports_ready h then
            match wait_ready xr s with
            | None => None
            | Some (None, _, s) => Some (false, set_healthy false s)
            | Some (Some _, _, s) => Some (true, s)
            end
          else Some (true, s)
      end
  end.

End Session.

(** ** What an exchange does to the session *)

Section Facts.
Context `{Protobuf}.

(** Neither pipe moved. *)
Definition pipes_untouched (s s' : Session) : Prop :=
  to_provider s' = to_provider s ∧ from_provider s' = from_provider s.

(** One whole request went out and one whole frame came in. *)
Definition one_exchange (req data : list Z) (s s' : Session) : Prop :=
  to_provider s' = to_provider s ++ frame req ∧ from_provider s = frame data ++ from_provider s'.

Lemma accept_frame_outcome data expected s o st s' :
  accept_frame data expected s = (o, st, s') →
  to_provider s' = to_provider s ∧ from_provider s' = from_provider s ∧
  match o with
  | Some r => s' = s ∧ parse_response data = Some r ∧ resp_request_id r = expected
  | None => session_healthy_ s' = false
  end.
Proof.
  unfold accept_frame. intros H0. repeat case_match; simplify_eq; try done.
  split_and!; try done. by bool_facts.
Qed.

Lemma wait_for_response_outcome rs start expected t s o st s' :
  Forall is_byte (from_provider s) →
  wait_for_response rs start expected t s = Some (o, st, s') →
  to_provider s' = to_provider s ∧
  match o with
  | Some r => session_healthy_ s' = session_healthy_ s ∧ resp_request_id r = expected ∧
      ∃ data, from_provider s = frame data ++ from_provider s' ∧ parse_response data = Some r
  | None => session_healthy_ s' = false
  end.
Proof.
  revert s. induction rs as [|r rs IH]; simpl; intros s Hb Hw; [done|].
  destruct (_ <=? _); [by simplify_eq|].
  destruct (wait_for_data (wt_poll r) (client_ s)) as [[] c].
  - destruct (read_frame _ _ _ _ _) as [[[[[] data] pipe] c1]|] eqn:E; [| |done].
    + apply read_frame_consumes_one_frame in E as [Heq Hfit]; [|done]. simpl in Heq. injection Hw as Hw.
      apply accept_frame_outcome in Hw as (Hto & Hfrom & Ho). split; [done|].
      destruct o; [|done]. destruct Ho as (-> & Hp & Hid). simpl. eauto.
    + apply read_frame_false_error in E. case_bool_decide; [done|]. by simplify_eq.
  - case_bool_decide; simpl in Hw; [|by simplify_eq]. destruct (wt_running r); simpl in Hw; [|by simplify_eq].
    by apply IH in Hw.
Qed.

(** Reading only takes from the front of the pipe. *)
Lemma read_frame_suffix r1 r2 t pipe c ok b pipe' c' :
  read_frame r1 r2 t pipe c = Some (ok, b, pipe', c') → ∃ got, pipe = got ++ pipe'.
Proof.
  unfold read_frame. intros Hr.
  destruct (read_exact (rh_rounds r1) _ _ _ _ _ _) as [[[[[] b1] p1] c1]|] eqn:E1; [| |done];
    apply read_exact_moves in E1 as (g1 & -> & _); [|simplify_eq; eauto].
  case_match; [simplify_eq; eauto|]. case_match; [|simplify_eq; eauto].
  destruct (read_exact (rh_rounds r2) _ _ _ _ _ _) as [[[[[] b2] p2] c2]|] eqn:E2; [| |done];
    apply read_exact_moves in E2 as (g2 & -> & _); simplify_eq; exists (g1 ++ g2); by rewrite <- app_assoc.
Qed.

Lemma wait_for_response_suffix rs start expected t s o st s' :
  wait_for_response rs start expected t s = Some (o, st, s') →
  ∃ got, from_provider s = got ++ from_provider s'.
Proof.
  revert s. induction rs as [|r rs IH]; simpl; intros s Hw; [done|].
  assert (∃ got, from_provider s = got ++ from_provider s) by (by exists []).
  destruct (_ <=? _); [by simplify_eq|].
  destruct (wait_for_data (wt_poll r) (client_ s)) as [[] c].
  - destruct (read_frame _ _ _ _ _) as [[[[[] data] pipe] c1]|] eqn:E; [| |done];
      apply read_frame_suffix in E; simpl in E.
    + injection Hw as Hw. apply accept_frame_outcome in Hw as (_ & -> & _). done.
    + case_bool_decide; by simplify_eq.
  - case_bool_decide; simpl in Hw; [|by simplify_eq]. destruct (wt_running r); simpl in Hw; [|by simplify_eq].
    by apply IH in Hw.
Qed.

Lemma send_request_suffix x lock_wait r s o st s' :
  send_request x lock_wait r s = Some (o, st, s') → ∃ got, from_provider s = got ++ from_provider s'.
Proof.
  intros Hs. unfold send_request, fail_with in Hs.
  assert (∃ got, from_provider s = got ++ from_provider s) by (by exists []).
  repeat (case_match; try by simplify_eq).
  all: match goal with E : wait_for_response _ _ _ _ _ = _ |- _ =>
         apply wait_for_response_suffix in E end; by simplify_eq.
Qed.

Lemma send_request_ok x lock_wait r s resp st s' :
  send_request x lock_wait r s = Some (Some resp, st, s') → resp_status_code resp = CODE_OK.
Proof. unfold send_request, fail_with. intros Hs. repeat (case_match; simplify_eq); by bool_facts. Qed.

Lemma wait_for_response_healthy rs start expected t s r st s' :
  wait_for_response rs start expected t s = Some (Some r, st, s') → session_healthy_ s' = session_healthy_ s.
Proof.
  revert s. induction rs as [|r0 rs IH]; simpl; intros s Hw; [done|].
  unfold accept_frame in Hw. repeat (case_match; simplify_eq; try done). by apply IH in Hw.
Qed.

Lemma send_request_healthy x lock_wait r s resp st s' :
  send_request x lock_wait r s = Some (Some resp, st, s') → session_healthy_ s' = true.
Proof.
  unfold send_request, fail_with. intros Hs. destruct (lock_wait && _); [done|].
  destruct (session_healthy_ s) eqn:Hh; simpl in Hs; [|done]. destruct (xe_running x); simpl in Hs; [|done].
  destruct (serialize r) as [req|]; [|done].
  destruct (write_frame _ _ _ _ _) as [[[[] out] c]|]; [|done|done].
  destruct (wait_for_response _ _ _ _ _) as [[[[r0|] st0] s0]|] eqn:E; [|done|done].
  apply wait_for_response_healthy in E. simpl in E. case_bool_decide; simplify_eq. simpl. by rewrite E.
Qed.

(** One exchange, whatever the process, the clock and the pipes do: a
    returned response answers this very request, is the one whole frame taken
    from the pipe, with status OK; a failure leaves the session marked broken,
    or moved nothing, or was the provider's own refusal, again one whole frame
    each way.  A session marked broken sends nothing. *)
Lemma exchange_outcome x lock_wait r s o st s' :
  Forall is_byte (from_provider s) →
  send_request x lock_wait r s = Some (o, st, s') →
  (session_healthy_ s = false → o = None ∧ session_healthy_ s' = false ∧ pipes_untouched s s') ∧
  match o with
  | Some resp =>
      st = CODE_OK ∧ last_status_code_ s' = st ∧ session_healthy_ s' = true ∧
      resp_request_id resp = request_id r ∧
      ∃ req data, serialize r = Some req ∧ parse_response data = Some resp ∧ one_exchange req data s s'
  | None =>
      session_healthy_ s' = false ∨ pipes_untouched s s' ∨
      (st ≠ CODE_OK ∧ last_status_code_ s' = st ∧ ∃ req data resp, serialize r = Some req ∧
         parse_response data = Some resp ∧ resp_request_id resp = request_id r ∧
         resp_status_code resp = st ∧ one_exchange req data s s')
  end.
Proof.
  intros Hb Hs. unfold send_request, fail_with in Hs.
  destruct (lock_wait && _). { simplify_eq. split; [done|]. right; left. done. }
  destruct (session_healthy_ s) eqn:Hh; simpl in Hs; [|by simplify_eq; split; [done|by left]].
  split; [done|].
  destruct (xe_running x); simpl in Hs; [|by simplify_eq; left].
  destruct (serialize r) as [req|] eqn:Hser; [|by simplify_eq; right; left].
  destruct (write_frame _ _ _ _ _) as [[[[] out] c]|] eqn:Hw; [|by simplify_eq; left|done].
  apply write_frame_prefix in Hw as (_ & Hok & _). destruct (Hok eq_refl) as [-> _].
  destruct (wait_for_response _ _ _ _ _) as [[[[resp|] st0] s0]|] eqn:Hwait; [| |done].
  - apply wait_for_response_outcome in Hwait as (Hto & Hhl & Hid & data & Hfrom & Hp); [|done].
    simpl in *. case_bool_decide as Hst; simplify_eq; simpl.
    + split_and!; [done|done|by rewrite Hhl, Hh|done|]. exists req, data. done.
    + right; right. split_and!; [done|done|]. exists req, data, resp. done.
  - apply wait_for_response_outcome in Hwait as [Hto Hhl]; [|done]. simplify_eq. by left.
Qed.

(** ** A session over many exchanges

    What passed between the runtime and one provider process: the session, all
    the bytes the provider has sent so far, and every [send_request] made, in
    order, with the response it returned. *)
Record Talk := mkTalk {
  tk_session : Session;
  tk_arrived : list Z;
  tk_calls : list (Request * option Response);
}.

(** Requests come from any thread, one at a time under the handle's mutex, and
    bytes whenever the provider sends them.  A caller may mark the session
    broken or set its error; nothing else makes it healthy again. *)
Inductive session_step : Talk → Talk → Prop :=
| step_exchange x lock_wait r s o st s' arrived calls :
    send_request x lock_wait r s = Some (o, st, s') →
    session_step (mkTalk s arrived calls) (mkTalk s' arrived (calls ++ [(r, o)]))
| step_arrival bytes s arrived calls :
    Forall is_byte bytes →
    session_step (mkTalk s arrived calls)
      (mkTalk (consumed (client_ s) (from_provider s ++ bytes) s) (arrived ++ bytes) calls)
| step_broken s arrived calls :
    session_step (mkTalk s arrived calls) (mkTalk (set_healthy false s) arrived calls)
| step_error e s arrived calls :
    session_step (mkTalk s arrived calls) (mkTalk (set_session_error e s) arrived calls)
| step_id s arrived calls :
    session_step (mkTalk s arrived calls) (mkTalk (snd (take_request_id s)) arrived calls).

(** A request and the response to it, with their bytes on the wire. *)
Record Pair := mkPair {
  pr_request : Request; pr_sent : list Z; pr_response : Response; pr_read : list Z;
}.
Definition paired (p : Pair) : Prop :=
  serialize (pr_request p) = Some (pr_sent p) ∧ parse_response (pr_read p) = Some (pr_response p) ∧
  resp_request_id (pr_response p) = request_id (pr_request p).

(** The two ends agree: all that was written is whole requests, all that was
    read is the one response to each of them, in the same order, and the calls
    that returned a response returned exactly those with status OK. *)
Definition in_step (t : Talk) : Prop :=
  ∃ ps, Forall paired ps ∧
    to_provider (tk_session t) = (pr_sent <$> ps) ≫= frame ∧
    tk_arrived t = ((pr_read <$> ps) ≫= frame) ++ from_provider (tk_session t) ∧
    (pr_request <$> ps) `sublist_of` (fst <$> tk_calls t) ∧
    omap snd (tk_calls t) = filter (λ r, resp_status_code r = CODE_OK) (pr_response <$> ps).

(** A failed exchange moved nothing or is one whole pair with a refusal in it;
    otherwise it marks the session broken. *)
Lemma exchange_pair x lock_wait r s o st s' :
  Forall is_byte (from_provider s) → send_request x lock_wait r s = Some (o, st, s') →
  session_healthy_ s' = true →
  session_healthy_ s = true ∧
  ((o = None ∧ pipes_untouched s s') ∨
   ∃ p, paired p ∧ pr_request p = r ∧ one_exchange (pr_sent p) (pr_read p) s s' ∧
     o = (if bool_decide (resp_status_code (pr_response p) = CODE_OK) then Some (pr_response p) else None)).
Proof.
  intros Hb Hs Hh. pose proof (exchange_outcome _ _ _ _ _ _ _ Hb Hs) as [Hun Hout].
  assert (session_healthy_ s = true) as Hs0.
  { destruct (session_healthy_ s); [done|]. destruct Hun as (_ & ? & _); congruence. }
  split; [done|]. destruct o as [resp|].
  - apply send_request_ok in Hs as Hok. destruct Hout as (_ & _ & _ & Hid & req & data & Hser & Hp & H1).
    right. exists (mkPair r req resp data). split_and!; [done|done|done|]. simpl. by rewrite bool_decide_true.
  - destruct Hout as [?|[?|(Hst & _ & req & data & resp & Hser & Hp & Hid & Hc & H1)]]; [congruence|by left|].
    right. exists (mkPair r req resp data). split_and!; [done|done|done|]. simpl.
    by rewrite bool_decide_false by congruence.
Qed.

Lemma in_step_pair s s' arrived calls p o :
  in_step (mkTalk s arrived calls) → paired p → one_exchange (pr_sent p) (pr_read p) s s' →
  o = (if bool_decide (resp_status_code (pr_response p) = CODE_OK) then Some (pr_response p) else None) →
  in_step (mkTalk s' arrived (calls ++ [(pr_request p, o)])).
Proof.
  intros (ps & Hps & Hto & Harr & Hsub & Hans) Hp [Ht Hf] ->. exists (ps ++ [p]). simpl in *.
  rewrite Ht, Hto, Harr, Hf, !fmap_app, !bind_app, omap_app, filter_app, Hans. csimpl.
  rewrite !app_nil_r, <- app_assoc. split_and!; [by apply Forall_app_2; [|apply Forall_singleton]|done|done| |].
  - by apply sublist_app.
  - f_equal. unfold filter. simpl. by repeat case_decide || case_bool_decide.
Qed.

Lemma session_step_in_step t t' :
  session_step t t' → Forall is_byte (from_provider (tk_session t)) →
  (session_healthy_ (tk_session t) = true → in_step t) →
  (session_healthy_ (tk_session t') = true → in_step t') ∧ Forall is_byte (from_provider (tk_session t')).
Proof.
  destruct 1 as [x lw r s o st s' arrived calls Hs|bytes s arrived calls Hby|s|e s|s]; simpl; intros Hb Hin; [| |done..].
  - split.
    + intros Hh. destruct (exchange_pair _ _ _ _ _ _ _ Hb Hs Hh) as [Hs0 [[-> [Ht Hf]]|(p & Hp & <- & H1 & Ho)]].
      * destruct (Hin Hs0) as (ps & Hps & Hto & Harr & Hsub & Hans). exists ps. simpl in *.
        rewrite Ht, Hf, fmap_app, omap_app, app_nil_r. split_and!; try done. by apply sublist_inserts_r.
      * eapply in_step_pair; eauto.
    + destruct (send_request_suffix _ _ _ _ _ _ _ Hs) as [got Hg].
      rewrite Hg in Hb. by apply Forall_app in Hb as [_ ?].
  - split; [|by apply Forall_app]. intros Hh. destruct (Hin Hh) as (ps & Hps & Hto & Harr & Hsub & Hans).
    exists ps. simpl in *. rewrite Harr, <- app_assoc. done.
Qed.

(** C33. Take all that happens after a process was started, from its first
    byte on: requests from any thread, bytes the provider sends whenever it
    likes, failures and timeouts.  As long as the session is marked healthy the
    two ends agree: every byte written belongs to a whole request, every byte
    read belongs to the whole response to it, the responses pair off with the
    requests in order, each parses and bears its request's id, and the callers
    were given exactly the responses with status OK.  So an exchange that broke
    off, timed out, or met a frame that does not parse or answers another
    request has marked the session broken; and from then on no request writes
    or reads a byte. *)
Theorem healthy_session_in_step w r arrives s0 t :
  Forall is_byte arrives →
  rtc session_step (mkTalk (set_healthy true (spawned w r arrives s0)) arrives []) t →
  if session_healthy_ (tk_session t) then in_step t
  else ∀ x lock_wait q o st s', send_request x lock_wait q (tk_session t) = Some (o, st, s') →
         o = None ∧ session_healthy_ s' = false ∧ pipes_untouched (tk_session t) s'.
Proof.
  intros Hb Hr.
  cut ((session_healthy_ (tk_session t) = true → in_step t) ∧ Forall is_byte (from_provider (tk_session t))).
  { intros [Hin Hby]. destruct (session_healthy_ (tk_session t)) eqn:Hh; [by apply Hin|].
    intros x lw q o st s' Hs. by destruct (exchange_outcome _ _ _ _ _ _ _ Hby Hs) as [Hun _]; apply Hun. }
  revert t Hr. apply (rtc_ind_r (λ t, (session_healthy_ (tk_session t) = true → in_step t) ∧
    Forall is_byte (from_provider (tk_session t)))).
  - split; [|done]. intros _. by exists [].
  - intros t t' _ Hstep [Hin Hby]. by eapply session_step_in_step.
Qed.

(** The value a call returns comes from the provider's answer to that call:
    the request carrying the call's own id and body went out whole, and the
    response parsed from the one frame taken from the pipe bears that id, has
    status OK and holds the value. *)
Theorem call_answers_its_request {A} x lock_wait body (field : ResponseBody → option A) missing s a st s' :
  Forall is_byte (from_provider s) →
  rpc x lock_wait body field missing s = Some (Some a, st, s') →
  ∃ req data resp, serialize (mkRequest (next_request_id_ s) body) = Some req ∧
    parse_response data = Some resp ∧ resp_request_id resp = next_request_id_ s ∧
    resp_status_code resp = CODE_OK ∧ field (resp_body resp) = Some a ∧ one_exchange req data s s'.
Proof.
  intros Hb Hr. unfold rpc, take_request_id in Hr. simpl in Hr.
  destruct (send_request _ _ _ _) as [[[[resp|] st0] s0]|] eqn:E; [|done|done].
  assert (resp_status_code resp = CODE_OK) as Hok by (by eapply send_request_ok).
  apply exchange_outcome in E as [_ (-> & _ & _ & Hid & req & data & Hser & Hp & H1)]; [|done].
  destruct (field (resp_body resp)) as [a0|] eqn:Hf; simplify_eq. exists req, data, resp. done.
Qed.

(** ** Returning *)

(** The clock reaches the deadline in every loop of the exchange. *)
Definition write_ends (t : Z) (w : WriteHalf) : Prop :=
  Exists (λ r, t ≤ elapsed_ms (wh_start w) (wr_now r)) (wh_rounds w).
Definition read_ends (t : Z) (h : ReadHalf) : Prop :=
  Exists (λ r, t ≤ elapsed_ms (rh_start h) (rr_now r)) (rh_rounds h).

Record exchange_ends (t : Z) (x : Exchange) : Prop := {
  xe_w1 : write_ends t (xe_write1 x);
  xe_w2 : write_ends t (xe_write2 x);
  xe_wait : Exists (λ r, t ≤ elapsed_ms (xe_start x) (wt_now r)) (xe_rounds x);
  xe_reads : Forall (λ r, 0 ≤ elapsed_ms (xe_start x) (wt_now_ready r) ∧
                          read_ends t (wt_read1 r) ∧ read_ends t (wt_read2 r)) (xe_rounds x);
}.

Lemma wait_for_response_returns rs start expected t s :
  0 ≤ t → Exists (λ r, t ≤ elapsed_ms start (wt_now r)) rs →
  Forall (λ r, 0 ≤ elapsed_ms start (wt_now_ready r) ∧ read_ends t (wt_read1 r) ∧ read_ends t (wt_read2 r)) rs →
  ∃ res, wait_for_response rs start expected t s = Some res.
Proof.
  intros Ht He. revert s. induction He as [r rs Hr|r rs _ IH]; intros s Hf; simpl.
  { rewrite (proj2 (Z.leb_le _ _) Hr). eauto. }
  apply Forall_cons in Hf as [(Hn & H1 & H2) Hf]. destruct (_ <=? _); [eauto|].
  destruct (wait_for_data _ _) as [[] c].
  - set (rt := Z.max 0 _).
    assert (∀ h, read_ends t h → read_ends rt h) as Hweak.
    { intros h Hh. eapply Exists_impl; [exact Hh|]. simpl. unfold rt. lia. }
    destruct (read_frame_returns (wt_read1 r) (wt_read2 r) rt (from_provider s) c) as
      (ok & b & p & c' & ->); [unfold rt; lia|by apply Hweak|by apply Hweak|].
    destruct ok; [eauto|]. case_bool_decide; eauto.
  - case_bool_decide; simpl; [|eauto]. destruct (wt_running r); simpl; [|eauto]. by apply IH.
Qed.

(** An exchange returns: once the clock has reached the request's timeout in
    each of its loops it has an outcome, whatever the provider does; it cannot
    be held up by a provider that stops in the middle of a frame. *)
Theorem exchange_returns x lock_wait r s :
  0 ≤ timeout_to_use r s → exchange_ends (timeout_to_use r s) x →
  ∃ res, send_request x lock_wait r s = Some res.
Proof.
  intros Ht [W1 W2 Hw Hr]. unfold send_request.
  destruct (lock_wait && _); [eauto|]. destruct (session_healthy_ s); simpl; [|eauto].
  destruct (xe_running x); simpl; [|eauto]. destruct (serialize r) as [req|]; [|eauto].
  destruct (write_frame_returns (xe_write1 x) (xe_write2 x) (timeout_to_use r s) req (client_ s) Ht W1 W2)
    as [[[[] out] c] ->]; [|eauto].
  destruct (wait_for_response_returns (xe_rounds x) (xe_start x) (request_id r) (timeout_to_use r s)
              (written c out s) Ht Hw Hr) as [[[[resp|] st] s'] ->]; [|eauto].
  case_bool_decide; eauto.
Qed.

(** ** Starting *)

Lemma rpc_healthy {A} x lw body (field : ResponseBody → option A) missing s a st s' :
  rpc x lw body field missing s = Some (Some a, st, s') → session_healthy_ s' = true.
Proof.
  unfold rpc, take_request_id. intros Hr. simpl in Hr.
  destruct (send_request _ _ _ _) as [[[[resp|] st0] s0]|] eqn:E; [|done|done].
  apply send_request_healthy in E. by case_match; simplify_eq.
Qed.

(** [start] answers true only when a process was spawned, it answered Hello
    with protocol version v1 and, if it announced readiness, WaitReady; the
    session is then healthy.  On every failure the session is left unhealthy, so
    the handle is unavailable and later requests send nothing. *)
Theorem start_establishes_session spawn xh xr s ok s' :
  start spawn xh xr s = Some (ok, s') →
  if ok then
    session_healthy_ s' = true ∧ ∃ w r arrives h st s1,
      spawn = Ok (w, r, arrives) ∧
      hello xh (set_healthy true (spawned w r arrives (set_healthy false s))) = Some (Some h, st, s1) ∧
      protocol_version h = "v1" ∧
      (supports_ready h = true → ∃ d st', wait_ready xr s1 = Some (Some d, st', s'))
  else session_healthy_ s' = false ∧ ∀ running, is_available running s' = false.
Proof.
  unfold start. destruct spawn as [[[w r] arrives]|e]; [|intros; by simplify_eq].
  set (s0 := set_healthy true _). destruct (hello xh s0) as [[[[h|] st] s1]|] eqn:Hh;
    [|intros; by simplify_eq|done].
  assert (protocol_version h = "v1" ∧ session_healthy_ s1 = true) as [Hv Hhl].
  { unfold hello in Hh. destruct (rpc _ _ _ _ _ _) as [[[[h0|] st0] s2]|] eqn:E; [|done|done].
    apply rpc_healthy in E. case_bool_decide; simpl in Hh; by simplify_eq. }
  destruct (supports_ready h) eqn:Hsr.
  - destruct (wait_ready xr s1) as [[[[d|] st1] s2]|] eqn:Hw; [|intros; by simplify_eq|done].
    intros; simplify_eq. split; [by eapply rpc_healthy|]. by eauto 15.
  - intros; simplify_eq. split; [done|]. exists w, r, arrives, h, st, s'. by rewrite Hsr.
Qed.
End Facts.

(** *** A run: one call, its answer in two pieces *)

Section Example.

(** A codec on single bytes: a request is its id, a response is an id and a body. *)
#[local] Instance toy : Protobuf := {
  serialize r := Some [request_id r];
  parse_response b :=
    match b with
    | [i; 1] => Some (mkResponse i CODE_OK "" (RespHello (mkHello "v1" "sim" "1" {["supports_wait_ready" := "true"]})))
    | [i; 2] => Some (mkResponse i CODE_OK "" (RespWaitReady ∅))
    | [i; 3] => Some (mkResponse i CODE_OK "" (RespCall {["ok" := mkValue VALUE_TYPE_BOOL (KBool true)]}))
    | _ => None
    end;
}.

Definition toy_round (k : nat) : WaitRound :=
  let ready := PollEvents true false in
  mkWaitRound 0 ready 0
    (mkReadHalf 0 [mkReadRound 0 ready (ReadSome 3); mkReadRound 0 ready (ReadSome 9); mkReadRound 9000000000 ready ReadInterrupted])
    (mkReadHalf 0 [mkReadRound 0 ready (ReadSome k); mkReadRound 0 ready (ReadSome 9); mkReadRound 9000000000 ready ReadInterrupted])
    true.

Definition toy_exchange : Exchange :=
  let w := mkWriteHalf 0 [mkWriteRound 0 (WriteSome 9); mkWriteRound 9000000000 WriteAgain] in
  mkExchange true true w w 0
    [mkWaitRound 0 PollTimeout 0 (mkReadHalf 0 [mkReadRound 9000000000 PollTimeout ReadInterrupted])
       (mkReadHalf 0 [mkReadRound 9000000000 PollTimeout ReadInterrupted]) true;
     toy_round 1;
     mkWaitRound 9000000000 PollTimeout 9000000000 (mkReadHalf 0 [mkReadRound 9000000000 PollTimeout ReadInterrupted])
       (mkReadHalf 0 [mkReadRound 9000000000 PollTimeout ReadInterrupted]) true].

Definition toy_spawn : result (Z * Z * list Z) :=
  Ok (4, 5, frame [1; 1] ++ frame [2; 2] ++ frame [3; 3]).

Definition toy_started : Session :=
  match start toy_spawn toy_exchange toy_exchange (new_session 5000 5000 9000) with
  | Some (_, s) => s
  | None => new_session 0 0 0
  end.

Example start_establishes_session_witness :
  session_healthy_ toy_started = true ∧ ∃ w r arrives h st s1,
    toy_spawn = Ok (w, r, arrives) ∧
    hello toy_exchange (set_healthy true (spawned w r arrives (set_healthy false (new_session 5000 5000 9000))))
      = Some (Some h, st, s1) ∧
    protocol_version h = "v1" ∧
    (supports_ready h = true → ∃ d st', wait_ready toy_exchange s1 = Some (Some d, st', toy_started)).
Proof.
  apply (start_establishes_session toy_spawn toy_exchange toy_exchange (new_session 5000 5000 9000) true).
  vm_compute. reflexivity.
Defined.

Definition toy_called : Session :=
  match call toy_exchange "pump" 1 "set" ∅ toy_started with Some (_, s) => s | None => toy_started end.

Example call_answers_its_request_witness :
  ∃ req data resp, serialize (mkRequest 3 (ReqCall "pump" 1 "set" ∅)) = Some req ∧
    parse_response data = Some resp ∧ resp_request_id resp = 3 ∧ resp_status_code resp = CODE_OK ∧
    call_field (resp_body resp) = Some {["ok" := mkValue VALUE_TYPE_BOOL (KBool true)]} ∧
    one_exchange req data toy_started toy_called.
Proof.
  apply (call_answers_its_request toy_exchange false (ReqCall "pump" 1 "set" ∅) call_field
           "Response missing call field" toy_started _ CODE_OK toy_called).
  - apply (bool_decide_unpack _). vm_compute. exact I.
  - vm_compute. reflexivity.
Defined.

(** The next call times out, the answer comes late: the session is broken. *)
Definition toy_late : Exchange :=
  let w := mkWriteHalf 0 [mkWriteRound 0 (WriteSome 9); mkWriteRound 9000000000 WriteAgain] in
  mkExchange true true w w 0 [mkWaitRound 9000000000 PollTimeout 0 (mkReadHalf 0 []) (mkReadHalf 0 []) true].

Definition toy_request (i : Z) : Request := mkRequest i (ReqCall "pump" 1 "set" ∅).
Definition toy_sent (x : Exchange) (i : Z) (t : Talk) : Talk :=
  match send_request x false (toy_request i) (tk_session t) with
  | Some (o, _, s) => mkTalk s (tk_arrived t) (tk_calls t ++ [(toy_request i, o)])
  | None => t
  end.
Definition toy_open : Talk :=
  mkTalk (set_healthy true (spawned 4 5 (frame [1; 3]) (new_session 5000 5000 9000))) (frame [1; 3]) [].

Lemma toy_step x i t :
  bool_decide (is_Some (send_request x false (toy_request i) (tk_session t))) = true →
  session_step t (toy_sent x i t).
Proof.
  intros Hd%bool_decide_eq_true. unfold toy_sent. destruct Hd as [[[o st] s] E]. rewrite E.
  destruct t. by eapply step_exchange.
Qed.

Example healthy_session_in_step_witness :
  let answered := toy_sent toy_exchange 1 toy_open in
  let late := toy_sent toy_late 2 answered in
  omap snd (tk_calls answered) ≠ [] ∧ in_step answered ∧
  session_healthy_ (tk_session late) = false ∧
  ∀ x lock_wait q o st s', send_request x lock_wait q (tk_session late) = Some (o, st, s') →
    o = None ∧ session_healthy_ s' = false ∧ pipes_untouched (tk_session late) s'.
Proof.
  assert (Forall is_byte (frame [1; 3])) as Hb by (apply (bool_decide_unpack _); vm_compute; exact I).
  assert (rtc session_step toy_open (toy_sent toy_exchange 1 toy_open)) as H1
    by (apply rtc_once, toy_step; vm_compute; reflexivity).
  assert (rtc session_step toy_open (toy_sent toy_late 2 (toy_sent toy_exchange 1 toy_open))) as H2
    by (eapply rtc_r; [exact H1|]; apply toy_step; vm_compute; reflexivity).
  split; [vm_compute; discriminate|].
  split; [exact (healthy_session_in_step 4 5 (frame [1; 3]) (new_session 5000 5000 9000) _ Hb H1)|].
  split; [vm_compute; reflexivity|].
  exact (healthy_session_in_step 4 5 (frame [1; 3]) (new_session 5000 5000 9000) _ Hb H2).
Defined.

Example exchange_returns_witness :
  ∃ res, send_request toy_exchange false (mkRequest 7 ReqListDevices) toy_started = Some res.
Proof.
  apply (exchange_returns toy_exchange false (mkRequest 7 ReqListDevices) toy_started).
  - vm_compute. discriminate.
  - constructor; vm_compute.
    + apply Exists_cons; right; apply Exists_cons; left. discriminate.
    + apply Exists_cons; right; apply Exists_cons; left. discriminate.
    + do 2 (apply Exists_cons; right). apply Exists_cons; left. discriminate.
    + repeat (apply Forall_cons; split); [..|apply Forall_nil; exact I];
        (split; [discriminate|]; split; repeat first [apply Exists_cons; left; discriminate|apply Exists_cons; right]).
Defined.
End Example.
