(* ===== verification/Supervisor.v ===== *)
(** * Provider supervision ([core/provider/provider_supervisor.cpp] and the
      supervision part of [Runtime::run])

    Crash streaks, restart backoff, the circuit breaker with its half-open
    probes, and the main-loop iteration that drives them.  Time points of
    [steady_clock] are [Z] nanoseconds with [0] for [time_point{}]; an
    operation that reads the clock takes the reading as an argument.  Indexing
    a vector out of range is undefined behaviour in the code and [None] here. *)

From S2P Require Import Prelude.

Definition ns_per_ms : Z := 1000000.
Definition ns_per_s : Z := 1000000000.

(** [duration_cast<milliseconds>] and [<seconds>]: truncation toward zero. *)
Definition to_ms (ns : Z) : Z := Z.quot ns ns_per_ms.
Definition to_s (ns : Z) : Z := Z.quot ns ns_per_s.

Record RestartPolicyConfig := mkPolicy {
  enabled : bool;
  max_attempts : Z;
  backoff_ms : list Z;
  timeout_ms : Z;
  success_reset_ms : Z;
}.

(** The restart-policy part of [validate_config]. *)
Definition validate_restart_policy (id : string) (p : RestartPolicyConfig) : result unit :=
  if negb (enabled p) then Ok tt
  else if max_attempts p <? 1 then
    Err ("Provider '" +:+ id +:+ "' restart policy max_attempts must be >= 1")
  else if bool_decide (backoff_ms p = []) then
    Err ("Provider '" +:+ id +:+ "' restart policy backoff_ms cannot be empty")
  else if negb (bool_decide (Z.of_nat (length (backoff_ms p)) = max_attempts p)) then
    Err ("Provider '" +:+ id +:+ "' restart policy backoff_ms array length (" +:+
         to_string (Z.of_nat (length (backoff_ms p))) +:+ ") must match max_attempts (" +:+
         to_string (max_attempts p) +:+ ")")
  else match list_find (λ b, b < 0) (backoff_ms p) with
       | Some (i, _) =>
           Err ("Provider '" +:+ id +:+ "' restart policy backoff_ms[" +:+ to_string (Z.of_nat i) +:+
                "] must be >= 0")
       | None =>
           if timeout_ms p <? 1000 then
             Err ("Provider '" +:+ id +:+ "' restart policy timeout_ms must be >= 1000ms")
           else if success_reset_ms p <? 0 then
             Err ("Provider '" +:+ id +:+ "' restart policy success_reset_ms must be >= 0")
           else Ok tt
       end.

Record RestartState := mkRestartState {
  attempt_count : Z;
  circuit_open : bool;
  crash_detected : bool;
  next_restart_time : Z;
  process_start_time : Z;
  last_healthy_time : Z;
}.

Definition fresh_state : RestartState := mkRestartState 0 false false 0 0 0.

Record ProviderSupervisor := mkSupervisor {
  probe_interval_ : Z;  (* milliseconds *)
  policies_ : gmap string RestartPolicyConfig;
  states_ : gmap string RestartState;
}.

Definition set_state (id : string) (st : RestartState) (s : ProviderSupervisor) : ProviderSupervisor :=
  mkSupervisor (probe_interval_ s) (policies_ s) (<[id := st]> (states_ s)).

Definition register_provider (id : string) (policy : RestartPolicyConfig) (s : ProviderSupervisor)
    : ProviderSupervisor :=
  mkSupervisor (probe_interval_ s) (<[id := policy]> (policies_ s)) (<[id := fresh_state]> (states_ s)).

(** Both map lookups, as most members start. *)
Definition find_provider (s : ProviderSupervisor) (id : string)
    : option (RestartPolicyConfig * RestartState) :=
  match policies_ s !! id, states_ s !! id with
  | Some p, Some st => Some (p, st)
  | _, _ => None
  end.

Definition should_restart (s : ProviderSupervisor) (id : string) (now : Z) : bool :=
  match find_provider s id with
  | None => false
  | Some (policy, state) =>
      if negb (enabled policy) then false
      else if circuit_open state then false
      else negb (now <? next_restart_time state)
  end.

(** The clamped [backoff_ms[attempt_index]]. *)
Definition backoff_at (policy : RestartPolicyConfig) (attempts : Z) : option Z :=
  let size := Z.of_nat (length (backoff_ms policy)) in
  let attempt_index := attempts - 1 in
  let attempt_index :=
    if to_uint64 attempt_index >=? size then size - 1 else attempt_index in
  if attempt_index <? 0 then None else backoff_ms policy !! Z.to_nat attempt_index.

Definition get_backoff_ms (s : ProviderSupervisor) (id : string) : option Z :=
  match find_provider s id with
  | None => Some 0
  | Some (policy, state) =>
      if bool_decide (attempt_count state = 0) || circuit_open state then Some 0
      else if attempt_count state - 1 <? 0 then Some 0
      else backoff_at policy (attempt_count state)
  end.

Definition record_crash (s : ProviderSupervisor) (id : string) (now : Z)
    : option (bool * ProviderSupervisor) :=
  match find_provider s id with
  | None => Some (false, s)
  | Some (policy, state) =>
      if negb (enabled policy) then
        Some (false, set_state id (mkRestartState (attempt_count state) true (crash_detected state)
          (next_restart_time state) (process_start_time state) (last_healthy_time state)) s)
      else
        let attempts := attempt_count state + 1 in
        if attempts >? max_attempts policy then
          Some (false, set_state id (mkRestartState attempts true (crash_detected state)
            (now + probe_interval_ s * ns_per_ms) 0 (last_healthy_time state)) s)
        else
          match backoff_at policy attempts with
          | None => None
          | Some b =>
              Some (true, set_state id (mkRestartState attempts (circuit_open state)
                (crash_detected state) (now + b * ns_per_ms) 0 (last_healthy_time state)) s)
          end
  end.

Definition is_circuit_open (s : ProviderSupervisor) (id : string) : bool :=
  match states_ s !! id with None => false | Some st => circuit_open st end.

Definition should_probe (s : ProviderSupervisor) (id : string) (now : Z) : bool :=
  match find_provider s id with
  | None => false
  | Some (policy, state) =>
      if negb (enabled policy) || negb (circuit_open state) then false
      else next_restart_time state <=? now
  end.

Definition record_probe_result (s : ProviderSupervisor) (id : string) (restarted : bool) (now : Z)
    : ProviderSupervisor :=
  match states_ s !! id with
  | None => s
  | Some st =>
      if restarted then
        set_state id (mkRestartState (attempt_count st) false false (next_restart_time st)
          (process_start_time st) (last_healthy_time st)) s
      else
        set_state id (mkRestartState (attempt_count st) (circuit_open st) (crash_detected st)
          (now + probe_interval_ s * ns_per_ms) (process_start_time st) (last_healthy_time st)) s
  end.

Definition get_attempt_count (s : ProviderSupervisor) (id : string) : Z :=
  match states_ s !! id with None => 0 | Some st => attempt_count st end.

Definition record_success (s : ProviderSupervisor) (id : string) : ProviderSupervisor :=
  match states_ s !! id with
  | None => s
  | Some st =>
      set_state id (mkRestartState 0 false false 0 (process_start_time st) (last_healthy_time st)) s
  end.

Definition should_mark_recovered (s : ProviderSupervisor) (id : string) (now : Z) : bool :=
  match find_provider s id with
  | None => false
  | Some (policy, state) =>
      if negb (enabled policy) || circuit_open state || bool_decide (attempt_count state = 0) then false
      else if bool_decide (process_start_time state = 0) then false
      else success_reset_ms policy <=? to_ms (now - process_start_time state)
  end.

Definition mark_crash_detected (s : ProviderSupervisor) (id : string) : bool * ProviderSupervisor :=
  match states_ s !! id with
  | None => (false, s)
  | Some st =>
      if crash_detected st then (false, s)
      else (true, set_state id (mkRestartState (attempt_count st) (circuit_open st) true
              (next_restart_time st) (process_start_time st) (last_healthy_time st)) s)
  end.

Definition clear_crash_detected (s : ProviderSupervisor) (id : string) : ProviderSupervisor :=
  match states_ s !! id with
  | None => s
  | Some st =>
      set_state id (mkRestartState (attempt_count st) (circuit_open st) false
        (next_restart_time st) (process_start_time st) (last_healthy_time st)) s
  end.

Definition record_heartbeat (s : ProviderSupervisor) (id : string) (now : Z) : ProviderSupervisor :=
  match states_ s !! id with
  | None => s
  | Some st =>
      let start := if bool_decide (process_start_time st = 0) then now else process_start_time st in
      set_state id (mkRestartState (attempt_count st) (circuit_open st) (crash_detected st)
        (next_restart_time st) start now) s
  end.

Record ProviderSupervisionSnapshot := mkSnapshot {
  snap_supervision_enabled : bool;
  snap_attempt_count : Z;
  snap_max_attempts : Z;
  snap_crash_detected : bool;
  snap_circuit_open : bool;
  snap_next_restart_in_ms : option Z;
  snap_last_seen_ago_ms : option Z;
  snap_uptime_seconds : Z;
}.

Definition get_snapshot (s : ProviderSupervisor) (id : string) (now : Z)
    : option ProviderSupervisionSnapshot :=
  match find_provider s id with
  | None => None
  | Some (policy, state) =>
      Some (mkSnapshot (enabled policy) (attempt_count state) (max_attempts policy)
        (crash_detected state) (circuit_open state)
        (if circuit_open state || bool_decide (attempt_count state = 0) then None
         else if next_restart_time state <=? now then Some 0
         else Some (to_ms (next_restart_time state - now)))
        (if bool_decide (last_healthy_time state = 0) then None
         else Some (to_ms (now - last_healthy_time state)))
        (if bool_decide (process_start_time state = 0) then 0
         else to_s (now - process_start_time state)))
  end.

Definition get_all_snapshots (s : ProviderSupervisor) (now : Z)
    : gmap string ProviderSupervisionSnapshot :=
  map_imap (λ id _, get_snapshot s id now) (states_ s).

(** ** The main loop's supervision ([Runtime::run]) *)

(** The restart in flight: its provider and whether it is a probe. *)
Record LoopState := mkLoop {
  sup : ProviderSupervisor;
  restart : option (string * bool);
}.

(** The collection of a finished restart, when its future is ready. *)
Definition collect_restart (ready : option bool) (now : Z) (l : LoopState) : LoopState :=
  match restart l, ready with
  | Some (id, probe), Some restarted =>
      mkLoop (if probe then record_probe_result (sup l) id restarted now else sup l) None
  | _, _ => l
  end.

(** An unavailable provider: probe an open circuit, or account for the crash
    once and restart when its backoff has elapsed.  The result names the restart
    started, if any: [Some false] a budgeted restart, [Some true] a probe. *)
Definition supervise_down (id : string) (now : Z) (l : LoopState)
    : option (LoopState * option bool) :=
  if is_circuit_open (sup l) id then
    if bool_decide (restart l = None) && should_probe (sup l) id now then
      Some (mkLoop (sup l) (Some (id, true)), Some true)
    else Some (l, None)
  else
    let '(first, s1) := mark_crash_detected (sup l) id in
    match (if first then record_crash s1 id now else Some (true, s1)) with
    | None => None
    | Some (false, s2) => Some (mkLoop s2 (restart l), None)
    | Some (true, s2) =>
        if bool_decide (restart l = None) && should_restart s2 id now then
          Some (mkLoop (clear_crash_detected s2 id) (Some (id, false)), Some false)
        else Some (mkLoop s2 (restart l), None)
    end.

(** A healthy provider: heartbeat, and the end of a crash streak. *)
Definition supervise_up (id : string) (now : Z) (l : LoopState) : LoopState :=
  let s1 := record_heartbeat (sup l) id now in
  mkLoop (if should_mark_recovered s1 id now then record_success s1 id else s1) (restart l).

(** One provider of the supervision loop.  [available] is [None] when the
    registry has no handle for it. *)
Definition supervise_one (id : string) (available : option bool) (now : Z) (l : LoopState)
    : option (LoopState * option bool) :=
  match available with
  | None => Some (l, None)
  | Some av =>
      if bool_decide (fst <$> restart l = Some id) then Some (l, None)
      else if negb av then supervise_down id now l
      else Some (supervise_up id now l, None)
  end.

Fixpoint supervise_all (ids : list string) (available : string → option bool) (now : Z) (l : LoopState)
    : option (LoopState * list (string * bool)) :=
  match ids with
  | [] => Some (l, [])
  | id :: rest =>
      match supervise_one id (available id) now l with
      | None => None
      | Some (l1, started) =>
          match supervise_all rest available now l1 with
          | None => None
          | Some (l2, more) =>
              Some (l2, match started with Some probe => (id, probe) :: more | None => more end)
          end
      end
  end.

(** ** Lemmas *)

Lemma find_provider_states s id p st :
  find_provider s id = Some (p, st) ↔ policies_ s !! id = Some p ∧ states_ s !! id = Some st.
Proof.
  unfold find_provider. destruct (policies_ s !! id), (states_ s !! id); naive_solver.
Qed.

Lemma find_set_state_eq s id p st st' :
  find_provider s id = Some (p, st) → find_provider (set_state id st' s) id = Some (p, st').
Proof.
  rewrite !find_provider_states. simpl. rewrite lookup_insert_eq. naive_solver.
Qed.

Lemma find_set_state_ne s id id' st :
  id ≠ id' → find_provider (set_state id st s) id' = find_provider s id'.
Proof. intros Hne. unfold find_provider. simpl. by rewrite lookup_insert_ne. Qed.

Lemma states_set_state s id st : states_ (set_state id st s) !! id = Some st.
Proof. simpl. apply lookup_insert_eq. Qed.

Lemma backoff_at_valid id p attempts :
  validate_restart_policy id p = Ok tt → enabled p = true →
  1 ≤ attempts ≤ max_attempts p → ∃ b, backoff_at p attempts = Some b ∧ 0 ≤ b.
Proof.
  unfold validate_restart_policy. intros Hv He Ha. rewrite He in Hv. simpl in Hv.
  repeat (case_match; try done). bool_facts.
  match goal with H : list_find _ _ = None |- _ => rename H into Hf end.
  assert (Z.to_nat (attempts - 1) < length (backoff_ms p))%nat as Hlt by lia.
  destruct (lookup_lt_is_Some_2 _ _ Hlt) as [b Hb]. exists b.
  split; [|apply list_find_None in Hf; rewrite Forall_lookup in Hf; specialize (Hf _ _ Hb); lia].
  assert (to_uint64 (attempts - 1) ≤ attempts - 1) by (apply Z.mod_le; lia).
  unfold backoff_at. rewrite Z.geb_leb, (proj2 (Z.leb_gt _ _)) by lia.
  by rewrite (proj2 (Z.ltb_ge _ _)) by lia.
Qed.

(** Policies have passed the config check and counters are not negative. *)
Definition sup_wf (s : ProviderSupervisor) : Prop :=
  ∀ id p st, find_provider s id = Some (p, st) →
             validate_restart_policy id p = Ok tt ∧ 0 ≤ attempt_count st.

(** What recording a crash does, by case. *)
Lemma record_crash_cases s id now p st :
  find_provider s id = Some (p, st) → enabled p = true →
  validate_restart_policy id p = Ok tt → 0 ≤ attempt_count st →
  (attempt_count st + 1 > max_attempts p ∧
   record_crash s id now =
     Some (false, set_state id (mkRestartState (attempt_count st + 1) true (crash_detected st)
       (now + probe_interval_ s * ns_per_ms) 0 (last_healthy_time st)) s)) ∨
  (attempt_count st + 1 ≤ max_attempts p ∧ ∃ b, 0 ≤ b ∧
   backoff_at p (attempt_count st + 1) = Some b ∧
   record_crash s id now =
     Some (true, set_state id (mkRestartState (attempt_count st + 1) (circuit_open st)
       (crash_detected st) (now + b * ns_per_ms) 0 (last_healthy_time st)) s)).
Proof.
  intros Hf He Hv Ha. unfold record_crash. rewrite Hf, He. simpl. rewrite Z.gtb_ltb.
  destruct (Z.ltb_spec (max_attempts p) (attempt_count st + 1)); [left; split; [lia|done]|right].
  split; [lia|]. destruct (backoff_at_valid id p (attempt_count st + 1)) as (b & Hb & ?); [done..|lia|].
  exists b. by rewrite Hb.
Qed.

Lemma record_crash_disabled s id now p st :
  find_provider s id = Some (p, st) → enabled p = false →
  record_crash s id now = Some (false, set_state id (mkRestartState (attempt_count st) true
    (crash_detected st) (next_restart_time st) (process_start_time st) (last_healthy_time st)) s).
Proof. intros Hf He. unfold record_crash. by rewrite Hf, He. Qed.

Definition upd_crash (b : bool) (st : RestartState) : RestartState :=
  mkRestartState (attempt_count st) (circuit_open st) b
    (next_restart_time st) (process_start_time st) (last_healthy_time st).

Lemma mark_crash_find s id p st :
  find_provider s id = Some (p, st) →
  mark_crash_detected s id =
    if crash_detected st then (false, s) else (true, set_state id (upd_crash true st) s).
Proof. intros [_ Hs]%find_provider_states. unfold mark_crash_detected. by rewrite Hs. Qed.

Lemma find_provider_policy s id p st :
  find_provider s id = Some (p, st) → is_circuit_open s id = circuit_open st.
Proof. intros [_ Hs]%find_provider_states. unfold is_circuit_open. by rewrite Hs. Qed.

(** A supervision step for another provider does not touch this one. *)
Lemma record_crash_other s s' id id' now b :
  id' ≠ id → record_crash s id' now = Some (b, s') → find_provider s' id = find_provider s id.
Proof.
  intros Hne. unfold record_crash. destruct (find_provider s id') as [[p st]|]; [|by intros; simplify_eq].
  intros. repeat (case_match; simplify_eq); by rewrite find_set_state_ne.
Qed.

Lemma mark_crash_other s id id' :
  id' ≠ id → find_provider (snd (mark_crash_detected s id')) id = find_provider s id.
Proof.
  intros Hne. unfold mark_crash_detected. destruct (states_ s !! id') as [st|]; [|done].
  destruct (crash_detected st); simpl; [done|]. by rewrite find_set_state_ne.
Qed.

Lemma heartbeat_other s id id' now :
  id' ≠ id → find_provider (record_heartbeat s id' now) id = find_provider s id.
Proof.
  intros Hne. unfold record_heartbeat. destruct (states_ s !! id'); [|done]. by rewrite find_set_state_ne.
Qed.

Lemma success_other s id id' :
  id' ≠ id → find_provider (record_success s id') id = find_provider s id.
Proof.
  intros Hne. unfold record_success. destruct (states_ s !! id'); [|done]. by rewrite find_set_state_ne.
Qed.

Lemma clear_crash_other s id id' :
  id' ≠ id → find_provider (clear_crash_detected s id') id = find_provider s id.
Proof.
  intros Hne. unfold clear_crash_detected. destruct (states_ s !! id'); [|done].
  by rewrite find_set_state_ne.
Qed.

Lemma probe_result_other s id id' r now :
  id' ≠ id → find_provider (record_probe_result s id' r now) id = find_provider s id.
Proof.
  intros Hne. unfold record_probe_result. destruct (states_ s !! id'), r; try done;
    by rewrite find_set_state_ne.
Qed.

Lemma supervise_down_other id id' now l l' started :
  id' ≠ id → supervise_down id' now l = Some (l', started) →
  find_provider (sup l') id = find_provider (sup l) id.
Proof.
  intros Hne. unfold supervise_down. pose proof (mark_crash_other (sup l) id id' Hne) as Hm.
  destruct (mark_crash_detected _ _) as [first s1]. simpl in Hm. rewrite <- Hm.
  case_match; [repeat case_match; intros; by simplify_eq|].
  destruct first.
  - destruct (record_crash s1 id' now) as [[b s2]|] eqn:E; [|done].
    apply (record_crash_other _ _ id) in E; [|done]. rewrite <- E.
    repeat case_match; intros; simplify_eq; simpl; by rewrite ?clear_crash_other.
  - repeat case_match; intros; simplify_eq; simpl; by rewrite ?clear_crash_other.
Qed.

Lemma supervise_one_other id id' av now l l' started :
  id' ≠ id → supervise_one id' av now l = Some (l', started) →
  find_provider (sup l') id = find_provider (sup l) id.
Proof.
  intros Hne. unfold supervise_one. destruct av as [av|]; [|by intros; simplify_eq].
  case_match; [by intros; simplify_eq|]. destruct av; simpl.
  - intros; simplify_eq. unfold supervise_up. simpl.
    case_match; rewrite ?success_other by done; by apply heartbeat_other.
  - by apply supervise_down_other.
Qed.

(** ** The restart budget over the main loop *)

(** Whether this pass ends the provider's crash streak. *)
Definition streak_resets (id : string) (available : option bool) (now : Z) (l : LoopState) : bool :=
  match available with
  | Some true => negb (bool_decide (fst <$> restart l = Some id)) &&
                 should_mark_recovered (record_heartbeat (sup l) id now) id now
  | _ => false
  end.

(** Main-loop passes with a counter of the budgeted restarts started for [id]
    in the current crash streak. *)
Inductive loop_step (id : string) : LoopState * Z → LoopState * Z → Prop :=
| loop_collect ready now l n : loop_step id (l, n) (collect_restart ready now l, n)
| loop_supervise id' av now l l' started n :
    supervise_one id' av now l = Some (l', started) →
    loop_step id (l, n)
      (l', if decide (id' = id) then
             if streak_resets id av now l then 0
             else if decide (started = Some false) then n + 1 else n
           else n).

Definition budget_inv (id : string) (p : RestartPolicyConfig) (c : LoopState * Z) : Prop :=
  ∃ st, find_provider (sup c.1) id = Some (p, st) ∧
        0 ≤ c.2 ∧ c.2 ≤ attempt_count st ∧ c.2 ≤ max_attempts p ∧
        (circuit_open st = false → crash_detected st = true →
         c.2 + 1 ≤ attempt_count st ∧ attempt_count st ≤ max_attempts p).

Lemma clear_crash_find s id p st :
  find_provider s id = Some (p, st) →
  find_provider (clear_crash_detected s id) id = Some (p, upd_crash false st).
Proof.
  intros Hf. pose proof Hf as [_ Hs]%find_provider_states. unfold clear_crash_detected. rewrite Hs.
  by eapply find_set_state_eq.
Qed.

(** The tail of a down pass: restart now, or wait. *)
Lemma budget_restart_or_wait id p l s2 st2 n l' started :
  find_provider s2 id = Some (p, st2) →
  0 ≤ n → n + 1 ≤ attempt_count st2 → attempt_count st2 ≤ max_attempts p →
  (if bool_decide (restart l = None) && should_restart s2 id l' then
     Some (mkLoop (clear_crash_detected s2 id) (Some (id, false)), Some false)
   else Some (mkLoop s2 (restart l), None)) = started →
  match started with
  | Some (l1, st) => budget_inv id p (l1, if decide (st = Some false) then n + 1 else n)
  | None => False
  end.
Proof.
  intros Hf Hn Ha Hm <-. destruct (_ && _); simpl.
  - exists (upd_crash false st2). split; [by apply clear_crash_find|]. simpl. split_and!; try lia; done.
  - exists st2. split; [done|]. simpl. split_and!; try lia; intros; lia.
Qed.

Lemma budget_inv_down id p l n now l' started :
  validate_restart_policy id p = Ok tt → enabled p = true → budget_inv id p (l, n) →
  supervise_down id now l = Some (l', started) →
  budget_inv id p (l', if decide (started = Some false) then n + 1 else n).
Proof.
  intros Hv He (st & Hf & H0 & H1 & H2 & H3). simpl in *.
  unfold supervise_down. rewrite (find_provider_policy _ _ _ _ Hf).
  destruct (circuit_open st) eqn:Ho.
  { intros Hs. assert (sup l' = sup l ∧ started ≠ Some false) as [E Hns]
      by (repeat case_match; by simplify_eq).
    exists st. simpl. rewrite E, decide_False by done. split_and!; try done. congruence. }
  rewrite (mark_crash_find _ _ _ _ Hf). destruct (crash_detected st) eqn:Hc.
  { destruct (H3 eq_refl eq_refl). intros Hs.
    exact (budget_restart_or_wait _ _ l (sup l) st n now (Some (l', started)) Hf H0
             ltac:(lia) ltac:(lia) Hs). }
  pose proof (find_set_state_eq _ _ _ _ (upd_crash true st) Hf) as Hf1.
  destruct (record_crash_cases _ id now p _ Hf1 He Hv ltac:(simpl; lia))
    as [(Hgt & ->)|(Hle & b & Hb & _ & ->)]; simpl.
  - intros; simplify_eq. rewrite decide_False by done.
    eexists. split; [by eapply find_set_state_eq|]. simpl. split_and!; try lia; done.
  - intros Hs. simpl in Hle. eapply find_set_state_eq in Hf1.
    eapply (budget_restart_or_wait id p l _ _ n now (Some (l', started)));
      [exact Hf1|..|exact Hs]. all: simpl; lia.
Qed.

Lemma budget_inv_up id p l n now :
  budget_inv id p (l, n) →
  budget_inv id p
    (supervise_up id now l,
     if should_mark_recovered (record_heartbeat (sup l) id now) id now then 0 else n).
Proof.
  intros (st & Hf & H0 & H1 & H2 & H3). simpl in *.
  pose proof Hf as [_ Hs]%find_provider_states. unfold supervise_up. simpl.
  destruct (should_mark_recovered _ _ _); simpl.
  - unfold record_heartbeat. rewrite Hs. unfold record_success. rewrite states_set_state.
    eexists. split; [by eapply find_set_state_eq, find_set_state_eq|]. simpl. split_and!; try lia; done.
  - unfold record_heartbeat. rewrite Hs.
    eexists. split; [by eapply find_set_state_eq|]. simpl. split_and!; try lia. done.
Qed.

Lemma budget_inv_step id p c c' :
  validate_restart_policy id p = Ok tt → enabled p = true →
  budget_inv id p c → loop_step id c c' → budget_inv id p c'.
Proof.
  intros Hv He Hi. destruct 1 as [ready now l n|id' av now l l' started n Hs].
  - unfold collect_restart. destruct (restart l) as [[id' probe]|], ready as [r|]; try done.
    destruct probe; [|done]. destruct Hi as (st & Hf & H0 & H1 & H2 & H3). simpl in *.
    destruct (decide (id' = id)) as [->|Hne].
    2: { exists st. simpl. by rewrite probe_result_other. }
    pose proof Hf as [_ Hst]%find_provider_states. unfold record_probe_result. rewrite Hst.
    destruct r; eexists; (split; [by eapply find_set_state_eq|]); simpl; by split_and!.
  - destruct (decide (id' = id)) as [->|Hne].
    2: { destruct Hi as (st & Hf & Hr). exists st. simpl in *.
         by rewrite (supervise_one_other _ _ _ _ _ _ _ Hne Hs). }
    unfold supervise_one, streak_resets in *. destruct av as [av|]; [|by simplify_eq].
    destruct (bool_decide (fst <$> restart l = Some id)); simpl in *.
    { simplify_eq. by destruct av. }
    destruct av; simpl in *; simplify_eq; [by apply budget_inv_up|by eapply budget_inv_down].
Qed.

(** C20. The restart budget bounds automatic restarts: over any run of the main
    loop, with any outcome of the providers and of the restarts, at most
    [max_attempts] budgeted restarts of a provider are started per crash streak
    (a streak ends only when the provider has been healthy for
    [success_reset_ms]). *)
Theorem restarts_within_budget id p s0 l n :
  validate_restart_policy id p = Ok tt → enabled p = true →
  rtc (loop_step id) (mkLoop (register_provider id p s0) None, 0) (l, n) →
  n ≤ max_attempts p.
Proof.
  intros Hv He Hr. assert (budget_inv id p (l, n)) as (st & _ & _ & _ & ? & _); [|done].
  eapply rtc_invariant; [|intros ? ?; by apply budget_inv_step|exact Hr].
  exists fresh_state. unfold find_provider. simpl. rewrite !lookup_insert_eq.
  split_and!; try done. revert Hv. unfold validate_restart_policy. rewrite He. simpl.
  case_match; [done|]. bool_facts. lia.
Qed.

Definition sample_policy : RestartPolicyConfig := mkPolicy true 3 [100; 1000; 5000] 30000 1000.
Definition sample_sup : ProviderSupervisor := mkSupervisor 60000 ∅ ∅.

(** One outage: the first pass counts it and waits, the second restarts. *)
Example restarts_within_budget_witness : 1 ≤ max_attempts sample_policy.
Proof.
  eapply (restarts_within_budget "sim0" sample_policy sample_sup _ 1); [reflexivity|reflexivity|].
  eapply rtc_l. { apply (loop_supervise "sim0" "sim0" (Some false) 1000000). vm_compute. reflexivity. }
  eapply rtc_l. { apply (loop_supervise "sim0" "sim0" (Some false) 900000000). vm_compute. reflexivity. }
  apply rtc_refl.
Defined.

(** A recorded crash within the budget schedules the next restart: it is
    allowed exactly from the crash time plus the reported backoff on.  One past
    the budget opens the circuit: no budgeted restart at any later time, and a
    probe exactly from the crash time plus the probe interval on. *)
Theorem record_crash_schedule s id p st now :
  find_provider s id = Some (p, st) → enabled p = true → validate_restart_policy id p = Ok tt →
  0 ≤ attempt_count st → circuit_open st = false →
  ∃ ok s', record_crash s id now = Some (ok, s') ∧
    get_attempt_count s' id = attempt_count st + 1 ∧
    if ok then
      ∃ b, get_backoff_ms s' id = Some b ∧ 0 ≤ b ∧ is_circuit_open s' id = false ∧
           ∀ t, should_restart s' id t = bool_decide (now + b * ns_per_ms ≤ t)
    else
      is_circuit_open s' id = true ∧
      ∀ t, should_restart s' id t = false ∧
           should_probe s' id t = bool_decide (now + probe_interval_ s * ns_per_ms ≤ t).
Proof.
  intros Hf He Hv Ha Ho.
  destruct (record_crash_cases s id now p st Hf He Hv Ha)
    as [(Hgt & ->)|(Hle & b & Hb & Hbo & ->)]; eexists _, _; (split; [done|]);
    match goal with |- context [set_state id ?x s] =>
      pose proof (find_set_state_eq _ _ _ _ x Hf) as Hf' end.
  - unfold get_attempt_count, is_circuit_open, should_restart, should_probe.
    rewrite !states_set_state, !Hf'. simpl. rewrite He. split_and!; [done..|]. intros t.
    split; [done|]. simpl. by destruct (Z.leb_spec (now + probe_interval_ s * ns_per_ms) t);
      [rewrite bool_decide_true|rewrite bool_decide_false by lia].
  - unfold get_attempt_count, is_circuit_open, should_restart, get_backoff_ms.
    rewrite !states_set_state, !Hf'. simpl. rewrite He, Ho. split; [done|]. exists b. simpl.
    rewrite (bool_decide_false (attempt_count st + 1 = 0)), (proj2 (Z.ltb_ge _ _)) by lia. simpl.
    split_and!; [done..|]. intros t. destruct (Z.ltb_spec t (now + b * ns_per_ms)); simpl;
      [by rewrite bool_decide_false by lia|by rewrite bool_decide_true by lia].
Qed.

Example record_crash_schedule_witness :
  ∃ ok s', record_crash (register_provider "sim0" sample_policy sample_sup) "sim0" 7 = Some (ok, s') ∧
    get_attempt_count s' "sim0" = 0 + 1 ∧
    if ok then
      ∃ b, get_backoff_ms s' "sim0" = Some b ∧ 0 ≤ b ∧ is_circuit_open s' "sim0" = false ∧
           ∀ t, should_restart s' "sim0" t = bool_decide (7 + b * ns_per_ms ≤ t)
    else
      is_circuit_open s' "sim0" = true ∧
      ∀ t, should_restart s' "sim0" t = false ∧
           should_probe s' "sim0" t = bool_decide (7 + 60000 * ns_per_ms ≤ t).
Proof.
  apply (record_crash_schedule (register_provider "sim0" sample_policy sample_sup) "sim0"
           sample_policy fresh_state 7); [reflexivity..|done|reflexivity].
Defined.

Lemma heartbeat_find s id p st now :
  find_provider s id = Some (p, st) →
  find_provider (record_heartbeat s id now) id =
    Some (p, mkRestartState (attempt_count st) (circuit_open st) (crash_detected st)
      (next_restart_time st)
      (if bool_decide (process_start_time st = 0) then now else process_start_time st) now).
Proof.
  intros Hf. pose proof Hf as [_ Hs]%find_provider_states. unfold record_heartbeat. rewrite Hs.
  by eapply find_set_state_eq.
Qed.

Lemma heartbeats_find s id p st hs h1 :
  find_provider s id = Some (p, st) → process_start_time st = h1 → h1 ≠ 0 →
  ∃ st', find_provider (foldl (λ s h, record_heartbeat s id h) s hs) id = Some (p, st') ∧
         process_start_time st' = h1 ∧ attempt_count st' = attempt_count st ∧
         circuit_open st' = circuit_open st.
Proof.
  revert s st. induction hs as [|h hs IH]; intros s st Hf Hp Hn; simpl; [by eauto|].
  apply (heartbeat_find _ _ _ _ h) in Hf. rewrite bool_decide_false in Hf by congruence.
  apply (IH _ _ Hf); done.
Qed.

(** The recovery window runs from the first heartbeat after the crash: with
    any further heartbeats, the streak is cleared exactly when that many
    milliseconds have passed since the first one, not since the restart or an
    earlier healthy spell. *)
Theorem recovery_window s id p st now s' h1 hs t :
  find_provider s id = Some (p, st) → enabled p = true → 0 ≤ attempt_count st →
  circuit_open st = false → record_crash s id now = Some (true, s') → h1 ≠ 0 →
  should_mark_recovered
    (foldl (λ s h, record_heartbeat s id h) (record_heartbeat s' id h1) hs) id t =
  bool_decide (success_reset_ms p ≤ to_ms (t - h1)).
Proof.
  intros Hf He Ha Ho Hc Hh. unfold record_crash in Hc. rewrite Hf, He in Hc. simpl in Hc.
  repeat (case_match; simplify_eq).
  match goal with |- context [set_state id ?x s] =>
    pose proof (find_set_state_eq _ _ _ _ x Hf) as Hf' end.
  apply (heartbeat_find _ _ _ _ h1) in Hf'. simpl in Hf'.
  destruct (heartbeats_find _ _ _ _ hs h1 Hf' eq_refl Hh) as (st' & Hst & Hp & Hat & Hco).
  unfold should_mark_recovered. rewrite Hst, He, Hco, Hat, Hp. simpl. rewrite Ho.
  rewrite (bool_decide_false (attempt_count st + 1 = 0)) by lia. simpl.
  rewrite bool_decide_false by done.
  destruct (Z.leb_spec (success_reset_ms p) (to_ms (t - h1)));
    [by rewrite bool_decide_true|by rewrite bool_decide_false by lia].
Qed.

Example recovery_window_witness :
  ∃ s', record_crash (register_provider "sim0" sample_policy sample_sup) "sim0" 7 = Some (true, s') ∧
    should_mark_recovered
      (foldl (λ s h, record_heartbeat s "sim0" h) (record_heartbeat s' "sim0" 50) [60; 70]) "sim0"
      (50 + 1000 * ns_per_ms) = true.
Proof.
  eexists. split; [reflexivity|].
  erewrite (recovery_window (register_provider "sim0" sample_policy sample_sup) "sim0" sample_policy
              fresh_state 7 _ 50 [60; 70]); [reflexivity|reflexivity|reflexivity|done|reflexivity
    |reflexivity|done].
Defined.

(** Writing a state whose counter is the old one, zero, or one more. *)
Lemma sup_wf_set_state s id st st' :
  sup_wf s → states_ s !! id = Some st → attempt_count st' ∈ [0; attempt_count st; attempt_count st + 1] →
  sup_wf (set_state id st' s).
Proof.
  intros Hwf Hs Ha id' p' st'' [Hp Hst]%find_provider_states. simpl in *.
  rewrite lookup_insert in Hst. case_decide; [|by apply (Hwf id'), find_provider_states].
  simplify_eq. destruct (Hwf id' p' st) as [? ?]; [by apply find_provider_states|].
  split; [done|]. set_unfold in Ha. lia.
Qed.

Lemma sup_wf_mark s id : sup_wf s → sup_wf (snd (mark_crash_detected s id)).
Proof.
  intros Hwf. unfold mark_crash_detected. destruct (states_ s !! id) as [st|] eqn:E; [|done].
  destruct (crash_detected st); [done|]. eapply sup_wf_set_state; [done..|]. set_solver.
Qed.

Lemma sup_wf_clear s id : sup_wf s → sup_wf (clear_crash_detected s id).
Proof.
  intros Hwf. unfold clear_crash_detected. destruct (states_ s !! id) as [st|] eqn:E; [|done].
  eapply sup_wf_set_state; [done..|]. set_solver.
Qed.

Lemma sup_wf_heartbeat s id now : sup_wf s → sup_wf (record_heartbeat s id now).
Proof.
  intros Hwf. unfold record_heartbeat. destruct (states_ s !! id) as [st|] eqn:E; [|done].
  eapply sup_wf_set_state; [done..|]. set_solver.
Qed.

Lemma sup_wf_success s id : sup_wf s → sup_wf (record_success s id).
Proof.
  intros Hwf. unfold record_success. destruct (states_ s !! id) as [st|] eqn:E; [|done].
  eapply sup_wf_set_state; [done..|]. set_solver.
Qed.

Lemma sup_wf_probe s id restarted now : sup_wf s → sup_wf (record_probe_result s id restarted now).
Proof.
  intros Hwf. unfold record_probe_result. destruct (states_ s !! id) as [st|] eqn:E; [|done].
  destruct restarted; (eapply sup_wf_set_state; [done..|set_solver]).
Qed.

Lemma sup_wf_crash s id now :
  sup_wf s → ∃ b s', record_crash s id now = Some (b, s') ∧ sup_wf s'.
Proof.
  intros Hwf. destruct (find_provider s id) as [[p st]|] eqn:Hf.
  2: { unfold record_crash. rewrite Hf. by eauto. }
  pose proof Hf as [_ Hs]%find_provider_states. destruct (Hwf _ _ _ Hf) as [Hv Ha].
  destruct (enabled p) eqn:He.
  - destruct (record_crash_cases s id now p st Hf He Hv Ha) as [(_ & ->)|(_ & b & _ & _ & ->)];
      eexists _, _; (split; [done|]); eapply sup_wf_set_state; try done; set_solver.
  - rewrite (record_crash_disabled _ _ _ _ _ Hf He). eexists _, _. split; [done|].
    eapply sup_wf_set_state; [done..|]. set_solver.
Qed.

Lemma supervise_one_total id av now l :
  sup_wf (sup l) → ∃ l' st, supervise_one id av now l = Some (l', st) ∧ sup_wf (sup l').
Proof.
  intros Hwf. unfold supervise_one. destruct av as [av|]; [|by eauto].
  case_match; [by eauto|]. destruct av; simpl.
  - eexists _, _. split; [done|]. unfold supervise_up. simpl.
    case_match; auto using sup_wf_success, sup_wf_heartbeat.
  - unfold supervise_down. pose proof (sup_wf_mark (sup l) id Hwf) as Hwf1.
    destruct (mark_crash_detected _ _) as [first s1]. simpl in Hwf1.
    case_match; [case_match; by eauto|]. destruct first.
    + destruct (sup_wf_crash s1 id now Hwf1) as ([] & s2 & -> & Hwf2);
        [case_match|]; eauto using sup_wf_clear.
    + case_match; eauto using sup_wf_clear.
Qed.

(** With policies that passed the config check, a supervision pass over the
    providers never indexes the backoff table out of range and never makes the
    attempt counter negative: it always produces a next, again well-formed,
    state. *)
Theorem supervise_all_total ids available now l :
  sup_wf (sup l) →
  ∃ l' started, supervise_all ids available now l = Some (l', started) ∧ sup_wf (sup l').
Proof.
  revert l. induction ids as [|id ids IH]; intros l Hwf; simpl; [by eauto|].
  destruct (supervise_one_total id (available id) now l Hwf) as (l1 & st1 & -> & Hwf1).
  destruct (IH _ Hwf1) as (l2 & more & -> & Hwf2). by eauto.
Qed.

Example supervise_all_total_witness :
  ∃ l' started,
    supervise_all ["sim0"; "ghost"] (λ id, if decide (id = "sim0") then Some false else None) 5
      (mkLoop (register_provider "sim0" sample_policy sample_sup) None) = Some (l', started) ∧
    sup_wf (sup l').
Proof.
  apply supervise_all_total. intros id p st [Hp Hs]%find_provider_states.
  unfold register_provider, sample_sup in Hp, Hs. cbn [sup policies_ states_] in Hp, Hs.
  apply lookup_insert_Some in Hp as [[<- <-]|[_ Hp]]; [|by rewrite lookup_empty in Hp].
  rewrite lookup_insert_eq in Hs. injection Hs as <-. split; [reflexivity|done].
Defined.

(** A successful probe closes the circuit but keeps the crash streak: if
    the provider then crashes again before recovering, the circuit re-opens at
    once and no budgeted restart is allowed. *)
Theorem probe_keeps_streak s id p st t1 t2 :
  find_provider s id = Some (p, st) → enabled p = true →
  max_attempts p < attempt_count st →
  let s1 := record_probe_result s id true t1 in
  is_circuit_open s1 id = false ∧
  ∃ s2, record_crash s1 id t2 = Some (false, s2) ∧ is_circuit_open s2 id = true ∧
        ∀ t, should_restart s2 id t = false.
Proof.
  intros Hf He Ha. pose proof Hf as [_ Hs]%find_provider_states. unfold record_probe_result.
  rewrite Hs. cbv zeta.
  match goal with |- context [set_state id ?x s] =>
    pose proof (find_set_state_eq _ _ _ _ x Hf) as Hf' end.
  rewrite (find_provider_policy _ _ _ _ Hf'). split; [done|].
  unfold record_crash. rewrite Hf', He. simpl. rewrite Z.gtb_ltb, (proj2 (Z.ltb_lt _ _)) by lia.
  eexists. split; [done|].
  match goal with |- context [set_state id ?x (set_state id ?y s)] =>
    pose proof (find_set_state_eq _ _ _ _ x Hf') as Hf2 end.
  rewrite (find_provider_policy _ _ _ _ Hf2). split; [done|]. intros t.
  unfold should_restart. rewrite Hf2, He. done.
Qed.

Example probe_keeps_streak_witness :
  let s := set_state "sim0" (mkRestartState 4 true true 9 0 0)
             (register_provider "sim0" sample_policy sample_sup) in
  let s1 := record_probe_result s "sim0" true 10 in
  is_circuit_open s1 "sim0" = false ∧
  ∃ s2, record_crash s1 "sim0" 20 = Some (false, s2) ∧ is_circuit_open s2 "sim0" = true ∧
        ∀ t, should_restart s2 "sim0" t = false.
Proof.
  apply (probe_keeps_streak _ "sim0" sample_policy (mkRestartState 4 true true 9 0 0) 10 20);
    reflexivity.
Defined.
