(* ===== verification/StateCache.v ===== *)
(** * The state cache ([core/state/state_cache.cpp])

    The live cached view of device state: polling, provider-outage tracking,
    change detection, the availability events published under the cache's lock,
    and the reachability edges for the sink.  An edge is decided and numbered under
    the lock ([out_edges] holds them in that order) and the sink is called with it
    once the lock is released, so two threads may call it in either order: the
    calls are steps of their own ([sink_step]).  [out_events] holds the emissions.
    System-clock time points are [Z] nanoseconds since the epoch.  A NaN's
    payload bits are not represented. *)

From S2P Require Import Prelude Protocol Registry Parameters.

(** [struct CachedSignalValue]. *)
Record CachedSignalValue := mkCached {
  csv_value : Value;
  csv_timestamp : Z;
  csv_quality : Quality;
}.

(** [duration_cast<milliseconds>]. *)
Definition ms_of_ns (ns : Z) : Z := Z.quot ns 1000000.

Definition age (v : CachedSignalValue) (now : Z) : Z :=
  if now <? csv_timestamp v then 0 else ms_of_ns (now - csv_timestamp v).

Definition is_stale (v : CachedSignalValue) (timeout : Z) (now : Z) : bool :=
  if bool_decide (csv_quality v = QUALITY_STALE) || bool_decide (csv_quality v = QUALITY_FAULT) ||
     bool_decide (csv_quality v = QUALITY_UNKNOWN) then true
  else timeout <? age v now.

(** [struct DeviceState]. *)
Record DeviceState := mkDeviceState {
  ds_device_handle : string;
  ds_signals : gmap string CachedSignalValue;
  ds_last_poll_time : Z;
  ds_provider_available : bool;
  ds_loss_reported : bool;
  ds_unavailable_emitted : bool;
}.

Record CarriedReachability := mkCarried {
  cr_provider_available : bool;
  cr_loss_reported : bool;
  cr_unavailable_emitted : bool;
}.

Definition default_carried : CarriedReachability := mkCarried true false false.

Record PollConfig := mkPollConfig {
  pl_provider_id : string;
  pl_device_id : string;
  pl_signal_ids : list string;
}.

Record ProviderOutageLogState := mkOutage {
  in_outage : bool;
  provider_missing : bool;
  last_log_time : Z;
}.

(** Quality of the event layer. *)
Inductive EventQuality := EQ_OK | EQ_STALE | EQ_FAULT | EQ_UNAVAILABLE.

(** What the cache emits. *)
Inductive CacheEvent :=
| StateUpdateEvent (provider_id device_id signal_id : string) (value : TypedValue) (q : EventQuality)
| DeviceAvailabilityEvent (provider_id device_id : string) (available : bool) (timestamp_ms : Z)
| DeviceRemovedEvent (provider_id device_id : string) (timestamp_ms : Z).

(** The arguments of a call of the reachability sink. *)
Record Edge := mkEdge {
  e_handle : string;
  e_reachable : bool;
  e_status : StatusCode;
  e_seq : Z;
}.

Record StateCache := mkCache {
  event_emitter_ : bool;             (* an emitter is attached *)
  device_reachability_sink_ : bool;  (* a sink is installed *)
  device_states_ : gmap string DeviceState;
  reachability_edge_seq_ : Z;
  departed_ : gmap string CarriedReachability;
  poll_configs_ : list PollConfig;
  initialized_ : bool;
  preinit_poll_warning_emitted_ : bool;
  provider_outage_log_state_ : gmap string ProviderOutageLogState;
  out_events : list CacheEvent;
  out_edges : list Edge;             (* decided; the sink is called outside the lock *)
}.

Definition new_cache (emitter sink : bool) : StateCache :=
  mkCache emitter sink ∅ 0 ∅ [] false false ∅ [] [].

(** What a provider handle answers to a read: the values, or the failure's
    status together with what [is_available()] says after it. *)
Inductive ReadOutcome :=
| ReadOk (values : list SignalValue)
| ReadFail (failure_status : StatusCode) (available_after : bool).

Record PollHandle := mkPollHandle {
  ph_is_available : bool;
  ph_read_signals : string → list string → ReadOutcome;
}.

(** The provider registry as the poller sees it. *)
Definition Providers : Type := gmap string PollHandle.

(** ** Field updates *)

Definition put_states (m : gmap string DeviceState) (c : StateCache) : StateCache :=
  mkCache (event_emitter_ c) (device_reachability_sink_ c) m (reachability_edge_seq_ c)
    (departed_ c) (poll_configs_ c) (initialized_ c) (preinit_poll_warning_emitted_ c)
    (provider_outage_log_state_ c) (out_events c) (out_edges c).
Definition put_seq (n : Z) (c : StateCache) : StateCache :=
  mkCache (event_emitter_ c) (device_reachability_sink_ c) (device_states_ c) n
    (departed_ c) (poll_configs_ c) (initialized_ c) (preinit_poll_warning_emitted_ c)
    (provider_outage_log_state_ c) (out_events c) (out_edges c).
Definition put_departed (m : gmap string CarriedReachability) (c : StateCache) : StateCache :=
  mkCache (event_emitter_ c) (device_reachability_sink_ c) (device_states_ c)
    (reachability_edge_seq_ c) m (poll_configs_ c) (initialized_ c)
    (preinit_poll_warning_emitted_ c) (provider_outage_log_state_ c) (out_events c) (out_edges c).
Definition put_configs (l : list PollConfig) (c : StateCache) : StateCache :=
  mkCache (event_emitter_ c) (device_reachability_sink_ c) (device_states_ c)
    (reachability_edge_seq_ c) (departed_ c) l (initialized_ c)
    (preinit_poll_warning_emitted_ c) (provider_outage_log_state_ c) (out_events c) (out_edges c).
Definition put_flags (init warned : bool) (c : StateCache) : StateCache :=
  mkCache (event_emitter_ c) (device_reachability_sink_ c) (device_states_ c)
    (reachability_edge_seq_ c) (departed_ c) (poll_configs_ c) init warned
    (provider_outage_log_state_ c) (out_events c) (out_edges c).
Definition put_outages (m : gmap string ProviderOutageLogState) (c : StateCache) : StateCache :=
  mkCache (event_emitter_ c) (device_reachability_sink_ c) (device_states_ c)
    (reachability_edge_seq_ c) (departed_ c) (poll_configs_ c) (initialized_ c)
    (preinit_poll_warning_emitted_ c) m (out_events c) (out_edges c).
(** [event_emitter_->emit(event)], skipped without an emitter. *)
Definition emit (e : CacheEvent) (c : StateCache) : StateCache :=
  if event_emitter_ c then
    mkCache (event_emitter_ c) (device_reachability_sink_ c) (device_states_ c)
      (reachability_edge_seq_ c) (departed_ c) (poll_configs_ c) (initialized_ c)
      (preinit_poll_warning_emitted_ c) (provider_outage_log_state_ c)
      (out_events c ++ [e]) (out_edges c)
  else c.
(** An edge decided under the lock, for the [device_reachability_sink_] call after it. *)
Definition decide_edge (e : Edge) (c : StateCache) : StateCache :=
  mkCache (event_emitter_ c) (device_reachability_sink_ c) (device_states_ c)
    (reachability_edge_seq_ c) (departed_ c) (poll_configs_ c) (initialized_ c)
    (preinit_poll_warning_emitted_ c) (provider_outage_log_state_ c)
    (out_events c) (out_edges c ++ [e]).

(** ** Emission helpers *)

Definition emit_device_availability (pid did : string) (available : bool) (now : Z)
    (c : StateCache) : StateCache :=
  emit (DeviceAvailabilityEvent pid did available (ms_of_ns now)) c.

Definition emit_device_removed (pid did : string) (now : Z) (c : StateCache) : StateCache :=
  emit (DeviceRemovedEvent pid did (ms_of_ns now)) c.

Definition typed_of_value (value : Value) : TypedValue :=
  match v_type value with
  | VALUE_TYPE_DOUBLE => TDouble (double_value value)
  | VALUE_TYPE_INT64 => TInt64 (int64_value value)
  | VALUE_TYPE_UINT64 => TUint64 (uint64_value value)
  | VALUE_TYPE_BOOL => TBool (bool_value value)
  | VALUE_TYPE_STRING => TString (string_value value)
  | VALUE_TYPE_BYTES => TString (bytes_value value)
  | VALUE_TYPE_OTHER _ => TString "<unknown>"
  end.

Definition event_quality (q : Quality) : EventQuality :=
  match q with
  | QUALITY_OK => EQ_OK
  | QUALITY_STALE => EQ_STALE
  | QUALITY_FAULT => EQ_FAULT
  | _ => EQ_UNAVAILABLE
  end.

Definition emit_state_update (pid did sid : string) (value : Value) (q : Quality)
    (c : StateCache) : StateCache :=
  emit (StateUpdateEvent pid did sid (typed_of_value value) (event_quality q)) c.

(** ** Change detection *)

Definition value_changed (old_val new_val : Value) : bool :=
  if negb (bool_decide (v_type old_val = v_type new_val)) then true
  else match v_type old_val with
       | VALUE_TYPE_DOUBLE => negb (bool_decide (double_value old_val = double_value new_val))
       | VALUE_TYPE_INT64 => negb (bool_decide (int64_value old_val = int64_value new_val))
       | VALUE_TYPE_UINT64 => negb (bool_decide (uint64_value old_val = uint64_value new_val))
       | VALUE_TYPE_BOOL => negb (bool_decide (bool_value old_val = bool_value new_val))
       | VALUE_TYPE_STRING => negb (bool_decide (string_value old_val = string_value new_val))
       | VALUE_TYPE_BYTES => negb (bool_decide (bytes_value old_val = bytes_value new_val))
       | VALUE_TYPE_OTHER _ => true
       end.

Definition quality_changed (old_q new_q : Quality) : bool := negb (bool_decide (old_q = new_q)).

(** ** Poll plans *)

(** The default signals of a device, in the capability map's order. *)
Definition default_signals (d : RegisteredDevice) : list string :=
  fst <$> filter (λ p, ss_is_default p.2 = true) (signals_by_id (capabilities d)).

Definition device_poll_config (d : RegisteredDevice) : PollConfig :=
  mkPollConfig (provider_id d) (device_id d) (default_signals d).

Definition polled (d : RegisteredDevice) : Prop := default_signals d ≠ [].
#[global] Instance polled_dec d : Decision (polled d) := ltac:(unfold polled; apply _).

Definition initial_state (d : RegisteredDevice) (now : Z) : DeviceState :=
  mkDeviceState (get_handle d) ∅ now true false false.

Definition initialize (devices : list RegisteredDevice) (now : Z) (c : StateCache) : StateCache :=
  let sel := filter polled devices in
  put_flags true false
    (put_outages ∅
      (put_states (foldl (λ m d, <[get_handle d := initial_state d now]> m) ∅ sel)
        (put_configs (device_poll_config <$> sel) c))).

Definition carry (st : DeviceState) : CarriedReachability :=
  mkCarried (ds_provider_available st) (ds_loss_reported st) (ds_unavailable_emitted st).

(** One device of the new inventory: its poll config, and a state that inherits
    the reachability carried from the old state or the departed record. *)
Definition rebuild_add (carried : gmap string CarriedReachability) (now : Z) (c : StateCache)
    (d : RegisteredDevice) : StateCache :=
  let h := get_handle d in
  let prior := match carried !! h with
               | Some p => p
               | None => match departed_ c !! h with Some p => p | None => default_carried end
               end in
  put_states (<[h := mkDeviceState h ∅ now (cr_provider_available prior) (cr_loss_reported prior)
                       (cr_unavailable_emitted prior)]> (device_states_ c))
    (put_departed (delete h (departed_ c))
      (put_configs (poll_configs_ c ++ [device_poll_config d]) c)).

(** A carried device the new inventory dropped: say it is gone, keep its loss on record. *)
Definition rebuild_drop (pid : string) (now : Z) (c : StateCache)
    (entry : string * CarriedReachability) : StateCache :=
  let '(h, prior) := entry in
  match device_states_ c !! h with
  | Some _ => c
  | None =>
      let c1 := emit_device_removed pid (str_drop (S (String.length pid)) h) now c in
      if cr_loss_reported prior then put_departed (<[h := prior]> (departed_ c1)) c1 else c1
  end.

(** The states of a provider: handles that start with "provider_id/". *)
Definition of_provider (pid : string) (h : string) : Prop := starts_with (pid +:+ "/") h = true.
#[global] Instance of_provider_dec pid h : Decision (of_provider pid h) :=
  ltac:(unfold of_provider; apply _).

Definition carried_of (pid : string) (c : StateCache) : gmap string CarriedReachability :=
  carry <$> filter (λ p, of_provider pid p.1) (device_states_ c).

Definition rebuild_remove (pid : string) (c : StateCache) : StateCache :=
  put_outages (delete pid (provider_outage_log_state_ c))
    (put_states (filter (λ p, ¬ of_provider pid p.1) (device_states_ c))
      (put_configs (filter (λ f, pl_provider_id f ≠ pid) (poll_configs_ c)) c)).

Definition rebuild_poll_configs (pid : string) (devices : list RegisteredDevice) (now : Z)
    (c : StateCache) : StateCache :=
  let carried := carried_of pid c in
  let c1 := rebuild_remove pid c in
  let mine := filter polled (filter (λ d, provider_id d = pid) devices) in
  let c2 := foldl (rebuild_add carried now) c1 mine in
  foldl (rebuild_drop pid now) c2 (map_to_list carried).

(** ** Polling *)

(** The failure branch of [poll_device]. *)
Definition read_failed (pid did : string) (failure_status : StatusCode) (available_after : bool)
    (now : Z) (shutting_down : bool) (c : StateCache) : StateCache :=
  let h := make_handle pid did in
  let provider_lost := negb available_after in
  match device_states_ c !! h with
  | None => c
  | Some st =>
      let announce := negb shutting_down && negb (ds_unavailable_emitted st) in
      let report_loss := negb shutting_down && negb provider_lost && negb (ds_loss_reported st) &&
                         device_reachability_sink_ c in
      let st' := mkDeviceState (ds_device_handle st) ∅ (ds_last_poll_time st) false
                   (ds_loss_reported st || report_loss) (ds_unavailable_emitted st || announce) in
      let c1 := put_states (<[h := st']> (device_states_ c)) c in
      let c2 := if announce then emit_device_availability pid did false now c1 else c1 in
      if report_loss then
        let loss_seq := reachability_edge_seq_ c2 + 1 in
        decide_edge (mkEdge h false failure_status loss_seq) (put_seq loss_seq c2)
      else c2
  end.

(** One value of a response: the new signal map and the event it queues. *)
Definition signal_timestamp (sv : SignalValue) (now : Z) : Z :=
  match sv_timestamp sv with
  | Some (seconds, nanos) => seconds * 1000000000 + nanos
  | None => now
  end.

Definition signal_changed (signals : gmap string CachedSignalValue) (sv : SignalValue) : bool :=
  match signals !! sv_signal_id sv with
  | None => true
  | Some old => value_changed (csv_value old) (sv_value sv) ||
                quality_changed (csv_quality old) (sv_quality sv)
  end.

Definition store_signal (now : Z) (acc : gmap string CachedSignalValue * list SignalValue)
    (sv : SignalValue) : gmap string CachedSignalValue * list SignalValue :=
  let '(signals, pending) := acc in
  (<[sv_signal_id sv := mkCached (sv_value sv) (signal_timestamp sv now) (sv_quality sv)]> signals,
   if signal_changed signals sv then pending ++ [sv] else pending).

Definition update_device_state (pid did : string) (values : list SignalValue) (now : Z)
    (c : StateCache) : StateCache :=
  let h := make_handle pid did in
  match device_states_ c !! h with
  | None => c
  | Some st =>
      let '(signals, pending) := foldl (store_signal now) (ds_signals st, []) values in
      let st' := mkDeviceState (ds_device_handle st) signals now true false false in
      let c1 := put_states (<[h := st']> (device_states_ c)) c in
      let c2 := if ds_unavailable_emitted st then emit_device_availability pid did true now c1 else c1 in
      let return_seq := reachability_edge_seq_ c2 + 1 in
      let c3 := if ds_loss_reported st then put_seq return_seq c2 else c2 in
      let c4 := foldl (λ c sv, emit_state_update pid did (sv_signal_id sv) (sv_value sv) (sv_quality sv) c)
                  c3 pending in
      if ds_loss_reported st && device_reachability_sink_ c4 then
        decide_edge (mkEdge h true CODE_OK return_seq) c4
      else c4
  end.

Definition poll_device (pid did : string) (signal_ids : list string) (provider : PollHandle)
    (now : Z) (shutting_down : bool) (c : StateCache) : bool * StateCache :=
  match ph_read_signals provider did signal_ids with
  | ReadFail failure_status available_after =>
      (false, read_failed pid did failure_status available_after now shutting_down c)
  | ReadOk values => (true, update_device_state pid did values now c)
  end.

(** [mark_provider_devices_unavailable]. *)
Definition mark_device_unavailable (now : Z) (shutting_down : bool) (c : StateCache) (cfg : PollConfig)
    : StateCache :=
  let h := make_handle (pl_provider_id cfg) (pl_device_id cfg) in
  match device_states_ c !! h with
  | None => c
  | Some st =>
      let announce := negb shutting_down && negb (ds_unavailable_emitted st) in
      let st' := mkDeviceState (ds_device_handle st) (ds_signals st) (ds_last_poll_time st) false
                   (ds_loss_reported st) (ds_unavailable_emitted st || announce) in
      let c1 := put_states (<[h := st']> (device_states_ c)) c in
      if announce then
        emit_device_availability (pl_provider_id cfg) (pl_device_id cfg) false now c1
      else c1
  end.

Definition outage_log_interval_ns : Z := 30 * 1000000000.

(** [track_outage_and_maybe_log], its log state only. *)
Definition track_outage (pid : string) (missing : bool) (steady_now : Z) (c : StateCache) : StateCache :=
  let state := default (mkOutage false false 0) (provider_outage_log_state_ c !! pid) in
  let transitioned := negb (in_outage state) || negb (Bool.eqb (provider_missing state) missing) in
  let interval_elapsed := bool_decide (last_log_time state = 0) ||
                          (outage_log_interval_ns <=? steady_now - last_log_time state) in
  put_outages (<[pid := mkOutage true missing
                   (if transitioned || interval_elapsed then steady_now else last_log_time state)]>
                 (provider_outage_log_state_ c)) c.

(** [clear_outage_and_maybe_log_recovery]. *)
Definition clear_outage (pid : string) (c : StateCache) : StateCache :=
  match provider_outage_log_state_ c !! pid with
  | Some o => if in_outage o then put_outages (delete pid (provider_outage_log_state_ c)) c else c
  | None => c
  end.

(** [configs_by_provider]. *)
Definition group_configs (configs : list PollConfig) : list (string * list PollConfig) :=
  foldl (λ m cfg, aset (pl_provider_id cfg) (default [] (alookup (pl_provider_id cfg) m) ++ [cfg]) m)
    [] configs.

Definition poll_group (providers : Providers) (now steady_now : Z) (shutting_down : bool)
    (c : StateCache) (entry : string * list PollConfig) : StateCache :=
  let '(pid, cfgs) := entry in
  match providers !! pid with
  | None =>
      foldl (mark_device_unavailable now shutting_down) (track_outage pid true steady_now c) cfgs
  | Some provider =>
      if negb (ph_is_available provider) then
        foldl (mark_device_unavailable now shutting_down) (track_outage pid false steady_now c) cfgs
      else
        foldl (λ c cfg, snd (poll_device (pl_provider_id cfg) (pl_device_id cfg) (pl_signal_ids cfg)
                               provider now shutting_down c))
          (clear_outage pid c) cfgs
  end.

Definition poll_once (providers : Providers) (now steady_now : Z) (shutting_down : bool)
    (c : StateCache) : StateCache :=
  if negb (initialized_ c) then put_flags (initialized_ c) true c
  else foldl (poll_group providers now steady_now shutting_down) c (group_configs (poll_configs_ c)).

Definition poll_device_now (handle : string) (providers : Providers) (now : Z)
    (shutting_down : bool) (c : StateCache) : StateCache :=
  if negb (initialized_ c) then put_flags (initialized_ c) true c
  else
    match list_find (λ f, make_handle (pl_provider_id f) (pl_device_id f) = handle) (poll_configs_ c) with
    | None => c
    | Some (_, cfg) =>
        match providers !! pl_provider_id cfg with
        | Some provider =>
            if ph_is_available provider then
              snd (poll_device (pl_provider_id cfg) (pl_device_id cfg) (pl_signal_ids cfg) provider
                     now shutting_down c)
            else c
        | None => c
        end
    end.

(** ** Readers *)

Definition get_device_state (c : StateCache) (handle : string) : option DeviceState :=
  device_states_ c !! handle.

Definition get_signal_value (c : StateCache) (handle signal_id : string) : option CachedSignalValue :=
  match device_states_ c !! handle with
  | None => None
  | Some st => ds_signals st !! signal_id
  end.

Definition cached_device_count (c : StateCache) : nat := size (device_states_ c).

(** ** What subscribers and the sink see, per device *)

Definition event_handle (e : CacheEvent) : option string :=
  match e with
  | StateUpdateEvent _ _ _ _ _ => None
  | DeviceAvailabilityEvent pid did _ _ => Some (make_handle pid did)
  | DeviceRemovedEvent pid did _ => Some (make_handle pid did)
  end.

Definition events_of (c : StateCache) (h : string) : list CacheEvent :=
  filter (λ e, event_handle e = Some h) (out_events c).

Definition edges_of (c : StateCache) (h : string) : list Edge :=
  filter (λ e, e_handle e = h) (out_edges c).

(** Edges alternate loss, return, loss, ...: the run fails at the first edge
    that repeats the last one. *)
Fixpoint edge_run (lost : bool) (l : list Edge) : option bool :=
  match l with
  | [] => Some lost
  | e :: r => if Bool.eqb (e_reachable e) lost then edge_run (negb (e_reachable e)) r else None
  end.

(** Availability events: a [true] needs a [false] before it that no [true]
    has answered, and a second [false] needs a [true] or a removal in between.
    The state is (unanswered false, removed since the last availability event). *)
Definition avail_step (s : bool * bool) (e : CacheEvent) : option (bool * bool) :=
  let '(pending, removed) := s in
  match e with
  | StateUpdateEvent _ _ _ _ _ => Some s
  | DeviceAvailabilityEvent _ _ false _ =>
      if negb pending || removed then Some (true, false) else None
  | DeviceAvailabilityEvent _ _ true _ => if pending then Some (false, false) else None
  | DeviceRemovedEvent _ _ _ => Some (pending, true)
  end.

Fixpoint avail_run (s : bool * bool) (l : list CacheEvent) : option (bool * bool) :=
  match l with
  | [] => Some s
  | e :: r => match avail_step s e with Some s' => avail_run s' r | None => None end
  end.

Lemma edge_run_app b l1 l2 : edge_run b (l1 ++ l2) = edge_run b l1 ≫= λ b', edge_run b' l2.
Proof. revert b. induction l1 as [|e l1 IH]; intros b; simpl; [done|]. by case_match. Qed.

Lemma avail_run_app s l1 l2 : avail_run s (l1 ++ l2) = avail_run s l1 ≫= λ s', avail_run s' l2.
Proof. revert s. induction l1 as [|e l1 IH]; intros s; simpl; [done|]. by destruct (avail_step s e). Qed.

(** The reachability on record for a handle; [carried] holds what a rebuild in
    progress has taken out of the states. *)
Definition record_of (carried : gmap string CarriedReachability) (c : StateCache) (h : string)
    : option CarriedReachability :=
  match device_states_ c !! h with
  | Some st => Some (carry st)
  | None => match carried !! h with Some p => Some p | None => departed_ c !! h end
  end.

Definition loss_on_record (o : option CarriedReachability) : bool :=
  match o with Some p => cr_loss_reported p | None => false end.

Definition unavailable_on_record (o : option CarriedReachability) : bool :=
  match o with Some p => cr_unavailable_emitted p | None => false end.

Definition device_inv (carried : gmap string CarriedReachability) (c : StateCache) (h : string) : Prop :=
  let o := record_of carried c h in
  edge_run false (edges_of c h) = Some (loss_on_record o) ∧
  (∃ pending removed, avail_run (false, false) (events_of c h) = Some (pending, removed) ∧
     (if unavailable_on_record o then pending = true else pending = false ∨ removed = true)) ∧
  (∀ d, departed_ c !! h = Some d →
        device_states_ c !! h = None ∧ carried !! h = None ∧ cr_loss_reported d = true).

Definition seq_inv (c : StateCache) : Prop :=
  StronglySorted Z.lt (e_seq <$> out_edges c) ∧
  Forall (λ e, 0 < e_seq e ≤ reachability_edge_seq_ c) (out_edges c) ∧
  0 ≤ reachability_edge_seq_ c.

(** Attached, as the runtime starts it. *)
Definition attached (c : StateCache) : Prop :=
  event_emitter_ c = true ∧ device_reachability_sink_ c = true.

Definition cache_inv (carried : gmap string CarriedReachability) (c : StateCache) : Prop :=
  attached c ∧ seq_inv c ∧ ∀ h, device_inv carried c h.

(** The invariant sees only these parts of a cache. *)
Definition same_view (c c' : StateCache) : Prop :=
  event_emitter_ c' = event_emitter_ c ∧
  device_reachability_sink_ c' = device_reachability_sink_ c ∧
  device_states_ c' = device_states_ c ∧ departed_ c' = departed_ c ∧
  reachability_edge_seq_ c' = reachability_edge_seq_ c ∧
  out_edges c' = out_edges c ∧
  ∀ h, events_of c' h = events_of c h.

Lemma cache_inv_view carried c c' : same_view c c' → cache_inv carried c → cache_inv carried c'.
Proof.
  unfold same_view, cache_inv, attached, seq_inv, device_inv, record_of, edges_of.
  intros (-> & -> & -> & -> & -> & -> & He). by setoid_rewrite He.
Qed.

(** The view of one handle; a step on another handle keeps it. *)
Definition same_device (h : string) (c c' : StateCache) : Prop :=
  device_states_ c' !! h = device_states_ c !! h ∧ departed_ c' !! h = departed_ c !! h ∧
  edges_of c' h = edges_of c h ∧ events_of c' h = events_of c h.

Lemma device_inv_same carried c c' h :
  same_device h c c' → device_inv carried c h → device_inv carried c' h.
Proof. unfold same_device, device_inv, record_of. by intros (-> & -> & -> & ->). Qed.

Lemma events_of_emit c e h :
  event_emitter_ c = true →
  events_of (emit e c) h = events_of c h ++ (if decide (event_handle e = Some h) then [e] else []).
Proof.
  intros Hem. unfold events_of, emit. rewrite Hem. simpl. by rewrite filter_app.
Qed.

Lemma edges_of_deliver c e h :
  edges_of (decide_edge e c) h = edges_of c h ++ (if decide (e_handle e = h) then [e] else []).
Proof. unfold edges_of, decide_edge. simpl. by rewrite filter_app. Qed.

Lemma seq_inv_deliver c h r s :
  seq_inv c → seq_inv (decide_edge (mkEdge h r s (reachability_edge_seq_ c + 1))
                         (put_seq (reachability_edge_seq_ c + 1) c)).
Proof.
  intros (Hs & Hf & H0). unfold seq_inv. simpl. split_and!; [| |lia].
  - rewrite fmap_app. simpl. clear H0. induction (out_edges c) as [|e l IH]; simpl.
    + repeat constructor.
    + apply StronglySorted_inv in Hs as [Hs He]. apply Forall_cons in Hf as [Hb Hf].
      constructor; [by apply IH|]. apply Forall_app. split; [done|].
      apply Forall_singleton. lia.
  - apply Forall_app. split; [|apply Forall_singleton; simpl; lia].
    eapply Forall_impl; [exact Hf|]. simpl. lia.
Qed.

(** ** One device's transition, in general

    Write a device's state, publish at most one availability event for it and
    hand at most one edge to the sink. *)
Definition device_write (h : string) (st' : DeviceState) (ev : option CacheEvent)
    (edge : option (bool * StatusCode)) (c : StateCache) : StateCache :=
  let c1 := put_states (<[h := st']> (device_states_ c)) c in
  let c2 := match ev with Some e => emit e c1 | None => c1 end in
  match edge with
  | Some (r, s) =>
      decide_edge (mkEdge h r s (reachability_edge_seq_ c2 + 1)) (put_seq (reachability_edge_seq_ c2 + 1) c2)
  | None => c2
  end.

(** The event and the edge agree with how the state's flags move. *)
Definition write_ok (h : string) (st st' : DeviceState) (ev : option CacheEvent)
    (edge : option (bool * StatusCode)) : Prop :=
  match ev with
  | None => ds_unavailable_emitted st' = ds_unavailable_emitted st
  | Some e => ∃ pid did b t, e = DeviceAvailabilityEvent pid did b t ∧ make_handle pid did = h ∧
              ds_unavailable_emitted st = b ∧ ds_unavailable_emitted st' = negb b
  end ∧
  match edge with
  | None => ds_loss_reported st' = ds_loss_reported st
  | Some (r, _) => ds_loss_reported st = r ∧ ds_loss_reported st' = negb r
  end.

Lemma device_write_states h st' ev edge c :
  device_states_ (device_write h st' ev edge c) = <[h := st']> (device_states_ c) ∧
  departed_ (device_write h st' ev edge c) = departed_ c.
Proof.
  unfold device_write, emit. destruct ev, edge as [[]|]; simpl; by destruct (event_emitter_ c).
Qed.

Lemma device_write_attached h st' ev edge c : attached c → attached (device_write h st' ev edge c).
Proof.
  intros [H1 H2]. unfold device_write, emit, attached.
  destruct ev, edge as [[]|]; simpl; rewrite ?H1; by simpl.
Qed.

Lemma device_write_edges h h' st' ev edge c :
  edges_of (device_write h st' ev edge c) h' =
  edges_of c h' ++ match edge with
                   | Some (r, s) => if decide (h = h') then
                                      [mkEdge h r s (reachability_edge_seq_ c + 1)] else []
                   | None => []
                   end.
Proof.
  unfold device_write. destruct edge as [[r s]|].
  - rewrite edges_of_deliver. simpl. unfold emit.
    by destruct ev; simpl; [destruct (event_emitter_ c)|].
  - rewrite app_nil_r. unfold emit. by destruct ev; simpl; [destruct (event_emitter_ c)|].
Qed.

Lemma device_write_events h h' st' ev edge c :
  event_emitter_ c = true →
  events_of (device_write h st' ev edge c) h' =
  events_of c h' ++ match ev with
                    | Some e => if decide (event_handle e = Some h') then [e] else []
                    | None => []
                    end.
Proof.
  intros Hem. unfold device_write.
  set (c1 := put_states _ c). assert (event_emitter_ c1 = true) as H1 by done.
  transitivity (events_of (match ev with Some e => emit e c1 | None => c1 end) h').
  { by destruct edge as [[r s]|]. }
  destruct ev as [e|]; [by rewrite events_of_emit|]. by rewrite app_nil_r.
Qed.

Lemma device_write_seq h st' ev edge c : seq_inv c → seq_inv (device_write h st' ev edge c).
Proof.
  intros Hs. unfold device_write.
  set (c2 := match ev with Some e => _ | None => _ end).
  assert (seq_inv c2) as Hs2.
  { subst c2. unfold emit. by destruct ev; simpl; [destruct (event_emitter_ c)|]. }
  destruct edge as [[r s]|]; [by apply seq_inv_deliver|done].
Qed.

Lemma device_write_inv carried h st st' ev edge c :
  cache_inv carried c → device_states_ c !! h = Some st → write_ok h st st' ev edge →
  cache_inv carried (device_write h st' ev edge c).
Proof.
  intros (Ha & Hs & Hd) Hst [Hev Hedge].
  split_and!; [by apply device_write_attached|by apply device_write_seq|]. intros h'.
  destruct (device_write_states h st' ev edge c) as [Es Ed]. destruct Ha as [Hem _].
  specialize (Hd h'). destruct (decide (h = h')) as [<-|Hne].
  - unfold device_inv, record_of in *. rewrite Es, Ed, lookup_insert_eq, Hst in *.
    rewrite device_write_edges, device_write_events by done.
    destruct Hd as (He & (p & r & Hr & Hp) & Hdep). simpl in *. split_and!.
    + rewrite edge_run_app, He. destruct edge as [[r' s]|]; simpl; [|by rewrite Hedge].
      destruct Hedge as [-> ->]. rewrite decide_True by done. simpl. by rewrite Bool.eqb_reflx.
    + rewrite avail_run_app, Hr. destruct ev as [e|]; simpl; [|rewrite Hev; by eauto].
      destruct Hev as (pid & did & b & t & -> & Hh & Hb & Hb'). simpl.
      rewrite decide_True by (by rewrite Hh). rewrite Hb, Hb' in *. simpl.
      destruct b; simpl; [subst p; by eauto|].
      exists true, false. split; [|done]. destruct Hp as [-> | ->]; [done|by destruct p].
    + intros d Hd. by destruct (Hdep d Hd).
  - eapply device_inv_same; [|exact Hd]. unfold same_device.
    rewrite Es, Ed, lookup_insert_ne by done.
    rewrite device_write_edges, device_write_events by done.
    split_and!; [done..| |].
    + destruct edge as [[]|]; rewrite ?decide_False by done; by rewrite app_nil_r.
    + destruct ev as [e|]; [|by rewrite app_nil_r].
      destruct Hev as (pid & did & b & t & -> & Hh & _). simpl.
      rewrite decide_False; [by rewrite app_nil_r|]. intros [= ?]. congruence.
Qed.

(** ** The operations preserve the invariant *)

Lemma read_failed_inv carried pid did status av now sd c :
  cache_inv carried c → cache_inv carried (read_failed pid did status av now sd c).
Proof.
  intros Hi. unfold read_failed. destruct (device_states_ c !! _) as [st|] eqn:E; [|done].
  pose proof Hi as ((Hem & Hsk) & _). rewrite Hsk, andb_true_r, negb_involutive.
  set (announce := negb sd && negb (ds_unavailable_emitted st)).
  set (report := negb sd && av && negb (ds_loss_reported st)).
  set (st' := mkDeviceState _ _ _ _ _ _).
  enough (cache_inv carried (device_write (make_handle pid did) st'
    (if announce then Some (DeviceAvailabilityEvent pid did false (ms_of_ns now)) else None)
    (if report then Some (false, status) else None) c)) as Hw.
  { revert Hw. unfold device_write, emit_device_availability. by destruct announce, report. }
  apply (device_write_inv _ _ st); [done..|]. subst st'. split; simpl.
  - destruct announce eqn:Ea; simpl; [|by rewrite orb_false_r].
    subst announce. bool_facts. eexists pid, did, false, _. by rewrite orb_true_r.
  - destruct report eqn:Er; simpl; [|by rewrite orb_false_r].
    subst report. bool_facts. by rewrite orb_true_r.
Qed.

Lemma mark_unavailable_inv carried now sd c cfg :
  cache_inv carried c → cache_inv carried (mark_device_unavailable now sd c cfg).
Proof.
  intros Hi. unfold mark_device_unavailable. destruct (device_states_ c !! _) as [st|] eqn:E; [|done].
  set (announce := negb sd && negb (ds_unavailable_emitted st)).
  set (st' := mkDeviceState _ _ _ _ _ _).
  enough (cache_inv carried (device_write (make_handle (pl_provider_id cfg) (pl_device_id cfg)) st'
    (if announce then Some (DeviceAvailabilityEvent (pl_provider_id cfg) (pl_device_id cfg) false
       (ms_of_ns now)) else None) None c)) as Hw.
  { revert Hw. unfold device_write, emit_device_availability. by destruct announce. }
  apply (device_write_inv _ _ st); [done..|]. subst st'. split; simpl; [|done].
  destruct announce eqn:Ea; simpl; [|by rewrite orb_false_r].
  subst announce. bool_facts. eexists _, _, false, _. by rewrite orb_true_r.
Qed.

(** State updates are invisible to the invariant. *)
Lemma emit_updates_view pid did l c :
  same_view c (foldl (λ c sv, emit_state_update pid did (sv_signal_id sv) (sv_value sv) (sv_quality sv) c) c l).
Proof.
  revert c. induction l as [|sv l IH]; intros c; simpl; [by repeat split|].
  assert (same_view c (emit_state_update pid did (sv_signal_id sv) (sv_value sv) (sv_quality sv) c)) as H1.
  { unfold same_view, emit_state_update, emit, events_of. destruct (event_emitter_ c) eqn:E; [|done].
    simpl. split_and!; try done. intros h. rewrite filter_app. simpl. apply app_nil_r. }
  unfold same_view in *. destruct H1 as (H1 & H2 & H3 & H4 & H5 & H6 & H7).
  destruct (IH (emit_state_update pid did (sv_signal_id sv) (sv_value sv) (sv_quality sv) c))
    as (G1 & G2 & G3 & G4 & G5 & G6 & G7).
  split_and!; congruence.
Qed.

Lemma same_view_deliver c c' e :
  same_view c c' → same_view (decide_edge e c) (decide_edge e c').
Proof.
  unfold same_view. simpl. intros (H1 & H2 & H3 & H4 & H5 & H6 & H7). split_and!; congruence || done.
Qed.

Lemma update_device_state_inv carried pid did values now c :
  cache_inv carried c → cache_inv carried (update_device_state pid did values now c).
Proof.
  intros Hi. unfold update_device_state. destruct (device_states_ c !! _) as [st|] eqn:E; [|done].
  destruct (foldl (store_signal now) _ _) as [signals pending].
  set (st' := mkDeviceState _ _ _ _ _ _). cbv zeta.
  pose proof Hi as ((Hem & Hsk) & _).
  assert (cache_inv carried (device_write (make_handle pid did) st'
    (if ds_unavailable_emitted st then Some (DeviceAvailabilityEvent pid did true (ms_of_ns now)) else None)
    (if ds_loss_reported st then Some (true, CODE_OK) else None) c)) as Hw.
  { apply (device_write_inv _ _ st); [done..|]. subst st'. split; simpl.
    - destruct (ds_unavailable_emitted st); [|done]. by eexists pid, did, true, _.
    - by destruct (ds_loss_reported st). }
  unfold device_write in Hw.
  set (c2 := if ds_unavailable_emitted st then _ else _).
  assert (c2 = match (if ds_unavailable_emitted st
                      then Some (DeviceAvailabilityEvent pid did true (ms_of_ns now)) else None) with
               | Some e => emit e (put_states (<[make_handle pid did := st']> (device_states_ c)) c)
               | None => put_states (<[make_handle pid did := st']> (device_states_ c)) c
               end) as Hc2.
  { subst c2. by destruct (ds_unavailable_emitted st). }
  rewrite <- Hc2 in Hw. clear Hc2.
  assert (device_reachability_sink_ c2 = true) as Hsk2.
  { subst c2. unfold emit_device_availability, emit. destruct (ds_unavailable_emitted st); simpl;
      [by rewrite Hem|done]. }
  destruct (ds_loss_reported st); simpl.
  - pose proof (emit_updates_view pid did pending (put_seq (reachability_edge_seq_ c2 + 1) c2)) as Hv.
    pose proof Hv as (_ & -> & _). simpl. rewrite Hsk2.
    eapply cache_inv_view; [by apply same_view_deliver|exact Hw].
  - eapply cache_inv_view; [apply emit_updates_view|exact Hw].
Qed.

Lemma poll_device_inv carried pid did sids p now sd c :
  cache_inv carried c → cache_inv carried (snd (poll_device pid did sids p now sd c)).
Proof.
  intros Hi. unfold poll_device. destruct (ph_read_signals _ _ _); simpl;
    [by apply update_device_state_inv|by apply read_failed_inv].
Qed.

Lemma foldl_inv {A B} (P : A → Prop) (f : A → B → A) l a :
  (∀ a b, P a → P (f a b)) → P a → P (foldl f a l).
Proof. intros Hf. revert a. induction l; simpl; auto. Qed.

Lemma put_outages_inv carried m c : cache_inv carried c → cache_inv carried (put_outages m c).
Proof. by apply cache_inv_view. Qed.

Lemma clear_outage_inv carried pid c : cache_inv carried c → cache_inv carried (clear_outage pid c).
Proof. intros. unfold clear_outage. repeat case_match; auto using put_outages_inv. Qed.

Lemma poll_once_inv carried providers now snow sd c :
  cache_inv carried c → cache_inv carried (poll_once providers now snow sd c).
Proof.
  intros Hi. unfold poll_once. case_match; [by eapply cache_inv_view|].
  apply foldl_inv; [|done]. intros c' [pid cfgs] Hc'. unfold poll_group.
  repeat case_match; apply foldl_inv; unfold track_outage;
    auto using mark_unavailable_inv, put_outages_inv, clear_outage_inv, poll_device_inv.
Qed.

Lemma poll_device_now_inv carried h providers now sd c :
  cache_inv carried c → cache_inv carried (poll_device_now h providers now sd c).
Proof.
  intros Hi. unfold poll_device_now. case_match; [by eapply cache_inv_view|].
  repeat case_match; auto using poll_device_inv.
Qed.

Lemma of_provider_handle pid h :
  of_provider pid h → make_handle pid (str_drop (S (String.length pid)) h) = h.
Proof.
  intros [b ->]%starts_with_sound.
  replace (S (String.length pid)) with (String.length (pid +:+ "/")).
  - rewrite str_drop_app. unfold make_handle. by rewrite string_app_assoc.
  - induction pid as [|c pid IH]; [done|]. rewrite string_app_cons. simpl. by rewrite IH.
Qed.

Lemma make_handle_of_provider pid did : of_provider pid (make_handle pid did).
Proof.
  unfold of_provider, make_handle. rewrite <- string_app_assoc. apply starts_with_app.
Qed.

Lemma rebuild_remove_inv pid c :
  cache_inv ∅ c → cache_inv (carried_of pid c) (rebuild_remove pid c).
Proof.
  intros (Ha & Hs & Hd). split_and!; [done..|]. intros h. specialize (Hd h).
  assert (record_of (carried_of pid c) (rebuild_remove pid c) h = record_of ∅ c h) as Hrec.
  { unfold record_of, carried_of. simpl. rewrite lookup_fmap, !map_lookup_filter, lookup_empty.
    destruct (device_states_ c !! h) as [st|]; simpl; [|done].
    destruct (decide (of_provider pid h)); [rewrite option_guard_False, option_guard_True by tauto
      |rewrite option_guard_True by done]; done. }
  destruct Hd as (He & Hav & Hdep). unfold device_inv. rewrite Hrec. split_and!; [exact He|exact Hav|].
  intros d Hdd. destruct (Hdep d Hdd) as (Hn & _ & Hl). unfold carried_of. simpl.
  by rewrite lookup_fmap, !map_lookup_filter, Hn.
Qed.

Lemma rebuild_add_inv carried now c d :
  cache_inv carried c → device_states_ c !! get_handle d = None →
  cache_inv carried (rebuild_add carried now c d).
Proof.
  intros (Ha & Hs & Hd) Hn. split_and!; [done..|]. intros h. specialize (Hd h).
  destruct (decide (get_handle d = h)) as [<-|Hne].
  - unfold device_inv, record_of in *. rewrite Hn in Hd. simpl. rewrite lookup_insert_eq, lookup_delete_eq.
    destruct Hd as (He & Hav & Hdep). unfold carry. simpl. split_and!; [| |done].
    + etransitivity; [exact He|]. by destruct (carried !! _), (departed_ c !! _).
    + destruct Hav as (p & r & Hr & Hp). exists p, r. split; [exact Hr|].
      by destruct (carried !! _), (departed_ c !! _).
  - eapply device_inv_same; [|exact Hd]. unfold same_device, rebuild_add. simpl.
    by rewrite lookup_insert_ne, lookup_delete_ne.
Qed.

Lemma rebuild_adds_inv carried now ds c :
  cache_inv carried c → NoDup (get_handle <$> ds) →
  (∀ d, d ∈ ds → device_states_ c !! get_handle d = None) →
  cache_inv carried (foldl (rebuild_add carried now) c ds).
Proof.
  revert c. induction ds as [|d ds IH]; intros c Hi Hnd Hn; simpl; [done|].
  apply NoDup_cons in Hnd as [Hni Hnd]. apply IH; [apply rebuild_add_inv; [done|apply Hn; set_solver]|done|].
  intros d' Hd'. simpl. rewrite lookup_insert_ne; [apply Hn; set_solver|].
  intros E. apply Hni. rewrite E. by apply list_elem_of_fmap_2.
Qed.

(** What dropping a device that is gone changes. *)
Lemma rebuild_drop_view pid now c h prior :
  attached c → of_provider pid h → device_states_ c !! h = None →
  let c2 := rebuild_drop pid now c (h, prior) in
  device_states_ c2 = device_states_ c ∧ out_edges c2 = out_edges c ∧
  reachability_edge_seq_ c2 = reachability_edge_seq_ c ∧ attached c2 ∧
  departed_ c2 = (if cr_loss_reported prior then <[h := prior]> (departed_ c) else departed_ c) ∧
  ∀ h', events_of c2 h' = events_of c h' ++
          (if decide (h = h') then
             [DeviceRemovedEvent pid (str_drop (S (String.length pid)) h) (ms_of_ns now)] else []).
Proof.
  intros [Hem Hsk] Hof Hn. unfold rebuild_drop. rewrite Hn. cbv zeta. unfold emit_device_removed.
  set (e := DeviceRemovedEvent _ _ _).
  assert (∀ h', events_of (emit e c) h' = events_of c h' ++ (if decide (h = h') then [e] else [])) as Hev.
  { intros h'. rewrite events_of_emit by done. subst e. simpl. rewrite of_provider_handle by done.
    destruct (decide (h = h')) as [<-|]; [by rewrite decide_True|by rewrite decide_False by naive_solver]. }
  assert (device_states_ (emit e c) = device_states_ c ∧ departed_ (emit e c) = departed_ c ∧
          out_edges (emit e c) = out_edges c ∧
          reachability_edge_seq_ (emit e c) = reachability_edge_seq_ c ∧ attached (emit e c))
    as (E1 & E2 & E3 & E4 & Hat) by (unfold emit, attached; by rewrite Hem).
  destruct (cr_loss_reported prior); simpl; rewrite ?E2; by split_and!.
Qed.

(** A carried entry matters only to its own handle, and only while that handle has no state. *)
Lemma device_inv_carried_ne m c h prior h' :
  h' ≠ h → device_inv (<[h := prior]> m) c h' → device_inv m c h'.
Proof. intros Hne. unfold device_inv, record_of. by rewrite lookup_insert_ne. Qed.

Lemma device_inv_carried_present m m' c h st :
  device_states_ c !! h = Some st → device_inv m' c h → device_inv m c h.
Proof.
  intros Hst (He & Hav & Hdep). unfold device_inv, record_of in *. rewrite Hst in *.
  split_and!; [done..|]. intros d Hdd. by destruct (Hdep d Hdd).
Qed.

Lemma rebuild_drop_gone m pid now c h prior :
  m !! h = None → of_provider pid h → attached c → device_states_ c !! h = None →
  device_inv (<[h := prior]> m) c h → device_inv m (rebuild_drop pid now c (h, prior)) h.
Proof.
  intros Hm Hof Ha Est (He & (p & r & Hr & Hp) & Hdep).
  destruct (rebuild_drop_view pid now c h prior Ha Hof Est) as (F1 & F3 & F4 & Fat & Fd & Fev).
  assert (departed_ c !! h = None) as Hdn.
  { destruct (departed_ c !! h) eqn:Ed; [|done]. destruct (Hdep _ eq_refl) as (_ & Hc & _).
    by rewrite lookup_insert_eq in Hc. }
  unfold record_of in He, Hp. rewrite Est, lookup_insert_eq in He, Hp. simpl in He, Hp.
  revert F1 F3 F4 Fd Fev. generalize (rebuild_drop pid now c (h, prior)). intros c2 F1 F3 F4 Fd Fev.
  unfold device_inv, record_of, edges_of. rewrite F1, Est, Hm, F3, Fd, Fev, decide_True by done.
  rewrite avail_run_app, Hr. simpl.
  destruct (cr_loss_reported prior) eqn:El; [rewrite lookup_insert_eq|rewrite Hdn]; simpl;
    (split_and!; [rewrite ?El; done| |]).
  - exists p, true. split; [done|]. by destruct (cr_unavailable_emitted prior); [|right].
  - intros d [= <-]. done.
  - exists p, true. split; [done|]. by right.
  - done.
Qed.

Lemma rebuild_drop_inv m pid now c h prior :
  m !! h = None → of_provider pid h → cache_inv (<[h := prior]> m) c →
  cache_inv m (rebuild_drop pid now c (h, prior)).
Proof.
  intros Hm Hof (Ha & Hs & Hd). destruct (device_states_ c !! h) as [st|] eqn:Est.
  { unfold rebuild_drop. rewrite Est. split_and!; [done..|]. intros h'.
    destruct (decide (h' = h)) as [->|Hne]; [by eapply device_inv_carried_present|].
    by eapply device_inv_carried_ne. }
  destruct (rebuild_drop_view pid now c h prior Ha Hof Est) as (F1 & F3 & F4 & Fat & Fd & Fev).
  split_and!; [exact Fat|unfold seq_inv in *; by rewrite F3, F4|].
  intros h'. destruct (decide (h' = h)) as [->|Hne]; [by apply rebuild_drop_gone|].
  apply (device_inv_same _ c); [|by eapply device_inv_carried_ne].
  unfold same_device, edges_of. rewrite F1, F3, Fd, Fev, decide_False, app_nil_r by done.
  split_and!; try done. destruct (cr_loss_reported prior); [by rewrite lookup_insert_ne|done].
Qed.

Lemma rebuild_drops_inv pid now l c :
  NoDup l.*1 → Forall (λ p, of_provider pid p.1) l →
  cache_inv (list_to_map l) c → cache_inv ∅ (foldl (rebuild_drop pid now) c l).
Proof.
  revert c. induction l as [|[h prior] l IH]; intros c Hnd Hof Hi; simpl; [done|].
  apply NoDup_cons in Hnd as [Hni Hnd]. apply Forall_cons in Hof as [Hof1 Hof].
  apply IH; [done..|]. apply rebuild_drop_inv; [by apply not_elem_of_list_to_map_1|done..].
Qed.

(** Rebuild, for an inventory whose handles are unique. *)
Lemma rebuild_inv pid devices now c :
  NoDup (get_handle <$> devices) → cache_inv ∅ c →
  cache_inv ∅ (rebuild_poll_configs pid devices now c).
Proof.
  intros Hnd Hi. unfold rebuild_poll_configs. apply rebuild_drops_inv.
  - apply NoDup_fst_map_to_list.
  - apply Forall_forall. intros [h p] Hhp%elem_of_map_to_list. unfold carried_of in Hhp.
    rewrite lookup_fmap, map_lookup_filter in Hhp. simpl.
    destruct (device_states_ c !! h); simpl in Hhp; [|done]. by case_guard.
  - rewrite list_to_map_to_list. apply rebuild_adds_inv.
    + by apply rebuild_remove_inv.
    + eapply sublist_NoDup; [exact Hnd|]. apply fmap_sublist.
      etrans; apply sublist_filter.
    + intros d Hd. rewrite !list_elem_of_filter in Hd. destruct Hd as (_ & <- & _). simpl.
      rewrite map_lookup_filter. destruct (device_states_ c !! _); simpl; [|done].
      rewrite option_guard_False; [done|]. intros Hn. apply Hn. apply make_handle_of_provider.
Qed.

(** ** Theorems *)

(** The cache after startup, running: polls, post-call polls, and rebuilds with
    inventories of unique handles, in any order and with any provider answers; a
    poll whole, or one device of it at a time with other threads in between. *)
Inductive cache_step : StateCache → StateCache → Prop :=
| cache_poll_device pid did sids provider now sd c :
    cache_step c (poll_device pid did sids provider now sd c).2
| cache_mark now sd c cfg : cache_step c (mark_device_unavailable now sd c cfg)
| cache_poll providers now snow sd c : cache_step c (poll_once providers now snow sd c)
| cache_poll_now h providers now sd c : cache_step c (poll_device_now h providers now sd c)
| cache_rebuild pid devices now c :
    NoDup (get_handle <$> devices) → cache_step c (rebuild_poll_configs pid devices now c).

Definition started (devices : list RegisteredDevice) (now : Z) : StateCache :=
  initialize devices now (new_cache true true).

Lemma started_inv devices now : cache_inv ∅ (started devices now).
Proof.
  split_and!; [done|by repeat constructor|]. intros h. unfold device_inv, record_of. simpl.
  assert (∀ l (m : gmap string DeviceState), (∀ st, m !! h = Some st → ds_loss_reported st = false ∧ ds_unavailable_emitted st = false) →
    ∀ st, foldl (λ m d, <[get_handle d := initial_state d now]> m) m l !! h = Some st →
          ds_loss_reported st = false ∧ ds_unavailable_emitted st = false) as Hfold.
  { induction l as [|d l IH]; simpl; [done|]. intros m Hm. apply IH. intros st.
    rewrite lookup_insert. case_decide; [|apply Hm]. by intros [= <-]. }
  destruct (foldl _ _ _ !! h) as [st|] eqn:E.
  - destruct (Hfold _ ∅ ltac:(by intros ? ?%lookup_empty_Some) st E) as [El Eu]. simpl. rewrite El, Eu.
    split_and!; [done| |done]. exists false, false. by split; [|left].
  - rewrite lookup_empty. split_and!; [done| |done]. exists false, false. by split; [|left].
Qed.

Lemma running_inv devices now c : rtc cache_step (started devices now) c → cache_inv ∅ c.
Proof.
  intros H. eapply (rtc_invariant _ (cache_inv ∅)); [apply started_inv| |exact H].
  intros a b Ha Hs. destruct Hs; [by apply poll_device_inv|by apply mark_unavailable_inv|by apply poll_once_inv|
    by apply poll_device_now_inv|by apply rebuild_inv].
Qed.

(** The cache, the sink calls its threads have still to make, and the ones made:
    what a step decides is called later, one edge at a time and in any order. *)
Record Sinking := mkSinking {
  sk_cache : StateCache;
  sk_due : list Edge;
  sk_seen : list Edge;
}.

Inductive sink_step : Sinking → Sinking → Prop :=
| sink_decide c c' due seen :
    cache_step c c' →
    sink_step (mkSinking c due seen)
      (mkSinking c' (due ++ drop (length (out_edges c)) (out_edges c')) seen)
| sink_call c l1 e l2 seen :
    sink_step (mkSinking c (l1 ++ e :: l2) seen) (mkSinking c (l1 ++ l2) (seen ++ [e])).

(** A step only adds to the edges decided. *)
Definition decides (c c' : StateCache) : Prop := out_edges c `prefix_of` out_edges c'.

#[local] Instance decides_preorder : PreOrder decides.
Proof. split; [intros c; unfold decides; done|]. intros c1 c2 c3. unfold decides. apply transitivity. Qed.

Lemma emit_edges e c : out_edges (emit e c) = out_edges c.
Proof. unfold emit. by destruct (event_emitter_ c). Qed.

Lemma decides_foldl {A} (f : StateCache → A → StateCache) l c :
  (∀ c a, decides c (f c a)) → decides c (foldl f c l).
Proof. intros Hf. revert c. induction l as [|a l IH]; intros c; simpl; [done|]. etrans; [apply Hf|apply IH]. Qed.

Lemma read_failed_decides pid did status av now sd c : decides c (read_failed pid did status av now sd c).
Proof.
  unfold read_failed. destruct (device_states_ c !! _); [|done]. unfold decides. cbv zeta. unfold emit_device_availability.
  repeat case_match; simpl; rewrite ?emit_edges; simpl; first [done|by apply prefix_app_r].
Qed.

Lemma update_device_state_decides pid did values now c : decides c (update_device_state pid did values now c).
Proof.
  unfold update_device_state. destruct (device_states_ c !! _) as [st|]; [|done].
  destruct (foldl (store_signal now) _ _) as [signals pending]. cbv zeta.
  set (c3 := if ds_loss_reported st then _ else _). set (c4 := foldl _ c3 pending).
  assert (out_edges c3 = out_edges c) as H3.
  { subst c3. unfold emit_device_availability. repeat case_match; simpl; by rewrite ?emit_edges. }
  assert (decides c3 c4) as H4.
  { apply decides_foldl. intros c5 sv. unfold decides, emit_state_update. by rewrite emit_edges. }
  unfold decides in *. rewrite H3 in H4. destruct (_ && _); simpl; [by apply prefix_app_r|done].
Qed.

Lemma poll_device_decides pid did sids p now sd c : decides c (poll_device pid did sids p now sd c).2.
Proof.
  unfold poll_device. destruct (ph_read_signals _ _ _); [apply update_device_state_decides|apply read_failed_decides].
Qed.

Lemma mark_decides now sd c cfg : decides c (mark_device_unavailable now sd c cfg).
Proof.
  unfold decides, mark_device_unavailable, emit_device_availability. repeat case_match; rewrite ?emit_edges; done.
Qed.

Lemma rebuild_decides pid devices now c : decides c (rebuild_poll_configs pid devices now c).
Proof.
  unfold rebuild_poll_configs. etrans; [|apply decides_foldl].
  - change (decides (rebuild_remove pid c) (foldl (rebuild_add (carried_of pid c) now) (rebuild_remove pid c)
      (filter polled (filter (λ d, provider_id d = pid) devices)))).
    apply decides_foldl. intros c0 d. unfold decides, rebuild_add. reflexivity.
  - intros c1 [h prior]. unfold decides. simpl. unfold emit_device_removed. repeat case_match; simpl; rewrite ?emit_edges; done.
Qed.

Lemma cache_step_decides c c' : cache_step c c' → decides c c'.
Proof.
  intros [pid did sids p now sd c0|now sd c0 cfg|providers now snow sd c0|h providers now sd c0|pid devices now c0 _].
  - apply poll_device_decides.
  - apply mark_decides.
  - unfold poll_once. destruct (negb _); [unfold decides; reflexivity|]. apply decides_foldl. intros c1 [pid cfgs]. simpl.
    assert (∀ missing c2, decides c2 (track_outage pid missing snow c2)) as Ht by (intros; unfold decides, track_outage; reflexivity).
    assert (decides c1 (clear_outage pid c1)) as Hc by (unfold decides, clear_outage; repeat case_match; done).
    destruct (providers !! pid) as [p|]; [destruct (negb _)|];
      (etrans; [|apply decides_foldl; intros; first [apply mark_decides|apply poll_device_decides]]); done.
  - unfold poll_device_now.
    repeat case_match; first [apply poll_device_decides|unfold decides; reflexivity].
  - apply rebuild_decides.
Qed.

Lemma sorted_nodup (l : list Z) : StronglySorted Z.lt l → NoDup l.
Proof.
  induction 1 as [|x l Hs IH Hf]; constructor; [|done].
  intros Hin. rewrite Forall_forall in Hf. specialize (Hf x Hin). lia.
Qed.

Definition sinking_inv (devices : list RegisteredDevice) (now : Z) (s : Sinking) : Prop :=
  rtc cache_step (started devices now) (sk_cache s) ∧ sk_seen s ++ sk_due s ≡ₚ out_edges (sk_cache s).

Lemma sink_step_inv devices now s s' : sink_step s s' → sinking_inv devices now s → sinking_inv devices now s'.
Proof.
  intros [c c' due seen Hs|c l1 e l2 seen] [Hr Hp]; split; simpl in *.
  - by eapply rtc_r.
  - destruct (cache_step_decides c c' Hs) as [new E]. rewrite E, drop_app_length, <- Hp. by rewrite app_assoc.
  - done.
  - rewrite <- Hp. solve_Permutation.
Qed.

(** C12. The losses and returns of a device are decided strictly alternating, loss
    first, and the sink is told each of them once: after startup, through any
    polls, post-call polls and rebuilds of any threads, the edges decided for a
    handle alternate and the last one agrees with the loss on record for it (in
    its state, or in the departed record when an inventory dropped it); the
    numbers of all edges are positive and strictly increase in the order they are
    decided in; and what the sink has been told and the calls still due are
    together the edges decided, each once, so the numbers tell the sink that order
    whatever order the threads called it in. *)
Theorem reachability_edges_alternate (devices : list RegisteredDevice) (now : Z) (s : Sinking) (h : string) :
  rtc sink_step (mkSinking (started devices now) [] []) s →
  let c := sk_cache s in
  edge_run false (edges_of c h) = Some (loss_on_record (record_of ∅ c h)) ∧
  StronglySorted Z.lt (e_seq <$> out_edges c) ∧ Forall (λ e, 0 < e_seq e) (out_edges c) ∧
  sk_seen s ++ sk_due s ≡ₚ out_edges c ∧ NoDup (e_seq <$> sk_seen s ++ sk_due s).
Proof.
  intros Hr c. assert (sinking_inv devices now s) as [Hc Hp].
  { eapply (rtc_invariant _ (sinking_inv devices now)); [|intros ? ? ? ?; by eapply sink_step_inv|exact Hr].
    split; [apply rtc_refl|done]. }
  apply running_inv in Hc as (_ & (Hs & Hf & _) & Hd). destruct (Hd h) as (He & _).
  split_and!; [done..| |done|].
  - eapply Forall_impl; [exact Hf|]. simpl. lia.
  - rewrite Hp. by apply sorted_nodup.
Qed.

(** A device with one polled signal, a provider that answers and one that fails. *)
Definition polled_device (pid did : string) : RegisteredDevice :=
  mkDevice pid did
    (mkCaps (mkProtoDevice did "" "" "" [])
       [("t", mkSignalSpec "t" "" "" "" VALUE_TYPE_INT64 true false true 0 double_zero)] []).
Definition answering (z : Z) : PollHandle :=
  mkPollHandle true
    (λ _ _, ReadOk [mkSignalValue "t" (mkValue VALUE_TYPE_INT64 (KInt64 z)) QUALITY_OK None]).
Definition failing (available_after : bool) : PollHandle :=
  mkPollHandle true (λ _ _, ReadFail CODE_DEADLINE_EXCEEDED available_after).

(** Good, lost, dropped while lost, re-added, back. *)
Definition sample_run : StateCache :=
  poll_once {[ "sim0" := answering 2 ]} 5 5 false
    (rebuild_poll_configs "sim0" [polled_device "sim0" "a"] 4
      (rebuild_poll_configs "sim0" [] 3
        (poll_once {[ "sim0" := failing true ]} 2 2 false
          (poll_once {[ "sim0" := answering 1 ]} 1 1 false
            (started [polled_device "sim0" "a"] 0))))).

Lemma sample_run_reached : rtc cache_step (started [polled_device "sim0" "a"] 0) sample_run.
Proof.
  eapply rtc_l; [apply cache_poll|]. eapply rtc_l; [apply cache_poll|].
  eapply rtc_l; [apply (cache_rebuild "sim0" [] 3); constructor|].
  eapply rtc_l; [apply (cache_rebuild "sim0" [polled_device "sim0" "a"] 4), NoDup_singleton|].
  apply rtc_once, cache_poll.
Qed.

(** The loss and the return of [sample_run] reach the sink in the opposite order. *)
Definition sample_sinking : Sinking :=
  mkSinking sample_run [] [mkEdge "sim0/a" true CODE_OK 2; mkEdge "sim0/a" false CODE_DEADLINE_EXCEEDED 1].

Lemma decide_all c c' due seen :
  rtc cache_step c c' → ∃ due', rtc sink_step (mkSinking c due seen) (mkSinking c' due' seen) ∧
    due' = due ++ drop (length (out_edges c)) (out_edges c').
Proof.
  intros Hr. revert due. induction Hr as [c|c1 c2 c3 Hs Hr IH]; intros due.
  - exists due. split; [apply rtc_refl|]. by rewrite drop_all, app_nil_r.
  - destruct (IH (due ++ drop (length (out_edges c1)) (out_edges c2))) as (due' & Hd & ->).
    eexists. split; [eapply rtc_l; [by apply sink_decide|exact Hd]|].
    destruct (cache_step_decides _ _ Hs) as [l1 E1].
    assert (out_edges c2 `prefix_of` out_edges c3) as [l2 E2].
    { clear -Hr. induction Hr; [done|]. etrans; [by apply cache_step_decides|done]. }
    rewrite <- app_assoc. f_equal. rewrite E2, drop_app_length. rewrite E1, <- app_assoc, !drop_app_length. done.
Qed.

Lemma called_swapped c e1 e2 : rtc sink_step (mkSinking c [e1; e2] []) (mkSinking c [] [e2; e1]).
Proof. eapply rtc_l; [apply (sink_call c [e1] e2 [] [])|]. apply rtc_once, (sink_call c [] e1 [] [e2]). Qed.

Example reachability_edges_alternate_witness :
  edge_run false (edges_of sample_run "sim0/a") = Some false ∧
  sk_seen sample_sinking ≡ₚ edges_of sample_run "sim0/a".
Proof.
  assert (rtc sink_step (mkSinking (started [polled_device "sim0" "a"] 0) [] []) sample_sinking) as Hr.
  { destruct (decide_all _ _ [] [] sample_run_reached) as (due & Hd & E).
    assert (due = [mkEdge "sim0/a" false CODE_DEADLINE_EXCEEDED 1; mkEdge "sim0/a" true CODE_OK 2]) as ->
      by (rewrite E; vm_compute; reflexivity).
    etrans; [exact Hd|apply called_swapped]. }
  destruct (reachability_edges_alternate _ _ _ "sim0/a" Hr) as (He & _ & _ & Hp & _).
  cbn [sk_cache sk_seen sk_due sample_sinking] in He, Hp |- *.
  assert (loss_on_record (record_of ∅ sample_run "sim0/a") = false) as El by (vm_compute; reflexivity).
  rewrite El in He. split; [exact He|].
  assert (edges_of sample_run "sim0/a" = out_edges sample_run) as -> by (vm_compute; reflexivity).
  rewrite app_nil_r in Hp. exact Hp.
Defined.

(** Subscribers see a coherent availability history: after startup, in every
    running cache, a device's [available = true] event always answers an earlier
    [available = false] that nothing has answered, and [available = false] is
    never repeated unless a [true] or the device's removal came in between. *)
Theorem availability_events_coherent (devices : list RegisteredDevice) (now : Z) (c : StateCache)
    (h : string) :
  rtc cache_step (started devices now) c →
  ∃ pending removed, avail_run (false, false) (events_of c h) = Some (pending, removed) ∧
    (unavailable_on_record (record_of ∅ c h) = true → pending = true) ∧
    (unavailable_on_record (record_of ∅ c h) = false → pending = false ∨ removed = true).
Proof.
  intros (_ & _ & Hd)%running_inv. destruct (Hd h) as (_ & (p & r & Hr & Hp) & _).
  exists p, r. split; [done|]. split; intros E; by rewrite E in Hp.
Qed.

Example availability_events_coherent_witness :
  (∃ pending removed, avail_run (false, false) (events_of sample_run "sim0/a") = Some (pending, removed) ∧
    (unavailable_on_record (record_of ∅ sample_run "sim0/a") = true → pending = true) ∧
    (unavailable_on_record (record_of ∅ sample_run "sim0/a") = false → pending = false ∨ removed = true)) ∧
  events_of sample_run "sim0/a" =
    [DeviceAvailabilityEvent "sim0" "a" false 0; DeviceRemovedEvent "sim0" "a" 0;
     DeviceAvailabilityEvent "sim0" "a" true 0].
Proof.
  split; [|vm_compute; reflexivity].
  apply (availability_events_coherent _ _ _ "sim0/a" sample_run_reached).
Defined.

(** ** What one poll of a device stores *)

Definition last_value (sid : string) (values : list SignalValue) : option SignalValue :=
  last (filter (λ sv, sv_signal_id sv = sid) values).

Definition cached_of (now : Z) (sv : SignalValue) : CachedSignalValue :=
  mkCached (sv_value sv) (signal_timestamp sv now) (sv_quality sv).

Lemma store_signals_lookup now values signals pending sid :
  (foldl (store_signal now) (signals, pending) values).1 !! sid =
  match last_value sid values with
  | Some sv => Some (cached_of now sv)
  | None => signals !! sid
  end.
Proof.
  revert signals pending. induction values as [|sv values IH]; intros signals pending; [done|].
  simpl foldl. rewrite IH. unfold last_value. rewrite filter_cons.
  destruct (decide (sv_signal_id sv = sid)) as [<-|Hne].
  - rewrite lookup_insert_eq. rewrite last_cons. by destruct (last _).
  - by rewrite lookup_insert_ne.
Qed.

(** The states after a write through the emitters and the sink. *)
Lemma emit_states e c : device_states_ (emit e c) = device_states_ c.
Proof. unfold emit. by destruct (event_emitter_ c). Qed.

Lemma emit_seq e c : reachability_edge_seq_ (emit e c) = reachability_edge_seq_ c.
Proof. unfold emit. by destruct (event_emitter_ c). Qed.

Lemma update_device_state_states pid did values now c st :
  device_states_ c !! make_handle pid did = Some st →
  device_states_ (update_device_state pid did values now c) =
  <[make_handle pid did :=
      mkDeviceState (ds_device_handle st)
        (foldl (store_signal now) (ds_signals st, []) values).1 now true false false]> (device_states_ c).
Proof.
  intros E. unfold update_device_state. rewrite E.
  destruct (foldl (store_signal now) _ _) as [signals pending]. cbv zeta. simpl.
  set (c3 := if ds_loss_reported st then _ else _).
  destruct (emit_updates_view pid did pending c3) as (_ & -> & Hs & _).
  transitivity (device_states_ c3); [by destruct (ds_loss_reported st && _)|].
  subst c3. unfold emit_device_availability.
  by destruct (ds_loss_reported st), (ds_unavailable_emitted st); simpl; rewrite ?emit_states.
Qed.

(** A poll of a known device that answers: the device is available with no
    loss outstanding, each signal of the response is cached with the last value
    the response gives for it, every other cached signal is kept, and no other
    device changes. *)
Theorem good_read_stores (pid did : string) (signal_ids : list string) (p : PollHandle) (now : Z)
    (sd : bool) (c : StateCache) (st : DeviceState) (values : list SignalValue) :
  device_states_ c !! make_handle pid did = Some st →
  ph_read_signals p did signal_ids = ReadOk values →
  let '(ok, c') := poll_device pid did signal_ids p now sd c in
  ok = true ∧
  (∀ sid, get_signal_value c' (make_handle pid did) sid =
     match last_value sid values with
     | Some sv => Some (cached_of now sv)
     | None => get_signal_value c (make_handle pid did) sid
     end) ∧
  (∃ st', get_device_state c' (make_handle pid did) = Some st' ∧ ds_provider_available st' = true ∧
     ds_loss_reported st' = false ∧ ds_unavailable_emitted st' = false ∧ ds_last_poll_time st' = now) ∧
  (∀ h, h ≠ make_handle pid did → get_device_state c' h = get_device_state c h).
Proof.
  intros E Hr. unfold poll_device. rewrite Hr.
  unfold get_signal_value, get_device_state. rewrite (update_device_state_states _ _ _ _ _ _ E).
  split_and!; [done| | |].
  - intros sid. rewrite lookup_insert_eq, E. simpl. apply store_signals_lookup.
  - rewrite lookup_insert_eq. by eexists.
  - intros h Hne. by rewrite lookup_insert_ne.
Qed.

Example good_read_stores_witness :
  let c := started [polled_device "sim0" "a"] 0 in
  get_signal_value (poll_device "sim0" "a" ["t"] (answering 7) 9 false c).2 "sim0/a" "t" =
  Some (mkCached (mkValue VALUE_TYPE_INT64 (KInt64 7)) 9 QUALITY_OK).
Proof.
  exact (proj1 (proj2 (good_read_stores "sim0" "a" ["t"] (answering 7) 9 false
    (started [polled_device "sim0" "a"] 0) (initial_state (polled_device "sim0" "a") 0) _
    eq_refl eq_refl)) "t").
Defined.

(** A poll of a known device that fails: none of its signals can be read any
    more, the device is unavailable, no other device changes, and the loss is
    handed to the sink exactly when the provider itself is still there, the
    runtime is not shutting down, a sink is installed and this loss has not been
    reported yet; the edge then carries the failure's status and a fresh
    sequence number, and the loss is on record. *)
Theorem failed_read_reports_once (pid did : string) (signal_ids : list string) (p : PollHandle)
    (now : Z) (sd : bool) (c : StateCache) (st : DeviceState) (status : StatusCode) (alive : bool) :
  device_states_ c !! make_handle pid did = Some st →
  ph_read_signals p did signal_ids = ReadFail status alive →
  let '(ok, c') := poll_device pid did signal_ids p now sd c in
  let reported := negb sd && alive && negb (ds_loss_reported st) && device_reachability_sink_ c in
  ok = false ∧
  (∀ sid, get_signal_value c' (make_handle pid did) sid = None) ∧
  (∃ st', get_device_state c' (make_handle pid did) = Some st' ∧ ds_provider_available st' = false ∧
     ds_loss_reported st' = ds_loss_reported st || reported) ∧
  (∀ h, h ≠ make_handle pid did → get_device_state c' h = get_device_state c h) ∧
  out_edges c' = out_edges c ++
    (if reported then [mkEdge (make_handle pid did) false status (reachability_edge_seq_ c + 1)] else []).
Proof.
  intros E Hr. unfold poll_device. rewrite Hr. unfold read_failed. rewrite E, negb_involutive.
  set (reported := negb sd && _ && _ && _). set (announce := negb sd && negb _).
  set (st' := mkDeviceState _ _ _ _ _ _). cbv zeta.
  set (c2 := if announce then _ else _).
  assert (device_states_ c2 = <[make_handle pid did := st']> (device_states_ c) ∧
          out_edges c2 = out_edges c ∧ reachability_edge_seq_ c2 = reachability_edge_seq_ c) as (E1 & E2 & E3).
  { subst c2. unfold emit_device_availability.
    destruct announce; by rewrite ?emit_states, ?emit_edges, ?emit_seq. }
  set (c' := if reported then _ else _).
  assert (device_states_ c' = <[make_handle pid did := st']> (device_states_ c)) as E4.
  { subst c'. by destruct reported. }
  unfold get_signal_value, get_device_state. rewrite E4. split_and!.
  - done.
  - intros sid. by rewrite lookup_insert_eq.
  - rewrite lookup_insert_eq. by eexists.
  - intros h Hne. by rewrite lookup_insert_ne.
  - subst c'. destruct reported; simpl; rewrite E2, ?E3, ?app_nil_r; done.
Qed.

Example failed_read_reports_once_witness :
  let c := started [polled_device "sim0" "a"] 0 in
  out_edges (poll_device "sim0" "a" ["t"] (failing true) 9 false c).2 =
  [mkEdge "sim0/a" false CODE_DEADLINE_EXCEEDED 1].
Proof.
  exact (proj2 (proj2 (proj2 (proj2 (failed_read_reports_once "sim0" "a" ["t"] (failing true) 9 false
    (started [polled_device "sim0" "a"] 0) (initial_state (polled_device "sim0" "a") 0) _ _
    eq_refl eq_refl))))).
Defined.
