(* ===== verification/Health.v ===== *)
(** * Health views ([core/health/health_snapshot.cpp])

    The provider and device health served over HTTP and written to telemetry:
    the liveness thresholds derived from the poll cadence, the per-signal rollup,
    the bounds on provider-declared identity, and the start-up watchdog reports.
    What the calls on a provider handle answer while a snapshot is collected is
    the [HealthView] of that provider. *)

From S2P Require Import Prelude Protocol Registry Parameters Supervisor StateCache.

(** ** Data *)

Record StalenessPolicy := mkStaleness {
  sp_poll_interval_ms : Z;
  sp_warn_after_ms : Z;
  sp_stale_after_ms : Z;
  sp_excluded_signals : gmap string (gset string);
}.

Record StalenessBounds := mkBounds {
  warn_ms : Z;
  stale_ms : Z;
}.

Record ReportedDeviceHealth := mkReportedDevice {
  rd_state : string;
  rd_message : string;
  rd_metrics : gmap string string;
  rd_last_seen_epoch_ms : option Z;
}.

Record DeviceHealthSnapshot := mkDeviceHealthSnapshot {
  dhs_device_id : string;
  dhs_health : string;
  dhs_last_poll_ms : Z;
  dhs_staleness_ms : Z;
  dhs_registered : bool;
  dhs_stale_signal_count : Z;
  dhs_fault_signal_count : Z;
  dhs_type_version : string;
  dhs_descriptor_tags : gmap string string;
  dhs_reported : option ReportedDeviceHealth;
}.

Record ReportedProviderHealth := mkReportedProvider {
  rp_state : string;
  rp_message : string;
  rp_metrics : gmap string string;
}.

Record SupervisionView := mkSupervisionView {
  sv_enabled : bool;
  sv_attempt_count : Z;
  sv_max_attempts : Z;
  sv_crash_detected : bool;
  sv_circuit_open : bool;
  sv_next_restart_in_ms : option Z;
}.

Definition no_supervision : SupervisionView := mkSupervisionView false 0 0 false false None.

Record ProviderHealthSnapshot := mkProviderHealthSnapshot {
  phs_provider_id : string;
  phs_state : string;
  phs_lifecycle_state : string;
  phs_last_seen_ago_ms : option Z;
  phs_uptime_seconds : Z;
  phs_device_count : Z;
  phs_degraded : bool;
  phs_failed_device_count : Z;
  phs_reported : option ReportedProviderHealth;
  phs_supervision : SupervisionView;
  phs_devices : list DeviceHealthSnapshot;
}.

(** What one provider handle answers, in the order it is asked: availability,
    [try_get_health] (or [get_health]), availability again, and the clock read
    after it. *)
Record HealthView := mkHealthView {
  hv_available_before : bool;
  hv_report : option GetHealthResponse;
  hv_available_after : bool;
  hv_now : Z;
}.

(** ** Helpers *)

Definition derive_lifecycle_state (is_available : bool) (snap : ProviderSupervisionSnapshot) : string :=
  if is_available then if 0 <? snap_attempt_count snap then "RECOVERING" else "RUNNING"
  else if snap_circuit_open snap then "CIRCUIT_OPEN"
  else if snap_crash_detected snap || (0 <? snap_attempt_count snap) ||
          bool_decide (is_Some (snap_next_restart_in_ms snap)) then "RESTARTING"
  else "DOWN".

Definition kMaxIdentityLen : nat := 128.
Definition kMaxDescriptorTags : nat := 32.

(** [static_cast<unsigned char>(value[i])]; [value[size()]] is the terminator. *)
Definition byte_at (value : string) (i : nat) : Z :=
  match String.get i value with Some c => Z.of_nat (nat_of_ascii c) | None => 0 end.

Definition is_continuation (b : Z) : bool := Z.land b 0xC0 =? 0x80.

Fixpoint walk_back (value : string) (cut : nat) : nat :=
  match cut with
  | O => O
  | S c => if is_continuation (byte_at value cut) then walk_back value c else cut
  end.

Definition clamp_identity (value : string) : string :=
  if (String.length value <=? kMaxIdentityLen)%nat then value
  else String.substring 0 (walk_back value kMaxIdentityLen) value.

(** [out.metrics[key] = value] over a protobuf map. *)
Definition metrics_map (l : list (string * string)) : gmap string string :=
  foldl (λ m kv, <[kv.1 := kv.2]> m) ∅ l.

Definition kStalenessWarnCycles : Z := 3.
Definition kStalenessStaleCycles : Z := 8.
Definition kStalenessWarnFloorMs : Z := 2000.
Definition kStalenessStaleFloorMs : Z := 5000.

Definition cycle_budget (policy : StalenessPolicy) (device_count : nat) : Z :=
  let interval := if 0 <? sp_poll_interval_ms policy then sp_poll_interval_ms policy else 500 in
  interval * Z.of_nat (Nat.max 1 device_count).

Definition resolve_staleness_bounds (policy : StalenessPolicy) (device_count : nat) : StalenessBounds :=
  let budget := cycle_budget policy device_count in
  let warn := if 0 <? sp_warn_after_ms policy then sp_warn_after_ms policy
              else Z.max (kStalenessWarnCycles * budget) kStalenessWarnFloorMs in
  let stale := if 0 <? sp_stale_after_ms policy then sp_stale_after_ms policy
               else Z.max (kStalenessStaleCycles * budget) kStalenessStaleFloorMs in
  mkBounds (Z.min warn stale) stale.

Definition effective_signal_stale_after_ms (declared_ms liveness_stale_ms : Z) : Z :=
  Z.max declared_ms liveness_stale_ms.

(** [by_handle[device.get_handle()] = &device]. *)
Definition by_handle (devices : list RegisteredDevice) : gmap string RegisteredDevice :=
  foldl (λ m d, <[get_handle d := d]> m) ∅ devices.

Definition unmatched_of_handle (devices : gmap string RegisteredDevice) (handle : string)
    (signals : gset string) : list string :=
  match devices !! handle with
  | None => ["health.excluded_signals: no registered device '" +:+ handle +:+ "'; its exclusions have no effect"]
  | Some d =>
      (λ signal_id, "health.excluded_signals: " +:+ handle +:+ " declares no signal '" +:+ signal_id +:+
                    "'; the exclusion has no effect") <$>
        filter (λ signal_id, alookup signal_id (signals_by_id (capabilities d)) = None) (set_items signals)
  end.

Definition unmatched_excluded_signals (excluded : gmap string (gset string)) (r : DeviceRegistry) : list string :=
  let devices := by_handle (get_all_devices r) in
  map_items excluded ≫= λ hs, unmatched_of_handle devices hs.1 hs.2.

(** ** Collection *)

Section Collect.
(** [DeviceHealth::State_Name] and [ProviderHealth::State_Name], generated. *)
Context (device_state_name provider_state_name : HealthState → string).

Definition reported_device_health (dh : DeviceHealth) : ReportedDeviceHealth :=
  mkReportedDevice (device_state_name (dh_state dh)) (dh_message dh) (metrics_map (dh_metrics dh))
    ((λ ts : Z * Z, ts.1 * 1000 + Z.quot ts.2 1000000) <$> dh_last_seen dh).

Definition is_failed (dh : DeviceHealth) : bool :=
  bool_decide (dh_state dh = STATE_UNREACHABLE) || bool_decide (dh_state dh = STATE_FAULT).

Definition reported_by_id (report : list DeviceHealth) : gmap string DeviceHealth :=
  foldl (λ m dh, <[dh_device_id dh := dh]> m) ∅ report.

Definition liveness (is_available : bool) (age_ms : Z) (b : StalenessBounds) : string :=
  if negb is_available then "UNAVAILABLE"
  else if age_ms <? warn_ms b then "OK"
  else if age_ms <? stale_ms b then "WARNING"
  else "STALE".

(** The signal is left out of the rollup. *)
Definition signal_excluded (policy : StalenessPolicy) (handle signal_id : string) : bool :=
  match sp_excluded_signals policy !! handle with
  | Some excluded => bool_decide (signal_id ∈ excluded)
  | None => false
  end.

Definition declared_stale_after (d : RegisteredDevice) (signal_id : string) : Z :=
  match alookup signal_id (signals_by_id (capabilities d)) with
  | Some spec => ss_stale_after_ms spec
  | None => 0
  end.

(** What one cached signal adds to the rollup. *)
Inductive Rollup := RollNone | RollFault | RollStale.

#[global] Instance Rollup_eq_dec : EqDecision Rollup.
Proof. solve_decision. Defined.

Definition signal_rollup (policy : StalenessPolicy) (handle : string) (d : RegisteredDevice)
    (b : StalenessBounds) (now : Z) (signal_id : string) (cached : CachedSignalValue) : Rollup :=
  if signal_excluded policy handle signal_id then RollNone
  else
    let effective := effective_signal_stale_after_ms (declared_stale_after d signal_id) (stale_ms b) in
    if bool_decide (csv_quality cached = QUALITY_FAULT) then RollFault
    else if bool_decide (csv_quality cached = QUALITY_STALE) ||
            bool_decide (csv_quality cached = QUALITY_UNKNOWN) ||
            (effective <? age cached now) then RollStale
    else RollNone.

(** [(stale_signal_count, fault_signal_count)]. *)
Definition count_signal (roll : string → CachedSignalValue → Rollup) (acc : Z * Z)
    (s : string * CachedSignalValue) : Z * Z :=
  match roll s.1 s.2 with
  | RollFault => (acc.1, to_uint32 (acc.2 + 1))
  | RollStale => (to_uint32 (acc.1 + 1), acc.2)
  | RollNone => acc
  end.

Definition escalate (is_available : bool) (counts : Z * Z) (health : string) : string :=
  if negb is_available then health
  else if 0 <? counts.2 then "FAULT"
  else if 0 <? counts.1 then "STALE"
  else health.

(** The descriptor tags kept, in the order the map is iterated. *)
Fixpoint collect_tags (tags : list (string * string)) (kept : gmap string string) : gmap string string :=
  match tags with
  | [] => kept
  | (key, value) :: rest =>
      if (kMaxDescriptorTags <=? size kept)%nat then kept
      else if (kMaxIdentityLen <? String.length key)%nat then collect_tags rest kept
      else collect_tags rest (<[key := clamp_identity value]> kept)
  end.

Definition device_row (policy : StalenessPolicy) (cache : StateCache) (pid : string) (is_available : bool)
    (now : Z) (b : StalenessBounds) (d : RegisteredDevice) (reported : option DeviceHealth)
    : DeviceHealthSnapshot :=
  let handle := pid +:+ "/" +:+ device_id d in
  let type_version := clamp_identity (pd_type_version (proto (capabilities d))) in
  let tags := collect_tags (pd_tags (proto (capabilities d))) ∅ in
  match get_device_state cache handle with
  | Some st =>
      let age_ms := ms_of_ns (now - ds_last_poll_time st) in
      let age_ms := if age_ms <? 0 then 0 else age_ms in
      let counts := foldl (count_signal (signal_rollup policy handle d b now)) (0, 0)
                      (map_to_list (ds_signals st)) in
      mkDeviceHealthSnapshot (device_id d) (escalate is_available counts (liveness is_available age_ms b))
        (to_uint64 (ms_of_ns (ds_last_poll_time st))) age_ms true counts.1 counts.2
        type_version tags (reported_device_health <$> reported)
  | None =>
      mkDeviceHealthSnapshot (device_id d) "UNKNOWN" 0 0 true 0 0 type_version tags
        (reported_device_health <$> reported)
  end.

(** The rows of the registered devices, each taking its report out of the map. *)
Fixpoint device_rows (policy : StalenessPolicy) (cache : StateCache) (pid : string) (is_available : bool)
    (now : Z) (b : StalenessBounds) (devices : list RegisteredDevice) (reports : gmap string DeviceHealth)
    : list DeviceHealthSnapshot * gmap string DeviceHealth :=
  match devices with
  | [] => ([], reports)
  | d :: rest =>
      let row := device_row policy cache pid is_available now b d (reports !! device_id d) in
      let '(rows, unclaimed) := device_rows policy cache pid is_available now b rest (delete (device_id d) reports) in
      (row :: rows, unclaimed)
  end.

(** A device the provider reports and the registry does not carry. *)
Definition unregistered_row (id : string) (dh : DeviceHealth) : DeviceHealthSnapshot :=
  mkDeviceHealthSnapshot id "UNKNOWN" 0 0 false 0 0 "" ∅ (Some (reported_device_health dh)).

Definition collect_provider (policy : StalenessPolicy) (r : DeviceRegistry) (cache : StateCache)
    (snapshots : gmap string ProviderSupervisionSnapshot) (pid : string) (v : HealthView)
    : ProviderHealthSnapshot :=
  let fetched := if hv_available_before v then hv_report v else None in
  let is_available := hv_available_after v in
  let reported := if is_available then fetched else None in
  let devices := get_devices_for_provider r pid in
  let b := resolve_staleness_bounds policy (length devices) in
  let report_devices := match reported with Some rep => gh_devices rep | None => [] end in
  let failed := Z.of_nat (length (filter (λ dh, is_failed dh = true) report_devices)) in
  let '(rows, unclaimed) := device_rows policy cache pid is_available (hv_now v) b devices
                         (reported_by_id report_devices) in
  let rows := rows ++ ((λ ih, unregistered_row ih.1 ih.2) <$> map_items unclaimed) in
  let snap := snapshots !! pid in
  mkProviderHealthSnapshot pid (if is_available then "AVAILABLE" else "UNAVAILABLE")
    (match snap with
     | Some s => derive_lifecycle_state is_available s
     | None => if is_available then "RUNNING" else "DOWN"
     end)
    (match snap with Some s => snap_last_seen_ago_ms s | None => None end)
    (match snap with Some s => if is_available then snap_uptime_seconds s else 0 | None => 0 end)
    (Z.of_nat (length devices))
    (match reported with
     | Some rep => (0 <? failed) || bool_decide (phl_state (gh_provider rep) = STATE_DEGRADED) ||
                   bool_decide (phl_state (gh_provider rep) = STATE_FAULT)
     | None => false
     end)
    failed
    ((λ rep, mkReportedProvider (provider_state_name (phl_state (gh_provider rep)))
               (phl_message (gh_provider rep)) (metrics_map (phl_metrics (gh_provider rep)))) <$> reported)
    (match snap with
     | Some s => mkSupervisionView (snap_supervision_enabled s) (snap_attempt_count s) (snap_max_attempts s)
                   (snap_crash_detected s) (snap_circuit_open s) (snap_next_restart_in_ms s)
     | None => no_supervision
     end)
    rows.

(** [supervisor] is [None] for the null pointer; its snapshots are taken once,
    at [steady_now]. *)
Definition collect_providers_health (providers : list (string * HealthView)) (r : DeviceRegistry)
    (cache : StateCache) (supervisor : option ProviderSupervisor) (steady_now : Z)
    (policy : StalenessPolicy) : list ProviderHealthSnapshot :=
  let snapshots := match supervisor with Some s => get_all_snapshots s steady_now | None => ∅ end in
  (λ pv, collect_provider policy r cache snapshots pv.1 pv.2) <$> providers.
End Collect.

(** ** Start-up watchdog reports *)

(** [parse_metric_int]: digits only; [std::stoll] throws past [int64_t]. *)
Definition parse_metric_int (s : string) : option Z :=
  if bool_decide (s = "") || negb (all_digits s) then None
  else
    let v := digits_value 0 s in
    if v <=? int64_max then Some v else None.

Definition parse_metric_bool (s : string) : option bool :=
  if bool_decide (s = "true") then Some true
  else if bool_decide (s = "false") then Some false
  else None.

(** The devices one provider reports, when it is available and answers. *)
Definition live_report (v : HealthView) : list DeviceHealth :=
  if hv_available_before v then
    match hv_report v with Some rep => gh_devices rep | None => [] end
  else [].

Definition has_actuate_function (d : RegisteredDevice) : bool :=
  existsb (λ f, bool_decide (fs_category f.2 = CATEGORY_ACTUATE)) (functions_by_id (capabilities d)).

Definition disarmed_actuator (r : DeviceRegistry) (pid : string) (dh : DeviceHealth) : list string :=
  if negb (bool_decide (alookup "watchdog_armed" (dh_metrics dh) = Some "false")) then []
  else match get_device_copy r pid (dh_device_id dh) with
       | None => []
       | Some d => if has_actuate_function d then [pid +:+ "/" +:+ dh_device_id dh] else []
       end.

Definition actuating_devices_with_watchdog_disarmed (providers : list (string * HealthView))
    (r : DeviceRegistry) : list string :=
  providers ≫= λ pv, live_report pv.2 ≫= disarmed_actuator r pv.1.

Definition timeout_line (pid did : string) (timeout_ms polling_interval_ms margin : Z) : string :=
  "preflight: " +:+ pid +:+ "/" +:+ did +:+ " reports watchdog_timeout_ms=" +:+ to_string timeout_ms +:+
  ", under twice polling.interval_ms=" +:+ to_string polling_interval_ms +:+
  ", so a late poll can trip its watchdog and leave every SET refused; raise the device's watchdog timeout to at least " +:+
  to_string margin +:+ " ms, or lower polling.interval_ms to at most " +:+ to_string (Z.quot timeout_ms 2) +:+ " ms".

Definition short_timeout (r : DeviceRegistry) (polling_interval_ms : Z) (pid : string) (dh : DeviceHealth)
    : list string :=
  let margin := 2 * polling_interval_ms in
  match alookup "watchdog_timeout_ms" (dh_metrics dh) ≫= parse_metric_int with
  | None => []
  | Some timeout_ms =>
      if (timeout_ms =? 0) || (margin <=? timeout_ms) then []
      else match get_device_copy r pid (dh_device_id dh) with
           | None => []
           | Some _ => [timeout_line pid (dh_device_id dh) timeout_ms polling_interval_ms margin]
           end
  end.

Definition watchdog_timeouts_under_poll_margin (providers : list (string * HealthView))
    (r : DeviceRegistry) (polling_interval_ms : Z) : list string :=
  providers ≫= λ pv, live_report pv.2 ≫= short_timeout r polling_interval_ms pv.1.

(** ** The staleness thresholds *)

(** The liveness thresholds are ordered and never below the historical
    two- and five-second ladder unless the configuration says so, they only
    loosen as a provider carries more devices, and no step of their computation
    leaves [int64_t] for any [int] policy of a provider with fewer than [2^28]
    devices; a signal's own bound is never tighter than the device's. *)
Theorem staleness_bounds_sound (policy : StalenessPolicy) (n m : nat) (declared : Z) :
  sp_poll_interval_ms policy < 2 ^ 31 →
  sp_warn_after_ms policy < 2 ^ 31 →
  sp_stale_after_ms policy < 2 ^ 31 →
  (n ≤ m)%nat → Z.of_nat m < 2 ^ 28 →
  let bn := resolve_staleness_bounds policy n in
  let bm := resolve_staleness_bounds policy m in
  0 < warn_ms bn ≤ stale_ms bn ∧
  (sp_warn_after_ms policy ≤ 0 → sp_stale_after_ms policy ≤ 0 →
     kStalenessWarnFloorMs ≤ warn_ms bn ∧ kStalenessStaleFloorMs ≤ stale_ms bn) ∧
  warn_ms bn ≤ warn_ms bm ∧ stale_ms bn ≤ stale_ms bm ∧
  in_int64 (kStalenessStaleCycles * cycle_budget policy m) ∧
  in_int64 (stale_ms bm) ∧
  stale_ms bn ≤ effective_signal_stale_after_ms declared (stale_ms bn).
Proof.
  unfold resolve_staleness_bounds, effective_signal_stale_after_ms, cycle_budget, kStalenessWarnFloorMs,
    kStalenessStaleFloorMs, kStalenessWarnCycles, kStalenessStaleCycles, in_int64, int64_min, int64_max.
  intros Hp Hw Hs Hnm Hm. simpl.
  set (i := if 0 <? sp_poll_interval_ms policy then sp_poll_interval_ms policy else 500).
  assert (0 < i < 2 ^ 31) as Hi by (unfold i; destruct (Z.ltb_spec 0 (sp_poll_interval_ms policy)); lia).
  clearbody i.
  assert (1 ≤ Z.of_nat (Nat.max 1 n) ≤ Z.of_nat (Nat.max 1 m)) by lia.
  assert (Z.of_nat (Nat.max 1 m) < 2 ^ 28) as Hm' by lia.
  set (a := Z.of_nat (Nat.max 1 n)) in *. set (c := Z.of_nat (Nat.max 1 m)) in *. clearbody a c.
  assert (i * a ≤ i * c) by nia. assert (0 < i * a) by nia.
  assert (i * c < 2 ^ 59) by (change (2 ^ 59) with (2 ^ 31 * 2 ^ 28); nia).
  set (x := i * a) in *. set (y := i * c) in *. clearbody x y.
  destruct (Z.ltb_spec 0 (sp_warn_after_ms policy)), (Z.ltb_spec 0 (sp_stale_after_ms policy)); lia.
Qed.

(** The default policy of one device at 500 ms is the historical ladder, and a
    warn override past the stale bound is clamped to it. *)
Example staleness_bounds_sound_witness :
  let policy := mkStaleness 500 9000 0 ∅ in
  resolve_staleness_bounds (mkStaleness 500 0 0 ∅) 1 = mkBounds 2000 5000 ∧
  resolve_staleness_bounds policy 1 = mkBounds 5000 5000 ∧
  stale_ms (resolve_staleness_bounds policy 1) ≤ stale_ms (resolve_staleness_bounds policy 4).
Proof.
  split; [reflexivity|]. split; [reflexivity|].
  apply (staleness_bounds_sound (mkStaleness 500 9000 0 ∅) 1 4 0); simpl; lia.
Defined.

(** ** The device rollup *)

Definition rolls_to (roll : string → CachedSignalValue → Rollup) (x : Rollup)
    (s : string * CachedSignalValue) : Prop := roll s.1 s.2 = x.

#[global] Instance rolls_to_dec roll x s : Decision (rolls_to roll x s).
Proof. unfold rolls_to. apply _. Defined.

Lemma count_signals roll l acc :
  0 ≤ acc.1 → 0 ≤ acc.2 → acc.1 + Z.of_nat (length l) < 2 ^ 32 → acc.2 + Z.of_nat (length l) < 2 ^ 32 →
  foldl (count_signal roll) acc l =
  (acc.1 + Z.of_nat (length (filter (rolls_to roll RollStale) l)),
   acc.2 + Z.of_nat (length (filter (rolls_to roll RollFault) l))).
Proof.
  revert acc. induction l as [|s l IH]; intros [a f] Ha Hf H1 H2; simpl in *; [f_equal; lia|].
  unfold count_signal at 2. rewrite !filter_cons.
  destruct (roll s.1 s.2) eqn:E; do 2 (case_decide as Hd; unfold rolls_to in Hd; try congruence; clear Hd);
    rewrite IH; simpl; unfold to_uint32; rewrite ?Z.mod_small by lia; try (f_equal; lia); lia.
Qed.

Lemma filter_rolls_pos roll x (m : gmap string CachedSignalValue) :
  0 < Z.of_nat (length (filter (rolls_to roll x) (map_to_list m))) ↔
  ∃ sid v, m !! sid = Some v ∧ roll sid v = x.
Proof.
  rewrite filter_length_pos. unfold rolls_to. split.
  - intros ([sid v] & Hin & Hr). apply elem_of_map_to_list in Hin. by exists sid, v.
  - intros (sid & v & Hv & Hr). exists (sid, v). by rewrite elem_of_map_to_list.
Qed.

Lemma rollup_counts roll (m : gmap string CachedSignalValue) :
  Z.of_nat (size m) < 2 ^ 32 →
  let counts := foldl (count_signal roll) (0, 0) (map_to_list m) in
  (0 < counts.1 ↔ ∃ sid v, m !! sid = Some v ∧ roll sid v = RollStale) ∧
  (0 < counts.2 ↔ ∃ sid v, m !! sid = Some v ∧ roll sid v = RollFault).
Proof.
  intros Hs counts. unfold counts. rewrite count_signals;
    [|simpl; lia|simpl; lia|simpl; rewrite length_map_to_list; lia..].
  simpl. by rewrite !Z.add_0_l, !filter_rolls_pos.
Qed.

Lemma signal_rollup_none policy handle d b now sid v :
  signal_rollup policy handle d b now sid v = RollNone ↔
  signal_excluded policy handle sid = true ∨
  ((csv_quality v ∉ [QUALITY_FAULT; QUALITY_STALE; QUALITY_UNKNOWN]) ∧
   age v now ≤ Z.max (declared_stale_after d sid) (stale_ms b)).
Proof.
  unfold signal_rollup, effective_signal_stale_after_ms.
  destruct (signal_excluded _ _ _); [naive_solver|].
  rewrite !not_elem_of_cons. repeat case_bool_decide; simpl; try naive_solver.
  destruct (Z.ltb_spec (declared_stale_after d sid `max` stale_ms b) (age v now)); split; intros Hx;
    try done; [destruct Hx as [?|[? ?]]; [done|lia]|].
  right. split_and!; [done..|apply not_elem_of_nil|lia].
Qed.

Lemma signal_rollup_fault policy handle d b now sid v :
  signal_rollup policy handle d b now sid v = RollFault ↔
  signal_excluded policy handle sid = false ∧ csv_quality v = QUALITY_FAULT.
Proof.
  unfold signal_rollup. destruct (signal_excluded _ _ _); [naive_solver|].
  repeat (case_bool_decide; simpl); try naive_solver. by destruct (_ <? _); naive_solver.
Qed.

Lemma escalate_ok counts b a :
  escalate true counts (liveness true a b) = "OK" ↔ ¬ (0 < counts.1) ∧ ¬ (0 < counts.2) ∧ a < warn_ms b.
Proof.
  unfold escalate, liveness. simpl.
  destruct (Z.ltb_spec 0 counts.2), (Z.ltb_spec 0 counts.1); try (split; [done|lia]).
  destruct (Z.ltb_spec a (warn_ms b)); [naive_solver lia|]. destruct (_ <? _); (split; [done|lia]).
Qed.

Lemma escalate_fault counts b a :
  escalate true counts (liveness true a b) = "FAULT" ↔ 0 < counts.2.
Proof.
  unfold escalate, liveness. simpl.
  destruct (Z.ltb_spec 0 counts.2); [done|]. destruct (0 <? counts.1); [split; [done|lia]|].
  destruct (_ <? _); [split; [done|lia]|]. destruct (_ <? _); (split; [done|lia]).
Qed.

(** The health of a polled device is what its evidence says: OK exactly when
    its provider is available, its last good poll is younger than the warning
    bound and no signal the machine uses is degraded or older than its bound;
    FAULT exactly when an available provider serves a used signal of FAULT
    quality; UNAVAILABLE exactly when the provider is not available.  A device
    that was never polled is UNKNOWN. *)
Theorem device_health_ladder (names : HealthState → string) (policy : StalenessPolicy) (cache : StateCache)
    (pid : string) (available : bool) (now : Z) (b : StalenessBounds) (d : RegisteredDevice)
    (reported : option DeviceHealth) :
  let handle := pid +:+ "/" +:+ device_id d in
  let row := device_row names policy cache pid available now b d reported in
  match get_device_state cache handle with
  | None => dhs_health row = "UNKNOWN"
  | Some st =>
      Z.of_nat (size (ds_signals st)) < 2 ^ 32 →
      (dhs_health row = "OK" ↔
         available = true ∧ dhs_staleness_ms row < warn_ms b ∧
         ∀ sid v, ds_signals st !! sid = Some v → signal_excluded policy handle sid = false →
           (csv_quality v ∉ [QUALITY_FAULT; QUALITY_STALE; QUALITY_UNKNOWN]) ∧
           age v now ≤ Z.max (declared_stale_after d sid) (stale_ms b)) ∧
      (dhs_health row = "FAULT" ↔
         available = true ∧ ∃ sid v, ds_signals st !! sid = Some v ∧
           signal_excluded policy handle sid = false ∧ csv_quality v = QUALITY_FAULT) ∧
      (dhs_health row = "UNAVAILABLE" ↔ available = false)
  end.
Proof.
  intros handle row. unfold row, device_row. fold handle.
  destruct (get_device_state cache handle) as [st|]; [|done]. intros Hs. simpl.
  destruct (rollup_counts (signal_rollup policy handle d b now) (ds_signals st) Hs) as [H1 H2].
  set (counts := foldl _ _ _) in *. clearbody counts.
  set (a := if _ <? 0 then 0 else _). clearbody a.
  destruct available; [|unfold escalate, liveness; simpl; naive_solver].
  rewrite escalate_ok, escalate_fault, H1, H2. split_and!.
  - assert (∀ sid v, (signal_excluded policy handle sid = false →
        (csv_quality v ∉ [QUALITY_FAULT; QUALITY_STALE; QUALITY_UNKNOWN]) ∧
        age v now ≤ Z.max (declared_stale_after d sid) (stale_ms b)) ↔
      signal_rollup policy handle d b now sid v = RollNone) as Hnone.
    { intros. rewrite signal_rollup_none. destruct (signal_excluded _ _ _); naive_solver. }
    setoid_rewrite Hnone. split; [|naive_solver congruence].
    intros (Hst & Hf & Ha). split_and!; [done|done|]. intros sid v Hv.
    destruct (signal_rollup policy handle d b now sid v) eqn:E; naive_solver.
  - setoid_rewrite signal_rollup_fault. naive_solver.
  - unfold escalate, liveness. simpl. repeat destruct (_ <? _); done.
Qed.

Definition polled_cache (q : Quality) (stamp : Z) : StateCache :=
  put_states {["sim0/a" := mkDeviceState "sim0/a" {["t" := mkCached (mkValue VALUE_TYPE_BOOL (KBool true)) stamp q]}
                             1000000000 true false false]} (new_cache false false).

(** A fresh poll with a good signal reads OK at one second, with a FAULT signal
    reads FAULT, and with that signal excluded OK again. *)
Example device_health_ladder_witness :
  let d := sample_device "sim0" "a" in
  let row q policy := device_row (λ _, "") policy (polled_cache q 1000000000) "sim0" true 2000000000
                        (mkBounds 2000 5000) d None in
  dhs_health (row QUALITY_OK (mkStaleness 500 0 0 ∅)) = "OK" ∧
  dhs_health (row QUALITY_FAULT (mkStaleness 500 0 0 ∅)) = "FAULT" ∧
  dhs_health (row QUALITY_FAULT (mkStaleness 500 0 0 {["sim0/a" := {["t"]}]})) = "OK".
Proof.
  split; [|split]; [| |reflexivity].
  - reflexivity.
  - refine (proj2 (proj1 (proj2 (device_health_ladder (λ _, "") (mkStaleness 500 0 0 ∅)
      (polled_cache QUALITY_FAULT 1000000000) "sim0" true 2000000000 (mkBounds 2000 5000)
      (sample_device "sim0" "a") None _))) _); [reflexivity|].
    split; [reflexivity|]. by exists "t", (mkCached (mkValue VALUE_TYPE_BOOL (KBool true)) 1000000000 QUALITY_FAULT).
Defined.

(** ** Truncation of provider-declared identity *)

(** The well-formed UTF-8 sequences (Unicode 15, table 3-7). *)
Definition in_range (lo hi : Z) (c : ascii) : bool :=
  (lo <=? Z.of_nat (nat_of_ascii c)) && (Z.of_nat (nat_of_ascii c) <=? hi).

Definition utf8_char (s : string) : bool :=
  match s with
  | String a "" => in_range 0 0x7F a
  | String a (String b "") => in_range 0xC2 0xDF a && in_range 0x80 0xBF b
  | String a (String b (String c "")) =>
      ((in_range 0xE0 0xE0 a && in_range 0xA0 0xBF b) || (in_range 0xE1 0xEC a && in_range 0x80 0xBF b) ||
       (in_range 0xED 0xED a && in_range 0x80 0x9F b) || (in_range 0xEE 0xEF a && in_range 0x80 0xBF b)) &&
      in_range 0x80 0xBF c
  | String a (String b (String c (String d ""))) =>
      ((in_range 0xF0 0xF0 a && in_range 0x90 0xBF b) || (in_range 0xF1 0xF3 a && in_range 0x80 0xBF b) ||
       (in_range 0xF4 0xF4 a && in_range 0x80 0x8F b)) &&
      in_range 0x80 0xBF c && in_range 0x80 0xBF d
  | _ => false
  end.

Inductive utf8 : string → Prop :=
| utf8_nil : utf8 ""
| utf8_cons c s : utf8_char c = true → utf8 s → utf8 (c +:+ s).

Definition cont (c : ascii) : bool := is_continuation (Z.of_nat (nat_of_ascii c)).

Lemma in_range_cont lo hi c : in_range lo hi c = true → 0x80 ≤ lo → hi ≤ 0xBF → cont c = true.
Proof.
  assert (in_range 0x80 0xBF c = true → cont c = true) as H
    by (by destruct c as [[] [] [] [] [] [] [] []]).
  unfold in_range in *. intros [?%Z.leb_le ?%Z.leb_le]%andb_true_iff ??. apply H.
  apply andb_true_iff. split; apply Z.leb_le; lia.
Qed.

Lemma in_range_lead lo hi c : in_range lo hi c = true → hi ≤ 0x7F ∨ 0xC0 ≤ lo → cont c = false.
Proof.
  assert (cont c = true → in_range 0x80 0xBF c = true) as H
    by (by destruct c as [[] [] [] [] [] [] [] []]).
  destruct (cont c); [|done]. specialize (H eq_refl). unfold in_range in *.
  intros [?%Z.leb_le ?%Z.leb_le]%andb_true_iff ?. apply andb_true_iff in H as [?%Z.leb_le ?%Z.leb_le]. lia.
Qed.

Fixpoint all_cont (s : string) : bool :=
  match s with EmptyString => true | String c r => cont c && all_cont r end.

(** A lead byte, which is no continuation byte, and up to three that are. *)
Lemma utf8_char_shape s :
  utf8_char s = true →
  ∃ a r, s = String a r ∧ cont a = false ∧ all_cont r = true ∧ (String.length r ≤ 3)%nat.
Proof.
  destruct s as [|a [|b [|c [|d [|]]]]]; simpl; intros H; try done;
    repeat match goal with
    | H : _ && _ = true |- _ => apply andb_true_iff in H as [? ?]
    | H : _ || _ = true |- _ => apply orb_true_iff in H as [?|?]
    end;
    eexists _, _; (split; [reflexivity|]);
    (split; [eapply in_range_lead; [eassumption|lia]|]); simpl;
    repeat match goal with
    | |- context [cont ?x] =>
        let E := fresh in assert (cont x = true) as E by (eapply in_range_cont; [eassumption|lia|lia]); rewrite E
    end; simpl; (split; [done|lia]).
Qed.

Lemma byte_at_app a b i :
  byte_at (a +:+ b) i = if (i <? String.length a)%nat then byte_at a i else byte_at b (i - String.length a).
Proof.
  unfold byte_at. revert i. induction a as [|c a IH]; intros i; [simpl; by rewrite Nat.sub_0_r|].
  rewrite string_app_cons. destruct i as [|i]; [done|]. simpl String.get. rewrite IH. done.
Qed.

Lemma substring_app_le a b n :
  (String.length a ≤ n)%nat →
  String.substring 0 n (a +:+ b) = a +:+ String.substring 0 (n - String.length a) b.
Proof.
  revert n. induction a as [|c a IH]; intros n Hn; [simpl; by rewrite Nat.sub_0_r|].
  simpl in Hn. destruct n as [|n]; [lia|]. rewrite !string_app_cons. simpl. by rewrite IH by lia.
Qed.

Lemma substring_prefix n s :
  (n ≤ String.length s)%nat →
  String.length (String.substring 0 n s) = n ∧ ∃ rest, s = String.substring 0 n s +:+ rest.
Proof.
  revert n. induction s as [|c s IH]; intros [|n] Hn; simpl in *; [by eauto|lia|by eauto|].
  destruct (IH n) as [-> [rest Hr]]; [lia|]. split; [done|]. exists rest. rewrite string_app_cons. by f_equal.
Qed.

Lemma all_cont_byte s i : all_cont s = true → (i < String.length s)%nat → is_continuation (byte_at s i) = true.
Proof.
  unfold byte_at. revert i. induction s as [|c s IH]; intros i; simpl; [lia|].
  intros [Hc Hs]%andb_true_iff Hi. destruct i as [|i]; [done|]. apply IH; [done|lia].
Qed.

(** Cutting well-formed text at a byte that is no continuation byte leaves
    well-formed text. *)
Lemma utf8_cut s n :
  utf8 s → (n ≤ String.length s)%nat → is_continuation (byte_at s n) = false → utf8 (String.substring 0 n s).
Proof.
  intros Hs. revert n. induction Hs as [|c s Hc Hs IH]; intros n Hn Hb; [by destruct n; constructor|].
  destruct (utf8_char_shape c Hc) as (a & r & -> & Ha & Hr & _).
  rewrite string_length_app in Hn. rewrite byte_at_app in Hb.
  destruct (Nat.ltb_spec n (String.length (String a r))) as [Hlt|Hge].
  - destruct n as [|n]; [constructor|]. simpl in Hlt.
    assert (is_continuation (byte_at r n) = true) as Hc' by (apply all_cont_byte; [done|lia]).
    unfold byte_at in *. simpl in Hb. congruence.
  - rewrite substring_app_le by done. constructor; [done|]. apply IH; [lia|done].
Qed.

(** Every continuation byte of well-formed text is within three of its lead. *)
Lemma utf8_lead_near s n :
  utf8 s → (n < String.length s)%nat →
  ∃ k, (k ≤ n)%nat ∧ (n ≤ k + 3)%nat ∧ is_continuation (byte_at s k) = false.
Proof.
  intros Hs. revert n. induction Hs as [|c s Hc Hs IH]; intros n Hn; [simpl in Hn; lia|].
  destruct (utf8_char_shape c Hc) as (a & r & -> & Ha & Hr & Hl). rewrite string_length_app in Hn.
  destruct (Nat.ltb_spec n (String.length (String a r))) as [Hlt|Hge].
  - exists O. simpl in Hlt. split_and!; [lia|lia|]. by rewrite byte_at_app.
  - destruct (IH (n - String.length (String a r))%nat) as (k & H1 & H2 & H3); [lia|].
    exists (k + String.length (String a r))%nat. split_and!; [lia|lia|].
    rewrite byte_at_app. destruct (Nat.ltb_spec (k + String.length (String a r)) (String.length (String a r))); [lia|].
    by replace (k + String.length (String a r) - String.length (String a r))%nat with k by lia.
Qed.

Lemma walk_back_spec s n k :
  (k ≤ n)%nat → is_continuation (byte_at s k) = false →
  (k ≤ walk_back s n ≤ n)%nat ∧ is_continuation (byte_at s (walk_back s n)) = false.
Proof.
  induction n as [|n IH]; intros Hk Hb; [by replace k with O in Hb by lia|]. cbn [walk_back].
  destruct (is_continuation (byte_at s (S n))) eqn:E.
  - assert (k ≠ S n) by congruence. destruct IH as [? ?]; [lia|done|]. split; [lia|done].
  - split; [lia|done].
Qed.

(** Truncating provider-declared identity keeps well-formed UTF-8 well
    formed: the result is a prefix of at most 128 bytes that is still valid
    UTF-8, so the health response can be serialised, and at most three bytes
    short of the bound when anything was cut. *)
Theorem clamp_identity_utf8 (value : string) :
  utf8 value →
  utf8 (clamp_identity value) ∧ (String.length (clamp_identity value) ≤ kMaxIdentityLen)%nat ∧
  (∃ rest, value = clamp_identity value +:+ rest) ∧
  ((kMaxIdentityLen < String.length value)%nat → (kMaxIdentityLen - 3 ≤ String.length (clamp_identity value))%nat).
Proof.
  intros Hu. unfold clamp_identity. destruct (Nat.leb_spec (String.length value) kMaxIdentityLen) as [Hl|Hl].
  - split_and!; [done|done|exists ""; by rewrite string_app_nil_r|lia].
  - destruct (utf8_lead_near value kMaxIdentityLen Hu Hl) as (k & H1 & H2 & H3).
    destruct (walk_back_spec value kMaxIdentityLen k H1 H3) as [[H4 H5] H6].
    destruct (substring_prefix (walk_back value kMaxIdentityLen) value) as [-> Hp]; [lia|].
    split_and!; [apply utf8_cut; [done|lia|done]|done|done|lia].
Qed.

Fixpoint repeat_string (n : nat) (s : string) : string :=
  match n with O => "" | S n => s +:+ repeat_string n s end.

(** U+00B0, the degree sign. *)
Definition degree : string := String (ascii_of_nat 0xC2) (String (ascii_of_nat 0xB0) "").

Lemma utf8_repeat n c : utf8_char c = true → utf8 (repeat_string n c).
Proof. intros. induction n; simpl; [constructor|by constructor]. Qed.

(** A label of one letter and a hundred degree signs is cut after 127 bytes, and
    stays valid. *)
Example clamp_identity_utf8_witness :
  let value := "T" +:+ repeat_string 100 degree in
  String.length (clamp_identity value) = 127%nat ∧ utf8 (clamp_identity value).
Proof.
  split; [vm_compute; reflexivity|].
  apply (clamp_identity_utf8 ("T" +:+ repeat_string 100 degree)).
  apply (utf8_cons "T"); [reflexivity|]. by apply utf8_repeat.
Defined.

(** ** The rows of a provider *)

Lemma reported_by_id_lookup l dh :
  NoDup (dh_device_id <$> l) → dh ∈ l → reported_by_id l !! dh_device_id dh = Some dh.
Proof.
  unfold reported_by_id. induction l as [|x l IH] using rev_ind; [by intros _ ?%elem_of_nil|].
  rewrite fmap_app, foldl_snoc. intros (Hl & Hx & _)%NoDup_app Hin.
  apply elem_of_app in Hin as [Hin|Hin].
  - rewrite lookup_insert_ne; [by apply IH|]. intros He.
    apply (Hx (dh_device_id dh)); [by apply list_elem_of_fmap_2|]. rewrite <- He. simpl. by left.
  - apply list_elem_of_singleton in Hin as ->. apply lookup_insert_eq.
Qed.

Section Rows.
Context (names : HealthState → string) (policy : StalenessPolicy) (cache : StateCache) (pid : string)
  (available : bool) (now : Z) (b : StalenessBounds).

Lemma device_row_fields d reported :
  let row := device_row names policy cache pid available now b d reported in
  dhs_device_id row = device_id d ∧ dhs_registered row = true ∧
  dhs_reported row = reported_device_health names <$> reported.
Proof. unfold device_row. by destruct (get_device_state _ _). Qed.

Lemma device_rows_registered devices reports row :
  row ∈ (device_rows names policy cache pid available now b devices reports).1 → dhs_registered row = true.
Proof.
  revert reports. induction devices as [|d devices IH]; intros reports; simpl; [by intros ?%elem_of_nil|].
  specialize (IH (delete (device_id d) reports)). destruct (device_rows _ _ _ _ _ _ _ devices _) as [rows rest].
  intros [->|?]%elem_of_cons; [apply device_row_fields|auto].
Qed.

(** A report goes to the first registered device of its id, or is left over. *)
Lemma device_rows_reports devices reports id dh :
  reports !! id = Some dh →
  let '(rows, unclaimed) := device_rows names policy cache pid available now b devices reports in
  if decide (id ∈ (device_id <$> devices))
  then ∃ row, row ∈ rows ∧ dhs_device_id row = id ∧ dhs_reported row = Some (reported_device_health names dh)
  else unclaimed !! id = Some dh.
Proof.
  revert reports. induction devices as [|d devices IH]; intros reports Hr; cbn [device_rows].
  { done. }
  destruct (decide (device_id d = id)) as [He|Hne].
  - destruct (device_rows _ _ _ _ _ _ _ devices _) as [rows rest]. clear IH. case_decide as Hin; [|by destruct Hin; rewrite fmap_cons, He; left].
    eexists. split; [by left|]. destruct (device_row_fields d (reports !! device_id d)) as (-> & _ & ->).
    by rewrite He, Hr.
  - specialize (IH (delete (device_id d) reports)). rewrite lookup_delete_ne in IH by done. specialize (IH Hr).
    destruct (device_rows _ _ _ _ _ _ _ devices _) as [rows rest].
    rewrite fmap_cons. destruct (decide (id ∈ (device_id <$> devices))) as [Hin|Hin];
      case_decide as Hin'; rewrite elem_of_cons in Hin'; [|naive_solver|naive_solver|done].
    destruct IH as (row & ? & ? & ?). exists row. by split; [right|].
Qed.

Lemma device_rows_unclaimed devices reports id dh :
  (device_rows names policy cache pid available now b devices reports).2 !! id = Some dh →
  reports !! id = Some dh ∧ id ∉ (device_id <$> devices).
Proof.
  revert reports. induction devices as [|d devices IH]; intros reports; simpl;
    [intros; split; [done|apply not_elem_of_nil]|].
  specialize (IH (delete (device_id d) reports)). destruct (device_rows _ _ _ _ _ _ _ devices _) as [rows rest].
  intros Hr. destruct (IH Hr) as [H1 H2]. apply lookup_delete_Some in H1 as [? ?].
  split; [done|]. by rewrite not_elem_of_cons.
Qed.
End Rows.

(** Nothing a provider reports is lost and nothing is invented: when the
    provider is available and answers, every device it reports has a row with
    that report, whether the registry carries it or not, a row marked
    unregistered is of a device the registry does not have, and the provider is
    degraded exactly when its report names a failed device or itself as degraded
    or faulty. *)
Theorem reported_devices_all_shown (dnames pnames : HealthState → string) (policy : StalenessPolicy)
    (r : DeviceRegistry) (cache : StateCache) (snapshots : gmap string ProviderSupervisionSnapshot)
    (pid : string) (rep : GetHealthResponse) (now : Z) :
  NoDup (dh_device_id <$> gh_devices rep) →
  let ps := collect_provider dnames pnames policy r cache snapshots pid (mkHealthView true (Some rep) true now) in
  (∀ dh, dh ∈ gh_devices rep → ∃ row, row ∈ phs_devices ps ∧ dhs_device_id row = dh_device_id dh ∧
     dhs_reported row = Some (reported_device_health dnames dh)) ∧
  (∀ row, row ∈ phs_devices ps → dhs_registered row = false →
     dhs_device_id row ∉ (device_id <$> get_devices_for_provider r pid)) ∧
  (phs_degraded ps = true ↔
     (∃ dh, dh ∈ gh_devices rep ∧ (dh_state dh = STATE_UNREACHABLE ∨ dh_state dh = STATE_FAULT)) ∨
     phl_state (gh_provider rep) = STATE_DEGRADED ∨ phl_state (gh_provider rep) = STATE_FAULT).
Proof.
  intros Hnd ps. unfold ps, collect_provider. simpl.
  set (devices := get_devices_for_provider r pid).
  set (bounds := resolve_staleness_bounds policy (length devices)).
  pose proof (device_rows_reports dnames policy cache pid true now bounds devices
                (reported_by_id (gh_devices rep))) as Hrep.
  pose proof (device_rows_registered dnames policy cache pid true now bounds devices
                (reported_by_id (gh_devices rep))) as Hreg.
  pose proof (device_rows_unclaimed dnames policy cache pid true now bounds devices
                (reported_by_id (gh_devices rep))) as Hun.
  destruct (device_rows _ _ _ _ _ _ _ _ _) as [rows unclaimed]. simpl in *. split_and!.
  - intros dh Hin. specialize (Hrep _ _ (reported_by_id_lookup _ _ Hnd Hin)). case_decide.
    + destruct Hrep as (row & ? & ? & ?). exists row. split_and!; [apply elem_of_app; by left|done..].
    + exists (unregistered_row dnames (dh_device_id dh) dh). split_and!; [|done..].
      apply elem_of_app. right. apply (list_elem_of_fmap_2' _ _ (dh_device_id dh, dh)); [|done].
      by apply elem_of_map_items.
  - intros row [Hin|Hin]%elem_of_app Hr; [rewrite (Hreg _ Hin) in Hr; done|].
    apply list_elem_of_fmap in Hin as ([id dh] & -> & Hin). simpl. apply elem_of_map_items in Hin.
    by apply Hun in Hin as [_ ?].
  - rewrite !orb_true_iff, !bool_decide_eq_true, Z.ltb_lt, filter_length_pos. unfold is_failed.
    setoid_rewrite orb_true_iff. setoid_rewrite bool_decide_eq_true. tauto.
Qed.

(** A provider that could not bring one of its devices up is degraded, and the
    device it expected has a row although the registry has no such device. *)
Example reported_devices_all_shown_witness :
  let lost := mkDeviceHealth "b" STATE_UNREACHABLE "no answer" [] None in
  let rep := mkGetHealth (mkProviderHealth STATE_OK "" []) [lost] in
  let ps := collect_provider (λ _, "S") (λ _, "S") (mkStaleness 500 0 0 ∅) empty_registry (new_cache false false) ∅
              "sim0" (mkHealthView true (Some rep) true 0) in
  phs_degraded ps = true ∧ dhs_device_id <$> phs_devices ps = ["b"] ∧
  ∃ row, row ∈ phs_devices ps ∧ dhs_device_id row = "b" ∧
    dhs_reported row = Some (reported_device_health (λ _, "S") lost).
Proof.
  split; [reflexivity|]. split; [vm_compute; reflexivity|].
  refine (proj1 (reported_devices_all_shown (λ _, "S") (λ _, "S") (mkStaleness 500 0 0 ∅) empty_registry
    (new_cache false false) ∅ "sim0" (mkGetHealth (mkProviderHealth STATE_OK "" [])
      [mkDeviceHealth "b" STATE_UNREACHABLE "no answer" [] None]) 0 _)
    (mkDeviceHealth "b" STATE_UNREACHABLE "no answer" [] None) _); [apply NoDup_singleton|by left].
Defined.

(** A disarmed watchdog is reported only by the exact text "false", and a timeout
    under twice the poll interval only when it parses and is not zero. *)
Example watchdog_reports_cases :
  let d := mkDevice "sim0" "a" (mkCaps (mkProtoDevice "a" "" "" "" []) []
             [("f", mkFunctionSpec 1 "f" "" [] CATEGORY_ACTUATE [] 0 false)]) in
  let r := commit_provider_devices "sim0" [d] true empty_registry in
  let view armed timeout := [("sim0", mkHealthView true (Some (mkGetHealth (mkProviderHealth STATE_OK "" [])
    [mkDeviceHealth "a" STATE_OK "" [("watchdog_armed", armed); ("watchdog_timeout_ms", timeout)] None])) true 0)] in
  actuating_devices_with_watchdog_disarmed (view "false" "0") r = ["sim0/a"] ∧
  actuating_devices_with_watchdog_disarmed (view "unknown" "0") r = [] ∧
  watchdog_timeouts_under_poll_margin (view "true" "1000") r 500 = [] ∧
  length (watchdog_timeouts_under_poll_margin (view "true" "999") r 500) = 1%nat ∧
  watchdog_timeouts_under_poll_margin (view "true" "-5") r 500 = [].
Proof. vm_compute. done. Qed.
