(* ===== verification/Telemetry.v ===== *)
(** * Telemetry ([core/telemetry/influx_sink.hpp], [influx_sink.cpp],
      [health_line_protocol.hpp], [health_snapshot_task.cpp])

    The line-protocol text of events and health snapshots, and the sink that
    batches rows, posts them and keeps what could not be written for a retry.
    The HTTP client is outside: what a post answers is an argument.  A row is
    built without the lock, the batch and the retry buffer change under it; the
    rows being posted belong to neither, so that rows enqueued meanwhile are a
    step of their own.  Log lines are left out. *)

From S2P Require Import Prelude Protocol Registry Parameters EventEmitter Supervisor StateCache Health.

(** ** Escaping *)

Definition CR : ascii := "013".
Definition TAB : ascii := "009".
Definition QUOTE : ascii := "034".
Definition BACKSLASH : ascii := "\".

Definition quote : string := char_string QUOTE.

Fixpoint concat_map (f : ascii → string) (s : string) : string :=
  match s with
  | EmptyString => ""
  | String c r => f c +:+ concat_map f r
  end.

(** [byte < 0x20 || byte == 0x7F]. *)
Definition is_control (c : ascii) : bool :=
  (nat_of_ascii c <? 0x20)%nat || (nat_of_ascii c =? 0x7F)%nat.

(** The part of the two switches that is the same: control bytes. *)
Definition escape_control (c : ascii) : string :=
  if Ascii.eqb c LF then "\n"
  else if Ascii.eqb c CR then "\r"
  else if Ascii.eqb c TAB then "\t"
  else if is_control c then ""
  else char_string c.

Definition escape_tag_char (c : ascii) : string :=
  if Ascii.eqb c "," || Ascii.eqb c "=" || Ascii.eqb c " " || Ascii.eqb c BACKSLASH
  then String BACKSLASH (char_string c)
  else escape_control c.

Definition escape_tag (s : string) : string := concat_map escape_tag_char s.

Definition escape_field_char (c : ascii) : string :=
  if Ascii.eqb c QUOTE || Ascii.eqb c BACKSLASH
  then String BACKSLASH (char_string c)
  else escape_control c.

Definition escape_field_string (s : string) : string := concat_map escape_field_char s.

(** ** Rows of events *)

Definition quality_to_string (q : EQuality) : string :=
  match q with
  | Q_OK => "OK"
  | Q_STALE => "STALE"
  | Q_UNAVAILABLE => "UNAVAILABLE"
  | Q_FAULT => "FAULT"
  end.

Definition bool_text (b : bool) : string := if b then "true" else "false".

(** [std::isnan(arg) || std::isinf(arg)]. *)
Definition nan_or_inf (d : double) : bool :=
  match d with S754_nan | S754_infinity _ => true | _ => false end.

(** [s.back()]. *)
Fixpoint last_char (s : string) : option ascii :=
  match s with
  | EmptyString => None
  | String c EmptyString => Some c
  | String _ r => last_char r
  end.

Definition quoted (s : string) : string := quote +:+ escape_field_string s +:+ quote.

Section Lines.
(** [std::to_chars] of a double: the shortest text that reads back as it. *)
Context (to_chars : double → string).

Definition value_field (value : TypedValue) : string :=
  match value with
  | TDouble d => if nan_or_inf d then "" else "value_double=" +:+ to_chars d
  | TInt64 z => "value_int=" +:+ to_string z +:+ "i"
  | TUint64 z => "value_uint=" +:+ to_string z +:+ "u"
  | TBool b => "value_bool=" +:+ bool_text b
  | TString s => "value_string=" +:+ quoted s
  end.

(** [format_line_protocol], of the members of a [StateUpdateEvent]. *)
Definition format_line_protocol (pid did sid : string) (value : TypedValue) (quality : EQuality)
    (timestamp_ms : Z) (runtime_name : string) : string :=
  let current := "anolis_signal" +:+ ",runtime_name=" +:+ escape_tag runtime_name +:+
    ",provider_id=" +:+ escape_tag pid +:+ ",device_id=" +:+ escape_tag did +:+
    ",signal_id=" +:+ escape_tag sid +:+ " " +:+ value_field value in
  current +:+ (if bool_decide (last_char current = Some " "%char) then "" else ",") +:+
  "quality=" +:+ quote +:+ quality_to_string quality +:+ quote +:+ " " +:+ to_string timestamp_ms.

Definition format_mode_change_line_protocol (previous_mode new_mode : string) (timestamp_ms : Z)
    (runtime_name : string) : string :=
  "mode_change,runtime_name=" +:+ escape_tag runtime_name +:+
  " previous_mode=" +:+ quoted previous_mode +:+ ",new_mode=" +:+ quoted new_mode +:+
  " " +:+ to_string timestamp_ms.

Definition format_parameter_change_line_protocol (name old_value new_value : string) (timestamp_ms : Z)
    (runtime_name : string) : string :=
  "parameter_change,runtime_name=" +:+ escape_tag runtime_name +:+ ",parameter_name=" +:+ escape_tag name +:+
  " old_value=" +:+ quoted old_value +:+ ",new_value=" +:+ quoted new_value +:+
  " " +:+ to_string timestamp_ms.

(** The row the flush loop adds for an event it popped; other events are dropped. *)
Definition event_row (runtime_name : string) (e : Event) : option string :=
  match e with
  | StateUpdate _ pid did sid value q t => Some (format_line_protocol pid did sid value q t runtime_name)
  | ModeChange _ previous new t => Some (format_mode_change_line_protocol previous new t runtime_name)
  | ParameterChange _ name old new t => Some (format_parameter_change_line_protocol name old new t runtime_name)
  | _ => None
  end.
End Lines.

(** ** Rows of health snapshots *)

Definition device_int_keys : list string :=
  ["io_ok"; "io_failed"; "io_retried_attempts"; "watchdog_timeout_ms"; "watchdog_trip_count";
   "sample_success_count"; "sample_failure_count"; "call_success_count"; "call_failure_count"].
Definition device_bool_keys : list string := ["watchdog_armed"; "watchdog_tripped"; "missing"; "excluded"].
Definition device_string_keys : list string := ["startup_firmware"; "startup_product_code"; "firmware_version"].
Definition kMaxStringFieldLen : nat := 128.
Definition provider_int_keys : list string :=
  ["startup_configured_devices"; "startup_initialized_devices"; "startup_failed_devices"].

Definition concat_strings (l : list string) : string := foldr (λ a b, a +:+ b) "" l.

Definition append_int_metric (metrics : gmap string string) (key : string) : string :=
  match metrics !! key ≫= parse_metric_int with
  | Some value => "," +:+ key +:+ "=" +:+ to_string value +:+ "i"
  | None => ""
  end.

Definition append_bool_metric (metrics : gmap string string) (key : string) : string :=
  match metrics !! key ≫= parse_metric_bool with
  | Some value => "," +:+ key +:+ "=" +:+ bool_text value
  | None => ""
  end.

Definition append_allowlisted_metrics (metrics : gmap string string) (int_keys bool_keys : list string) : string :=
  concat_strings (append_int_metric metrics <$> int_keys) +:+
  concat_strings (append_bool_metric metrics <$> bool_keys).

Definition append_string_metric (metrics : gmap string string) (key : string) : string :=
  match metrics !! key with
  | None => ""
  | Some text =>
      if bool_decide (text = "") then ""
      else
        let value := if (String.length text <=? kMaxStringFieldLen)%nat then text
                     else String.substring 0 kMaxStringFieldLen text in
        "," +:+ key +:+ "=" +:+ quoted value
  end.

Definition append_allowlisted_strings (metrics : gmap string string) (keys : list string) : string :=
  concat_strings (append_string_metric metrics <$> keys).

Definition format_provider_line (ps : ProviderHealthSnapshot) (runtime_name : string) (timestamp_ms : Z) : string :=
  "anolis_provider_health" +:+ ",runtime_name=" +:+ escape_tag runtime_name +:+
  ",provider_id=" +:+ escape_tag (phs_provider_id ps) +:+
  " state=" +:+ quoted (phs_state ps) +:+
  ",lifecycle_state=" +:+ quoted (phs_lifecycle_state ps) +:+
  ",degraded=" +:+ bool_text (phs_degraded ps) +:+
  ",failed_device_count=" +:+ to_string (phs_failed_device_count ps) +:+ "i" +:+
  ",device_count=" +:+ to_string (phs_device_count ps) +:+ "i" +:+
  ",uptime_seconds=" +:+ to_string (phs_uptime_seconds ps) +:+ "i" +:+
  ",supervision_enabled=" +:+ bool_text (sv_enabled (phs_supervision ps)) +:+
  ",attempt_count=" +:+ to_string (sv_attempt_count (phs_supervision ps)) +:+ "i" +:+
  ",crash_detected=" +:+ bool_text (sv_crash_detected (phs_supervision ps)) +:+
  ",circuit_open=" +:+ bool_text (sv_circuit_open (phs_supervision ps)) +:+
  match phs_reported ps with
  | Some rep => append_allowlisted_metrics (rp_metrics rep) provider_int_keys []
  | None => ""
  end +:+
  " " +:+ to_string timestamp_ms.

Definition format_device_line (pid runtime_name : string) (timestamp_ms : Z) (ds : DeviceHealthSnapshot) : string :=
  "anolis_device_health" +:+ ",runtime_name=" +:+ escape_tag runtime_name +:+
  ",provider_id=" +:+ escape_tag pid +:+ ",device_id=" +:+ escape_tag (dhs_device_id ds) +:+
  " health=" +:+ quoted (dhs_health ds) +:+
  ",registered=" +:+ bool_text (dhs_registered ds) +:+
  (if 0 <? dhs_last_poll_ms ds then
     ",staleness_ms=" +:+ to_string (dhs_staleness_ms ds) +:+ "i" +:+
     ",stale_signal_count=" +:+ to_string (dhs_stale_signal_count ds) +:+ "i" +:+
     ",fault_signal_count=" +:+ to_string (dhs_fault_signal_count ds) +:+ "i"
   else "") +:+
  (if bool_decide (dhs_type_version ds = "") then "" else ",type_version=" +:+ quoted (dhs_type_version ds)) +:+
  match dhs_reported ds with
  | Some rep => append_allowlisted_metrics (rd_metrics rep) device_int_keys device_bool_keys +:+
                append_allowlisted_strings (rd_metrics rep) device_string_keys
  | None => ""
  end +:+
  " " +:+ to_string timestamp_ms.

Definition format_health_lines (ps : ProviderHealthSnapshot) (runtime_name : string) (timestamp_ms : Z)
    : list string :=
  format_provider_line ps runtime_name timestamp_ms ::
  (format_device_line (phs_provider_id ps) runtime_name timestamp_ms <$> phs_devices ps).

(** One round of [HealthSnapshotTask::loop]: the rows it enqueues. *)
Definition health_task_rows (snapshot : list ProviderHealthSnapshot) (runtime_name : string) (timestamp_ms : Z)
    : list string :=
  snapshot ≫= λ ps, format_health_lines ps runtime_name timestamp_ms.

(** ** The sink *)

Record InfluxConfig := mkInflux {
  in_enabled : bool;
  in_url : string;
  in_org : string;
  in_bucket : string;
  in_token : string;
  in_runtime_name : string;
  in_batch_size : Z;
  in_flush_interval_ms : Z;
  in_queue_size : Z;
  in_max_retry_buffer_size : Z;
}.

Record InfluxSink := mkSink {
  s_config : InfluxConfig;
  s_subscription : option Subscription;
  s_running : bool;
  s_connected : bool;
  s_batch : list string;
  s_retry_buffer : list string;
  s_total_written : Z;
  s_total_failed : Z;
  s_total_rejected : Z;
}.

Definition new_sink (config : InfluxConfig) : InfluxSink :=
  mkSink config None false false [] [] 0 0 0.

(** [start]: whether it started, and the sink, emitter and queues after it. *)
Definition sink_start (s : InfluxSink) (em : EventEmitter) (h : Queues)
    : bool * InfluxSink * EventEmitter * Queues :=
  if s_running s then (false, s, em, h)
  else if negb (in_enabled (s_config s)) then (false, s, em, h)
  else if bool_decide (in_token (s_config s) = "") then (false, s, em, h)
  else
    let '(sub, em', h') := subscribe EventEmitter.all (in_queue_size (s_config s)) "telemetry-sink" em h in
    let s' := mkSink (s_config s) sub (s_running s) (s_connected s) (s_batch s) (s_retry_buffer s)
                (s_total_written s) (s_total_failed s) (s_total_rejected s) in
    match sub with
    | None => (false, s', em', h')
    | Some _ =>
        (true, mkSink (s_config s) sub true (s_connected s) (s_batch s) (s_retry_buffer s)
                 (s_total_written s) (s_total_failed s) (s_total_rejected s), em', h')
    end.

Definition enqueue_lines (lines : list string) (s : InfluxSink) : InfluxSink :=
  match lines with
  | [] => s
  | _ => mkSink (s_config s) (s_subscription s) (s_running s) (s_connected s) (s_batch s ++ lines)
           (s_retry_buffer s) (s_total_written s) (s_total_failed s) (s_total_rejected s)
  end.

(** The flush loop's handling of an event it popped. *)
Definition collect_event (to_chars : double → string) (e : Event) (s : InfluxSink) : InfluxSink :=
  match event_row to_chars (in_runtime_name (s_config s)) e with
  | Some row => enqueue_lines [row] s
  | None => s
  end.

Definition should_flush (elapsed_ms : Z) (s : InfluxSink) : bool :=
  negb (bool_decide (s_batch s = [])) &&
  ((in_batch_size (s_config s) <=? Z.of_nat (length (s_batch s))) ||
   (in_flush_interval_ms (s_config s) <=? elapsed_ms)).

(** The first critical section of [flush_batch]: the rows it will post. *)
Definition take_lines (s : InfluxSink) : list string * InfluxSink :=
  (s_retry_buffer s ++ s_batch s,
   mkSink (s_config s) (s_subscription s) (s_running s) (s_connected s) [] []
     (s_total_written s) (s_total_failed s) (s_total_rejected s)).

Definition build_body (lines : list string) : string :=
  concat_strings ((λ line, line +:+ char_string LF) <$> lines).

(** What [Post] returned: a status, or no response. *)
Inductive PostOutcome := Answered (status : Z) | NoResponse.

Inductive Verdict := Written | Rejected | Transient.

Definition classify (o : PostOutcome) : Verdict :=
  match o with
  | Answered status =>
      if (200 <=? status) && (status <? 300) then Written
      else if negb (status =? 429) && (400 <=? status) && (status <? 500) then Rejected
      else Transient
  | NoResponse => Transient
  end.

(** [retry_buffer_] after a failed write, and how many rows were dropped. *)
Definition keep_for_retry (max : Z) (retry lines : list string) : list string * Z :=
  let space := if Z.of_nat (length retry) <? max then max - Z.of_nat (length retry) else 0 in
  if 0 <? space then
    let to_keep := Z.min space (Z.of_nat (length lines)) in
    (retry ++ take (Z.to_nat to_keep) lines, Z.of_nat (length lines) - to_keep)
  else (retry, Z.of_nat (length lines)).

(** What [flush_batch] does with the answer. *)
Definition settle (lines : list string) (o : PostOutcome) (s : InfluxSink) : InfluxSink :=
  let n := Z.of_nat (length lines) in
  match classify o with
  | Written =>
      mkSink (s_config s) (s_subscription s) (s_running s) true (s_batch s) (s_retry_buffer s)
        (to_uint64 (s_total_written s + n)) (s_total_failed s) (s_total_rejected s)
  | Rejected =>
      mkSink (s_config s) (s_subscription s) (s_running s) true (s_batch s) (s_retry_buffer s)
        (s_total_written s) (to_uint64 (s_total_failed s + n)) (to_uint64 (s_total_rejected s + n))
  | Transient =>
      let '(retry, dropped) := keep_for_retry (in_max_retry_buffer_size (s_config s)) (s_retry_buffer s) lines in
      mkSink (s_config s) (s_subscription s) (s_running s) false (s_batch s) retry
        (s_total_written s) (to_uint64 (s_total_failed s + dropped)) (s_total_rejected s)
  end.

(** [flush_batch], with nothing else between its sections; [post] is asked only
    for a body with rows. *)
Definition flush_batch (post : string → PostOutcome) (s : InfluxSink) : InfluxSink :=
  let '(lines, s') := take_lines s in
  match lines with
  | [] => s'
  | _ => settle lines (post (build_body lines)) s'
  end.

(** ** Reading rows back

    The line protocol as its readers scan it: a backslash takes the next
    character with it, a row is a measurement, tags, fields and a timestamp, and
    a quoted field value ends at the next quote that is not escaped. *)

Fixpoint scan_tok (stop : ascii → bool) (s : string) : string * string :=
  match s with
  | EmptyString => ("", "")
  | String c r =>
      if Ascii.eqb c BACKSLASH then
        match r with
        | EmptyString => (s, "")
        | String d r' => let '(t, rest) := scan_tok stop r' in (String c (String d t), rest)
        end
      else if stop c then ("", s)
      else let '(t, rest) := scan_tok stop r in (String c t, rest)
  end.

Definition sep (c : ascii) : bool := Ascii.eqb c "," || Ascii.eqb c " ".
Definition is_eq (c : ascii) : bool := Ascii.eqb c "=".
Definition is_quote (c : ascii) : bool := Ascii.eqb c QUOTE.

(** [s] without its first character, when that is [c]. *)
Definition expect (c : ascii) (s : string) : option string :=
  match s with
  | String d r => if Ascii.eqb d c then Some r else None
  | EmptyString => None
  end.

Definition scan_tag (s : string) : option (string * string * string) :=
  let '(k, r) := scan_tok is_eq s in
  r' ← expect "=" r; let '(v, rest) := scan_tok sep r' in Some (k, v, rest).

Definition scan_value (s : string) : option (string * string) :=
  match expect QUOTE s with
  | Some r =>
      let '(t, r') := scan_tok is_quote r in
      rest ← expect QUOTE r'; Some (quote +:+ t +:+ quote, rest)
  | None => Some (scan_tok sep s)
  end.

Definition scan_field (s : string) : option (string * string * string) :=
  let '(k, r) := scan_tok is_eq s in
  r' ← expect "=" r; '(v, rest) ← scan_value r'; Some (k, v, rest).

(** [item] after every comma; [fuel] bounds the items. *)
Fixpoint scan_more (item : string → option (string * string * string)) (fuel : nat) (s : string)
    : option (list (string * string) * string) :=
  match fuel, expect "," s with
  | S n, Some r => '(k, v, r1) ← item r; '(l, r2) ← scan_more item n r1; Some ((k, v) :: l, r2)
  | O, Some _ => None
  | _, None => Some ([], s)
  end.

Record Row := mkRow {
  row_measurement : string;
  row_tags : list (string * string);
  row_fields : list (string * string);
  row_time : string;
}.

Definition scan_row (s : string) : option Row :=
  let n := String.length s in
  let '(m, r0) := scan_tok sep s in
  '(tags, r1) ← scan_more scan_tag n r0;
  r2 ← expect " " r1;
  '(k, v, r3) ← scan_field r2;
  '(more, r4) ← scan_more scan_field n r3;
  time ← expect " " r4;
  Some (mkRow m tags ((k, v) :: more) time).

Definition render_more (l : list (string * string)) : string :=
  concat_strings ((λ kv, "," +:+ kv.1 +:+ "=" +:+ kv.2) <$> l).

Definition render (r : Row) : string :=
  row_measurement r +:+ render_more (row_tags r) +:+ " " +:+
  match row_fields r with
  | [] => ""
  | f :: more => f.1 +:+ "=" +:+ f.2 +:+ render_more more
  end +:+ " " +:+ row_time r.

(** *** Tokens *)

Fixpoint safe (stop : ascii → bool) (s : string) : bool :=
  match s with
  | EmptyString => true
  | String c r =>
      if Ascii.eqb c BACKSLASH then
        match r with EmptyString => false | String _ r' => safe stop r' end
      else negb (stop c) && safe stop r
  end.

Definition stops_at (stop : ascii → bool) (rest : string) : Prop :=
  match rest with String c _ => stop c = true ∧ c ≠ BACKSLASH | EmptyString => True end.

Lemma scan_tok_app stop t rest :
  safe stop t = true → stops_at stop rest → scan_tok stop (t +:+ rest) = (t, rest).
Proof.
  intros Ht Hr. remember (String.length t) as n eqn:Hn. revert t Hn Ht.
  induction (lt_wf n) as [n _ IH]. intros t -> Ht. destruct t as [|c t].
  { change ("" +:+ rest) with rest. destruct rest as [|c r]; [done|]. destruct Hr as [Hs Hb]. simpl.
    destruct (Ascii.eqb_spec c BACKSLASH); [done|]. by rewrite Hs. }
  rewrite string_app_cons. cbn [scan_tok]. cbn [safe] in Ht. destruct (Ascii.eqb c BACKSLASH).
  - destruct t as [|d t]; [done|]. rewrite string_app_cons.
    rewrite (IH (String.length t)); [done|simpl; lia|done|done].
  - apply andb_true_iff in Ht as [Hc%negb_true_iff Ht]. rewrite Hc.
    rewrite (IH (String.length t)); [done|simpl; lia|done|done].
Qed.

Lemma safe_app stop a b : safe stop a = true → safe stop (a +:+ b) = safe stop b.
Proof.
  intros Ha. remember (String.length a) as n eqn:Hn. revert a Hn Ha.
  induction (lt_wf n) as [n _ IH]. intros a -> Ha. destruct a as [|c a]; [done|].
  rewrite string_app_cons. cbn [safe] in *. destruct (Ascii.eqb c BACKSLASH).
  - destruct a as [|d a]; [done|]. rewrite string_app_cons. apply (IH (String.length a)); [simpl; lia|done|done].
  - apply andb_true_iff in Ha as [-> Ha]. simpl. apply (IH (String.length a)); [simpl; lia|done|done].
Qed.

Lemma safe_concat_map stop f s :
  (∀ c, safe stop (f c) = true) → safe stop (concat_map f s) = true.
Proof. intros Hf. induction s as [|c s IH]; [done|]. simpl. by rewrite safe_app. Qed.

Lemma has_char_concat_map c f s : (∀ x, has_char c (f x) = false) → has_char c (concat_map f s) = false.
Proof. intros Hf. induction s as [|x s IH]; [done|]. simpl. by rewrite has_char_app, Hf, IH. Qed.

Ltac each_char := let c := fresh in intros c; destruct c as [[] [] [] [] [] [] [] []]; vm_compute; reflexivity.

Lemma escape_tag_safe s :
  safe sep (escape_tag s) = true ∧ safe is_eq (escape_tag s) = true ∧ has_char LF (escape_tag s) = false.
Proof.
  unfold escape_tag. split_and!; [apply safe_concat_map|apply safe_concat_map|apply has_char_concat_map]; each_char.
Qed.

Lemma escape_field_safe s :
  safe is_quote (escape_field_string s) = true ∧ has_char LF (escape_field_string s) = false.
Proof.
  unfold escape_field_string. split; [apply safe_concat_map|apply has_char_concat_map]; each_char.
Qed.

(** Text without control bytes, separators, quotes and backslashes. *)
Definition plain_char (c : ascii) : bool :=
  negb (is_control c || sep c || is_eq c || is_quote c || Ascii.eqb c BACKSLASH).

Fixpoint plain (s : string) : bool :=
  match s with EmptyString => true | String c r => plain_char c && plain r end.

Lemma plain_app a b : plain (a +:+ b) = plain a && plain b.
Proof. induction a as [|x a IH]; [done|]. rewrite string_app_cons. simpl. by rewrite IH, andb_assoc. Qed.

Lemma plain_char_facts c :
  plain_char c = true →
  Ascii.eqb c BACKSLASH = false ∧ sep c = false ∧ is_eq c = false ∧ is_quote c = false ∧ Ascii.eqb c LF = false.
Proof. destruct c as [[] [] [] [] [] [] [] []]; vm_compute; done. Qed.

Lemma plain_safe s :
  plain s = true → safe sep s = true ∧ safe is_eq s = true ∧ has_char LF s = false ∧ expect QUOTE s = None.
Proof.
  induction s as [|c s IH]; [done|]. intros [Hc Hs]%andb_true_iff.
  destruct (plain_char_facts c Hc) as (H1 & H2 & H3 & H4 & H5). destruct (IH Hs) as (I1 & I2 & I3 & _).
  unfold is_quote in H4. cbn [safe has_char expect]. by rewrite H1, H2, H3, H4, H5, I1, I2, I3.
Qed.

Lemma to_string_plain z : plain (to_string z) = true.
Proof.
  assert (∀ d, all_digits d = true → plain d = true) as Hd.
  { induction d as [|c d IH]; [done|]. simpl. intros [Hc ?]%andb_true_iff. rewrite IH by done.
    rewrite andb_true_r. by destruct c as [[] [] [] [] [] [] [] []]. }
  destruct (Z.neg_nonneg_cases z) as [Hz|Hz].
  - destruct z as [|p|p]; [lia|lia|]. rewrite to_string_neg.
    destruct (to_string_digits (Z.pos p)) as (d & -> & _ & Ha & _); [lia|]. simpl. by apply Hd.
  - destruct (to_string_digits z Hz) as (d & -> & _ & Ha & _). by apply Hd.
Qed.

Lemma bool_text_plain b : plain (bool_text b) = true.
Proof. by destruct b. Qed.

(** *** Rows *)

Definition tag_ok (kv : string * string) : Prop := plain kv.1 = true ∧ ∃ t, kv.2 = escape_tag t.

Definition field_ok (kv : string * string) : Prop :=
  plain kv.1 = true ∧ (plain kv.2 = true ∨ ∃ t, kv.2 = quoted t).

Definition row_ok (r : Row) : Prop :=
  plain (row_measurement r) = true ∧ Forall tag_ok (row_tags r) ∧
  row_fields r ≠ [] ∧ Forall field_ok (row_fields r) ∧ plain (row_time r) = true.

Lemma stops_at_char stop c r : stop c = true → c ≠ BACKSLASH → stops_at stop (String c r).
Proof. done. Qed.

Lemma scan_tag_ok kv rest :
  tag_ok kv → stops_at sep rest → scan_tag (kv.1 +:+ "=" +:+ kv.2 +:+ rest) = Some (kv.1, kv.2, rest).
Proof.
  intros [Hk [t ->]] Hr. unfold scan_tag.
  rewrite scan_tok_app; [|by apply plain_safe|by apply stops_at_char]. simpl.
  change ("" +:+ ?x) with x. by rewrite (scan_tok_app sep (escape_tag t) rest); [|apply escape_tag_safe|].
Qed.

Lemma scan_field_ok kv rest :
  field_ok kv → stops_at sep rest → scan_field (kv.1 +:+ "=" +:+ kv.2 +:+ rest) = Some (kv.1, kv.2, rest).
Proof.
  destruct kv as [k v]. intros [Hk Hv] Hr. cbn [fst snd] in *. unfold scan_field.
  rewrite scan_tok_app; [|by apply plain_safe|by apply stops_at_char]. simpl.
  change ("" +:+ ?x) with x. unfold scan_value. destruct Hv as [Hv|[t Hv]].
  - destruct (plain_safe _ Hv) as (Hs & _ & _ & Hq).
    assert (expect QUOTE (v +:+ rest) = None) as ->.
    { destruct v as [|c v].
      2: { rewrite string_app_cons. simpl in *. by destruct (Ascii.eqb c QUOTE). }
      destruct rest as [|c r]; [done|]. destruct Hr as [Hr _].
      change ("" +:+ String c r) with (String c r). simpl.
      destruct (Ascii.eqb_spec c QUOTE) as [->|]; [done|done]. }
    by rewrite (scan_tok_app sep v rest).
  - assert (v +:+ rest = String QUOTE (escape_field_string t +:+ String QUOTE rest)) as ->
      by (rewrite Hv; unfold quoted; by rewrite !string_app_assoc).
    cbn [expect]. rewrite Ascii.eqb_refl.
    rewrite scan_tok_app; [|apply escape_field_safe|by apply stops_at_char]. cbn [expect].
    rewrite Ascii.eqb_refl. cbn. by rewrite Hv.
Qed.

Lemma render_more_cons kv l : render_more (kv :: l) = "," +:+ kv.1 +:+ "=" +:+ kv.2 +:+ render_more l.
Proof. unfold render_more. cbn [fmap list_fmap concat_strings foldr]. by rewrite !string_app_assoc. Qed.

Lemma render_more_stops l rest : stops_at sep rest → stops_at sep (render_more l +:+ rest).
Proof. destruct l as [|kv l]; [done|]. intros _. unfold render_more. simpl. by split. Qed.

Lemma scan_more_ok item (ok : string * string → Prop) l rest n :
  (∀ kv r, ok kv → stops_at sep r → item (kv.1 +:+ "=" +:+ kv.2 +:+ r) = Some (kv.1, kv.2, r)) →
  Forall ok l → (length l ≤ n)%nat → stops_at sep rest → expect "," rest = None →
  scan_more item n (render_more l +:+ rest) = Some (l, rest).
Proof.
  intros Hitem Hl. revert n. induction Hl as [|kv l Hkv Hl IH]; intros n Hn Hr He.
  - change (render_more [] +:+ rest) with rest. by destruct n; cbn [scan_more]; rewrite He.
  - destruct n as [|n]; [simpl in Hn; lia|]. simpl in Hn.
    assert (render_more (kv :: l) +:+ rest = "," +:+ kv.1 +:+ "=" +:+ kv.2 +:+ render_more l +:+ rest) as ->
      by (rewrite render_more_cons; by rewrite !string_app_assoc).
    cbn [scan_more]. change (expect "," ("," +:+ ?x)) with (Some x).
    change (expect "," ("," +:+ kv.1 +:+ "=" +:+ kv.2 +:+ render_more l +:+ rest))
      with (Some (kv.1 +:+ "=" +:+ kv.2 +:+ render_more l +:+ rest)). cbv iota.
    rewrite Hitem by (by try apply render_more_stops). cbn. rewrite IH by (done || lia). cbn. by destruct kv.
Qed.

Lemma render_more_length l : (length l ≤ String.length (render_more l))%nat.
Proof.
  induction l as [|kv l IH]; [done|]. unfold render_more in *. cbn [fmap list_fmap concat_strings foldr].
  rewrite string_length_app. simpl. unfold concat_strings in IH. lia.
Qed.

(** Scanning the text of a well-formed row gives the row. *)
Lemma scan_render r : row_ok r → scan_row (render r) = Some r.
Proof.
  destruct r as [m tags fields t]. intros (Hm & Ht & Hne & Hf & _). simpl in *.
  destruct fields as [|f more]; [done|]. apply Forall_cons in Hf as [Hf Hmore].
  unfold scan_row, render. cbn [row_measurement row_tags row_fields row_time].
  set (s := m +:+ _). assert (length tags ≤ String.length s ∧ length more ≤ String.length s)%nat as [Hn1 Hn2].
  { pose proof (render_more_length tags). pose proof (render_more_length more).
    unfold s. rewrite !string_length_app. lia. }
  set (n := String.length s) in *. clearbody n. unfold s. clear s.
  rewrite scan_tok_app; [|by apply plain_safe|apply render_more_stops; by apply stops_at_char].
  rewrite (scan_more_ok scan_tag tag_ok); [|apply scan_tag_ok|done|done|by apply stops_at_char|done].
  cbn [mbind option_bind]. change (expect " " (" " +:+ ?x)) with (Some x).
  cbn [expect String.append Ascii.eqb Bool.eqb mbind option_bind]. rewrite !string_app_assoc.
  rewrite scan_field_ok; [|done|apply render_more_stops; by apply stops_at_char].
  cbn [mbind option_bind].
  rewrite (scan_more_ok scan_field field_ok); [|apply scan_field_ok|done|done|by apply stops_at_char|done].
  cbn. by destruct f.
Qed.

Lemma quoted_no_LF t : has_char LF (quoted t) = false.
Proof. unfold quoted. rewrite !has_char_app. by rewrite (proj2 (escape_field_safe t)). Qed.

Lemma render_more_no_LF l :
  Forall (λ kv, has_char LF kv.1 = false ∧ has_char LF kv.2 = false) l → has_char LF (render_more l) = false.
Proof.
  induction 1 as [|kv l [Hk Hv] Hl IH]; [done|]. unfold render_more in *.
  cbn [fmap list_fmap concat_strings foldr] in *. unfold concat_strings in IH.
  by rewrite !has_char_app, Hk, Hv, IH.
Qed.

(** A well-formed row is one line. *)
Lemma render_no_LF r : row_ok r → has_char LF (render r) = false.
Proof.
  assert (∀ s, plain s = true → has_char LF s = false) as Hp
    by (intros s Hs; by destruct (plain_safe s Hs) as (_ & _ & ? & _)).
  intros (Hm & Ht & _ & Hf & Htime). unfold render.
  assert (has_char LF (render_more (row_tags r)) = false) as Htags.
  { apply render_more_no_LF. eapply Forall_impl; [exact Ht|]. intros [k v] [Hk [t Hv]]. simpl in *.
    rewrite Hp by done. rewrite Hv. split; [done|apply escape_tag_safe]. }
  assert (Forall (λ kv, has_char LF kv.1 = false ∧ has_char LF kv.2 = false) (row_fields r)) as Hfields.
  { eapply Forall_impl; [exact Hf|]. intros [k v] [Hk Hv]. simpl in *. rewrite Hp by done. split; [done|].
    destruct Hv as [Hv|[t ->]]; [by apply Hp|apply quoted_no_LF]. }
  destruct (row_fields r) as [|f more]; rewrite !has_char_app, Htags, (Hp _ Hm), (Hp _ Htime); [done|].
  apply Forall_cons in Hfields as [[Hk Hv] Hmore]. by rewrite Hk, Hv, render_more_no_LF.
Qed.

(** *** The rows the formatters build *)

Definition base_tags (runtime_name : string) : list (string * string) :=
  [("runtime_name", escape_tag runtime_name)].

Definition value_fields (to_chars : double → string) (value : TypedValue) : list (string * string) :=
  match value with
  | TDouble d => if nan_or_inf d then [] else [("value_double", to_chars d)]
  | TInt64 z => [("value_int", to_string z +:+ "i")]
  | TUint64 z => [("value_uint", to_string z +:+ "u")]
  | TBool b => [("value_bool", bool_text b)]
  | TString s => [("value_string", quoted s)]
  end.

(** The row of an event as structure: the tags it must have, and its fields. *)
Definition event_spec (to_chars : double → string) (runtime_name : string) (e : Event) : option Row :=
  match e with
  | StateUpdate _ pid did sid value q t =>
      Some (mkRow "anolis_signal"
        (base_tags runtime_name ++ [("provider_id", escape_tag pid); ("device_id", escape_tag did);
                                    ("signal_id", escape_tag sid)])
        (value_fields to_chars value ++ [("quality", quoted (quality_to_string q))]) (to_string t))
  | ModeChange _ previous new t =>
      Some (mkRow "mode_change" (base_tags runtime_name)
        [("previous_mode", quoted previous); ("new_mode", quoted new)] (to_string t))
  | ParameterChange _ name old new t =>
      Some (mkRow "parameter_change" (base_tags runtime_name ++ [("parameter_name", escape_tag name)])
        [("old_value", quoted old); ("new_value", quoted new)] (to_string t))
  | _ => None
  end.

Lemma string_app_ne_r a b : b ≠ "" → a +:+ b ≠ "".
Proof. by destruct a. Qed.

Lemma last_char_app a b : b ≠ "" → last_char (a +:+ b) = last_char b.
Proof.
  intros Hb. induction a as [|c a IH]; [done|]. rewrite string_app_cons. simpl.
  rewrite <- IH. destruct (a +:+ b) eqn:E; [by destruct a, b|done].
Qed.

Lemma plain_last s : plain s = true → last_char s ≠ Some " "%char.
Proof.
  induction s as [|c s IH]; [done|]. simpl. intros [Hc Hs]%andb_true_iff.
  destruct s; [by intros [= ->]|by apply IH].
Qed.

Section Rows.
Context (to_chars : double → string).
(** [std::to_chars] writes digits, a sign, a point and an exponent. *)
Hypothesis to_chars_plain : ∀ d, nan_or_inf d = false → plain (to_chars d) = true.

Lemma value_field_spec value :
  value_field to_chars value = match value_fields to_chars value with [] => "" | f :: _ => f.1 +:+ "=" +:+ f.2 end ∧
  (value_fields to_chars value = [] ∧ value_field to_chars value = "" ∨
   ∃ f, value_fields to_chars value = [f] ∧ value_field to_chars value ≠ "" ∧
        last_char (value_field to_chars value) ≠ Some " "%char).
Proof.
  split; [destruct value as [d| | | |]; simpl; try done; by destruct (nan_or_inf d)|].
  destruct value as [d|z|z|b|s]; cbn [value_field value_fields].
  - destruct (nan_or_inf d) eqn:E; [by left|]. right. eexists. split_and!; [done|done|].
    change "value_double=" with ("value_double" +:+ "="). destruct (decide (to_chars d = "")) as [->|Hne]; [done|].
    rewrite last_char_app by done. apply plain_last. auto.
  - right. eexists. split_and!; [done|done|].
    rewrite last_char_app by (by apply string_app_ne_r). by rewrite last_char_app.
  - right. eexists. split_and!; [done|done|].
    rewrite last_char_app by (by apply string_app_ne_r). by rewrite last_char_app.
  - right. eexists. split_and!; [done|done|by destruct b].
  - right. eexists. split_and!; [done|done|]. unfold quoted.
    rewrite last_char_app by done. rewrite last_char_app by (by apply string_app_ne_r).
    by rewrite last_char_app.
Qed.

Lemma value_fields_ok value : Forall field_ok (value_fields to_chars value).
Proof.
  destruct value as [d|z|z|b|s]; cbn [value_fields].
  - destruct (nan_or_inf d) eqn:E; constructor; [|constructor]. split; [done|]. left. by apply to_chars_plain.
  - apply Forall_singleton. split; [done|]. left. cbn [snd]. by rewrite plain_app, to_string_plain.
  - apply Forall_singleton. split; [done|]. left. cbn [snd]. by rewrite plain_app, to_string_plain.
  - apply Forall_singleton. split; [done|]. left. apply bool_text_plain.
  - apply Forall_singleton. split; [done|]. right. by exists s.
Qed.

Lemma event_spec_ok runtime_name e r : event_spec to_chars runtime_name e = Some r → row_ok r.
Proof.
  assert (∀ k s, plain k = true → tag_ok (k, escape_tag s)) as Ht by (intros; split; eauto).
  assert (∀ k s, plain k = true → field_ok (k, quoted s)) as Hq by (intros; split; eauto).
  destruct e; intros [= <-]; unfold row_ok, base_tags; cbn [row_measurement row_tags row_fields row_time];
    (split_and!; [done| |try done; by destruct (value_fields _ _)| |apply to_string_plain]);
    rewrite ?Forall_app, ?Forall_cons, ?Forall_nil; split_and!; auto using value_fields_ok.
Qed.

Lemma format_line_protocol_render pid did sid value q t runtime_name :
  format_line_protocol to_chars pid did sid value q t runtime_name =
  render (mkRow "anolis_signal"
    (base_tags runtime_name ++ [("provider_id", escape_tag pid); ("device_id", escape_tag did);
                                ("signal_id", escape_tag sid)])
    (value_fields to_chars value ++ [("quality", quoted (quality_to_string q))]) (to_string t)).
Proof.
  unfold format_line_protocol.
  set (head := "anolis_signal" +:+ ",runtime_name=" +:+ escape_tag runtime_name +:+
    ",provider_id=" +:+ escape_tag pid +:+ ",device_id=" +:+ escape_tag did +:+
    ",signal_id=" +:+ escape_tag sid +:+ " ").
  assert (∀ x, "anolis_signal" +:+ ",runtime_name=" +:+ escape_tag runtime_name +:+
    ",provider_id=" +:+ escape_tag pid +:+ ",device_id=" +:+ escape_tag did +:+
    ",signal_id=" +:+ escape_tag sid +:+ " " +:+ x = head +:+ x) as Hhead
    by (intros; unfold head; by rewrite !string_app_assoc).
  rewrite Hhead.
  assert (last_char head = Some " "%char) as Hlast
    by (unfold head; by rewrite !last_char_app by (by repeat apply string_app_ne_r)).
  assert ("quality=" +:+ quote +:+ quality_to_string q +:+ quote +:+ " " +:+ to_string t =
          "quality" +:+ "=" +:+ quoted (quality_to_string q) +:+ " " +:+ to_string t) as -> by (by destruct q).
  unfold render, render_more, base_tags. cbn [row_measurement row_tags row_fields row_time].
  destruct (value_field_spec value) as [Hv [[Hf Hv0]|(f & Hf & Hne & Hl)]]; rewrite Hf in *.
  - rewrite Hv0, string_app_nil_r. rewrite bool_decide_eq_true_2 by done.
    unfold head. cbn. rewrite !string_app_assoc. done.
  - rewrite last_char_app by done. rewrite bool_decide_eq_false_2 by done. rewrite Hv.
    unfold head. cbn. rewrite !string_app_assoc. done.
Qed.

Lemma event_row_render runtime_name e :
  event_row to_chars runtime_name e = render <$> event_spec to_chars runtime_name e.
Proof.
  destruct e as [i pid did sid value q t| | |i previous new t|i name old new t| | | | |]; try done; simpl; f_equal.
  - apply format_line_protocol_render.
  - unfold format_mode_change_line_protocol, render, render_more, base_tags. cbn. by rewrite !string_app_assoc.
  - unfold format_parameter_change_line_protocol, render, render_more, base_tags. cbn. by rewrite !string_app_assoc.
Qed.
End Rows.

(** *** Health rows *)

Definition int_field (key : string) (z : Z) : string * string := (key, to_string z +:+ "i").
Definition bool_field (key : string) (b : bool) : string * string := (key, bool_text b).
Definition text_field (key : string) (s : string) : string * string := (key, quoted s).

Definition int_metric (metrics : gmap string string) (key : string) : option (string * string) :=
  int_field key <$> (metrics !! key ≫= parse_metric_int).
Definition bool_metric (metrics : gmap string string) (key : string) : option (string * string) :=
  bool_field key <$> (metrics !! key ≫= parse_metric_bool).
Definition string_metric (metrics : gmap string string) (key : string) : option (string * string) :=
  text ← metrics !! key;
  if bool_decide (text = "") then None
  else Some (text_field key (if (String.length text <=? kMaxStringFieldLen)%nat then text
                             else String.substring 0 kMaxStringFieldLen text)).

Definition provider_spec (ps : ProviderHealthSnapshot) (runtime_name : string) (timestamp_ms : Z) : Row :=
  mkRow "anolis_provider_health" (base_tags runtime_name ++ [("provider_id", escape_tag (phs_provider_id ps))])
    ([text_field "state" (phs_state ps); text_field "lifecycle_state" (phs_lifecycle_state ps);
      bool_field "degraded" (phs_degraded ps); int_field "failed_device_count" (phs_failed_device_count ps);
      int_field "device_count" (phs_device_count ps); int_field "uptime_seconds" (phs_uptime_seconds ps);
      bool_field "supervision_enabled" (sv_enabled (phs_supervision ps));
      int_field "attempt_count" (sv_attempt_count (phs_supervision ps));
      bool_field "crash_detected" (sv_crash_detected (phs_supervision ps));
      bool_field "circuit_open" (sv_circuit_open (phs_supervision ps))] ++
     match phs_reported ps with
     | Some rep => omap (int_metric (rp_metrics rep)) provider_int_keys
     | None => []
     end) (to_string timestamp_ms).

Definition device_spec (pid runtime_name : string) (timestamp_ms : Z) (ds : DeviceHealthSnapshot) : Row :=
  mkRow "anolis_device_health"
    (base_tags runtime_name ++ [("provider_id", escape_tag pid); ("device_id", escape_tag (dhs_device_id ds))])
    ([text_field "health" (dhs_health ds); bool_field "registered" (dhs_registered ds)] ++
     (if 0 <? dhs_last_poll_ms ds then
        [int_field "staleness_ms" (dhs_staleness_ms ds);
         int_field "stale_signal_count" (dhs_stale_signal_count ds);
         int_field "fault_signal_count" (dhs_fault_signal_count ds)]
      else []) ++
     (if bool_decide (dhs_type_version ds = "") then [] else [text_field "type_version" (dhs_type_version ds)]) ++
     match dhs_reported ds with
     | Some rep => omap (int_metric (rd_metrics rep)) device_int_keys ++
                   omap (bool_metric (rd_metrics rep)) device_bool_keys ++
                   omap (string_metric (rd_metrics rep)) device_string_keys
     | None => []
     end) (to_string timestamp_ms).

Definition health_spec (ps : ProviderHealthSnapshot) (runtime_name : string) (timestamp_ms : Z) : list Row :=
  provider_spec ps runtime_name timestamp_ms ::
  (device_spec (phs_provider_id ps) runtime_name timestamp_ms <$> phs_devices ps).

Lemma render_more_app l k : render_more (l ++ k) = render_more l +:+ render_more k.
Proof.
  induction l as [|kv l IH]; [done|]. unfold render_more, concat_strings in *. cbn [app fmap list_fmap foldr] in *.
  by rewrite IH, !string_app_assoc.
Qed.

Lemma render_more_omap (f : string → option (string * string)) (g : string → string) keys :
  (∀ k, g k = match f k with Some kv => "," +:+ kv.1 +:+ "=" +:+ kv.2 | None => "" end) →
  concat_strings (g <$> keys) = render_more (omap f keys).
Proof.
  intros Hg. induction keys as [|k keys IH]; [done|]. cbn [fmap list_fmap omap list_omap concat_strings foldr].
  rewrite Hg. unfold concat_strings in IH. rewrite IH. by destruct (f k).
Qed.

Lemma append_metrics_render metrics int_keys bool_keys :
  append_allowlisted_metrics metrics int_keys bool_keys =
  render_more (omap (int_metric metrics) int_keys ++ omap (bool_metric metrics) bool_keys).
Proof.
  unfold append_allowlisted_metrics. rewrite render_more_app. f_equal; apply render_more_omap; intros k.
  - unfold append_int_metric, int_metric. destruct (metrics !! k) as [x|]; [|done]. cbn.
    by destruct (parse_metric_int x).
  - unfold append_bool_metric, bool_metric. destruct (metrics !! k) as [x|]; [|done]. cbn.
    by destruct (parse_metric_bool x).
Qed.

Lemma append_strings_render metrics keys :
  append_allowlisted_strings metrics keys = render_more (omap (string_metric metrics) keys).
Proof.
  apply render_more_omap. intros k. unfold append_string_metric, string_metric.
  destruct (metrics !! k) as [text|]; [|done]. cbn. by destruct (bool_decide _).
Qed.

Lemma format_provider_line_render ps runtime_name t :
  format_provider_line ps runtime_name t = render (provider_spec ps runtime_name t).
Proof.
  unfold format_provider_line, provider_spec, render, base_tags, text_field, bool_field, int_field.
  cbn [row_measurement row_tags row_fields row_time app fst snd].
  destruct (phs_reported ps) as [rep|].
  - rewrite append_metrics_render, app_nil_r, !render_more_cons. cbn [fst snd]. by rewrite !string_app_assoc.
  - rewrite !render_more_cons. cbn [fst snd]. by rewrite !string_app_assoc.
Qed.

Lemma format_device_line_render pid runtime_name t ds :
  format_device_line pid runtime_name t ds = render (device_spec pid runtime_name t ds).
Proof.
  unfold format_device_line, device_spec, render, base_tags.
  cbn [row_measurement row_tags row_fields row_time app fst snd].
  set (polled := if 0 <? dhs_last_poll_ms ds then _ else _).
  set (polled_fields := if 0 <? dhs_last_poll_ms ds then _ else []).
  set (version := if bool_decide (dhs_type_version ds = "") then "" else _).
  set (version_fields := if bool_decide (dhs_type_version ds = "") then [] else _).
  assert (polled = render_more polled_fields) as ->.
  { unfold polled, polled_fields. destruct (0 <? dhs_last_poll_ms ds); [|done]. unfold render_more. cbn.
    rewrite !string_app_assoc. by rewrite string_app_nil_r. }
  assert (version = render_more version_fields) as ->.
  { unfold version, version_fields. destruct (bool_decide _); [done|]. unfold render_more. cbn.
    by rewrite string_app_nil_r. }
  clearbody polled_fields version_fields.
  destruct (dhs_reported ds) as [rep|].
  - rewrite append_metrics_render, append_strings_render. rewrite !render_more_cons, !render_more_app.
    unfold text_field, bool_field. cbn [fst snd]. by rewrite !string_app_assoc.
  - rewrite app_nil_r, !render_more_cons, !render_more_app.
    unfold text_field, bool_field. cbn [fst snd]. by rewrite !string_app_assoc.
Qed.

Lemma int_field_ok k z : plain k = true → field_ok (int_field k z).
Proof. intros. split; [done|]. left. cbn [int_field snd]. by rewrite plain_app, to_string_plain. Qed.

Lemma bool_field_ok k b : plain k = true → field_ok (bool_field k b).
Proof. intros. split; [done|]. left. apply bool_text_plain. Qed.

Lemma text_field_ok k s : plain k = true → field_ok (text_field k s).
Proof. intros. split; [done|]. right. by exists s. Qed.

Lemma tag_field_ok k s : plain k = true → tag_ok (k, escape_tag s).
Proof. intros. split; eauto. Qed.

Create HintDb rows.
#[export] Hint Resolve int_field_ok bool_field_ok text_field_ok tag_field_ok : rows.

Lemma omap_fields_ok (f : string → option (string * string)) keys :
  (∀ k kv, plain k = true → f k = Some kv → field_ok kv) →
  forallb plain keys = true → Forall field_ok (omap f keys).
Proof.
  intros Hf. induction keys as [|k keys IH]; [by constructor|]. simpl. intros [Hk Hkeys]%andb_true_iff.
  destruct (f k) eqn:E; [constructor|]; eauto.
Qed.

Lemma int_metric_ok metrics k kv : plain k = true → int_metric metrics k = Some kv → field_ok kv.
Proof. unfold int_metric. intros Hk (z & _ & ->)%fmap_Some. by apply int_field_ok. Qed.

Lemma bool_metric_ok metrics k kv : plain k = true → bool_metric metrics k = Some kv → field_ok kv.
Proof. unfold bool_metric. intros Hk (b & _ & ->)%fmap_Some. by apply bool_field_ok. Qed.

Lemma string_metric_ok metrics k kv : plain k = true → string_metric metrics k = Some kv → field_ok kv.
Proof.
  unfold string_metric. intros Hk (x & _ & Hx)%bind_Some. destruct (bool_decide _); simplify_eq.
  by apply text_field_ok.
Qed.

#[export] Hint Resolve int_metric_ok bool_metric_ok string_metric_ok omap_fields_ok to_string_plain : rows.

Lemma health_spec_ok ps runtime_name t : Forall row_ok (health_spec ps runtime_name t).
Proof.
  unfold health_spec. constructor.
  - unfold provider_spec, row_ok, base_tags. cbn [row_measurement row_tags row_fields row_time].
    split_and!; [done|repeat constructor; eauto|done| |auto with rows].
    apply Forall_app. split; [repeat (constructor; [by auto with rows|]); constructor|].
    destruct (phs_reported ps); [|constructor]. apply omap_fields_ok; [eauto with rows|done].
  - apply Forall_fmap, Forall_true. intros ds. unfold device_spec, row_ok, base_tags, compose.
    cbn [row_measurement row_tags row_fields row_time].
    split_and!; [done|repeat constructor; eauto|done| |auto with rows].
    repeat (apply Forall_app; split).
    + repeat (constructor; [by auto with rows|]). constructor.
    + destruct (0 <? _); repeat (constructor; [by auto with rows|]); constructor.
    + destruct (bool_decide _); repeat (constructor; [by auto with rows|]); constructor.
    + destruct (dhs_reported ds); [|constructor].
      repeat (apply Forall_app; split); (apply omap_fields_ok; [eauto with rows|done]).
Qed.

Lemma health_rows_render snapshot runtime_name t :
  health_task_rows snapshot runtime_name t = render <$> (snapshot ≫= λ ps, health_spec ps runtime_name t).
Proof.
  assert (∀ ps, format_health_lines ps runtime_name t = render <$> health_spec ps runtime_name t) as Hps.
  { intros ps. unfold format_health_lines, health_spec. rewrite fmap_cons, <- list_fmap_compose.
    f_equal; [apply format_provider_line_render|].
    apply list_fmap_ext. intros _ ds _. apply format_device_line_render. }
  unfold health_task_rows. induction snapshot as [|ps snapshot IH]; [done|].
  rewrite !bind_cons, fmap_app, Hps. by f_equal.
Qed.

(** *** The posted body *)

Lemma read_build_body lines :
  Forall (λ l, has_char LF l = false) lines → read_lines (build_body lines) = lines.
Proof.
  unfold read_lines, build_body, concat_strings.
  induction 1 as [|l lines Hl _ IH]; [done|]. cbn [fmap list_fmap foldr]. rewrite string_app_assoc.
  change (char_string LF +:+ ?x) with (String LF x). rewrite read_line by done. by rewrite IH.
Qed.

(** Reading the posted text of well-formed rows gives the rows. *)
Lemma scan_body rows :
  Forall row_ok rows → mapM scan_row (read_lines (build_body (render <$> rows))) = Some rows.
Proof.
  intros Hrows. rewrite read_build_body.
  - induction Hrows as [|r rows Hr _ IH]; [done|]. cbn. rewrite scan_render by done. cbn. by rewrite IH.
  - apply Forall_fmap. eapply Forall_impl; [exact Hrows|]. apply render_no_LF.
Qed.

(** C37. Whatever texts providers, operators and devices supply, the body the
    sink posts reads back as exactly the rows it means: one row per event and
    per health snapshot, in order, each with the tags and fields of its
    measurement and no others, so no value can split, forge or re-tag a row. *)
Theorem posted_body_reads_back (to_chars : double → string) (runtime_name : string) (events : list Event)
    (snapshot : list ProviderHealthSnapshot) (t : Z) :
  (∀ d, nan_or_inf d = false → plain (to_chars d) = true) →
  mapM scan_row (read_lines (build_body
    (omap (event_row to_chars runtime_name) events ++ health_task_rows snapshot runtime_name t))) =
  Some (omap (event_spec to_chars runtime_name) events ++
        (snapshot ≫= λ ps, health_spec ps runtime_name t)).
Proof.
  intros Hplain. rewrite health_rows_render.
  assert (omap (event_row to_chars runtime_name) events =
          render <$> omap (event_spec to_chars runtime_name) events) as ->.
  { induction events as [|e events IH]; [done|]. cbn [omap list_omap]. rewrite event_row_render by done.
    destruct (event_spec to_chars runtime_name e); [|done]. cbn. by f_equal. }
  rewrite <- fmap_app. apply scan_body. apply Forall_app. split.
  - apply Forall_forall. intros r (e & _ & He)%list_elem_of_omap. by eapply event_spec_ok.
  - apply Forall_bind, Forall_true. intros ps. apply health_spec_ok.
Qed.

(** A device id that tries to close its row and open another stays one tag. *)
Example posted_body_reads_back_witness :
  let to_chars := λ _ : double, "1.5" in
  let evil := "pump v=1 1" +:+ String LF "anolis_signal,device_id=x" in
  let e := StateUpdate 1 "sim0" evil "t" (TDouble (double_of_Z 1)) Q_OK 7 in
  length (read_lines (build_body (omap (event_row to_chars "r") [e]))) = 1%nat ∧
  mapM scan_row (read_lines (build_body (omap (event_row to_chars "r") [e] ++ health_task_rows [] "r" 0))) =
  Some (omap (event_spec to_chars "r") [e]).
Proof.
  split; [vm_compute; reflexivity|].
  refine (posted_body_reads_back (λ _, "1.5") "r"
    [StateUpdate 1 "sim0" ("pump v=1 1" +:+ String LF "anolis_signal,device_id=x") "t"
       (TDouble (double_of_Z 1)) Q_OK 7] [] 0 _). intros d _. reflexivity.
Defined.

(** ** Escaping loses nothing but control bytes *)

(** A reader that drops each escaping backslash. *)
Fixpoint unescape (s : string) : string :=
  match s with
  | EmptyString => ""
  | String c r =>
      if Ascii.eqb c BACKSLASH then
        match r with EmptyString => s | String d r' => String d (unescape r') end
      else String c (unescape r)
  end.

Fixpoint control_free (s : string) : bool :=
  match s with EmptyString => true | String c r => negb (is_control c) && control_free r end.

Lemma unescape_concat_map f s :
  (∀ c, is_control c = false → f c = String BACKSLASH (char_string c) ∨ (f c = char_string c ∧ c ≠ BACKSLASH)) →
  control_free s = true → unescape (concat_map f s) = s.
Proof.
  intros Hf. induction s as [|c s IH]; [done|]. simpl. intros [Hc%negb_true_iff Hs]%andb_true_iff.
  destruct (Hf c Hc) as [->|[-> Hb]]; cbn -[BACKSLASH]; unfold String.append; cbn -[BACKSLASH].
  - rewrite Ascii.eqb_refl. by rewrite IH.
  - destruct (Ascii.eqb_spec c BACKSLASH); [done|]. by rewrite IH.
Qed.

(** Escaping is injective on text without control bytes: dropping the
    escaping backslashes gives the tag value or the field text back, so two
    devices keep distinct series and a field keeps its text. *)
Theorem escaping_roundtrip (s : string) :
  control_free s = true → unescape (escape_tag s) = s ∧ unescape (escape_field_string s) = s.
Proof.
  intros Hs. split; (apply unescape_concat_map; [|done]); clear; intros c;
    destruct c as [[] [] [] [] [] [] [] []]; vm_compute; intros; try done; (by left) || (by right).
Qed.

Example escaping_roundtrip_witness :
  escape_tag "a,b =\" = "a\,b\ \=\\" ∧ unescape (escape_tag "a,b =\") = "a,b =\".
Proof. split; [reflexivity|]. apply (escaping_roundtrip "a,b =\"). reflexivity. Defined.

(** ** Accounting for rows *)

(** The sink while it runs, with the rows being posted and, for the statement,
    every row enqueued so far, those the server accepted, and how many were
    dropped and rejected. *)
Record SinkRun := mkRun {
  run_sink : InfluxSink;
  run_posting : option (list string);
  run_enqueued : list string;
  run_accepted : list string;
  run_dropped : Z;
  run_rejected : Z;
}.

Definition dropped_by (s : InfluxSink) (lines : list string) (o : PostOutcome) : Z :=
  match classify o with
  | Written => 0
  | Rejected => Z.of_nat (length lines)
  | Transient => (keep_for_retry (in_max_retry_buffer_size (s_config s)) (s_retry_buffer s) lines).2
  end.

Inductive sink_step (to_chars : double → string) : SinkRun → SinkRun → Prop :=
| sink_enqueue lines s p enq acc d r :
    sink_step to_chars (mkRun s p enq acc d r) (mkRun (enqueue_lines lines s) p (enq ++ lines) acc d r)
| sink_event e s p enq acc d r :
    sink_step to_chars (mkRun s p enq acc d r)
      (mkRun (collect_event to_chars e s) p
         (enq ++ match event_row to_chars (in_runtime_name (s_config s)) e with Some row => [row] | None => [] end)
         acc d r)
| sink_take s lines s' enq acc d r :
    take_lines s = (lines, s') → lines ≠ [] →
    sink_step to_chars (mkRun s None enq acc d r) (mkRun s' (Some lines) enq acc d r)
| sink_settle o s lines enq acc d r :
    sink_step to_chars (mkRun s (Some lines) enq acc d r)
      (mkRun (settle lines o s) None enq
         (match classify o with Written => acc ++ lines | _ => acc end) (d + dropped_by s lines o)
         (match classify o with Rejected => r + Z.of_nat (length lines) | _ => r end)).

Definition held_rows (x : SinkRun) : list string :=
  s_retry_buffer (run_sink x) ++ default [] (run_posting x) ++ s_batch (run_sink x).

Record sink_inv (max : Z) (x : SinkRun) : Prop := {
  inv_max : in_max_retry_buffer_size (s_config (run_sink x)) = max;
  inv_order : sublist (run_accepted x ++ held_rows x) (run_enqueued x);
  inv_count : Z.of_nat (length (run_enqueued x)) =
    Z.of_nat (length (run_accepted x)) + run_dropped x + Z.of_nat (length (held_rows x));
  inv_retry : Z.of_nat (length (s_retry_buffer (run_sink x))) ≤ Z.max 0 max;
  inv_posting : is_Some (run_posting x) → s_retry_buffer (run_sink x) = [];
  inv_written : s_total_written (run_sink x) = to_uint64 (Z.of_nat (length (run_accepted x)));
  inv_failed : s_total_failed (run_sink x) = to_uint64 (run_dropped x);
  inv_rejected : s_total_rejected (run_sink x) = to_uint64 (run_rejected x);
  inv_le : 0 ≤ run_rejected x ≤ run_dropped x;
}.

Definition run_start (config : InfluxConfig) : SinkRun := mkRun (new_sink config) None [] [] 0 0.

Lemma sink_inv_start config : sink_inv (in_max_retry_buffer_size config) (run_start config).
Proof. constructor; simpl; try done; try lia; by intros []. Qed.

Lemma to_uint64_add a b : to_uint64 (to_uint64 a + b) = to_uint64 (a + b).
Proof. unfold to_uint64. apply Z.add_mod_idemp_l. done. Qed.

Lemma sink_inv_enqueue max lines s p enq acc d r :
  sink_inv max (mkRun s p enq acc d r) →
  sink_inv max (mkRun (enqueue_lines lines s) p (enq ++ lines) acc d r).
Proof.
  intros [Hm Ho Hc Hr Hp Hw Hf Hj Hl]. unfold held_rows in *. simpl in *.
  destruct lines as [|l lines]; [by rewrite app_nil_r|].
  constructor; unfold held_rows; simpl in *; try done.
  - rewrite !app_assoc in *. by apply sublist_app.
  - rewrite !length_app in *. simpl. lia.
Qed.

Lemma keep_for_retry_spec max lines :
  let '(retry, dropped) := keep_for_retry max [] lines in
  sublist retry lines ∧ Z.of_nat (length retry) ≤ Z.max 0 max ∧ 0 ≤ dropped ∧
  Z.of_nat (length lines) = Z.of_nat (length retry) + dropped.
Proof.
  unfold keep_for_retry. simpl length. change (Z.of_nat 0) with 0. rewrite Z.sub_0_r.
  destruct (Z.ltb_spec 0 max) as [Hmax|Hmax].
  - rewrite (proj2 (Z.ltb_lt 0 max) Hmax). simpl. split; [apply sublist_take|]. rewrite length_take. lia.
  - simpl. split; [apply sublist_nil_l|]. lia.
Qed.

Lemma sink_inv_settle max o s lines enq acc d r :
  sink_inv max (mkRun s (Some lines) enq acc d r) →
  sink_inv max (mkRun (settle lines o s) None enq
    (match classify o with Written => acc ++ lines | _ => acc end) (d + dropped_by s lines o)
    (match classify o with Rejected => r + Z.of_nat (length lines) | _ => r end)).
Proof.
  intros [Hm Ho Hc Hr Hp Hw Hf Hj Hl]. unfold held_rows in *. simpl in *.
  rewrite Hp in * by eauto. simpl in *. unfold settle, dropped_by. rewrite Hp by eauto.
  destruct (classify o); [| |pose proof (keep_for_retry_spec (in_max_retry_buffer_size (s_config s)) lines) as Hk;
    destruct (keep_for_retry _ _ _) as [retry dropped]; simpl in *; destruct Hk as (K1 & K2 & K3 & K4)];
    constructor; unfold held_rows; simpl; rewrite ?Hp by eauto; simpl; try done; try by intros [].
  all: rewrite ?Hw, ?Hf, ?Hj, ?to_uint64_add, ?length_app in *; try done; try lia.
  - by rewrite <- app_assoc.
  - f_equal. lia.
  - f_equal. lia.
  - etrans; [|exact Ho]. by apply sublist_app, sublist_inserts_l.
  - etrans; [|exact Ho]. apply sublist_app; [done|]. by apply sublist_app.
Qed.

Lemma sink_inv_step to_chars max x y : sink_inv max x → sink_step to_chars x y → sink_inv max y.
Proof.
  intros Hx Hstep. destruct Hstep as [lines s p enq acc d r|e s p enq acc d r|s lines s' enq acc d r Ht Hne|].
  - by apply sink_inv_enqueue.
  - unfold collect_event. destruct (event_row _ _ _) as [row|]; [by apply sink_inv_enqueue|].
    by rewrite app_nil_r.
  - destruct Hx as [Hm Ho Hc Hr Hp Hw Hf Hj Hl]. unfold take_lines in Ht. simplify_eq.
    unfold held_rows in *. simpl in *.
    constructor; unfold held_rows; simpl; rewrite ?app_nil_r; try done; lia.
  - by apply sink_inv_settle.
Qed.

(** The sink accounts for every row handed to it, however enqueuing
    interleaves with its posts and whatever the server answers: a row is
    accepted by the server, counted as failed, or still held, accepted and held
    rows keep the order they were enqueued in, the retry buffer stays within its
    bound and the counters say what happened. *)
Theorem sink_accounts_for_rows (to_chars : double → string) (config : InfluxConfig) (x : SinkRun) :
  rtc (sink_step to_chars) (run_start config) x →
  Z.of_nat (length (run_enqueued x)) ≤ uint64_max →
  let s := run_sink x in
  sublist (run_accepted x ++ held_rows x) (run_enqueued x) ∧
  s_total_written s = Z.of_nat (length (run_accepted x)) ∧
  Z.of_nat (length (run_enqueued x)) =
    s_total_written s + s_total_failed s + Z.of_nat (length (held_rows x)) ∧
  s_total_rejected s ≤ s_total_failed s ∧
  Z.of_nat (length (s_retry_buffer s)) ≤ Z.max 0 (in_max_retry_buffer_size config).
Proof.
  intros Hreach Hmax s.
  assert (sink_inv (in_max_retry_buffer_size config) x) as [Hm Ho Hc Hr Hp Hw Hf Hj Hl]
    by (eapply rtc_invariant; [apply sink_inv_start| |exact Hreach]; eauto using sink_inv_step).
  unfold s. rewrite Hw, Hf, Hj. rewrite !to_uint64_id by (unfold in_uint64; lia).
  split_and!; [done|done|lia|lia|done].
Qed.

Definition sample_influx : InfluxConfig :=
  mkInflux true "http://localhost:8086" "anolis" "anolis" "token" "r" 100 1000 10000 1.

(** Two rows meet an unreachable server and a retry buffer of one: the older row
    is kept, the newer counted as failed, and the next post delivers the kept
    one ahead of a row enqueued while the first post was under way. *)
Example sink_accounts_for_rows_witness :
  ∃ x, rtc (sink_step (λ _, "")) (run_start sample_influx) x ∧
    run_accepted x = ["a"; "c"] ∧ run_enqueued x = ["a"; "b"; "c"] ∧
    s_total_failed (run_sink x) = 1 ∧ s_total_written (run_sink x) = Z.of_nat (length (run_accepted x)).
Proof.
  assert (∃ x, rtc (sink_step (λ _, "")) (run_start sample_influx) x ∧
    run_accepted x = ["a"; "c"] ∧ run_enqueued x = ["a"; "b"; "c"] ∧ s_total_failed (run_sink x) = 1)
    as (x & Hreach & Hacc & Henq & Hf).
  { eexists. split_and!.
    { eapply rtc_l; [apply (sink_enqueue _ ["a"; "b"])|].
    eapply rtc_l; [eapply (sink_take _ _ ["a"; "b"]); [reflexivity|done]|].
    eapply rtc_l; [apply (sink_enqueue _ ["c"])|].
    eapply rtc_l; [apply (sink_settle _ NoResponse)|].
    eapply rtc_l; [eapply (sink_take _ _ ["a"; "c"]); [reflexivity|done]|].
    eapply rtc_l; [apply (sink_settle _ (Answered 204))|]. apply rtc_refl. }
    all: reflexivity. }
  exists x. split_and!; [exact Hreach|exact Hacc|exact Henq|exact Hf|].
  apply (sink_accounts_for_rows _ _ _ Hreach). rewrite Henq. vm_compute. discriminate.
Defined.
