(* ===== verification/RunJournal.v ===== *)
(** * The run journal ([core/runs/run_journal.cpp], [run_types.hpp])

    Runs and their event streams: the records and their JSON form, the index log
    and the per-run event logs as append-only text files, recovery after a
    restart, and the bounded queue that carries events off the tick thread.
    File-system calls, the clock and the random source answer what the arguments
    say; [None] is an exception that leaves the operation, thrown by [dump()]. *)

From S2P Require Import Prelude Json.

(** ** Data *)

Inductive RunState := Open | Closed.
Inductive CloseReason := OperatorStop | Completed | Failed | Superseded | Abandoned.

Definition run_state_to_string (state : RunState) : string :=
  match state with Open => "open" | Closed => "closed" end.

Definition close_reason_to_string (reason : CloseReason) : string :=
  match reason with
  | OperatorStop => "operator_stop"
  | Completed => "completed"
  | Failed => "failed"
  | Superseded => "superseded"
  | Abandoned => "abandoned"
  end.

Definition close_reason_from_string (s : string) : option CloseReason :=
  if bool_decide (s = "operator_stop") then Some OperatorStop
  else if bool_decide (s = "completed") then Some Completed
  else if bool_decide (s = "failed") then Some Failed
  else if bool_decide (s = "superseded") then Some Superseded
  else if bool_decide (s = "abandoned") then Some Abandoned
  else None.

Inductive RunEventCategory :=
| RunOpened | RunClosed | ModeChange | ParameterChange | AutomationFault | Annotation.

#[global] Instance RunEventCategory_eq_dec : EqDecision RunEventCategory.
Proof. solve_decision. Defined.

Definition category_to_string (c : RunEventCategory) : string :=
  match c with
  | RunOpened => "run_opened"
  | RunClosed => "run_closed"
  | ModeChange => "mode_change"
  | ParameterChange => "parameter_change"
  | AutomationFault => "automation_fault"
  | Annotation => "annotation"
  end.

Definition run_event_category_from_string (s : string) : option RunEventCategory :=
  if bool_decide (s = "run_opened") then Some RunOpened
  else if bool_decide (s = "run_closed") then Some RunClosed
  else if bool_decide (s = "mode_change") then Some ModeChange
  else if bool_decide (s = "parameter_change") then Some ParameterChange
  else if bool_decide (s = "automation_fault") then Some AutomationFault
  else if bool_decide (s = "annotation") then Some Annotation
  else None.

Record TagScope := mkScope {
  ts_provider_ids : list string;
  ts_device_ids : list string;
  ts_signal_ids : list string;
}.

Record AutomationVersionRecord := mkVersion {
  av_engine_kind : string;
  av_id : string;
  av_digest : string;
  av_digest_scope : string;
}.

Record Run := mkRunRecord {
  run_id : string;
  run_label : option string;
  run_state : RunState;
  run_close_reason : option CloseReason;
  run_started_at : Z;
  run_ended_at : option Z;
  run_automation_version : option AutomationVersionRecord;
  run_runtime_version : string;
  run_polling_interval_ms : Z;
  run_params : json;
  run_tag_scope : TagScope;
  run_schema_version : Z;
}.

Record RunOpenSpec := mkOpenSpec {
  os_label : option string;
  os_params : json;
  os_tag_scope : TagScope;
}.

Record RunEvent := mkRunEvent {
  ev_run_id : string;
  ev_sequence : Z;
  ev_category : RunEventCategory;
  ev_type : string;
  ev_occurred_at : Z;
  ev_recorded_at : Z;
  ev_payload : json;
  ev_schema_version : Z;
}.

(** ** JSON form *)

Definition strings_json (l : list string) : json := JArray (JString <$> l).
Definition opt_json {A} (f : A → json) (o : option A) : json := match o with Some a => f a | None => JNull end.

Definition scope_to_json (scope : TagScope) : json :=
  JObject [("device_ids", strings_json (ts_device_ids scope));
           ("provider_ids", strings_json (ts_provider_ids scope));
           ("signal_ids", strings_json (ts_signal_ids scope))].

Definition event_to_json (e : RunEvent) : json :=
  JObject [("category", JString (category_to_string (ev_category e)));
           ("occurred_at_epoch_ms", JInt (ev_occurred_at e));
           ("payload", ev_payload e);
           ("recorded_at_epoch_ms", JInt (ev_recorded_at e));
           ("run_id", JString (ev_run_id e));
           ("schema_version", JInt (ev_schema_version e));
           ("sequence", JInt (ev_sequence e));
           ("type", JString (ev_type e))].

Definition version_to_json (v : AutomationVersionRecord) : json :=
  JObject [("digest", JString (av_digest v)); ("digest_scope", JString (av_digest_scope v));
           ("engine_kind", JString (av_engine_kind v)); ("id", JString (av_id v))].

Definition run_to_json (r : Run) : json :=
  JObject [("automation_version", opt_json version_to_json (run_automation_version r));
           ("close_reason", opt_json (λ c, JString (close_reason_to_string c)) (run_close_reason r));
           ("ended_at_epoch_ms", opt_json JInt (run_ended_at r));
           ("experiment_label", opt_json JString (run_label r));
           ("label", opt_json JString (run_label r));
           ("params", run_params r);
           ("polling_interval_ms", JInt (run_polling_interval_ms r));
           ("run_id", JString (run_id r));
           ("runtime_version", JString (run_runtime_version r));
           ("schema_version", JInt (run_schema_version r));
           ("started_at_epoch_ms", JInt (run_started_at r));
           ("state", JString (run_state_to_string (run_state r)));
           ("tag_scope", scope_to_json (run_tag_scope r))].

Definition to_str_vec (arr : json) : list string :=
  match arr with JArray l => omap jstring l | _ => [] end.

Definition as_object (d : json) : option json := if is_object d then Some d else None.

(** [is_number_unsigned()] and [get<uint64_t>()]. *)
Definition as_unsigned (d : json) : option Z :=
  match d with JInt z => if 0 <=? z then Some z else None | _ => None end.

(** The result, or [None] for [nullopt] and for the type errors the accessors
    throw: every caller skips the line on either. *)
Section FromJson.
Context (cast : double → Z).

Definition run_event_from_json (j : json) : option RunEvent :=
  id ← jmember jstring "run_id" j;
  category ← jvalue jstring "category" "annotation" j ≫= run_event_category_from_string;
  schema ← jvalue (jinteger to_uint32 cast) "schema_version" 1 j;
  sequence ← jvalue (jinteger to_uint64 cast) "sequence" 0 j;
  type ← jvalue jstring "type" "" j;
  occurred ← jvalue (jinteger to_uint64 cast) "occurred_at_epoch_ms" 0 j;
  recorded ← jvalue (jinteger to_uint64 cast) "recorded_at_epoch_ms" 0 j;
  Some (mkRunEvent id sequence category type occurred recorded
          (default (JObject []) (jmember as_object "payload" j)) schema).

Definition version_from_json (v : json) : option AutomationVersionRecord :=
  kind ← jvalue jstring "engine_kind" "" v;
  id ← jvalue jstring "id" "" v;
  digest ← jvalue jstring "digest" "" v;
  scope ← jvalue jstring "digest_scope" "" v;
  Some (mkVersion kind id digest scope).

(** [j["tag_scope"].value(key, array())]. *)
Definition scope_ids (key : string) (scope : json) : list string :=
  to_str_vec (default (JArray []) (jget key scope)).

Definition run_from_json (j : json) : option Run :=
  id ← jmember jstring "run_id" j;
  schema ← jvalue (jinteger to_uint32 cast) "schema_version" 1 j;
  state ← jvalue jstring "state" "open" j;
  started ← jvalue (jinteger to_uint64 cast) "started_at_epoch_ms" 0 j;
  version ← jvalue jstring "runtime_version" "" j;
  polling ← jvalue (jinteger to_int32 cast) "polling_interval_ms" 0 j;
  automation ← match jmember as_object "automation_version" j with
               | Some v => Some <$> version_from_json v
               | None => Some None
               end;
  Some (mkRunRecord id
    (match jmember jstring "label" j with
     | Some l => Some l
     | None => jmember jstring "experiment_label" j
     end)
    (if bool_decide (state = "closed") then Closed else Open)
    (jmember jstring "close_reason" j ≫= close_reason_from_string)
    started (jmember as_unsigned "ended_at_epoch_ms" j) automation version polling
    (default (JObject []) (jmember as_object "params" j))
    (match jmember as_object "tag_scope" j with
     | Some s => mkScope (scope_ids "provider_ids" s) (scope_ids "device_ids" s) (scope_ids "signal_ids" s)
     | None => mkScope [] [] []
     end) schema).
End FromJson.

Definition label_from_open_request (body : json) : result (option string) :=
  let current := jmember jstring "label" body in
  let deprecated := jmember jstring "experiment_label" body in
  match current, deprecated with
  | Some a, Some b => if bool_decide (a = b) then Ok current
                      else Err "label and experiment_label differ; send label only (experiment_label is deprecated)"
  | Some _, None => Ok current
  | None, _ => Ok deprecated
  end.

(** ** Identifiers *)

Definition kEnc : string := "0123456789ABCDEFGHJKMNPQRSTVWXYZ".
Definition enc_char (d : Z) : ascii := default "0"%char (String.get (Z.to_nat d) kEnc).

(** The byte [ts >> (8 * i)]. *)
Definition byte_of (x i : Z) : Z := Z.land (Z.shiftr x (8 * i)) 0xFF.

(** The 16 bytes: a 48-bit big-endian time stamp and 80 bits of entropy, the
    first half mixed with the counter. *)
Definition ulid_bytes (ts_ms counter rng1 rng2 : Z) : list Z :=
  let r1 := Z.lxor rng1 (to_uint64 (counter * 0x9E3779B97F4A7C15)) in
  (byte_of ts_ms <$> [5; 4; 3; 2; 1; 0]) ++ (byte_of r1 <$> [0; 1; 2; 3; 4]) ++ (byte_of rng2 <$> [0; 1; 2; 3; 4]).

(** The encoder's state: the bit buffer, the bits in it that are not written
    yet, and the digits written so far. *)
Record Encoder := mkEnc { en_buffer : Z; en_bits : Z; en_out : list Z }.

(** The inner [while]; it takes five bits a round, so [fuel] rounds with
    [fuel >= bits / 5] reach its end. *)
Fixpoint drain (fuel : nat) (e : Encoder) : Encoder :=
  match fuel with
  | O => e
  | S n =>
      if (5 <=? en_bits e) && (Z.of_nat (length (en_out e)) <? 26) then
        let bits := en_bits e - 5 in
        drain n (mkEnc (en_buffer e) bits (en_out e ++ [Z.land (Z.shiftr (en_buffer e) bits) 0x1F]))
      else e
  end.

Definition push_byte (e : Encoder) (b : Z) : Encoder :=
  drain 3 (mkEnc (Z.lor (to_uint32 (Z.shiftl (en_buffer e) 8)) b) (en_bits e + 8) (en_out e)).

Definition encode (bytes : list Z) : list Z :=
  let e := foldl push_byte (mkEnc 0 0 []) bytes in
  if (0 <? en_bits e) && (Z.of_nat (length (en_out e)) <? 26) then
    en_out e ++ [Z.land (to_uint32 (Z.shiftl (en_buffer e) (5 - en_bits e))) 0x1F]
  else en_out e.

Definition digits_text (l : list Z) : string := foldr (λ d s, String (enc_char d) s) "" l.

(** The string starts as 26 zeros and is overwritten from the left. *)
Definition make_ulid (ts_ms counter rng1 rng2 : Z) : string :=
  let out := encode (ulid_bytes ts_ms counter rng1 rng2) in
  digits_text (out ++ replicate (26 - length out) 0).

(** ** Files *)

(** How the calls on one append go: whether the file opens, what part of the
    text a failed write leaves behind, whether the syncs succeed. *)
Record Io := mkIo {
  io_open_ok : bool;
  io_left_behind : option string;
  io_sync_ok : bool;
  io_dir_sync_ok : bool;
}.

(** The file exists, is not empty and its last byte is not a newline. *)
Fixpoint no_final_newline (s : string) : bool :=
  match s with
  | EmptyString => false
  | String c EmptyString => negb (Ascii.eqb c LF)
  | String _ r => no_final_newline r
  end.

Definition ends_without_newline (content : option string) : bool :=
  match content with Some s => no_final_newline s | None => false end.

Record AppendErrors := mkAppendErrors { ae_open : string; ae_write : string; ae_sync : string; ae_dir : string }.

(** What one append left: whether the line is in the file, and the outcome;
    [None] is the exception [dump()] throws, after the file was opened and the
    newline of a torn line written. *)
Definition append_line (errors : AppendErrors) (line : option string) (io : Io) (content : option string)
    : option (result unit) * bool * option string :=
  let created := bool_decide (content = None) in
  let before := default "" content +:+ (if ends_without_newline content then char_string LF else "") in
  if negb (io_open_ok io) then (Some (Err (ae_open errors)), false, content)
  else match line with
       | None => (None, false, Some before)
       | Some text =>
           match io_left_behind io with
           | Some part => (Some (Err (ae_write errors)), false, Some (default "" content +:+ part))
           | None =>
               let after := Some (before +:+ text +:+ char_string LF) in
               if negb (io_sync_ok io) then (Some (Err (ae_sync errors)), true, after)
               else if created && negb (io_dir_sync_ok io) then (Some (Err (ae_dir errors)), true, after)
               else (Some (Ok tt), true, after)
           end
       end.

(** ** The journal *)

Record QueuedEvent := mkQueued {
  qe_category : RunEventCategory;
  qe_type : string;
  qe_payload : json;
  qe_occurred_at : Z;
}.

Record RunJournal := mkJournal {
  j_dir : string;
  j_runtime_name : string;
  j_polling_interval_ms : Z;
  j_index : option string;
  j_events : gmap string string;
  j_runs : gmap string Run;
  j_order : list string;
  j_open_run_id : option string;
  j_mint_counter : Z;
  j_next_seq : gmap string Z;
  j_fault_queue : list QueuedEvent;
  j_events_dropped : Z;
}.

Definition with_index (c : option string) (j : RunJournal) : RunJournal :=
  mkJournal (j_dir j) (j_runtime_name j) (j_polling_interval_ms j) c (j_events j) (j_runs j) (j_order j)
    (j_open_run_id j) (j_mint_counter j) (j_next_seq j) (j_fault_queue j) (j_events_dropped j).

Definition with_events (m : gmap string string) (seqs : gmap string Z) (j : RunJournal) : RunJournal :=
  mkJournal (j_dir j) (j_runtime_name j) (j_polling_interval_ms j) (j_index j) m (j_runs j) (j_order j)
    (j_open_run_id j) (j_mint_counter j) seqs (j_fault_queue j) (j_events_dropped j).

Definition with_runs (runs : gmap string Run) (order : list string) (open : option string) (j : RunJournal)
    : RunJournal :=
  mkJournal (j_dir j) (j_runtime_name j) (j_polling_interval_ms j) (j_index j) (j_events j) runs order
    open (j_mint_counter j) (j_next_seq j) (j_fault_queue j) (j_events_dropped j).

Definition with_mint (n : Z) (j : RunJournal) : RunJournal :=
  mkJournal (j_dir j) (j_runtime_name j) (j_polling_interval_ms j) (j_index j) (j_events j) (j_runs j)
    (j_order j) (j_open_run_id j) n (j_next_seq j) (j_fault_queue j) (j_events_dropped j).

Definition with_queue (q : list QueuedEvent) (dropped : Z) (j : RunJournal) : RunJournal :=
  mkJournal (j_dir j) (j_runtime_name j) (j_polling_interval_ms j) (j_index j) (j_events j) (j_runs j)
    (j_order j) (j_open_run_id j) (j_mint_counter j) (j_next_seq j) q dropped.

Definition close_record (reason : CloseReason) (now : Z) (r : Run) : Run :=
  mkRunRecord (run_id r) (run_label r) Closed (Some reason) (run_started_at r) (Some now)
    (run_automation_version r) (run_runtime_version r) (run_polling_interval_ms r) (run_params r)
    (run_tag_scope r) (run_schema_version r).

Definition index_path (j : RunJournal) : string := j_dir j +:+ "/index.jsonl".
Definition events_path (j : RunJournal) (id : string) : string := j_dir j +:+ "/" +:+ id +:+ ".events.jsonl".

Definition mint_run_id (now rng1 rng2 : Z) (j : RunJournal) : string * RunJournal :=
  (j_runtime_name j +:+ "-" +:+ make_ulid now (j_mint_counter j) rng1 rng2,
   with_mint (to_uint64 (j_mint_counter j + 1)) j).

Definition kMaxFaultQueue : Z := 512.

Section Operations.
Context `{JsonLines} (cast : double → Z) (anolis_version : string).

(** The documents of a log that parse; empty and malformed lines are skipped. *)
Definition parse_lines {A} (from : json → option A) (content : option string) : list A :=
  omap (λ line, if bool_decide (line = "") then None else line_parse line ≫= from)
    (read_lines (default "" content)).

Definition index_runs (j : RunJournal) : list Run := parse_lines (run_from_json cast) (j_index j).
Definition stream (j : RunJournal) (id : string) : list RunEvent :=
  parse_lines (run_event_from_json cast) (j_events j !! id).

Definition append_record (run : Run) (io : Io) (j : RunJournal) : option (result unit) * RunJournal :=
  let errors := mkAppendErrors ("cannot open run log for append: " +:+ index_path j)
    ("failed to write run record to " +:+ index_path j)
    ("failed to sync run record to storage: " +:+ index_path j)
    ("failed to sync run data dir " +:+ j_dir j) in
  let '(res, _, content) := append_line errors (line_dump (run_to_json run)) io (j_index j) in
  (res, with_index content j).

Definition next_sequence (id : string) (j : RunJournal) : Z :=
  match j_next_seq j !! id with
  | Some seq => seq
  | None => to_uint64 (foldl Z.max 0 (ev_sequence <$> stream j id) + 1)
  end.

Definition append_event_locked (id : string) (category : RunEventCategory) (type : string) (payload : json)
    (occurred now1 now2 : Z) (io : Io) (j : RunJournal) : option (result RunEvent) * RunJournal :=
  let seq := next_sequence id j in
  let event := mkRunEvent id seq category type (if occurred =? 0 then now1 else occurred) now2
                 (if is_object payload then payload else JObject []) 1 in
  let errors := mkAppendErrors ("cannot open run event log for append: " +:+ events_path j id)
    ("failed to write run event to " +:+ events_path j id)
    ("failed to sync run event to storage: " +:+ events_path j id)
    ("failed to sync run data dir " +:+ j_dir j) in
  let '(res, in_file, content) := append_line errors (line_dump (event_to_json event)) io (j_events j !! id) in
  let j' := with_events (match content with Some c => <[id := c]> (j_events j) | None => j_events j end)
              (if in_file then <[id := to_uint64 (seq + 1)]> (j_next_seq j) else j_next_seq j) j in
  (match res with
   | Some (Ok _) => Some (Ok event)
   | Some (Err e) => Some (Err e)
   | None => None
   end, j').

Definition append_event (id : string) (category : RunEventCategory) (type : string) (payload : json)
    (occurred now1 now2 : Z) (io : Io) (j : RunJournal) : option (result RunEvent) * RunJournal :=
  match j_runs j !! id with
  | None => (Some (Err ("unknown run: " +:+ id)), j)
  | Some run =>
      match run_state run with
      | Closed => (Some (Err ("run is closed (events are immutable): " +:+ id)), j)
      | Open => append_event_locked id category type payload occurred now1 now2 io j
      end
  end.

Definition enqueue_event (e : QueuedEvent) (j : RunJournal) : RunJournal :=
  if kMaxFaultQueue <=? Z.of_nat (length (j_fault_queue j)) then
    with_queue (j_fault_queue j) (to_uint64 (j_events_dropped j + 1)) j
  else with_queue (j_fault_queue j ++ [e]) (j_events_dropped j) j.

Definition enqueue_fault (locus message : string) (occurred : Z) (j : RunJournal) : RunJournal :=
  enqueue_event (mkQueued AutomationFault locus (JObject [("message", JString message)]) occurred) j.

Definition record_mode_change (previous_mode new_mode : string) (from_tick_thread : bool) (now now1 now2 : Z)
    (io : Io) (j : RunJournal) : option unit * RunJournal :=
  let payload := JObject [("new_mode", JString new_mode); ("previous_mode", JString previous_mode)] in
  if from_tick_thread then (Some tt, enqueue_event (mkQueued ModeChange "" payload now) j)
  else match j_open_run_id j with
       | None => (Some tt, j)
       | Some id => let '(res, j') := append_event id ModeChange "" payload 0 now1 now2 io j in ((λ _, tt) <$> res, j')
       end.

(** [writer_loop]: taking the oldest item off the queue, and persisting it
    against the run open by then. *)
Definition writer_pop (j : RunJournal) : option (QueuedEvent * RunJournal) :=
  match j_fault_queue j with
  | [] => None
  | e :: rest => Some (e, with_queue rest (j_events_dropped j) j)
  end.

Definition writer_persist (e : QueuedEvent) (now1 now2 : Z) (io : Io) (j : RunJournal) : option unit * RunJournal :=
  match j_open_run_id j with
  | None =>
      (Some tt, if bool_decide (qe_category e = AutomationFault)
                then with_queue (j_fault_queue j) (to_uint64 (j_events_dropped j + 1)) j else j)
  | Some id =>
      let '(res, j') := append_event_locked id (qe_category e) (qe_type e) (qe_payload e) (qe_occurred_at e)
                          now1 now2 io j in
      ((λ _, tt) <$> res, j')
  end.

Definition open (spec : RunOpenSpec) (version : option AutomationVersionRecord)
    (mint_now rng1 rng2 now now1 now2 : Z) (io_record io_event : Io) (j : RunJournal)
    : option (result Run) * RunJournal :=
  match j_open_run_id j with
  | Some id => (Some (Err ("a run is already open: " +:+ id +:+ " (one open run per runtime)")), j)
  | None =>
      let '(id, j0) := mint_run_id mint_now rng1 rng2 j in
      let run := mkRunRecord id (os_label spec) Open None now None version anolis_version
                   (j_polling_interval_ms j) (os_params spec) (os_tag_scope spec) 1 in
      let '(res, j1) := append_record run io_record j0 in
      match res with
      | None => (None, j1)
      | Some (Err e) => (Some (Err e), j1)
      | Some (Ok _) =>
          let j2 := with_runs (<[id := run]> (j_runs j1)) (j_order j1 ++ [id]) (Some id) j1 in
          let '(ev, j3) := append_event_locked id RunOpened "" (JObject []) now now1 now2 io_event j2 in
          match ev with None => (None, j3) | Some _ => (Some (Ok run), j3) end
      end
  end.

Definition erase_seq (id : string) (j : RunJournal) : RunJournal :=
  with_events (j_events j) (delete id (j_next_seq j)) j.

Definition close (id : string) (reason : CloseReason) (now now1 now2 : Z) (io_record io_event : Io)
    (j : RunJournal) : option (result Run) * RunJournal :=
  match j_runs j !! id with
  | None => (Some (Err ("unknown run: " +:+ id)), j)
  | Some run =>
      match run_state run with
      | Closed => (Some (Ok run), j)
      | Open =>
          let updated := close_record reason now run in
          let '(res, j1) := append_record updated io_record j in
          match res with
          | None => (None, j1)
          | Some (Err e) => (Some (Err e), j1)
          | Some (Ok _) =>
              let j2 := with_runs (<[id := updated]> (j_runs j1)) (j_order j1) (j_open_run_id j1) j1 in
              let '(ev, j3) := append_event_locked id RunClosed (close_reason_to_string reason) (JObject [])
                                 now now1 now2 io_event j2 in
              match ev with
              | None => (None, j3)
              | Some _ =>
                  let j4 := erase_seq id j3 in
                  (Some (Ok updated),
                   if bool_decide (j_open_run_id j4 = Some id) then with_runs (j_runs j4) (j_order j4) None j4 else j4)
              end
          end
      end
  end.

(** ** Recovery *)

(** [runs_] and [order_] after reading one record. *)
Definition absorb (acc : gmap string Run * list string) (r : Run) : gmap string Run * list string :=
  (<[run_id r := r]> acc.1,
   if bool_decide (acc.1 !! run_id r = None) then acc.2 ++ [run_id r] else acc.2).

(** What the calls of one run's recovery answer. *)
Record RecoveryEnv := mkRecovery {
  re_now : Z; re_now1 : Z; re_now2 : Z; re_record_io : Io; re_event_io : Io;
}.

Definition recover_run (env : string → RecoveryEnv) (id : string) (j : RunJournal)
    : option (result unit) * RunJournal :=
  match j_runs j !! id with
  | None => (Some (Ok tt), j)
  | Some run =>
      match run_state run with
      | Closed => (Some (Ok tt), j)
      | Open =>
          let e := env id in
          let closed := close_record Abandoned (re_now e) run in
          let j1 := with_runs (<[id := closed]> (j_runs j)) (j_order j) (j_open_run_id j) j in
          let '(res, j2) := append_record closed (re_record_io e) j1 in
          match res with
          | None => (None, j2)
          | Some (Err msg) => (Some (Err ("failed to persist abandoned-run recovery: " +:+ msg)), j2)
          | Some (Ok _) =>
              let '(ev, j3) := append_event_locked id RunClosed "abandoned" (JObject [("recovery", JBool true)])
                                 (re_now e) (re_now1 e) (re_now2 e) (re_event_io e) j2 in
              match ev with None => (None, j3) | Some _ => (Some (Ok tt), erase_seq id j3) end
          end
      end
  end.

Fixpoint recover_runs (env : string → RecoveryEnv) (ids : list string) (j : RunJournal)
    : option (result unit) * RunJournal :=
  match ids with
  | [] => (Some (Ok tt), j)
  | id :: rest =>
      let '(res, j') := recover_run env id j in
      match res with Some (Ok _) => recover_runs env rest j' | _ => (res, j') end
  end.

(** [mkdir_error] is the message of a failed [create_directories]. *)
Definition initialize (mkdir_error : option string) (env : string → RecoveryEnv) (j : RunJournal)
    : option (result unit) * RunJournal :=
  match mkdir_error with
  | Some msg => (Some (Err ("failed to create run data dir " +:+ j_dir j +:+ ": " +:+ msg)), j)
  | None =>
      let '(runs, order) := foldl absorb (j_runs j, j_order j) (index_runs j) in
      recover_runs env order (with_runs runs order None j)
  end.

(** ** Readers *)

Definition get (j : RunJournal) (id : string) : option Run := j_runs j !! id.

(** Newest first; [i] runs down from [order_.size() - offset]. *)
Definition list_runs (limit offset : nat) (j : RunJournal) : list Run :=
  if (length (j_order j) <=? offset)%nat then []
  else take limit (omap (λ id, j_runs j !! id) (reverse (take (length (j_order j) - offset) (j_order j)))).

Definition list_events (id : string) (limit offset : nat) (j : RunJournal) : list RunEvent :=
  take limit (drop offset (stream j id)).
End Operations.

Definition new_journal (data_dir runtime_name : string) (polling_interval_ms : Z) (index : option string)
    (events : gmap string string) : RunJournal :=
  mkJournal (data_dir +:+ "/runs") runtime_name polling_interval_ms index events ∅ [] None 0 ∅ [] 0.

(** ** Frames *)

Section Facts.
Context `{JsonLines} (cast : double → Z) (anolis_version : string).

Lemma append_record_frame run io j res j' :
  append_record run io j = (res, j') → ∃ c, j' = with_index c j.
Proof. unfold append_record. destruct (append_line _ _ _ _) as [[? ?] c]. intros [= <- <-]. by exists c. Qed.

(** An event append touches only the stream and the sequence of its run. *)
Lemma append_event_frame id category type payload occurred now1 now2 io j res j' :
  append_event_locked cast id category type payload occurred now1 now2 io j = (res, j') →
  ∃ files seqs, j' = with_events files seqs j ∧
    (∀ id', id' ≠ id → files !! id' = j_events j !! id') ∧ (∀ id', id' ≠ id → seqs !! id' = j_next_seq j !! id').
Proof.
  unfold append_event_locked. destruct (append_line _ _ _ _) as [[r in_file] c]. intros [= <- <-].
  eexists _, _. split; [done|]. split; intros id' Hne.
  - destruct c; [|done]. by rewrite lookup_insert_ne by done.
  - destruct in_file; [|done]. by rewrite lookup_insert_ne by done.
Qed.

(** A dumped record's id can be dumped in an event. *)
Lemma record_id_ok run io j res j' :
  append_record run io j = (Some (Ok res), j') → text_ok (run_id run) = true.
Proof.
  unfold append_record, append_line. intros Hr.
  destruct (io_open_ok io); [|done]. simpl in Hr.
  destruct (line_dump (run_to_json run)) as [text|] eqn:E; [|done].
  assert (is_Some (line_dump (run_to_json run))) as Hs by (by rewrite E).
  apply line_dump_is_Some in Hs. unfold run_to_json in Hs. cbn in Hs.
  repeat match goal with H : _ && _ = true |- _ => apply andb_true_iff in H as [? ?] end. done.
Qed.

Lemma append_event_no_throw id category type payload occurred now1 now2 io j :
  text_ok id = true → text_ok type = true → printable text_ok payload = true →
  is_Some (append_event_locked cast id category type payload occurred now1 now2 io j).1.
Proof.
  intros Hid Htype Hp. unfold append_event_locked.
  set (event := mkRunEvent id _ _ _ _ _ _ _).
  assert (is_Some (line_dump (event_to_json event))) as [text ->].
  { apply line_dump_is_Some. unfold event_to_json, event. cbn [printable forallb fst snd ev_category ev_occurred_at
      ev_payload ev_recorded_at ev_run_id ev_schema_version ev_sequence ev_type].
    rewrite Hid, Htype. rewrite !text_ok_ascii by (done || by destruct category).
    destruct (is_object payload); [by rewrite Hp|done]. }
  unfold append_line. destruct (io_open_ok io), (io_left_behind io), (io_sync_ok io); simpl; try done.
  by destruct (_ && _).
Qed.

(** ** Steps *)

(** The operations, in any order and with any answers of the file system; a
    minted id is new. *)
Inductive event_step : RunJournal → RunJournal → Prop :=
| step_append id category type payload occurred now1 now2 io j res j' :
    append_event cast id category type payload occurred now1 now2 io j = (res, j') → event_step j j'
| step_fault locus message occurred j : event_step j (enqueue_fault locus message occurred j)
| step_mode previous new tick now now1 now2 io j res j' :
    record_mode_change cast previous new tick now now1 now2 io j = (res, j') → event_step j j'
| step_pop e j j' : writer_pop j = Some (e, j') → event_step j j'
| step_persist e now1 now2 io j res j' :
    writer_persist cast e now1 now2 io j = (res, j') → event_step j j'.

Inductive journal_step : RunJournal → RunJournal → Prop :=
| step_open spec version mint_now rng1 rng2 now now1 now2 io1 io2 j res j' :
    open cast anolis_version spec version mint_now rng1 rng2 now now1 now2 io1 io2 j = (res, j') →
    j_runs j !! (mint_run_id mint_now rng1 rng2 j).1 = None →
    journal_step j j'
| step_close id reason now now1 now2 io1 io2 j res j' :
    close cast id reason now now1 now2 io1 io2 j = (res, j') → journal_step j j'
| step_event j j' : event_step j j' → journal_step j j'.

(** What a step does to runs and streams, operation by operation. *)
Inductive effect (j : RunJournal) : RunJournal → Prop :=
| eff_queue q dropped j' : j' = with_queue q dropped j → Z.of_nat (length q) ≤ kMaxFaultQueue → effect j j'
| eff_index c j' : j' = with_index c j → effect j j'
| eff_mint c n j' : j' = with_index c (with_mint n j) → j_open_run_id j = None → effect j j'
| eff_event id run files seqs j' :
    j_runs j !! id = Some run → run_state run = Open →
    j' = with_events files seqs j → (∀ id', id' ≠ id → files !! id' = j_events j !! id') → effect j j'
| eff_open id run c n files seqs j' :
    j_open_run_id j = None → j_runs j !! id = None → run_state run = Open → run_id run = id →
    j' = with_events files seqs (with_runs (<[id := run]> (j_runs j)) (j_order j ++ [id]) (Some id)
           (with_index c (with_mint n j))) →
    (∀ id', id' ≠ id → files !! id' = j_events j !! id') → effect j j'
| eff_close id run updated c files seqs j' :
    j_runs j !! id = Some run → run_state run = Open → run_state updated = Closed → run_id updated = id →
    j' = with_events files seqs (with_runs (<[id := updated]> (j_runs j)) (j_order j)
           (if bool_decide (j_open_run_id j = Some id) then None else j_open_run_id j) (with_index c j)) →
    (∀ id', id' ≠ id → files !! id' = j_events j !! id') → effect j j'.

(** At most one run is open, the one [open_run_id_] names. *)
Record journal_inv (j : RunJournal) : Prop := {
  inv_open : ∀ id r, j_runs j !! id = Some r → (run_state r = Open ↔ j_open_run_id j = Some id);
  inv_keys : ∀ id r, j_runs j !! id = Some r → run_id r = id;
  inv_known : ∀ id, j_open_run_id j = Some id → is_Some (j_runs j !! id);
  inv_queue : Z.of_nat (length (j_fault_queue j)) ≤ kMaxFaultQueue;
}.

Lemma open_run_is_open j id : journal_inv j → j_open_run_id j = Some id →
  ∃ run, j_runs j !! id = Some run ∧ run_state run = Open.
Proof. intros [Ho _ Hk _] Hid. destruct (Hk id Hid) as [run Hrun]. exists run. split; [done|]. by apply (Ho id). Qed.

Lemma journal_eta j : with_queue (j_fault_queue j) (j_events_dropped j) j = j.
Proof. by destruct j. Qed.

Lemma eff_refl j : journal_inv j → effect j j.
Proof.
  intros Hj. eapply eff_queue; [symmetry; apply journal_eta|]. by apply inv_queue.
Qed.

Lemma open_effect spec version mint_now rng1 rng2 now now1 now2 io1 io2 j res j' :
  journal_inv j → j_runs j !! (mint_run_id mint_now rng1 rng2 j).1 = None →
  open cast anolis_version spec version mint_now rng1 rng2 now now1 now2 io1 io2 j = (res, j') → effect j j'.
Proof.
  intros Hj Hfresh Ho. unfold open in Ho. destruct (j_open_run_id j) eqn:Hid; [simplify_eq; by apply eff_refl|].
  unfold mint_run_id in *. cbn [fst] in Hfresh. set (id := _ +:+ _) in *. set (run := mkRunRecord _ _ _ _ _ _ _ _ _ _ _ _) in *.
  destruct (append_record run io1 _) as [r1 j1] eqn:Ha. pose proof (append_record_frame _ _ _ _ _ Ha) as [c ->].
  destruct r1 as [[]|]; [|simplify_eq; by eapply eff_mint..].
  destruct (append_event_locked cast id _ _ _ _ _ _ _ _) as [ev j3] eqn:He.
  pose proof (append_event_frame _ _ _ _ _ _ _ _ _ _ _ He) as (files & seqs & -> & Hf & _). cbn in Hf.
  assert (j' = with_events files seqs (with_runs (<[id := run]> (j_runs j)) (j_order j ++ [id]) (Some id)
    (with_index c (with_mint (to_uint64 (j_mint_counter j + 1)) j)))) as Hj' by (by destruct ev; simplify_eq).
  by eapply (eff_open _ id run).
Qed.

Lemma close_effect id reason now now1 now2 io1 io2 j res j' :
  journal_inv j → close cast id reason now now1 now2 io1 io2 j = (res, j') → effect j j'.
Proof.
  intros Hj Hc. unfold close in Hc. destruct (j_runs j !! id) as [run|] eqn:Hr; [|simplify_eq; by apply eff_refl].
  destruct (run_state run) eqn:Hs; [|simplify_eq; by apply eff_refl].
  set (updated := close_record reason now run) in *.
  destruct (append_record updated io1 j) as [r1 j1] eqn:Ha. pose proof (append_record_frame _ _ _ _ _ Ha) as [c ->].
  destruct r1 as [[[]|e]|]; [|simplify_eq; by eapply eff_index..].
  apply record_id_ok in Ha. change (run_id updated) with (run_id run) in Ha.
  pose proof (inv_keys j Hj id run Hr) as Hkey. rewrite Hkey in Ha.
  set (j2 := with_runs _ _ _ _) in Hc.
  assert (text_ok (close_reason_to_string reason) = true) as Htype by (apply text_ok_ascii; by destruct reason).
  pose proof (append_event_no_throw id RunClosed (close_reason_to_string reason) (JObject []) now now1 now2 io2 j2
    Ha Htype eq_refl) as [ev Hev].
  destruct (append_event_locked cast id _ _ _ _ _ _ _ j2) as [ev' j3] eqn:He. simpl in Hev. subst ev'.
  pose proof (append_event_frame _ _ _ _ _ _ _ _ _ _ _ He) as (files & seqs & -> & Hf & _).
  eapply (eff_close _ id run updated c files (delete id seqs)); [done..| |done].
  unfold j2 in Hc. cbn in Hc. case_bool_decide; by simplify_eq.
Qed.

(** An event operation changes the queue, or the stream of an open run. *)
Inductive event_effect (j : RunJournal) : RunJournal → Prop :=
| eve_queue q dropped j' : j' = with_queue q dropped j → Z.of_nat (length q) ≤ kMaxFaultQueue → event_effect j j'
| eve_event id run category type payload occurred now1 now2 io res j' :
    j_runs j !! id = Some run → run_state run = Open →
    append_event_locked cast id category type payload occurred now1 now2 io j = (res, j') → event_effect j j'.

Lemma eve_refl j : journal_inv j → event_effect j j.
Proof. intros Hj. eapply eve_queue; [symmetry; apply journal_eta|]. by apply inv_queue. Qed.

Lemma append_event_eve id category type payload occurred now1 now2 io j res j' :
  journal_inv j →
  append_event cast id category type payload occurred now1 now2 io j = (res, j') → event_effect j j'.
Proof.
  intros Hj Ha. unfold append_event in Ha. destruct (j_runs j !! id) as [run|] eqn:Hr; [|simplify_eq; by apply eve_refl].
  destruct (run_state run) eqn:Hs; [by eapply eve_event|simplify_eq; by apply eve_refl].
Qed.

Lemma enqueue_eve e j : journal_inv j → event_effect j (enqueue_event e j).
Proof.
  intros [_ _ _ Hq]. unfold enqueue_event. destruct (Z.leb_spec kMaxFaultQueue (Z.of_nat (length (j_fault_queue j)))).
  - by eapply eve_queue.
  - eapply eve_queue; [done|]. rewrite length_app. simpl. lia.
Qed.

Lemma event_step_eve j j' : journal_inv j → event_step j j' → event_effect j j'.
Proof.
  intros Hj Hstep. destruct Hstep as [|locus message occurred j|previous new tick now now1 now2 io j res j' Hm
    |e j j' Hp|e now1 now2 io j res j' Hp].
  - by eapply append_event_eve.
  - by apply enqueue_eve.
  - unfold record_mode_change in Hm. destruct tick; [simplify_eq; by apply enqueue_eve|].
    destruct (j_open_run_id j); [|simplify_eq; by apply eve_refl].
    destruct (append_event _ _ _ _ _ _ _ _ _ _) as [r j1] eqn:Ha. simplify_eq. by eapply append_event_eve.
  - unfold writer_pop in Hp. destruct (j_fault_queue j) as [|x rest] eqn:Hq; simplify_eq.
    eapply eve_queue; [done|]. pose proof (inv_queue j Hj) as Hlen. rewrite Hq in Hlen. simpl in Hlen. lia.
  - unfold writer_persist in Hp. destruct (j_open_run_id j) as [id|] eqn:Hid.
    + destruct (append_event_locked _ _ _ _ _ _ _ _ _ _) as [r j1] eqn:Ha. simplify_eq.
      destruct (open_run_is_open j id Hj Hid) as (run & Hr & Hs). by eapply eve_event.
    + simplify_eq. case_bool_decide; [|by apply eve_refl]. eapply eve_queue; [done|]. by apply inv_queue.
Qed.

Lemma eve_effect j j' : event_effect j j' → effect j j'.
Proof.
  destruct 1 as [q dropped j' -> Hq|id run category type payload occurred now1 now2 io res j' Hr Hs Ha];
    [by eapply eff_queue|].
  apply append_event_frame in Ha as (files & seqs & -> & Hf & _). by eapply eff_event.
Qed.

Lemma step_effect j j' : journal_inv j → journal_step j j' → effect j j'.
Proof.
  intros Hj Hstep. destruct Hstep; [by eapply open_effect|by eapply close_effect|].
  by apply eve_effect, event_step_eve.
Qed.

Lemma effect_inv j j' : journal_inv j → effect j j' → journal_inv j'.
Proof.
  intros [Ho Hkey Hk Hq] Heff. destruct Heff as [q dropped j' -> Hlen|c j' ->|c n j' -> Hno
    |id run files seqs j' Hr Hs -> Hf|id run c n files seqs j' Hno Hr Hs Hi -> Hf
    |id run updated c files seqs j' Hr Hs Hu Hi -> Hf]; [by constructor..| |].
  - constructor; simpl; [| | |done].
    + intros id' r [[<- <-]|[Hne Hl]]%lookup_insert_Some; [done|].
      rewrite (Ho id' r Hl), Hno. naive_solver.
    + intros id' r [[<- <-]|[Hne Hl]]%lookup_insert_Some; [done|by apply Hkey].
    + intros id' [= <-]. by rewrite lookup_insert_eq.
  - assert (j_open_run_id j = Some id) as Hid by (by apply (Ho id run)).
    constructor; simpl; [| | |done].
    + intros id' r [[<- <-]|[Hne Hl]]%lookup_insert_Some.
      * rewrite Hu, bool_decide_eq_true_2 by done. naive_solver.
      * rewrite (Ho id' r Hl), bool_decide_eq_true_2 by done. naive_solver.
    + intros id' r [[<- <-]|[Hne Hl]]%lookup_insert_Some; [done|by apply Hkey].
    + intros id'. by rewrite bool_decide_eq_true_2 by done.
Qed.

Lemma step_inv j j' : journal_inv j → journal_step j j' → journal_inv j'.
Proof. intros. by eapply effect_inv, step_effect. Qed.
End Facts.

(** ** Appending to a log *)

Definition joiner (cur c : string) : string :=
  match c with
  | EmptyString => if bool_decide (cur = "") then "" else char_string LF
  | _ => if no_final_newline c then char_string LF else ""
  end.

Lemma read_lines_joined cur c text :
  has_char LF text = false →
  read_lines_from cur (c +:+ joiner cur c +:+ text +:+ char_string LF) = read_lines_from cur c ++ [text].
Proof.
  intros Ht. revert cur. induction c as [|a c IH]; intros cur.
  - change ("" +:+ ?x) with x. unfold joiner. simpl read_lines_from at 2.
    change (text +:+ char_string LF) with (text +:+ String LF "").
    destruct (bool_decide_reflect (cur = "")) as [->|Hne].
    + change ("" +:+ ?x) with x. by rewrite read_line.
    + change (char_string LF +:+ ?x) with (String LF x). cbn [read_lines_from]. rewrite Ascii.eqb_refl.
      by rewrite read_line.
  - rewrite string_app_cons. cbn [read_lines_from]. destruct (Ascii.eqb_spec a LF) as [->|Hne].
    + simpl app. f_equal. rewrite <- IH. f_equal. f_equal. f_equal. by destruct c.
    + rewrite <- IH. f_equal. f_equal. f_equal. destruct c as [|b c]; [|done]. simpl.
      rewrite bool_decide_eq_false_2 by (by destruct cur). by destruct (Ascii.eqb_spec a LF).
Qed.

(** Appending as the journal does adds exactly one line to what is read. *)
Lemma read_lines_append (content : option string) text :
  has_char LF text = false →
  read_lines ((default "" content +:+ (if ends_without_newline content then char_string LF else "")) +:+
              text +:+ char_string LF) = read_lines (default "" content) ++ [text].
Proof.
  intros Ht. rewrite string_app_assoc. unfold read_lines. rewrite <- (read_lines_joined "" (default "" content) text Ht).
  f_equal. f_equal. f_equal. destruct content as [[|a c]|]; done.
Qed.

Section Logs.
Context `{JsonLines}.

Lemma parse_lines_append {A} (from : json → option A) content d text :
  line_dump d = Some text → canonical d = true →
  parse_lines from (Some ((default "" content +:+ (if ends_without_newline content then char_string LF else "")) +:+
              text +:+ char_string LF)) = parse_lines from content ++ option_list (from d).
Proof.
  intros Hd Hc. destruct (line_dump_one _ _ Hd) as [Hlf Hne]. unfold parse_lines. simpl default at 1.
  rewrite read_lines_append, omap_app by done. f_equal. simpl. rewrite bool_decide_eq_false_2 by done.
  rewrite (line_parse_dump _ _ Hc Hd). simpl. by destruct (from d).
Qed.
End Logs.

(** ** Records and documents *)

Definition in_uint32 (z : Z) : Prop := 0 ≤ z < 2 ^ 32.
Definition in_int32 (z : Z) : Prop := - 2 ^ 31 ≤ z < 2 ^ 31.

Record run_wf (r : Run) : Prop := {
  wf_started : in_uint64 (run_started_at r);
  wf_ended : ∀ t, run_ended_at r = Some t → in_uint64 t;
  wf_polling : in_int32 (run_polling_interval_ms r);
  wf_schema : in_uint32 (run_schema_version r);
  wf_params : is_object (run_params r) = true ∧ canonical (run_params r) = true;
}.

Lemma to_uint32_id z : in_uint32 z → to_uint32 z = z.
Proof. unfold in_uint32, to_uint32. intros. by apply Z.mod_small. Qed.

Lemma to_int32_id z : in_int32 z → to_int32 z = z.
Proof. unfold in_int32, to_int32. intros. rewrite Z.mod_small; lia. Qed.

Lemma to_str_vec_strings l : to_str_vec (strings_json l) = l.
Proof. unfold to_str_vec, strings_json. induction l as [|s l IH]; [done|]. simpl. by f_equal. Qed.

Lemma close_reason_roundtrip c : close_reason_from_string (close_reason_to_string c) = Some c.
Proof. by destruct c. Qed.

Lemma scope_json_roundtrip scope :
  let s := scope_to_json scope in
  mkScope (scope_ids "provider_ids" s) (scope_ids "device_ids" s) (scope_ids "signal_ids" s) = scope.
Proof.
  intros s. unfold scope_ids, s.
  change (jget "provider_ids" (scope_to_json scope)) with (Some (strings_json (ts_provider_ids scope))).
  change (jget "device_ids" (scope_to_json scope)) with (Some (strings_json (ts_device_ids scope))).
  change (jget "signal_ids" (scope_to_json scope)) with (Some (strings_json (ts_signal_ids scope))).
  cbn [from_option]. unfold id. rewrite !to_str_vec_strings. by destruct scope.
Qed.

(** A record written to the log reads back as the record. *)
Lemma run_json_roundtrip cast r : run_wf r → run_from_json cast (run_to_json r) = Some r.
Proof.
  intros [Hs He Hp Hc [Ho _]]. unfold run_from_json, jmember, jvalue.
  change (jget "run_id" (run_to_json r)) with (Some (JString (run_id r))).
  change (jget "schema_version" (run_to_json r)) with (Some (JInt (run_schema_version r))).
  change (jget "state" (run_to_json r)) with (Some (JString (run_state_to_string (run_state r)))).
  change (jget "started_at_epoch_ms" (run_to_json r)) with (Some (JInt (run_started_at r))).
  change (jget "runtime_version" (run_to_json r)) with (Some (JString (run_runtime_version r))).
  change (jget "polling_interval_ms" (run_to_json r)) with (Some (JInt (run_polling_interval_ms r))).
  change (jget "automation_version" (run_to_json r)) with (Some (opt_json version_to_json (run_automation_version r))).
  change (jget "label" (run_to_json r)) with (Some (opt_json JString (run_label r))).
  change (jget "experiment_label" (run_to_json r)) with (Some (opt_json JString (run_label r))).
  change (jget "close_reason" (run_to_json r))
    with (Some (opt_json (λ c, JString (close_reason_to_string c)) (run_close_reason r))).
  change (jget "ended_at_epoch_ms" (run_to_json r)) with (Some (opt_json JInt (run_ended_at r))).
  change (jget "params" (run_to_json r)) with (Some (run_params r)).
  change (jget "tag_scope" (run_to_json r)) with (Some (scope_to_json (run_tag_scope r))).
  cbn [mbind option_bind jinteger jstring].
  rewrite to_uint32_id, to_uint64_id, to_int32_id by done. cbn [mbind option_bind].
  assert (match as_object (opt_json version_to_json (run_automation_version r)) with
          | Some v => Some <$> version_from_json v | None => Some None end = Some (run_automation_version r)) as ->
    by (by destruct (run_automation_version r) as [[]|]).
  assert (match jstring (opt_json JString (run_label r)) with
          | Some l => Some l | None => jstring (opt_json JString (run_label r)) end = run_label r) as ->
    by (by destruct (run_label r)).
  assert ((if bool_decide (run_state_to_string (run_state r) = "closed") then Closed else Open) = run_state r) as ->
    by (by destruct (run_state r)).
  assert ((jstring (opt_json (λ c, JString (close_reason_to_string c)) (run_close_reason r)) ≫=
           close_reason_from_string) = run_close_reason r) as ->
    by (destruct (run_close_reason r); [apply close_reason_roundtrip|done]).
  assert (as_unsigned (opt_json JInt (run_ended_at r)) = run_ended_at r) as ->.
  { destruct (run_ended_at r) as [t|]; [|done]. simpl. specialize (He t eq_refl). unfold in_uint64 in He.
    by rewrite (proj2 (Z.leb_le 0 t)) by lia. }
  assert (default (JObject []) (as_object (run_params r)) = run_params r) as ->
    by (unfold as_object; by rewrite Ho).
  change (as_object (scope_to_json (run_tag_scope r))) with (Some (scope_to_json (run_tag_scope r))).
  cbv iota. rewrite scope_json_roundtrip. by destruct r.
Qed.

Lemma strings_canonical l : canonical (strings_json l) = true.
Proof. simpl. induction l as [|s l IH]; [done|]. simpl. done. Qed.

Lemma scope_canonical scope : canonical (scope_to_json scope) = true.
Proof. apply canonical_object; [|reflexivity]. repeat (constructor; [apply strings_canonical|]). constructor. Qed.

Lemma version_canonical v : canonical (version_to_json v) = true.
Proof. apply canonical_object; [|reflexivity]. repeat (constructor; [done|]). constructor. Qed.

Lemma run_json_canonical r : run_wf r → canonical (run_to_json r) = true.
Proof.
  unfold run_to_json. intros [Hs He Hp Hc [_ Ho]]. unfold in_uint64, in_int32, in_uint32 in *.
  assert (∀ z, - 2 ^ 31 ≤ z ≤ uint64_max → canonical (JInt z) = true) as Hint
    by (intros; apply canonical_int; unfold int64_min; lia).
  apply canonical_object; [|reflexivity].
  constructor; [by destruct (run_automation_version r); [apply version_canonical|]|].
  constructor; [by destruct (run_close_reason r)|].
  constructor; [destruct (run_ended_at r) as [t|]; [apply Hint; specialize (He t eq_refl); lia|done]|].
  do 2 (constructor; [by destruct (run_label r)|]). constructor; [done|].
  unfold uint64_max in *. constructor; [apply Hint; lia|]. do 2 (constructor; [done|]).
  do 2 (constructor; [apply Hint; lia|]). constructor; [done|].
  constructor; [apply scope_canonical|constructor].
Qed.

(** ** Restarts *)

Definition good_io : Io := mkIo true None true true.

Definition run_ok `{JsonLines} (r : Run) : Prop := run_wf r ∧ printable text_ok (run_to_json r) = true.

(** What recovery makes of a run. *)
Definition abandon (now : Z) (r : Run) : Run :=
  match run_state r with Open => close_record Abandoned now r | Closed => r end.

Section Restart.
Context `{JsonLines} (cast : double → Z) (anolis_version : string).

Lemma close_record_ok reason now r : run_ok r → in_uint64 now → run_ok (close_record reason now r).
Proof.
  intros [[Hs He Hp Hc Ho] Hd] Hnow. split.
  - constructor; simpl; try done. by intros t [= <-].
  - unfold run_to_json in *. cbn in *.
    repeat match goal with H : _ && _ = true |- _ => apply andb_true_iff in H as [? ?] end.
    repeat (apply andb_true_iff; split); try done; apply text_ok_ascii; try done. by destruct reason.
Qed.

(** A record append with good I/O is one more record of the index. *)
Lemma append_record_good run j :
  run_ok run →
  ∃ c, append_record run good_io j = (Some (Ok tt), with_index c j) ∧
    index_runs cast (with_index c j) = index_runs cast j ++ [run].
Proof.
  intros [Hwf Hp]. unfold append_record, append_line. cbn [good_io io_open_ok io_left_behind io_sync_ok io_dir_sync_ok negb].
  apply line_dump_is_Some in Hp as [text Htext]. rewrite Htext, andb_false_r.
  eexists. split; [done|]. unfold index_runs. cbn [j_index with_index].
  rewrite (parse_lines_append _ _ _ _ Htext) by (by apply run_json_canonical).
  by rewrite run_json_roundtrip.
Qed.

(** Index and memory agree, and every run is one that was written. *)
Record synced (j : RunJournal) : Prop := {
  syn_inv : journal_inv j;
  syn_index : foldl absorb (∅, []) (index_runs cast j) = (j_runs j, j_order j);
  syn_runs : ∀ id r, j_runs j !! id = Some r → run_ok r;
}.

Lemma index_same j j' : j_index j' = j_index j → index_runs cast j' = index_runs cast j.
Proof. unfold index_runs. by intros ->. Qed.

(** Recovery of one run with good record I/O. *)
Lemma recover_run_good env id run j :
  foldl absorb (∅, []) (index_runs cast j) = (j_runs j, j_order j) →
  (∀ id r, j_runs j !! id = Some r → run_ok r ∧ run_id r = id) →
  re_record_io (env id) = good_io → in_uint64 (re_now (env id)) →
  j_runs j !! id = Some run →
  ∃ j', recover_run cast env id j = (Some (Ok tt), j') ∧
    foldl absorb (∅, []) (index_runs cast j') = (j_runs j', j_order j') ∧
    j_runs j' = <[id := abandon (re_now (env id)) run]> (j_runs j) ∧
    j_order j' = j_order j ∧ j_open_run_id j' = j_open_run_id j ∧ j_fault_queue j' = j_fault_queue j.
Proof.
  intros Hidx Hruns Hio Hnow Hr. unfold recover_run, abandon. rewrite Hr.
  destruct (run_state run) eqn:Hs; [|exists j; by rewrite insert_id].
  rewrite Hio. set (closed := close_record Abandoned _ run). set (j1 := with_runs _ _ _ j).
  destruct (Hruns id run Hr) as [Hok Hkey].
  destruct (append_record_good closed j1) as (c & -> & Hruns1); [by apply close_record_ok|].
  assert (is_Some (append_event_locked cast id RunClosed "abandoned" (JObject [("recovery", JBool true)])
    (re_now (env id)) (re_now1 (env id)) (re_now2 (env id)) (re_event_io (env id)) (with_index c j1)).1) as [ev Hev].
  { apply append_event_no_throw; [|by apply text_ok_ascii|by simpl; rewrite text_ok_ascii].
    destruct Hok as [_ Hp]. unfold run_to_json in Hp. cbn in Hp.
    repeat match goal with H : _ && _ = true |- _ => apply andb_true_iff in H as [? ?] end. by subst. }
  destruct (append_event_locked _ _ _ _ _ _ _ _ _ _) as [ev' j3] eqn:He. simpl in Hev. subst ev'.
  apply append_event_frame in He as (files & seqs & -> & _ & _).
  eexists. split; [done|]. split_and!; [|done..].
  rewrite (index_same (with_index c j1)) by done. rewrite Hruns1, foldl_snoc.
  change (index_runs cast j1) with (index_runs cast j). rewrite Hidx. unfold absorb.
  change (run_id closed) with (run_id run). rewrite Hkey. simpl.
  by rewrite bool_decide_eq_false_2 by (by rewrite Hr).
Qed.

Lemma abandon_ok now r : run_ok r → in_uint64 now → run_ok (abandon now r).
Proof. intros. unfold abandon. destruct (run_state r); [by apply close_record_ok|done]. Qed.

Lemma abandon_id now r : run_id (abandon now r) = run_id r.
Proof. unfold abandon. by destruct (run_state r). Qed.

Lemma recover_runs_good env ids j :
  foldl absorb (∅, []) (index_runs cast j) = (j_runs j, j_order j) →
  (∀ id r, j_runs j !! id = Some r → run_ok r ∧ run_id r = id) →
  (∀ id, re_record_io (env id) = good_io ∧ in_uint64 (re_now (env id))) →
  Forall (λ id, is_Some (j_runs j !! id)) ids →
  ∃ j', recover_runs cast env ids j = (Some (Ok tt), j') ∧
    foldl absorb (∅, []) (index_runs cast j') = (j_runs j', j_order j') ∧
    (∀ id, j_runs j' !! id = (if bool_decide (id ∈ ids) then abandon (re_now (env id)) else λ r, r) <$> j_runs j !! id) ∧
    j_order j' = j_order j ∧ j_open_run_id j' = j_open_run_id j ∧ j_fault_queue j' = j_fault_queue j.
Proof.
  intros Hidx Hruns Henv Hids. revert j Hidx Hruns Hids.
  induction ids as [|id ids IH]; intros j Hidx Hruns Hids; simpl.
  { exists j. split_and!; try done. intros id. by destruct (j_runs j !! id). }
  apply Forall_cons in Hids as [[run Hr] Hids]. destruct (Henv id) as [Hio Hnow].
  destruct (recover_run_good env id run j Hidx Hruns Hio Hnow Hr) as (j1 & -> & Hidx1 & Hr1 & Ho1 & Hi1 & Hq1).
  destruct (IH j1 Hidx1) as (j2 & -> & Hidx2 & Hr2 & Ho2 & Hi2 & Hq2).
  - rewrite Hr1. intros id' r [[<- <-]|[_ Hl]]%lookup_insert_Some; [|by apply Hruns].
    destruct (Hruns id run Hr). rewrite abandon_id. split; [by apply abandon_ok|done].
  - rewrite Hr1. eapply Forall_impl; [exact Hids|]. intros id' Hs. destruct (decide (id = id')) as [->|].
    + by rewrite lookup_insert_eq.
    + by rewrite lookup_insert_ne.
  - exists j2. split_and!; [done|done| |congruence..]. intros id'. rewrite Hr2, Hr1.
    destruct (decide (id = id')) as [->|Hne].
    + rewrite lookup_insert_eq, Hr. simpl. rewrite (bool_decide_eq_true_2 (id' ∈ id' :: ids)) by (by left).
      f_equal. destruct (bool_decide _); [|done]. unfold abandon. by destruct (run_state run) eqn:E; simpl; rewrite ?E.
    + rewrite lookup_insert_ne by done.
      by rewrite (bool_decide_ext (id' ∈ id :: ids) (id' ∈ ids)) by (rewrite elem_of_cons; naive_solver).
Qed.

(** Ids in the order are ids of runs, and the other way round. *)
Lemma absorb_order l acc :
  (∀ id, is_Some (acc.1 !! id) ↔ id ∈ acc.2) →
  ∀ id, is_Some ((foldl absorb acc l).1 !! id) ↔ id ∈ (foldl absorb acc l).2.
Proof.
  revert acc. induction l as [|r l IH]; intros acc Hacc; [done|]. simpl. apply IH. intros id. simpl.
  destruct (decide (run_id r = id)) as [<-|Hne].
  - rewrite lookup_insert_eq. case_bool_decide as Hn; [rewrite elem_of_app; naive_solver set_solver|].
    split; [|done]. intros _. apply Hacc. by destruct (acc.1 !! run_id r).
  - rewrite lookup_insert_ne by done. case_bool_decide; [|apply Hacc].
    rewrite elem_of_app, list_elem_of_singleton, Hacc. naive_solver.
Qed.

(** The journal's life with good record I/O: a run opened or closed with
    success, any event operation whatever its I/O, and a restart. *)
Inductive life_step : RunJournal → RunJournal → Prop :=
| life_open spec version mint_now rng1 rng2 now now1 now2 io2 j run j' :
    open cast anolis_version spec version mint_now rng1 rng2 now now1 now2 good_io io2 j = (Some (Ok run), j') →
    j_runs j !! (mint_run_id mint_now rng1 rng2 j).1 = None →
    in_uint64 now → in_int32 (j_polling_interval_ms j) →
    is_object (os_params spec) = true → canonical (os_params spec) = true → life_step j j'
| life_close id reason now now1 now2 io2 j run j' :
    close cast id reason now now1 now2 good_io io2 j = (Some (Ok run), j') → in_uint64 now → life_step j j'
| life_event j j' : event_step cast j j' → life_step j j'
| life_restart env dir name polling j j' :
    (∀ id, re_record_io (env id) = good_io ∧ in_uint64 (re_now (env id))) →
    initialize cast None env (new_journal dir name polling (j_index j) (j_events j)) = (Some (Ok tt), j') →
    life_step j j'.

Lemma restart_good env dir name polling j :
  synced j → (∀ id, re_record_io (env id) = good_io ∧ in_uint64 (re_now (env id))) →
  ∃ j', initialize cast None env (new_journal dir name polling (j_index j) (j_events j)) = (Some (Ok tt), j') ∧
    synced j' ∧ j_order j' = j_order j ∧ j_open_run_id j' = None ∧
    ∀ id, j_runs j' !! id = abandon (re_now (env id)) <$> j_runs j !! id.
Proof.
  intros [Hinv Hidx Hruns] Henv. unfold initialize. set (j0 := new_journal _ _ _ _ _).
  change (index_runs cast j0) with (index_runs cast j). cbn [j0 new_journal j_runs j_order]. rewrite Hidx.
  set (j1 := with_runs _ _ _ j0).
  pose proof (absorb_order (index_runs cast j) (∅, [])) as Hord. rewrite Hidx in Hord. simpl in Hord.
  specialize (Hord ltac:(intros; rewrite lookup_empty, elem_of_nil; split; [by intros []|done])).
  destruct (recover_runs_good env (j_order j) j1) as (j' & Hrec & Hidx' & Hr' & Ho' & Hi' & Hq').
  - done.
  - intros id r Hl. split; [by eapply Hruns|by apply (inv_keys j Hinv)].
  - done.
  - apply Forall_forall. intros id Hin. by apply Hord.
  - exists j'. assert (∀ id, j_runs j' !! id = abandon (re_now (env id)) <$> j_runs j !! id) as Hall.
    { intros id. rewrite Hr'. change (j_runs j1) with (j_runs j).
      destruct (j_runs j !! id) as [r|] eqn:E; [|done]. rewrite bool_decide_eq_true_2; [done|]. apply Hord. by rewrite E. }
    split_and!; [done| |done|done|done]. constructor; [|done|].
    + constructor.
      * intros id r Hl. rewrite Hall in Hl. apply fmap_Some in Hl as (r0 & _ & ->). rewrite Hi'. simpl.
        unfold abandon. by destruct (run_state r0) eqn:E; simpl; rewrite ?E.
      * intros id r Hl. rewrite Hall in Hl. apply fmap_Some in Hl as (r0 & Hl & ->). rewrite abandon_id.
        by apply (inv_keys j Hinv).
      * rewrite Hi'. done.
      * rewrite Hq'. done.
    + intros id r Hl. rewrite Hall in Hl. apply fmap_Some in Hl as (r0 & Hl & ->).
      apply abandon_ok; [by eapply Hruns|apply Henv].
Qed.

Lemma record_printable run io j u j' :
  append_record run io j = (Some (Ok u), j') → printable text_ok (run_to_json run) = true.
Proof.
  unfold append_record, append_line. intros Hr. destruct (io_open_ok io); [|done]. simpl in Hr.
  apply line_dump_is_Some. by destruct (line_dump (run_to_json run)).
Qed.

Lemma open_synced spec version mint_now rng1 rng2 now now1 now2 io2 j run j' :
  synced j →
  open cast anolis_version spec version mint_now rng1 rng2 now now1 now2 good_io io2 j = (Some (Ok run), j') →
  j_runs j !! (mint_run_id mint_now rng1 rng2 j).1 = None →
  in_uint64 now → in_int32 (j_polling_interval_ms j) →
  is_object (os_params spec) = true → canonical (os_params spec) = true → synced j'.
Proof.
  intros [Hinv Hidx Hruns] Ho Hfresh Hnow Hpoll Hobj Hcan.
  pose proof (effect_inv j j' Hinv) as Hinv'. specialize (Hinv' ltac:(by eapply open_effect)).
  unfold open in Ho. destruct (j_open_run_id j); [done|]. unfold mint_run_id in *. cbn [fst] in Hfresh.
  set (id := _ +:+ _) in *. set (r := mkRunRecord _ _ _ _ _ _ _ _ _ _ _ _) in *. set (j0 := with_mint _ j) in *.
  destruct (append_record r good_io j0) as [res1 j1] eqn:Ha. destruct res1 as [[u|e]|]; [|done|done].
  assert (run_ok r) as Hok by (split; [by constructor; simpl|by eapply record_printable]).
  destruct (append_record_good r j0 Hok) as (c & Hgood & Hlog). rewrite Hgood in Ha. simplify_eq.
  destruct (append_event_locked cast id _ _ _ _ _ _ _ _) as [ev j3] eqn:He.
  apply append_event_frame in He as (files & seqs & -> & _ & _). destruct ev; simplify_eq.
  constructor; [done| |].
  - rewrite (index_same (with_index c j0)) by done. rewrite Hlog, foldl_snoc.
    change (index_runs cast j0) with (index_runs cast j). rewrite Hidx. unfold absorb. simpl.
    by rewrite bool_decide_eq_true_2.
  - simpl. intros id' r' [[<- <-]|[_ Hl]]%lookup_insert_Some; [done|by eapply Hruns].
Qed.

Lemma close_synced id reason now now1 now2 io2 j run j' :
  synced j → close cast id reason now now1 now2 good_io io2 j = (Some (Ok run), j') → in_uint64 now → synced j'.
Proof.
  intros Hsyn Hc Hnow. destruct Hsyn as [Hinv Hidx Hruns].
  pose proof (effect_inv j j' Hinv) as Hinv'. specialize (Hinv' ltac:(by eapply close_effect)).
  unfold close in Hc. destruct (j_runs j !! id) as [r|] eqn:Hr; [|done].
  destruct (run_state r) eqn:Hs; [|by simplify_eq]. set (u := close_record reason now r) in *.
  assert (run_ok u) as Hok by (apply close_record_ok; [by eapply Hruns|done]).
  destruct (append_record_good u j Hok) as (c & Hgood & Hlog). rewrite Hgood in Hc.
  destruct (append_event_locked cast id _ _ _ _ _ _ _ _) as [ev j3] eqn:He.
  apply append_event_frame in He as (files & seqs & -> & _ & _). destruct ev; [|done].
  assert (∃ o, j' = with_runs (<[id := u]> (j_runs j)) (j_order j) o (with_events files (delete id seqs) (with_index c j)))
    as [o Hj'] by (cbn in Hc; case_bool_decide; simplify_eq; by eexists).
  constructor; [done| |].
  - rewrite (index_same (with_index c j)) by (by rewrite Hj'). rewrite Hlog, foldl_snoc, Hidx, Hj'. unfold absorb. simpl.
    change (run_id u) with (run_id r). rewrite (inv_keys j Hinv id r Hr).
    by rewrite bool_decide_eq_false_2 by (by rewrite Hr).
  - rewrite Hj'. simpl. intros id' r' [[<- <-]|[_ Hl]]%lookup_insert_Some; [done|by eapply Hruns].
Qed.

Lemma event_synced j j' : synced j → event_step cast j j' → synced j'.
Proof.
  intros [Hinv Hidx Hruns] Hstep. pose proof (event_step_eve cast j j' Hinv Hstep) as Heve.
  pose proof (effect_inv j j' Hinv (eve_effect cast j j' Heve)) as Hinv'.
  destruct Heve as [q dropped j' -> _|id run category type payload occurred now1 now2 io res j' _ _ Ha].
  - constructor; [done|by rewrite (index_same j) by done|done].
  - apply append_event_frame in Ha as (files & seqs & -> & _ & _).
    constructor; [done|by rewrite (index_same j) by done|done].
Qed.

Lemma life_synced j j' : synced j → life_step j j' → synced j'.
Proof.
  intros Hj Hstep. destruct Hstep as [| | |env dir name polling j j' Henv Hini].
  - by eapply open_synced.
  - by eapply close_synced.
  - by eapply event_synced.
  - destruct (restart_good env dir name polling j Hj Henv) as (j2 & Hini2 & Hsyn & _). congruence.
Qed.

Lemma new_journal_synced dir name polling : synced (new_journal dir name polling None ∅).
Proof. constructor; [|done|by intros id r Hr]. constructor; try done. Qed.
End Restart.

(** ** What the journal promises *)

(** What a successful recovery leaves: the runs read from the index, under the ids
    of their records, each of them closed. *)
Record recovered (ids : list string) (j : RunJournal) : Prop := {
  rc_keys : ∀ id r, j_runs j !! id = Some r → run_id r = id;
  rc_listed : ∀ id r, j_runs j !! id = Some r → id ∈ ids ∨ run_state r = Closed;
  rc_open : j_open_run_id j = None;
  rc_queue : j_fault_queue j = [];
}.

Lemma recover_run_closes `{JsonLines} cast env id ids j j' :
  recovered (id :: ids) j → recover_run cast env id j = (Some (Ok tt), j') → recovered ids j'.
Proof.
  intros [Hk Hl Ho Hq]. unfold recover_run. destruct (j_runs j !! id) as [run|] eqn:Er.
  2:{ intros [= <-]. split; [done| |done|done]. intros id' r Hr.
      destruct (Hl id' r Hr) as [[->|?]%elem_of_cons|?]; [congruence|by left|by right]. }
  destruct (run_state run) eqn:Es.
  2:{ intros [= <-]. split; [done| |done|done]. intros id' r Hr.
      destruct (Hl id' r Hr) as [[->|?]%elem_of_cons|?]; [right; congruence|by left|by right]. }
  set (closed := close_record Abandoned (re_now (env id)) run).
  destruct (append_record closed _ _) as [res j2] eqn:Ea. apply append_record_frame in Ea as [c ->].
  destruct res as [[[]|msg]|]; [|done|done].
  destruct (append_event_locked _ _ _ _ _ _ _ _ _ _) as [ev j3] eqn:Ee.
  apply append_event_frame in Ee as (files & seqs & -> & _). destruct ev as [x|]; [|done]. intros [= <-].
  split; simpl; [| |done|done].
  - intros id' r [[<- <-]|[_ Hr]]%lookup_insert_Some; [by apply (Hk id run)|by apply Hk].
  - intros id' r [[<- <-]|[Hne Hr]]%lookup_insert_Some; [by right|].
    destruct (Hl id' r Hr) as [[->|?]%elem_of_cons|?]; [done|by left|by right].
Qed.

Lemma recover_runs_close `{JsonLines} cast env ids j j' :
  recovered ids j → recover_runs cast env ids j = (Some (Ok tt), j') → recovered [] j'.
Proof.
  revert j. induction ids as [|id ids IH]; intros j Hj; simpl; [by intros [= <-]|].
  destruct (recover_run cast env id j) as [[[[]|e]|] j1] eqn:Er; [|done|done].
  apply IH. by eapply recover_run_closes.
Qed.

Lemma absorb_keys l acc :
  (∀ id r, acc.1 !! id = Some r → run_id r = id) → ∀ id r, (foldl absorb acc l).1 !! id = Some r → run_id r = id.
Proof.
  revert acc. induction l as [|x l IH]; intros acc Hacc; [done|]. simpl. apply IH. simpl.
  intros id r [[<- <-]|[_ Hr]]%lookup_insert_Some; [done|by apply Hacc].
Qed.

(** Starting up establishes the invariant, whatever the directory holds. *)
Lemma initialize_inv `{JsonLines} cast mkdir_error env dir name polling index events j :
  initialize cast mkdir_error env (new_journal dir name polling index events) = (Some (Ok tt), j) → journal_inv j.
Proof.
  unfold initialize. destruct mkdir_error; [done|]. cbn [j_runs j_order new_journal].
  pose proof (absorb_order (index_runs cast (new_journal dir name polling index events)) (∅, [])) as Hord.
  pose proof (absorb_keys (index_runs cast (new_journal dir name polling index events)) (∅, [])) as Hkeys.
  destruct (foldl absorb _ _) as [runs order]. simpl in Hord, Hkeys.
  specialize (Hord ltac:(intros; rewrite lookup_empty, elem_of_nil; split; [by intros []|done])).
  intros Hrec. apply recover_runs_close in Hrec as [Hk Hl Ho Hq].
  - constructor; [|done|by rewrite Ho|by rewrite Hq]. intros id r Hr. rewrite Ho.
    destruct (Hl id r Hr) as [?%not_elem_of_nil|E]; [done|]. by rewrite E.
  - split; simpl; [by apply Hkeys|intros id r Hr; left; apply Hord; by eexists|done|done].
Qed.

(** C30. Whatever the run directory holds when the journal starts, whatever the
    file system answers and however the operations interleave, at most one run is
    open: once [initialize] has succeeded, which closes what an earlier process
    left open, a known run is open exactly when [open_run_id_] names it, and the
    queue off the tick thread stays within its bound. *)
Theorem one_open_run `{JsonLines} (cast : double → Z) (version : string) (mkdir_error : option string)
    (env : string → RecoveryEnv) (dir name : string) (polling : Z) (index : option string)
    (events : gmap string string) (j0 j : RunJournal) :
  initialize cast mkdir_error env (new_journal dir name polling index events) = (Some (Ok tt), j0) →
  rtc (journal_step cast version) j0 j →
  (∀ id r, get j id = Some r → (run_state r = Open ↔ j_open_run_id j = Some id)) ∧
  (∀ id1 id2 r1 r2, get j id1 = Some r1 → get j id2 = Some r2 →
     run_state r1 = Open → run_state r2 = Open → id1 = id2) ∧
  Z.of_nat (length (j_fault_queue j)) ≤ kMaxFaultQueue.
Proof.
  intros H0%initialize_inv Hreach. assert (journal_inv j) as [Ho _ _ Hq]
    by (eapply rtc_invariant; [exact H0| |exact Hreach]; intros; by eapply step_inv).
  unfold get. split_and!; [done| |done]. intros id1 id2 r1 r2 H1 H2 Hs1 Hs2.
  apply (Ho _ _ H1) in Hs1. apply (Ho _ _ H2) in Hs2. congruence.
Qed.

Definition start_journal : RunJournal := new_journal "/var/anolis" "rt" 500 None ∅.
Definition sample_spec : RunOpenSpec := mkOpenSpec (Some "first") (JObject []) (mkScope [] [] []).
Definition no_cast : double → Z := λ _, 0.

Lemma start_journal_inv : journal_inv start_journal.
Proof. by constructor. Qed.

(** The journal after one run was opened. *)
Definition opened_journal : RunJournal :=
  (open (H := bit_codec) no_cast "1.0" sample_spec None 1000 7 8 1000 1000 1001 good_io good_io start_journal).2.

Lemma opened_step : journal_step (H := bit_codec) no_cast "1.0" start_journal opened_journal.
Proof.
  eapply (step_open (H := bit_codec) no_cast "1.0" sample_spec None 1000 7 8 1000 1000 1001 good_io good_io).
  - unfold opened_journal. apply surjective_pairing.
  - reflexivity.
Qed.

(** The next process finds that run open in the index, and opens one itself. *)
Definition sample_env (_ : string) : RecoveryEnv := mkRecovery 5000 5000 5001 good_io good_io.
Definition recovered_journal : RunJournal :=
  (initialize (H := bit_codec) no_cast None sample_env
     (new_journal "/var/anolis" "rt" 500 (j_index opened_journal) (j_events opened_journal))).2.
Definition second_journal : RunJournal :=
  (open (H := bit_codec) no_cast "1.0" sample_spec None 6000 7 8 6000 6000 6001 good_io good_io recovered_journal).2.

Example one_open_run_witness :
  run_state <$> list_runs 10 0 second_journal = [Open; Closed] ∧
  ∀ id r, get second_journal id = Some r → (run_state r = Open ↔ j_open_run_id second_journal = Some id).
Proof.
  split; [vm_compute; reflexivity|].
  assert (initialize (H := bit_codec) no_cast None sample_env
    (new_journal "/var/anolis" "rt" 500 (j_index opened_journal) (j_events opened_journal)) =
    (Some (Ok tt), recovered_journal)) as Ei.
  { assert ((initialize (H := bit_codec) no_cast None sample_env
      (new_journal "/var/anolis" "rt" 500 (j_index opened_journal) (j_events opened_journal))).1 = Some (Ok tt)) as E1
      by (vm_compute; reflexivity).
    rewrite <- E1. unfold recovered_journal. apply surjective_pairing. }
  apply (one_open_run (H := bit_codec) no_cast "1.0" None sample_env _ _ _ _ _ recovered_journal second_journal Ei).
  apply rtc_once.
  eapply (step_open (H := bit_codec) no_cast "1.0" sample_spec None 6000 7 8 6000 6000 6001 good_io good_io).
  - unfold second_journal. apply surjective_pairing.
  - vm_compute. reflexivity.
Defined.

(** A closed run is immutable: no later operation of the journal changes
    its record or its event stream, whatever the file system answers. *)
Theorem closed_runs_immutable `{JsonLines} (cast : double → Z) (version : string) (j0 j : RunJournal)
    (id : string) (r : Run) :
  journal_inv j0 → get j0 id = Some r → run_state r = Closed → rtc (journal_step cast version) j0 j →
  get j id = Some r ∧ stream cast j id = stream cast j0 id.
Proof.
  intros H0 Hr Hs Hreach. unfold get, stream in *.
  enough (journal_inv j ∧ j_runs j !! id = Some r ∧ j_events j !! id = j_events j0 !! id) as (_ & -> & ->) by done.
  revert Hreach. apply (rtc_invariant (journal_step cast version)
    (λ j, journal_inv j ∧ j_runs j !! id = Some r ∧ j_events j !! id = j_events j0 !! id)); [done|].
  clear j. intros j j' (Hj & Hr' & <-) Hstep. split; [by eapply step_inv|].
  destruct (step_effect cast version j j' Hj Hstep) as [q dropped j' ->|c j' ->|c n j' ->
    |id' run files seqs j' Hi Ho -> Hf|id' run c n files seqs j' Hno Hi Ho Hk -> Hf
    |id' run updated c files seqs j' Hi Ho Hu Hk -> Hf]; simpl; try done;
    (destruct (decide (id' = id)) as [->|Hne]; [congruence|]); rewrite ?lookup_insert_ne by done;
    by rewrite Hf.
Qed.

Definition closed_journal : RunJournal :=
  (close (H := bit_codec) no_cast (default "" (j_open_run_id opened_journal)) OperatorStop 2000 2000 2001
     good_io good_io opened_journal).2.

(** A run closed by the operator keeps its record when another is opened. *)
Example closed_runs_immutable_witness :
  let id := default "" (j_open_run_id opened_journal) in
  let reopened := (open (H := bit_codec) no_cast "1.0" sample_spec None 3000 9 9 3000 3000 3001 good_io good_io
                     closed_journal).2 in
  ∃ r, get closed_journal id = Some r ∧ run_close_reason r = Some OperatorStop ∧ get reopened id = Some r.
Proof.
  intros id reopened.
  assert (journal_inv closed_journal) as Hinv.
  { eapply (step_inv (H := bit_codec) no_cast "1.0" opened_journal);
      [by eapply (step_inv (H := bit_codec) no_cast "1.0" start_journal _ start_journal_inv), opened_step|].
    eapply step_close. unfold closed_journal. apply surjective_pairing. }
  assert (∃ r, get closed_journal id = Some r ∧ run_close_reason r = Some OperatorStop ∧ run_state r = Closed)
    as (r & Hr & Hc & Hs) by (vm_compute; by eexists).
  exists r. split; [exact Hr|]. split; [exact Hc|].
  apply (closed_runs_immutable (H := bit_codec) no_cast "1.0" closed_journal reopened id r Hinv Hr Hs).
  apply rtc_once. eapply (step_open (H := bit_codec) no_cast "1.0" sample_spec None 3000 9 9 3000 3000 3001).
  - unfold reopened. apply surjective_pairing.
  - vm_compute. reflexivity.
Defined.

(** C31. A restart restores the journal, as long as the index was written: when
    every run record so far was written and synced, by opens and closes that
    succeeded and by the recoveries of any number of earlier restarts since the
    directory was empty, and the ones of this recovery are, starting again reads
    every run back with the record it had, in the order they were opened, except
    that a run left open is closed as abandoned; failures in the event streams do
    not matter. *)
Theorem restart_restores_runs `{JsonLines} (cast : double → Z) (version : string) (j : RunJournal)
    (env : string → RecoveryEnv) (dir name : string) (polling : Z) :
  rtc (life_step cast version) (new_journal dir name polling None ∅) j →
  (∀ id, re_record_io (env id) = good_io ∧ in_uint64 (re_now (env id))) →
  ∃ j', initialize cast None env (new_journal dir name polling (j_index j) (j_events j)) = (Some (Ok tt), j') ∧
    j_order j' = j_order j ∧ j_open_run_id j' = None ∧
    ∀ id, get j' id = abandon (re_now (env id)) <$> get j id.
Proof.
  intros Hreach Henv. assert (synced cast j) as Hsyn
    by (eapply rtc_invariant; [apply new_journal_synced| |exact Hreach]; intros; by eapply life_synced).
  destruct (restart_good cast env dir name polling j Hsyn Henv) as (j' & Hini & _ & Ho & Hi & Hr). by exists j'.
Qed.

(** A run left open by a stopped process is there after the restart, abandoned. *)
Example restart_restores_runs_witness :
  ∃ j', initialize (H := bit_codec) no_cast None sample_env
          (new_journal "/var/anolis" "rt" 500 (j_index opened_journal) (j_events opened_journal)) = (Some (Ok tt), j') ∧
    run_close_reason <$> list_runs 10 0 j' = [Some Abandoned].
Proof.
  destruct (restart_restores_runs (H := bit_codec) no_cast "1.0" opened_journal sample_env "/var/anolis" "rt" 500)
    as (j' & Hini & Hord & _ & Hruns).
  - apply rtc_once. eapply (life_open (H := bit_codec) no_cast "1.0" sample_spec None 1000 7 8 1000 1000 1001 good_io);
      [vm_compute; reflexivity|reflexivity|by vm_compute..].
  - intros id. split; [reflexivity|by vm_compute].
  - exists j'. split; [exact Hini|]. unfold list_runs. rewrite Hord. unfold get in Hruns.
    assert (j_order opened_journal = [default "" (j_open_run_id opened_journal)]) as -> by (vm_compute; reflexivity).
    simpl. rewrite Hruns. vm_compute. reflexivity.
Defined.

(** ** Event sequences *)

Lemma event_json_roundtrip cast e :
  in_uint64 (ev_sequence e) → in_uint64 (ev_occurred_at e) → in_uint64 (ev_recorded_at e) →
  in_uint32 (ev_schema_version e) → is_object (ev_payload e) = true →
  run_event_from_json cast (event_to_json e) = Some e.
Proof.
  intros Hs Ho Hr Hv Hp. unfold run_event_from_json, jmember, jvalue.
  change (jget "run_id" (event_to_json e)) with (Some (JString (ev_run_id e))).
  change (jget "category" (event_to_json e)) with (Some (JString (category_to_string (ev_category e)))).
  change (jget "schema_version" (event_to_json e)) with (Some (JInt (ev_schema_version e))).
  change (jget "sequence" (event_to_json e)) with (Some (JInt (ev_sequence e))).
  change (jget "type" (event_to_json e)) with (Some (JString (ev_type e))).
  change (jget "occurred_at_epoch_ms" (event_to_json e)) with (Some (JInt (ev_occurred_at e))).
  change (jget "recorded_at_epoch_ms" (event_to_json e)) with (Some (JInt (ev_recorded_at e))).
  change (jget "payload" (event_to_json e)) with (Some (ev_payload e)).
  cbn [mbind option_bind jinteger jstring].
  assert (run_event_category_from_string (category_to_string (ev_category e)) = Some (ev_category e)) as ->
    by (by destruct (ev_category e)).
  rewrite to_uint32_id, !to_uint64_id by done. cbn [mbind option_bind]. unfold as_object. rewrite Hp. by destruct e.
Qed.

Lemma event_json_canonical e :
  in_uint64 (ev_sequence e) → in_uint64 (ev_occurred_at e) → in_uint64 (ev_recorded_at e) →
  in_uint32 (ev_schema_version e) → canonical (ev_payload e) = true → canonical (event_to_json e) = true.
Proof.
  intros Hs Ho Hr Hv Hp. unfold in_uint64, in_uint32, event_to_json in *.
  assert (∀ z, 0 ≤ z ≤ uint64_max → canonical (JInt z) = true) as Hint
    by (intros; apply canonical_int; unfold int64_min; lia).
  apply canonical_object; [|reflexivity]. unfold uint64_max in *.
  repeat (constructor; [first [done|apply Hint; simpl; lia]|]). constructor.
Qed.

Section Sequences.
Context `{JsonLines} (cast : double → Z).

(** The sequences of a stream rise, and the next one is past them all. *)
Record seq_ok (j : RunJournal) (id : string) : Prop := {
  seq_sorted : StronglySorted Z.lt (ev_sequence <$> stream cast j id);
  seq_range : Forall (λ e, 0 ≤ ev_sequence e < uint64_max) (stream cast j id);
  seq_next : ∀ n, j_next_seq j !! id = Some n →
    0 < n ≤ uint64_max ∧ Forall (λ e, ev_sequence e < n) (stream cast j id);
}.

Lemma foldl_max_le l a : a ≤ foldl Z.max a l ∧ Forall (λ x, x ≤ foldl Z.max a l) l.
Proof.
  revert a. induction l as [|x l IH]; intros a; simpl; [by split; [lia|constructor]|].
  destruct (IH (Z.max a x)) as [H1 H2]. split; [lia|]. constructor; [lia|done].
Qed.

Lemma foldl_max_lt l a b : a < b → Forall (λ x, x < b) l → foldl Z.max a l < b.
Proof. intros Ha Hl. revert a Ha. induction Hl; intros a Ha; simpl; [done|]. apply IHHl. lia. Qed.

(** The sequence an event gets is past every one in the stream, whether it is
    remembered or restored from the file. *)
Lemma next_sequence_fresh j id :
  seq_ok j id → 0 < next_sequence cast id j ≤ uint64_max ∧
    Forall (λ e, ev_sequence e < next_sequence cast id j) (stream cast j id).
Proof.
  intros [Hs Hr Hn]. unfold next_sequence. destruct (j_next_seq j !! id) as [n|] eqn:E; [by apply Hn|].
  destruct (foldl_max_le (ev_sequence <$> stream cast j id) 0) as [H0 Hmax].
  assert (foldl Z.max 0 (ev_sequence <$> stream cast j id) < uint64_max) as Hlt.
  { apply foldl_max_lt; [done|]. apply Forall_fmap. eapply Forall_impl; [exact Hr|]. simpl. lia. }
  rewrite to_uint64_id by (unfold in_uint64; lia). split; [lia|].
  apply Forall_forall. intros e He. rewrite Forall_forall in Hmax.
  specialize (Hmax (ev_sequence e) (list_elem_of_fmap_2 _ _ _ He)). simpl in Hmax. lia.
Qed.

Lemma seq_ok_append j j' id e :
  seq_ok j id → stream cast j' id = stream cast j id ++ [e] →
  ev_sequence e = next_sequence cast id j → ev_sequence e < uint64_max →
  j_next_seq j' !! id = Some (to_uint64 (ev_sequence e + 1)) → seq_ok j' id.
Proof.
  intros Hj Hst He Hlt Hn. destruct (next_sequence_fresh j id Hj) as [Hpos Hall]. rewrite <- He in *.
  assert (Forall (λ e', ev_sequence e' < ev_sequence e) (stream cast j id)) as Hall' by done.
  destruct Hj as [Hs Hr _]. constructor; rewrite Hst.
  - rewrite fmap_app. apply StronglySorted_snoc; [done|]. by apply Forall_fmap.
  - apply Forall_app. split; [done|]. repeat constructor; lia.
  - rewrite Hn. intros n [= <-]. rewrite to_uint64_id by (unfold in_uint64; lia). split; [lia|].
    apply Forall_app. split; [|repeat constructor; lia]. eapply Forall_impl; [exact Hall'|]. simpl. lia.
Qed.

Lemma seq_ok_same j j' id :
  seq_ok j id → stream cast j' id = stream cast j id → j_next_seq j' !! id = j_next_seq j !! id → seq_ok j' id.
Proof. intros [Hs Hr Hn] Hst Hseq. constructor; rewrite ?Hst; [done..|]. intros n. rewrite Hseq. apply Hn. Qed.

Lemma no_final_newline_LF s : no_final_newline (s +:+ char_string LF) = false.
Proof.
  induction s as [|c s IH]; [done|]. rewrite string_app_cons. simpl.
  destruct (s +:+ char_string LF) eqn:E; [by destruct s|done].
Qed.

Lemma read_lines_newline cur c :
  no_final_newline c = true → read_lines_from cur (c +:+ char_string LF) = read_lines_from cur c.
Proof.
  revert cur. induction c as [|a c IH]; intros cur; [done|]. rewrite string_app_cons. cbn [read_lines_from].
  destruct c as [|b c].
  - simpl. destruct (Ascii.eqb a LF); [done|]. intros _. change ("" +:+ char_string LF) with (char_string LF).
    simpl. by rewrite bool_decide_eq_false_2 by (by destruct cur).
  - intros Hn. change (no_final_newline (String b c) = true) in Hn. destruct (Ascii.eqb a LF); [f_equal|]; by apply IH.
Qed.

(** Terminating a torn line changes nothing that is read. *)
Lemma parse_lines_terminated {A} (from : json → option A) content :
  parse_lines from (Some (default "" content +:+ (if ends_without_newline content then char_string LF else ""))) =
  parse_lines from content.
Proof.
  unfold parse_lines. f_equal. unfold read_lines. simpl. destruct content as [c|]; simpl; [|done].
  destruct (no_final_newline c) eqn:E; [by apply read_lines_newline|by rewrite string_app_nil_r].
Qed.

(** A failed write leaves no complete document behind. *)
Definition clean_failure (io : Io) (content : option string) : Prop :=
  ∀ part, io_left_behind io = Some part →
    parse_lines (run_event_from_json cast) (Some (default "" content +:+ part)) =
    parse_lines (run_event_from_json cast) content.

(** The event an append builds. *)
Definition built_event (id : string) (category : RunEventCategory) (type : string) (payload : json)
    (occurred now1 now2 : Z) (j : RunJournal) : RunEvent :=
  mkRunEvent id (next_sequence cast id j) category type (if occurred =? 0 then now1 else occurred) now2
    (if is_object payload then payload else JObject []) 1.

Lemma built_event_log id category type payload occurred now1 now2 j text :
  seq_ok j id → next_sequence cast id j < uint64_max →
  in_uint64 occurred → in_uint64 now1 → in_uint64 now2 → canonical payload = true →
  let e := built_event id category type payload occurred now1 now2 j in
  line_dump (event_to_json e) = Some text →
  parse_lines (run_event_from_json cast)
    (Some ((default "" (j_events j !! id) +:+
      (if ends_without_newline (j_events j !! id) then char_string LF else "")) +:+ text +:+ char_string LF)) =
  stream cast j id ++ [e].
Proof.
  intros Hj Hlt Ho H1 H2 Hp e Ht. destruct (next_sequence_fresh j id Hj) as [Hpos _].
  assert (in_uint64 (ev_sequence e)) by (simpl; unfold in_uint64; lia).
  assert (in_uint64 (ev_occurred_at e)) by (simpl; by destruct (occurred =? 0)).
  assert (in_uint32 (ev_schema_version e)) by (simpl; unfold in_uint32; lia).
  assert (is_object (ev_payload e) = true ∧ canonical (ev_payload e) = true) as [? ?]
    by (simpl; by destruct (is_object payload) eqn:E).
  rewrite (parse_lines_append _ _ _ _ Ht) by (by apply event_json_canonical).
  by rewrite event_json_roundtrip.
Qed.

Lemma append_event_cases id category type payload occurred now1 now2 io j res j' :
  seq_ok j id → next_sequence cast id j < uint64_max →
  in_uint64 occurred → in_uint64 now1 → in_uint64 now2 → canonical payload = true →
  clean_failure io (j_events j !! id) →
  append_event_locked cast id category type payload occurred now1 now2 io j = (res, j') →
  let e := built_event id category type payload occurred now1 now2 j in
  (stream cast j' id = stream cast j id ∧ j_next_seq j' !! id = j_next_seq j !! id ∧
     (∀ e', res ≠ Some (Ok e'))) ∨
  (stream cast j' id = stream cast j id ++ [e] ∧ j_next_seq j' !! id = Some (to_uint64 (ev_sequence e + 1)) ∧
     (∀ e', res = Some (Ok e') → e' = e)).
Proof.
  intros Hj Hlt Ho H1 H2 Hp Hclean Ha e. unfold append_event_locked in Ha.
  fold (built_event id category type payload occurred now1 now2 j) in Ha. fold e in Ha. unfold append_line in Ha.
  destruct (io_open_ok io); simpl in Ha; [|left; by destruct (j_events j !! id) eqn:E; simplify_eq; simpl;
    unfold stream; simpl; rewrite ?lookup_insert_eq, ?E].
  destruct (line_dump (event_to_json e)) as [text|] eqn:Ht.
  - destruct (io_left_behind io) as [part|] eqn:Hl.
    + left. simplify_eq. unfold stream. simpl. rewrite lookup_insert_eq. split; [by apply Hclean|done].
    + right. pose proof (built_event_log id category type payload occurred now1 now2 j text Hj Hlt Ho H1 H2 Hp Ht) as Hlog.
      destruct (io_sync_ok io); simpl in Ha; [destruct (_ && _)|]; simplify_eq; unfold stream in *; simpl;
        rewrite !lookup_insert_eq; (split; [exact Hlog|]); (split; [done|]); intros e' [= <-]; done.
  - left. simplify_eq. unfold stream. simpl. rewrite lookup_insert_eq.
    split; [apply parse_lines_terminated|done].
Qed.
End Sequences.

(** Appending an event keeps the stream's sequences strictly rising,
    whatever the file system answers and also when the counter has to be
    restored from the file after a restart: a successful append adds exactly the
    event it returns, with a sequence past all before it; a failed one adds that
    event or nothing; the streams of other runs are untouched. *)
Theorem append_event_extends_stream `{JsonLines} (cast : double → Z) (id : string) (category : RunEventCategory)
    (type : string) (payload : json) (occurred now1 now2 : Z) (io : Io) (j j' : RunJournal)
    (res : option (result RunEvent)) :
  seq_ok cast j id → next_sequence cast id j < uint64_max →
  in_uint64 occurred → in_uint64 now1 → in_uint64 now2 → canonical payload = true →
  clean_failure cast io (j_events j !! id) →
  append_event_locked cast id category type payload occurred now1 now2 io j = (res, j') →
  seq_ok cast j' id ∧
  (∀ id', id' ≠ id → stream cast j' id' = stream cast j id') ∧
  match res with
  | Some (Ok e) => stream cast j' id = stream cast j id ++ [e] ∧
                   ∀ e', e' ∈ stream cast j id → ev_sequence e' < ev_sequence e
  | _ => ∃ l, stream cast j' id = stream cast j id ++ l ∧ (length l ≤ 1)%nat
  end.
Proof.
  intros Hj Hlt Ho H1 H2 Hp Hclean Ha.
  destruct (append_event_frame _ _ _ _ _ _ _ _ _ _ _ _ Ha) as (files & seqs & Hj' & Hf & _).
  assert (∀ id', id' ≠ id → stream cast j' id' = stream cast j id') as Hother
    by (intros id' Hne; unfold stream; rewrite Hj'; simpl; by rewrite Hf).
  destruct (next_sequence_fresh cast j id Hj) as [_ Hfresh].
  destruct (append_event_cases cast _ _ _ _ _ _ _ _ _ _ _ Hj Hlt Ho H1 H2 Hp Hclean Ha)
    as [(Hst & Hn & Hres)|(Hst & Hn & Hres)].
  - split; [by eapply seq_ok_same|]. split; [done|].
    destruct res as [[e|msg]|]; [by destruct (Hres e)| |]; exists []; (split; [by rewrite app_nil_r|simpl; lia]).
  - split; [by eapply seq_ok_append|]. split; [done|].
    destruct res as [[e|msg]|]; [|eexists; (split; [exact Hst|simpl; lia])..]. rewrite (Hres e eq_refl) in *. split; [done|].
    intros e' Hin. rewrite Forall_forall in Hfresh. by apply Hfresh.
Qed.

Lemma seq_ok_intro `{JsonLines} cast j id seqs n :
  ev_sequence <$> stream cast j id = seqs → StronglySorted Z.lt seqs →
  Forall (λ z, 0 ≤ z < uint64_max) seqs → j_next_seq j !! id = Some n → 0 < n ≤ uint64_max →
  Forall (λ z, z < n) seqs → seq_ok cast j id.
Proof.
  intros <- Hs Hr Hn Hpos Hlt. constructor; [done|by apply Forall_fmap in Hr|].
  rewrite Hn. intros m [= <-]. split; [done|]. by apply Forall_fmap in Hlt.
Qed.

(** The second event of a run gets the next sequence. *)
Example append_event_extends_stream_witness :
  let id := default "" (j_open_run_id opened_journal) in
  let res := append_event_locked (H := bit_codec) no_cast id Annotation "sample" (JObject []) 0 1500 1501 good_io
               opened_journal in
  ev_sequence <$> stream (H := bit_codec) no_cast res.2 id = [1; 2] ∧ seq_ok (H := bit_codec) no_cast res.2 id.
Proof.
  intros id res. split; [vm_compute; reflexivity|].
  assert (in_uint64 0 ∧ in_uint64 1500 ∧ in_uint64 1501) as (H0 & H1 & H2) by (by vm_compute).
  assert (seq_ok (H := bit_codec) no_cast opened_journal id) as Hok.
  { assert (ev_sequence <$> stream (H := bit_codec) no_cast opened_journal id = [1]) as Hseq by (vm_compute; reflexivity).
    assert (j_next_seq opened_journal !! id = Some 2) as Hnext by (vm_compute; reflexivity).
    refine (seq_ok_intro (H := bit_codec) no_cast opened_journal id [1] 2 Hseq _ _ Hnext _ _); by repeat constructor. }
  assert (next_sequence (H := bit_codec) no_cast id opened_journal = 2) as Hn by (vm_compute; reflexivity).
  assert (2 < uint64_max) as H2' by reflexivity.
  pose proof (eq_ind_r (λ z, z < uint64_max) H2' Hn) as Hlt.
  assert (clean_failure (H := bit_codec) no_cast good_io (j_events opened_journal !! id)) as Hc
    by (intros part Hp; discriminate Hp).
  exact (proj1 (append_event_extends_stream (H := bit_codec) no_cast id Annotation "sample" (JObject []) 0 1500 1501
    good_io opened_journal res.2 res.1 Hok Hlt H0 H1 H2 eq_refl Hc (surjective_pairing res))).
Defined.

(** A write that fails after the whole document but before its newline leaves an
    event in the file whose sequence was not spent: the next append repeats it. *)
Example failed_write_can_repeat_sequence :
  let id := default "" (j_open_run_id opened_journal) in
  let append io j := append_event_locked (H := bit_codec) no_cast id Annotation "sample" (JObject []) 0 1500 1501 io j in
  let e := built_event (H := bit_codec) no_cast id Annotation "sample" (JObject []) 0 1500 1501 opened_journal in
  let failed := append (mkIo true (line_dump (JsonLines := bit_codec) (event_to_json e)) true true) opened_journal in
  (∃ msg, failed.1 = Some (Err msg)) ∧
  ev_sequence <$> stream (H := bit_codec) no_cast (append good_io failed.2).2 id = [1; 2; 2].
Proof. split; [vm_compute; by eexists|vm_compute; reflexivity]. Qed.
