(* ===== verification/DeviceLossLatch.v ===== *)
(** * The device-loss latch and its re-issue worker
    ([core/control/device_loss_latch.cpp], [core/control/reissue_worker.cpp])

    The latch that holds a device the cache lost against autonomous actuation,
    fed with the reachability edges of [StateCache] in whatever order their
    threads deliver them, and the worker that re-asserts the safe state of a
    device that came back latched.  Logging, and [expected_loss_] which only
    chooses the log line, are left out. *)

From S2P Require Import Prelude Protocol Interfaces Registry Parameters StateCache.

Record AppliedEdge := mkApplied { ae_seq : Z; ae_reachable : bool }.

Definition no_edge : AppliedEdge := mkApplied 0 false.

Record DeviceLossLatch := mkLossLatch {
  latched_ : gset string;
  last_edge_ : gmap string AppliedEdge;
}.

Definition empty_loss_latch : DeviceLossLatch := mkLossLatch ∅ ∅.

Definition transport_failure (s : StatusCode) : bool :=
  bool_decide (s = CODE_UNAVAILABLE) || bool_decide (s = CODE_DEADLINE_EXCEEDED).

Definition is_latched (l : DeviceLossLatch) (h : string) : bool := bool_decide (h ∈ latched_ l).

(** [last_edge_[h]]: creates the entry. *)
Definition last_of (l : DeviceLossLatch) (h : string) : AppliedEdge := default no_edge (last_edge_ l !! h).

Definition apply_reachability_edge (h : string) (reachable : bool) (last_status : StatusCode)
    (edge_seq : Z) (l : DeviceLossLatch) : bool * DeviceLossLatch :=
  let last := last_of l h in
  if edge_seq <=? ae_seq last then
    let edges := <[h := last]> (last_edge_ l) in
    if reachable || negb (transport_failure last_status) then (false, mkLossLatch (latched_ l) edges)
    else
      let engaged := negb (is_latched l h) in
      (engaged && ae_reachable last, mkLossLatch ({[h]} ∪ latched_ l) edges)
  else
    let edges := <[h := mkApplied edge_seq reachable]> (last_edge_ l) in
    if reachable then (is_latched l h, mkLossLatch (latched_ l) edges)
    else if transport_failure last_status then (false, mkLossLatch ({[h]} ∪ latched_ l) edges)
    else (false, mkLossLatch (latched_ l) edges).

Definition release_all (l : DeviceLossLatch) : list string * DeviceLossLatch :=
  (set_items (latched_ l), mkLossLatch ∅ (last_edge_ l)).

Definition latched (l : DeviceLossLatch) : list string := set_items (latched_ l).

#[global] Instance device_loss_latch_view : IDeviceLossLatch DeviceLossLatch := {
  loss_is_latched := is_latched;
  loss_latched := latched;
}.

(** The sink: apply the edge, ask for the re-issue outside the lock. *)
Definition apply_edge (e : Edge) (l : DeviceLossLatch) : bool * DeviceLossLatch :=
  apply_reachability_edge (e_handle e) (e_reachable e) (e_status e) (e_seq e) l.

Definition make_reachability_sink {W : Type} (reissue : string → W → W) (e : Edge)
    (s : DeviceLossLatch * W) : DeviceLossLatch * W :=
  let '(l, w) := s in
  let '(ask, l') := apply_edge e l in
  (l', if ask then reissue (e_handle e) w else w).

(** ** The re-issue worker *)

Record ReissueWorker := mkWorker {
  queue_ : list string;
  stopping_ : bool;
}.

Definition post (h : string) (w : ReissueWorker) : ReissueWorker :=
  if stopping_ w then w
  else if bool_decide (h ∈ queue_ w) then w
  else mkWorker (queue_ w ++ [h]) (stopping_ w).

Definition request_stop (w : ReissueWorker) : ReissueWorker := mkWorker (queue_ w) true.

(** What one wake-up of [run] finds under the lock. *)
Inductive WorkerNext :=
| WaitMore
| Return
| Reissue (h : string) (w : ReissueWorker).

Definition worker_next (w : ReissueWorker) : WorkerNext :=
  match queue_ w with
  | [] => if stopping_ w then Return else WaitMore
  | h :: q => Reissue h (mkWorker q (stopping_ w))
  end.

(** The worker thread beside the posting threads: it is waiting, re-asserting
    the safe state of a device with the lock released, or has returned. *)
Inductive WorkerPc := Waiting | Running (h : string) | Returned.

Inductive WorkerEvent := Posted (h : string) | Started (h : string).

Record WorkerSystem := mkSystem {
  sys_worker : ReissueWorker;
  sys_pc : WorkerPc;
  sys_log : list WorkerEvent;   (* accepted posts and started re-asserts, in order *)
}.

Definition new_system : WorkerSystem := mkSystem (mkWorker [] false) Waiting [].

Inductive worker_step : WorkerSystem → WorkerSystem → Prop :=
| step_post h w pc log :
    worker_step (mkSystem w pc log)
      (mkSystem (post h w) pc (if stopping_ w then log else log ++ [Posted h]))
| step_stop w pc log : worker_step (mkSystem w pc log) (mkSystem (request_stop w) pc log)
| step_start w log h w' :
    worker_next w = Reissue h w' →
    worker_step (mkSystem w Waiting log) (mkSystem w' (Running h) (log ++ [Started h]))
| step_finish w h log : worker_step (mkSystem w (Running h) log) (mkSystem w Waiting log)
| step_return w log :
    worker_next w = Return → worker_step (mkSystem w Waiting log) (mkSystem w Returned log).

(** Handles with an accepted post that no later re-assert has picked up. *)
Fixpoint unserved (log : list WorkerEvent) (waiting : gset string) : gset string :=
  match log with
  | [] => waiting
  | Posted h :: r => unserved r ({[h]} ∪ waiting)
  | Started h :: r => unserved r (waiting ∖ {[h]})
  end.

(** ** Applying edges *)

Definition apply_edges (es : list Edge) (l : DeviceLossLatch) : DeviceLossLatch :=
  foldl (λ l e, snd (apply_edge e l)) l es.

(** The latch decision in one line: a transport loss latches, stale or not. *)
Definition transport_loss (e : Edge) : bool := negb (e_reachable e) && transport_failure (e_status e).

Definition losses (es : list Edge) : gset string :=
  list_to_set (e_handle <$> filter (λ e, transport_loss e = true) es).

(** The newest of an applied edge and an arriving one. *)
Definition newer (a : AppliedEdge) (e : Edge) : AppliedEdge :=
  if e_seq e <=? ae_seq a then a else mkApplied (e_seq e) (e_reachable e).

Lemma apply_edge_latched e l :
  latched_ (apply_edge e l).2 = (if transport_loss e then {[e_handle e]} ∪ latched_ l else latched_ l).
Proof.
  unfold apply_edge, apply_reachability_edge, transport_loss.
  destruct (e_seq e <=? _), (e_reachable e), (transport_failure (e_status e)); done.
Qed.

Lemma apply_edge_last e l h :
  last_of (apply_edge e l).2 h = (if decide (e_handle e = h) then newer (last_of l h) e else last_of l h).
Proof.
  unfold apply_edge, apply_reachability_edge, newer.
  assert (∀ a, default no_edge (<[e_handle e := a]> (last_edge_ l) !! h) =
            if decide (e_handle e = h) then a else default no_edge (last_edge_ l !! h)) as Hi.
  { intros a. rewrite lookup_insert. by case_decide. }
  case_decide as Hh; [subst h|];
    (destruct (e_seq e <=? _), (e_reachable e), (transport_failure (e_status e));
     unfold last_of; simpl; rewrite Hi; try done;
     by rewrite ?decide_True, ?decide_False by done).
Qed.

Lemma losses_cons e es :
  losses (e :: es) = (if transport_loss e then {[e_handle e]} else ∅) ∪ losses es.
Proof.
  unfold losses. rewrite filter_cons. destruct (transport_loss e) eqn:E; simpl; set_solver.
Qed.

Lemma apply_edges_latched es l : latched_ (apply_edges es l) = losses es ∪ latched_ l.
Proof.
  revert l. induction es as [|e es IH]; intros l; simpl; [unfold losses; simpl; set_solver|].
  rewrite IH, apply_edge_latched, losses_cons. destruct (transport_loss e); set_solver.
Qed.

Lemma apply_edges_last es l h :
  last_of (apply_edges es l) h = foldl newer (last_of l h) (filter (λ e, e_handle e = h) es).
Proof.
  revert l. induction es as [|e es IH]; intros l; [done|]. simpl.
  rewrite IH, apply_edge_last, filter_cons. by destruct (decide (e_handle e = h)).
Qed.

(** Edges with distinct numbers commute. *)
Lemma newer_comm a e1 e2 : e_seq e1 ≠ e_seq e2 → newer (newer a e1) e2 = newer (newer a e2) e1.
Proof.
  intros Hne. unfold newer.
  destruct (Z.leb_spec (e_seq e1) (ae_seq a)), (Z.leb_spec (e_seq e2) (ae_seq a)); simpl;
    repeat (match goal with |- context [?x <=? ?y] => destruct (Z.leb_spec x y) end; simpl);
    try done; lia.
Qed.

Lemma foldl_newer_perm es es' a :
  es ≡ₚ es' → NoDup (e_seq <$> es) → foldl newer a es = foldl newer a es'.
Proof.
  intros Hp. revert a. induction Hp as [|e es es' Hp IH|e1 e2 es|es1 es2 es3 H1 IH1 H2 IH2];
    intros a Hnd; simpl in *; [done| | |].
  - apply NoDup_cons in Hnd as [_ Hnd]. by apply IH.
  - rewrite newer_comm; [done|]. intros E. apply NoDup_cons in Hnd as [Hni _].
    apply Hni. rewrite E. left.
  - rewrite IH1 by done. apply IH2. by rewrite <- H1.
Qed.

Lemma losses_perm es es' : es ≡ₚ es' → losses es = losses es'.
Proof.
  intros Hp. unfold losses. apply leibniz_equiv, list_to_set_perm, fmap_Permutation.
  by apply filter_Permutation.
Qed.

Lemma apply_edges_perm es es' l :
  es ≡ₚ es' → NoDup (e_seq <$> es) →
  latched_ (apply_edges es l) = latched_ (apply_edges es' l) ∧
  ∀ h, last_of (apply_edges es l) h = last_of (apply_edges es' l) h.
Proof.
  intros Hp Hnd. split.
  - rewrite !apply_edges_latched. by rewrite (losses_perm es es').
  - intros h. rewrite !apply_edges_last. apply foldl_newer_perm; [by apply filter_Permutation|].
    eapply sublist_NoDup; [exact Hnd|]. apply fmap_sublist, sublist_filter.
Qed.

(** ** When a re-issue is asked for *)

Definition asks (e : Edge) (l : DeviceLossLatch) : bool := fst (apply_edge e l).

(** Latched with a return as the newest edge: the device is back and held. *)
Definition back_and_held (l : DeviceLossLatch) (h : string) : bool :=
  is_latched l h && ae_reachable (last_of l h).

Lemma is_latched_apply e l h :
  is_latched (apply_edge e l).2 h =
  (bool_decide (e_handle e = h) && transport_loss e) || is_latched l h.
Proof.
  unfold is_latched. rewrite apply_edge_latched. apply Bool.eq_iff_eq_true.
  rewrite orb_true_iff, andb_true_iff, !bool_decide_eq_true.
  destruct (transport_loss e); [rewrite elem_of_union, elem_of_singleton|]; naive_solver.
Qed.

(** An edge that leaves a device back and held either asks for its safe state,
    or found it back and held under the same newest edge. *)
Lemma asks_or_before e l h :
  back_and_held (apply_edge e l).2 h = true →
  (e_handle e = h ∧ asks e l = true) ∨
  (back_and_held l h = true ∧ last_of (apply_edge e l).2 h = last_of l h).
Proof.
  unfold back_and_held. rewrite is_latched_apply, apply_edge_last.
  destruct (decide (e_handle e = h)) as [<-|Hne].
  2:{ rewrite bool_decide_false by done. simpl. by right. }
  rewrite bool_decide_true by done. simpl.
  unfold asks, apply_edge, apply_reachability_edge, newer, transport_loss.
  destruct (e_seq e <=? _), (e_reachable e), (transport_failure (e_status e)), (is_latched l _);
    simpl; intros; bool_facts; auto; try (by right); rewrite ?andb_true_l; auto.
Qed.

Lemma apply_edges_snoc es e l : apply_edges (es ++ [e]) l = (apply_edge e (apply_edges es l)).2.
Proof. unfold apply_edges. by rewrite foldl_app. Qed.

(** ** The worker's queue *)

Definition worker_inv (s : WorkerSystem) : Prop :=
  NoDup (queue_ (sys_worker s)) ∧
  unserved (sys_log s) ∅ = list_to_set (queue_ (sys_worker s)) ∧
  (sys_pc s = Returned → stopping_ (sys_worker s) = true ∧ queue_ (sys_worker s) = []).

Lemma unserved_app l1 l2 s : unserved (l1 ++ l2) s = unserved l2 (unserved l1 s).
Proof. revert s. induction l1 as [|[h|h] l1 IH]; intros s; simpl; auto. Qed.

Lemma worker_inv_step s s' : worker_inv s → worker_step s s' → worker_inv s'.
Proof.
  intros (Hn & Hu & Hr) Hs.
  destruct Hs as [h w pc log|w pc log|w log h w' Hw|w h log|w log Hw]; simpl in *.
  - unfold post. destruct (stopping_ w) eqn:Es; [unfold worker_inv; simpl; rewrite Es; by split_and!|].
    assert (unserved (log ++ [Posted h]) ∅ = {[h]} ∪ list_to_set (queue_ w)) as Hp
      by (by rewrite unserved_app, Hu).
    destruct (bool_decide_reflect (h ∈ queue_ w)) as [Hin|Hni]; unfold worker_inv; simpl; rewrite Hp.
    + split_and!; [done|set_solver|]. intros E. destruct (Hr E). congruence.
    + split_and!; [apply NoDup_app; split_and!; [done|set_solver|apply NoDup_singleton]|
        rewrite list_to_set_app_L; set_solver|]. intros E. destruct (Hr E). congruence.
  - split_and!; [done..|]. intros E. by destruct (Hr E).
  - unfold worker_next in Hw. destruct (queue_ w) as [|h' q] eqn:Eq; [by destruct (stopping_ w)|].
    injection Hw as <- <-. apply NoDup_cons in Hn as [Hni Hn].
    split_and!; simpl; [done| |done]. rewrite unserved_app, Hu. simpl. set_solver.
  - by split_and!.
  - unfold worker_next in Hw. destruct (queue_ w) eqn:Eq; [|done].
    destruct (stopping_ w) eqn:Es; [|done]. unfold worker_inv. simpl. by rewrite Eq.
Qed.

(** The steps left to the worker once it is stopping and nothing posts. *)
Definition drain_steps (s : WorkerSystem) : nat :=
  match sys_pc s with
  | Returned => 0
  | Waiting => 2 * length (queue_ (sys_worker s)) + 1
  | Running _ => 2 * length (queue_ (sys_worker s)) + 2
  end.

(** One worker step of a stopping system. *)
Lemma drain_progress s :
  stopping_ (sys_worker s) = true → sys_pc s ≠ Returned →
  ∃ s', worker_step s s' ∧ stopping_ (sys_worker s') = true ∧ S (drain_steps s') = drain_steps s ∧
        sys_log s' ++ (Started <$> queue_ (sys_worker s')) =
        sys_log s ++ (Started <$> queue_ (sys_worker s)).
Proof.
  destruct s as [[q st] pc log]. simpl. intros -> Hpc. destruct pc as [|h|]; [|eexists|done].
  - destruct q as [|h q]; eexists; [split; [by apply step_return|done]|].
    split; [by apply step_start|]. simpl.
    split_and!; [done|unfold drain_steps; simpl; lia|by rewrite <- app_assoc].
  - split; [apply step_finish|]. split_and!; [done|unfold drain_steps; simpl; lia|done].
Qed.

Lemma drain_all n s :
  stopping_ (sys_worker s) = true → drain_steps s = n →
  ∃ s', nsteps worker_step n s s' ∧ sys_pc s' = Returned ∧
        sys_log s' ++ (Started <$> queue_ (sys_worker s')) =
        sys_log s ++ (Started <$> queue_ (sys_worker s)).
Proof.
  revert s. induction n as [|n IH]; intros s Hst Hn.
  - exists s. split_and!; [constructor| |done]. revert Hn. unfold drain_steps. destruct (sys_pc s); [lia..|done].
  - destruct (drain_progress s Hst) as (s1 & Hs1 & Hst1 & Hd & Hl).
    { intros E. unfold drain_steps in Hn. by rewrite E in Hn. }
    destruct (IH s1 Hst1 ltac:(lia)) as (s' & Hs' & Hpc & Hl').
    exists s'. split_and!; [by econstructor|done|congruence].
Qed.

(** ** Theorems *)

Lemma running_edges_nodup devices now c :
  rtc cache_step (started devices now) c → NoDup (e_seq <$> out_edges c).
Proof. intros (_ & (Hs & _) & _)%running_inv. by apply sorted_nodup. Qed.

(** C13. Edges may reach the latch in any order: whatever the cache has decided
    since startup, applying those edges in any order from any latch state gives
    the same latched set and the same newest edge per device as applying them in
    the order the cache decided them, and what is newly latched is exactly the
    devices with a transport-level loss among them. *)
Theorem loss_latch_order_independent (devices : list RegisteredDevice) (now : Z) (c : StateCache)
    (es : list Edge) (l : DeviceLossLatch) :
  rtc cache_step (started devices now) c → es ≡ₚ out_edges c →
  latched_ (apply_edges es l) = latched_ (apply_edges (out_edges c) l) ∧
  (∀ h, last_of (apply_edges es l) h = last_of (apply_edges (out_edges c) l) h) ∧
  (∀ h, is_latched (apply_edges es l) h = true ↔
        is_latched l h = true ∨
        ∃ e, e ∈ out_edges c ∧ e_handle e = h ∧ e_reachable e = false ∧ transport_failure (e_status e) = true).
Proof.
  intros Hr Hp. destruct (apply_edges_perm es (out_edges c) l Hp) as [H1 H2].
  { rewrite Hp. by eapply running_edges_nodup. }
  split_and!; [done..|]. intros h. unfold is_latched. rewrite !bool_decide_eq_true, H1.
  rewrite apply_edges_latched. unfold losses. rewrite elem_of_union, elem_of_list_to_set, list_elem_of_fmap.
  setoid_rewrite list_elem_of_filter. unfold transport_loss. setoid_rewrite andb_true_iff.
  setoid_rewrite negb_true_iff. naive_solver.
Qed.

Example loss_latch_order_independent_witness :
  latched_ (apply_edges (rev (out_edges sample_run)) empty_loss_latch) = {[ "sim0/a" ]} ∧
  last_of (apply_edges (rev (out_edges sample_run)) empty_loss_latch) "sim0/a" = mkApplied 2 true.
Proof.
  destruct (loss_latch_order_independent _ _ sample_run (rev (out_edges sample_run)) empty_loss_latch
    sample_run_reached (symmetry (Permutation_rev _))) as (-> & -> & _).
  split; vm_compute; reflexivity.
Defined.

(** A device that comes back held gets its safe state re-asserted: if a run
    of edges, in any order, ends with the device latched and a return as its
    newest edge, and it was not already so before, then one of the edges asked
    for the re-issue, at a point where the newest return had been applied. *)
Theorem return_of_held_device_reissued (es : list Edge) (l : DeviceLossLatch) (h : string) :
  back_and_held l h = false → back_and_held (apply_edges es l) h = true →
  ∃ es1 e es2, es = es1 ++ e :: es2 ∧ e_handle e = h ∧ asks e (apply_edges es1 l) = true ∧
    last_of (apply_edges (es1 ++ [e]) l) h = last_of (apply_edges es l) h.
Proof.
  intros Hl. induction es as [|e es IH] using rev_ind; [simpl; congruence|].
  intros Hb. pose proof Hb as Hb'. rewrite apply_edges_snoc in Hb'.
  destruct (asks_or_before _ _ _ Hb') as [[Hh Ha]|[Hold Hlast]].
  - by exists es, e, [].
  - destruct (IH Hold) as (es1 & e1 & es2 & -> & Hh1 & Ha1 & Hl1).
    exists es1, e1, (es2 ++ [e]). split_and!; [by rewrite <- app_assoc|done..|].
    rewrite Hl1. symmetry. rewrite apply_edges_snoc. exact Hlast.
Qed.

Example return_of_held_device_reissued_witness :
  ∃ es1 e es2, rev (out_edges sample_run) = es1 ++ e :: es2 ∧ e_handle e = "sim0/a" ∧
    asks e (apply_edges es1 empty_loss_latch) = true ∧
    last_of (apply_edges (es1 ++ [e]) empty_loss_latch) "sim0/a" =
    last_of (apply_edges (rev (out_edges sample_run)) empty_loss_latch) "sim0/a".
Proof.
  apply (return_of_held_device_reissued (rev (out_edges sample_run)) empty_loss_latch "sim0/a");
    vm_compute; reflexivity.
Defined.

(** No accepted re-issue is lost: in every reachable state of the worker no
    handle waits twice and the handles waiting are exactly those whose latest
    accepted post no re-assert has started after; so once the worker has
    returned, every accepted post was followed by a re-assert of its device. *)
Theorem reissue_worker_serves_posts (s : WorkerSystem) :
  rtc worker_step new_system s →
  NoDup (queue_ (sys_worker s)) ∧ unserved (sys_log s) ∅ = list_to_set (queue_ (sys_worker s)) ∧
  (sys_pc s = Returned → unserved (sys_log s) ∅ = ∅).
Proof.
  intros H. assert (worker_inv s) as (Hn & Hu & Hr).
  { eapply (rtc_invariant _ worker_inv); [|exact worker_inv_step|exact H].
    split_and!; [constructor|done|done]. }
  split_and!; [done..|]. intros E. destruct (Hr E) as [_ Hq]. by rewrite Hu, Hq.
Qed.

Example reissue_worker_serves_posts_witness :
  unserved [Posted "p/a"; Started "p/a"] ∅ = ∅.
Proof.
  apply (reissue_worker_serves_posts (mkSystem (mkWorker [] true) Returned [Posted "p/a"; Started "p/a"]));
    [|reflexivity].
  eapply rtc_l; [apply (step_post "p/a")|].
  eapply rtc_l; [by apply (step_start _ _ "p/a" (mkWorker [] false))|].
  eapply rtc_l; [apply step_finish|]. eapply rtc_l; [apply step_stop|].
  apply rtc_once. by constructor.
Defined.

(** C21. Stopping the worker terminates and drains: from any stopping state the
    worker returns in exactly [drain_steps] of its own steps, having started a
    re-assert for everything queued, in queue order. *)
Theorem reissue_worker_drains (s : WorkerSystem) :
  rtc worker_step new_system s → stopping_ (sys_worker s) = true →
  ∃ s', nsteps worker_step (drain_steps s) s s' ∧ sys_pc s' = Returned ∧
        queue_ (sys_worker s') = [] ∧
        sys_log s' = sys_log s ++ (Started <$> queue_ (sys_worker s)).
Proof.
  intros Hr Hst. destruct (drain_all _ s Hst eq_refl) as (s' & Hs & Hpc & Hl).
  assert (worker_inv s') as (_ & _ & Hret).
  { eapply (rtc_invariant _ worker_inv new_system); [by split_and!; [constructor| |]|exact worker_inv_step|].
    etrans; [exact Hr|]. by apply rtc_nsteps; eexists. }
  destruct (Hret Hpc) as [_ Hq]. exists s'. split_and!; [done..|].
  rewrite Hq in Hl. simpl in Hl. by rewrite app_nil_r in Hl.
Qed.

Example reissue_worker_drains_witness :
  ∃ s', nsteps worker_step 5 (mkSystem (mkWorker ["p/a"; "p/b"] true) Waiting [Posted "p/a"; Posted "p/b"]) s' ∧
        sys_pc s' = Returned ∧ queue_ (sys_worker s') = [] ∧
        sys_log s' = [Posted "p/a"; Posted "p/b"; Started "p/a"; Started "p/b"].
Proof.
  apply (reissue_worker_drains
    (mkSystem (mkWorker ["p/a"; "p/b"] true) Waiting [Posted "p/a"; Posted "p/b"])); [|reflexivity].
  eapply rtc_l; [apply (step_post "p/a")|]. eapply rtc_l; [apply (step_post "p/b")|].
  apply rtc_once, step_stop.
Defined.
