(* ===== verification/LatchStore.v ===== *)
(** * The software stop's latch on disk ([core/control/latch_store.cpp])

    The store writes one record file with write-temp, fsync, rename and a
    directory sync, and reads it back failing toward held.  The file system is a
    model with a visible name space and a durable one, so that a crash at any
    point of [save] can be stated; each call's result comes from an argument.
    JSON text is the interface of [Json]. *)

From S2P Require Import Prelude Json.

(** ** The file system *)

Record Inode := mkInode { ino_data : string; ino_synced : bool }.

(** The files of the store's directory as processes see them, and as they would
    be found after a power loss; and whether the directory's own entry in its
    parent is durable. *)
Record FS := mkFS {
  ns : gmap string Inode;
  stable : gmap string Inode;
  dir_stable : bool;
}.

(** Open for writing with truncation, write, flush.  The durable entry of the
    same name is the same file: its contents are no longer certain either. *)
Definition fs_write (p text : string) (fs : FS) : FS :=
  mkFS (<[p := mkInode text false]> (ns fs))
       (alter (λ i, mkInode (ino_data i) false) p (stable fs)) (dir_stable fs).
Definition fs_fsync (p : string) (fs : FS) : FS :=
  mkFS (alter (λ i, mkInode (ino_data i) true) p (ns fs)) (stable fs) (dir_stable fs).
Definition fs_rename (a b : string) (fs : FS) : FS :=
  match ns fs !! a with
  | Some i => mkFS (<[b := i]> (delete a (ns fs))) (stable fs) (dir_stable fs)
  | None => fs
  end.
Definition fs_remove (p : string) (fs : FS) : FS := mkFS (delete p (ns fs)) (stable fs) (dir_stable fs).
Definition fs_sync_dir (fs : FS) : FS := mkFS (ns fs) (ns fs) (dir_stable fs).

(** What a power loss may leave of one name: the visible or the durable entry,
    or nothing when the directory itself was never made durable; the contents
    are certain only where they were synced. *)
Definition survives (fs : FS) (p : string) (o : option Inode) : Prop :=
  ∃ src, (src = ns fs !! p ∨ src = stable fs !! p ∨ (dir_stable fs = false ∧ src = None)) ∧
    match src, o with
    | None, None => True
    | Some i, Some i' => ino_synced i = true → ino_data i' = ino_data i
    | _, _ => False
    end.

Definition crash (fs fs' : FS) : Prop := ∀ p, survives fs p (ns fs' !! p).

(** ** The store *)

Inductive LatchFileState := Absent | Latched | Unreadable.

Record PersistedLatch := mkPersisted {
  pl_state : LatchFileState;
  pl_latched_at_epoch_ms : option Z;
  pl_detail : string;
}.

Record LatchStore := mkStore {
  file_ : string;
  dir_ : string;         (* file_.parent_path() *)
  config_dir_ : string;
}.

(** FNV-1a, 64-bit. *)
Definition fnv_step (hash : Z) (c : ascii) : Z :=
  to_uint64 (Z.lxor hash (Z.of_N (N_of_ascii c)) * 0x100000001b3).

Definition fnv1a (s : string) : Z := foldl fnv_step 0xcbf29ce484222325 (String.list_ascii_of_string s).

Definition hex_digit (d : Z) : ascii :=
  ascii_of_N (Z.to_N (if d <? 10 then 48 + d else 87 + d)).

(** [std::format("{:016x}", hash)]. *)
Fixpoint hex (n : nat) (z : Z) : string :=
  match n with
  | O => ""
  | S n => hex n (z / 16) +:+ String (hex_digit (z mod 16)) ""
  end.

(** [operator/] of [std::filesystem::path] with a relative right side. *)
Definition path_append (a b : string) : string :=
  match split_last slash a with
  | Some (_, "") => a +:+ b
  | _ => if bool_decide (a = "") then b else a +:+ "/" +:+ b
  end.

Definition path_for (data_dir config_dir : string) : string :=
  path_append (path_append data_dir "estop") (hex 16 (fnv1a config_dir) +:+ ".json").

Definition new_store (data_dir config_dir : string) : LatchStore :=
  mkStore (path_for data_dir config_dir) (path_append data_dir "estop") config_dir.

Definition kSchemaVersion : Z := 1.

(** The record, in key order. *)
Definition latch_doc (config_dir : string) (latched_at_epoch_ms : Z) (reason : string) : json :=
  JObject [("config_dir", JString config_dir); ("latched", JBool true);
           ("latched_at_epoch_ms", JInt latched_at_epoch_ms); ("reason", JString reason);
           ("schema_version", JInt kSchemaVersion)].

(** How the calls of one [load] go. *)
Record LoadIO := mkLoadIO {
  exists_error : option string;
  read_ok : bool;
}.

Definition newline : string := String "010"%char "".

Definition latched_field (doc : json) : bool :=
  is_object doc && match jget "latched" doc with Some (JBool true) => true | _ => false end.

Definition names_config_dir (dir : string) (doc : json) : bool :=
  match jget "config_dir" doc with Some (JString d) => bool_decide (d = dir) | _ => false end.

(** [is_number_integer()] with [get<int64_t>()]. *)
Definition stamp_field (doc : json) : option Z :=
  match jget "latched_at_epoch_ms" doc with Some (JInt z) => Some (to_int64 z) | _ => None end.

Definition load `{JsonText} (st : LatchStore) (io : LoadIO) (fs : FS) : PersistedLatch :=
  match exists_error io with
  | Some msg =>
      mkPersisted Unreadable None ("the latch file " +:+ file_ st +:+ " could not be checked: " +:+ msg)
  | None =>
      match ns fs !! file_ st with
      | None => mkPersisted Absent None ""
      | Some i =>
          if negb (read_ok io) then
            mkPersisted Unreadable None
              ("the latch file " +:+ file_ st +:+ " is present but could not be read")
          else
            match json_parse (ino_data i) with
            | Some doc =>
                if negb (latched_field doc) then
                  mkPersisted Unreadable None
                    ("the latch file " +:+ file_ st +:+ " is present but not a valid latch record")
                else if negb (names_config_dir (config_dir_ st) doc) then
                  mkPersisted Unreadable None
                    ("the latch file " +:+ file_ st +:+ " does not name this config directory (" +:+
                     config_dir_ st +:+ ")")
                else
                  mkPersisted Latched (stamp_field doc)
                    ("the latch file " +:+ file_ st +:+ " records a software stop")
            | None =>
                mkPersisted Unreadable None
                  ("the latch file " +:+ file_ st +:+ " is present but not a valid latch record")
            end
      end
  end.

(** How the calls of one [save] go.  A failed write leaves no file or a part of one. *)
Inductive WriteOutcome := WriteOk | WriteFail (left_behind : option string).

Record SaveIO := mkSaveIO {
  mkdir_error : option string;
  write_outcome : WriteOutcome;
  sync_ok : bool;
  rename_error : option string;
  dir_sync_ok : bool;
  cleanup_ok : bool;             (* removing the temporary file after a failure *)
}.

Definition tmp_path (st : LatchStore) : string := file_ st +:+ ".tmp".

(** What opening the temporary file leaves when the write never comes to it. *)
Definition opened (st : LatchStore) (io : SaveIO) (fs : FS) : FS :=
  match write_outcome io with WriteFail None => fs | _ => fs_write (tmp_path st) "" fs end.

Definition cleanup (st : LatchStore) (io : SaveIO) (fs : FS) : FS :=
  if cleanup_ok io then fs_remove (tmp_path st) fs else fs.

(** The result ([None]: the printer's exception leaves [save], with the temporary
    file open) and every file system state on the way, the last one being the state
    [save] leaves. *)
Definition save `{JsonText} (st : LatchStore) (latched_at_epoch_ms : Z) (reason : string) (io : SaveIO)
    (fs : FS) : option (result unit) * list FS :=
  match mkdir_error io with
  | Some msg => (Some (Err ("cannot create " +:+ dir_ st +:+ ": " +:+ msg)), [fs])
  | None =>
      match json_dump (latch_doc (config_dir_ st) latched_at_epoch_ms reason) with
      | None => (None, [fs; opened st io fs])
      | Some text =>
          let tmp := tmp_path st in
          match write_outcome io with
          | WriteFail left_behind =>
              let fs1 := match left_behind with Some part => fs_write tmp part fs | None => fs end in
              (Some (Err ("cannot write " +:+ tmp)), [fs; fs1; cleanup st io fs1])
          | WriteOk =>
              let fs1 := fs_write tmp (text +:+ newline) fs in
              if negb (sync_ok io) then
                (Some (Err ("cannot sync " +:+ tmp)), [fs; fs1; cleanup st io fs1])
              else
                let fs2 := fs_fsync tmp fs1 in
                match rename_error io with
                | Some msg =>
                    (Some (Err ("cannot rename " +:+ tmp +:+ " to " +:+ file_ st +:+ ": " +:+ msg)),
                     [fs; fs1; fs2; cleanup st io fs2])
                | None =>
                    let fs3 := fs_rename tmp (file_ st) fs2 in
                    if negb (dir_sync_ok io) then
                      (Some (Err ("wrote " +:+ file_ st +:+ " but cannot sync " +:+ dir_ st)),
                       [fs; fs1; fs2; fs3])
                    else (Some (Ok ()), [fs; fs1; fs2; fs3; fs_sync_dir fs3])
                end
          end
      end
  end.

(** The state [save] leaves. *)
Definition after (fs : FS) (trace : list FS) : FS := default fs (last trace).

Definition remove (st : LatchStore) (unlink_error : option string) (dir_sync_ok : bool) (fs : FS)
    : result unit * FS :=
  match unlink_error with
  | Some msg => (Err ("cannot remove " +:+ file_ st +:+ ": " +:+ msg), fs)
  | None =>
      match ns fs !! file_ st with
      | None => (Ok (), fs)
      | Some _ =>
          let fs1 := fs_remove (file_ st) fs in
          if negb dir_sync_ok then
            (Err ("removed " +:+ file_ st +:+ " but cannot sync " +:+ dir_ st), fs1)
          else (Ok (), fs_sync_dir fs1)
      end
  end.

(** ** The file name *)

Lemma to_uint64_range z : in_uint64 (to_uint64 z).
Proof. unfold in_uint64, to_uint64, uint64_max. pose proof (Z.mod_pos_bound z (2 ^ 64)). lia. Qed.

Lemma fnv1a_range s : in_uint64 (fnv1a s).
Proof.
  unfold fnv1a. assert (in_uint64 0xcbf29ce484222325) as H0 by (unfold in_uint64, uint64_max; lia).
  revert H0. generalize 0xcbf29ce484222325. induction (String.list_ascii_of_string s) as [|c l IH];
    intros z Hz; [done|]. simpl. apply IH, to_uint64_range.
Qed.

Lemma app_nonempty_ne (a : string) x b : a ≠ a +:+ String x b.
Proof. induction a as [|c a IH]; [done|]. rewrite string_app_cons. intros [= H]. done. Qed.

Lemma tmp_path_ne st : file_ st ≠ tmp_path st.
Proof. apply app_nonempty_ne. Qed.

(** Hexadecimal value of a digit string. *)
Definition hex_val (c : ascii) : Z :=
  let n := Z.of_N (N_of_ascii c) in if n <? 58 then n - 48 else n - 87.

Definition unhex (s : string) : Z := foldl (λ acc c, acc * 16 + hex_val c) 0 (String.list_ascii_of_string s).

Lemma list_ascii_app (a b : string) :
  String.list_ascii_of_string (a +:+ b) = String.list_ascii_of_string a ++ String.list_ascii_of_string b.
Proof. induction a as [|c a IH]; [done|]. rewrite string_app_cons. simpl. by rewrite IH. Qed.

Lemma hex_val_digit d : 0 ≤ d < 16 → hex_val (hex_digit d) = d.
Proof.
  intros Hd.
  assert (Forall (λ d, hex_val (hex_digit d) = d) (seqZ 0 16)) as Hall
    by (apply (bool_decide_unpack _); vm_compute; exact I).
  rewrite Forall_forall in Hall. apply Hall, elem_of_seqZ. lia.
Qed.

Lemma unhex_hex n z : 0 ≤ z < 16 ^ Z.of_nat n → unhex (hex n z) = z.
Proof.
  revert z. induction n as [|n IH]; intros z Hz.
  { change (16 ^ Z.of_nat 0) with 1 in Hz. simpl. replace z with 0 by lia. done. }
  rewrite Nat2Z.inj_succ, Z.pow_succ_r in Hz by lia.
  unfold unhex in *. simpl. rewrite list_ascii_app, foldl_app. simpl.
  pose proof (Z.mod_pos_bound z 16). pose proof (Z.div_mod z 16).
  rewrite IH, hex_val_digit by (try apply Z.div_lt_upper_bound; try apply Z.mod_pos_bound;
    split; try apply Z.div_pos; try apply Z.div_lt_upper_bound; lia). lia.
Qed.

(** ** Crash points of a save *)

(** What a state on the way may hold under the record's name: what was there
    when the save began, or the new record, synced. *)
Definition mid_save (st : LatchStore) (text : string) (fs f : FS) : Prop :=
  (ns f !! file_ st = ns fs !! file_ st ∨ ns f !! file_ st = Some (mkInode text true)) ∧
  (stable f !! file_ st = stable fs !! file_ st ∨ stable f !! file_ st = Some (mkInode text true)) ∧
  dir_stable f = dir_stable fs.

Lemma mid_write st text fs f part : mid_save st text fs f → mid_save st text fs (fs_write (tmp_path st) part f).
Proof.
  pose proof (tmp_path_ne st) as Hne. unfold mid_save, fs_write. simpl.
  by rewrite lookup_insert_ne, lookup_alter_ne by done.
Qed.

Lemma mid_fsync st text fs f : mid_save st text fs f → mid_save st text fs (fs_fsync (tmp_path st) f).
Proof.
  pose proof (tmp_path_ne st) as Hne. unfold mid_save, fs_fsync. simpl. by rewrite lookup_alter_ne by done.
Qed.

Lemma mid_cleanup st text io fs f : mid_save st text fs f → mid_save st text fs (cleanup st io f).
Proof.
  pose proof (tmp_path_ne st) as Hne. unfold mid_save, cleanup. destruct (cleanup_ok io); [|done].
  simpl. by rewrite lookup_delete_ne by done.
Qed.

(** The renamed state holds the new record under the final name. *)
Definition renamed (st : LatchStore) (text : string) (fs : FS) : FS :=
  fs_rename (tmp_path st) (file_ st) (fs_fsync (tmp_path st) (fs_write (tmp_path st) text fs)).

Lemma renamed_lookup st text fs :
  ns (renamed st text fs) !! file_ st = Some (mkInode text true) ∧
  stable (renamed st text fs) !! file_ st = stable fs !! file_ st ∧
  dir_stable (renamed st text fs) = dir_stable fs.
Proof.
  pose proof (tmp_path_ne st) as Hne. unfold renamed, fs_rename, fs_fsync, fs_write. simpl.
  rewrite lookup_alter_eq, lookup_insert_eq. simpl.
  by rewrite lookup_insert_eq, lookup_alter_ne by done.
Qed.

Lemma mid_renamed st text fs : mid_save st text fs (renamed st text fs).
Proof. destruct (renamed_lookup st text fs) as (H1 & H2 & H3). unfold mid_save. tauto. Qed.

Lemma mid_synced st text fs : mid_save st text fs (fs_sync_dir (renamed st text fs)).
Proof. destruct (renamed_lookup st text fs) as (H1 & H2 & H3). unfold mid_save. simpl. tauto. Qed.

Lemma mid_refl st text fs : mid_save st text fs fs.
Proof. unfold mid_save. tauto. Qed.

#[export] Hint Resolve mid_write mid_fsync mid_cleanup mid_renamed mid_synced mid_refl : anolis.

(** Nothing on the way but the record itself is ever found under its name. *)
Definition unchanged (st : LatchStore) (fs f : FS) : Prop :=
  ns f !! file_ st = ns fs !! file_ st ∧ stable f !! file_ st = stable fs !! file_ st ∧ dir_stable f = dir_stable fs.

Lemma unchanged_opened st io fs : unchanged st fs (opened st io fs).
Proof.
  pose proof (tmp_path_ne st) as Hne. unfold unchanged, opened.
  destruct (write_outcome io) as [|[part|]]; simpl; rewrite ?lookup_insert_ne, ?lookup_alter_ne by done; done.
Qed.

Lemma unchanged_crash st fs f f' :
  unchanged st fs f → crash f f' → survives fs (file_ st) (ns f' !! file_ st).
Proof. intros (H1 & H2 & H3) Hc. specialize (Hc (file_ st)). unfold survives in *. by rewrite H1, H2, H3 in Hc. Qed.

Lemma save_trace_mid `{JsonText} st at_ms reason io fs f :
  f ∈ (save st at_ms reason io fs).2 →
  unchanged st fs f ∨ ∃ text, json_dump (latch_doc (config_dir_ st) at_ms reason) = Some text ∧
                   mid_save st (text +:+ newline) fs f.
Proof.
  assert (unchanged st fs fs) as Hrefl by done. pose proof (unchanged_opened st io fs) as Ho.
  unfold save. destruct (mkdir_error io); simpl; [set_solver|].
  destruct (json_dump _) as [text|]; simpl; [|set_solver]. intros Hf. right. exists text. split; [done|].
  revert f Hf. apply Forall_forall. change (fs_rename _ _ _) with (renamed st (text +:+ newline) fs).
  destruct (write_outcome io) as [|[part|]]; [destruct (sync_ok io), (rename_error io), (dir_sync_ok io)|..];
    simpl; repeat apply Forall_cons_2; eauto with anolis.
Qed.

(** A crash of a state on the way. *)
Lemma mid_crash st text fs f f' :
  mid_save st text fs f → crash f f' →
  survives fs (file_ st) (ns f' !! file_ st) ∨ ∃ i, ns f' !! file_ st = Some i ∧ ino_data i = text.
Proof.
  intros (Hn & Hs & Hd) Hc. destruct (Hc (file_ st)) as (src & Hsrc & Hm).
  assert (src = Some (mkInode text true) →
          ∃ i, ns f' !! file_ st = Some i ∧ ino_data i = text) as Hnew.
  { intros ->. destruct (ns f' !! file_ st) as [i|]; [|done]. exists i. split; [done|]. by apply Hm. }
  rewrite Hd in Hsrc.
  destruct Hsrc as [E|[E|[Hds E]]]; [destruct Hn as [Hn|Hn]|destruct Hs as [Hs|Hs]|];
    try (right; apply Hnew; congruence); left; exists src; (split; [|exact Hm]); intuition congruence.
Qed.

(** ** Reading a saved record back *)

Definition good_load : LoadIO := mkLoadIO None true.

Lemma latch_doc_flat dir at_ms reason : in_int64 at_ms → flat_record (latch_doc dir at_ms reason) = true.
Proof.
  unfold in_int64, int64_max. intros [H1 H2]. apply Z.leb_le in H1.
  assert ((at_ms <=? uint64_max) = true) as H3 by (apply Z.leb_le; unfold uint64_max; lia).
  unfold flat_record. simpl. rewrite H1, H3. vm_compute. reflexivity.
Qed.

Definition held_since (st : LatchStore) (at_ms : Z) : PersistedLatch :=
  mkPersisted Latched (Some at_ms) ("the latch file " +:+ file_ st +:+ " records a software stop").

Lemma load_record `{JsonText} st at_ms reason text i fs :
  in_int64 at_ms → json_dump (latch_doc (config_dir_ st) at_ms reason) = Some text →
  ns fs !! file_ st = Some i → ino_data i = text +:+ newline →
  load st good_load fs = held_since st at_ms.
Proof.
  intros Hat Hd Hi Ht. unfold load, good_load, held_since. simpl. rewrite Hi, Ht. unfold newline.
  rewrite (json_parse_dump (latch_doc (config_dir_ st) at_ms reason)) by (auto using latch_doc_flat).
  unfold latched_field, names_config_dir, stamp_field, latch_doc, jget. simpl.
  by rewrite bool_decide_true, to_int64_id.
Qed.

(** A successful save, step by step. *)
Lemma save_ok_inv `{JsonText} st at_ms reason io fs trace :
  save st at_ms reason io fs = (Some (Ok ()), trace) →
  ∃ text, json_dump (latch_doc (config_dir_ st) at_ms reason) = Some text ∧
          after fs trace = fs_sync_dir (renamed st (text +:+ newline) fs).
Proof.
  unfold save. destruct (mkdir_error io); [done|]. destruct (json_dump _) as [text|]; [|done].
  destruct (write_outcome io); [|done]. destruct (sync_ok io); [|done].
  destruct (rename_error io); [done|]. destruct (dir_sync_ok io); [|done].
  intros [= <-]. by exists text.
Qed.

Lemma saved_loads `{JsonText} st at_ms reason io fs trace fs' :
  in_int64 at_ms → save st at_ms reason io fs = (Some (Ok ()), trace) →
  fs' = after fs trace ∨ (dir_stable fs = true ∧ crash (after fs trace) fs') →
  load st good_load fs' = held_since st at_ms.
Proof.
  intros Hat (text & Hd & Ha)%save_ok_inv. rewrite Ha.
  destruct (renamed_lookup st (text +:+ newline) fs) as (Hn & _ & Hds).
  intros [->|[Hdir Hc]].
  - by eapply load_record.
  - destruct (Hc (file_ st)) as (src & Hsrc & Hm). simpl in Hsrc. rewrite Hn, Hds, Hdir in Hsrc.
    assert (src = Some (mkInode (text +:+ newline) true)) as -> by intuition congruence.
    destruct (ns fs' !! file_ st) as [i|] eqn:Ei; [|done].
    eapply load_record; [done|exact Hd|exact Ei|]. by apply Hm.
Qed.

(** What reads as held when every call of the load succeeds is held whatever fails. *)
Lemma load_held_anyway `{JsonText} st io fs :
  pl_state (load st good_load fs) = Latched → pl_state (load st io fs) ≠ Absent.
Proof.
  unfold load. simpl. destruct (exists_error io); [done|]. destruct (ns fs !! file_ st) as [i|]; [|done].
  destruct (read_ok io); simpl; [|done]. by intros ->.
Qed.

(** ** Theorems *)

(** A codec for one record, enough to run the theorems on. *)
Definition one_dump (d0 : string * Z * string) (d : json) : option string :=
  match d with
  | JObject [(k1, JString dir); (k2, JBool b); (k3, JInt z); (k4, JString r); (k5, JInt v)] =>
      if decide ((k1, k2, k3) = ("config_dir", "latched", "latched_at_epoch_ms") ∧
                 (k4, k5) = ("reason", "schema_version") ∧ b = true ∧ v = 1 ∧ (dir, z, r) = d0)
      then Some "record" else None
  | _ => None
  end.

Definition one_parse (d0 : string * Z * string) (s : string) : option json :=
  if decide (s = "record" +:+ newline) then Some (latch_doc d0.1.1 d0.1.2 d0.2) else None.

Lemma one_parse_dump d0 d s :
  flat_record d = true → one_dump d0 d = Some s → one_parse d0 (s +:+ newline) = Some d.
Proof.
  intros _ H. unfold one_dump in H.
  repeat (case_match; try done). destruct_and?; simplify_eq.
  repeat match goal with E : (_, _) = (_, _) |- _ => injection E as ? ?; subst | E : _ = left _ |- _ => clear E end.
  done.
Qed.

Definition one_record (d0 : string * Z * string) : JsonText :=
  {| json_parse := one_parse d0; json_dump := one_dump d0; json_parse_dump := one_parse_dump d0 |}.

Definition sample_store : LatchStore := new_store "/var/lib/anolis" "/etc/anolis".
Definition all_ok : SaveIO := mkSaveIO None WriteOk true None true true.
Definition empty_fs (durable : bool) : FS := mkFS ∅ ∅ durable.

(** A reported save is durable: when [save] succeeds in a directory whose own
    entry is durable, reading the file back gives the held latch with its time
    stamp, right away and after any crash. *)
Theorem save_is_durable `{JsonText} (st : LatchStore) (at_ms : Z) (reason : string) (io : SaveIO) (fs : FS)
    (trace : list FS) (fs' : FS) :
  in_int64 at_ms → dir_stable fs = true →
  save st at_ms reason io fs = (Some (Ok ()), trace) →
  fs' = after fs trace ∨ crash (after fs trace) fs' →
  load st good_load fs' = held_since st at_ms.
Proof. intros Hat Hdir Hs [->|Hc]; (eapply saved_loads; [done|exact Hs|]); auto. Qed.

Example save_is_durable_witness :
  let j := one_record ("/etc/anolis", 1700000000000, "operator") in
  let tr := (save sample_store 1700000000000 "operator" all_ok (empty_fs true)).2 in
  load sample_store good_load (after (empty_fs true) tr) = held_since sample_store 1700000000000.
Proof.
  set (j := one_record ("/etc/anolis", 1700000000000, "operator")). cbv zeta.
  apply (save_is_durable (H := j) sample_store 1700000000000 "operator" all_ok (empty_fs true)
    (save sample_store 1700000000000 "operator" all_ok (empty_fs true)).2);
    [unfold in_int64, int64_min, int64_max; lia|reflexivity|vm_compute; reflexivity|by left].
Defined.

(** C9. A save is atomic under crashes and failures: whatever fails during
    [save], and at whatever point the power goes, the record's name afterwards
    holds either something that was already possible before the save began, or
    the complete new record, which reads back as held. *)
Theorem save_crash_atomic `{JsonText} (st : LatchStore) (at_ms : Z) (reason : string) (io : SaveIO)
    (fs f f' : FS) :
  in_int64 at_ms → f ∈ (save st at_ms reason io fs).2 → crash f f' →
  survives fs (file_ st) (ns f' !! file_ st) ∨ load st good_load f' = held_since st at_ms.
Proof.
  intros Hat [Hu|(text & Hd & Hm)]%save_trace_mid Hc; [left; by eapply unchanged_crash|].
  destruct (mid_crash _ _ _ _ _ Hm Hc) as [Hs|(i & Hi & Ht)]; [by left|]. right. by eapply load_record.
Qed.

Example save_crash_atomic_witness :
  let j := one_record ("/etc/anolis", 5, "op") in
  let f := fs_write (tmp_path sample_store) ("record" +:+ newline) (empty_fs true) in
  survives (empty_fs true) (file_ sample_store)
    (ns (mkFS {[ tmp_path sample_store := mkInode "rec" true ]} ∅ true) !! file_ sample_store) ∨
  load sample_store good_load (mkFS {[ tmp_path sample_store := mkInode "rec" true ]} ∅ true) =
    held_since sample_store 5.
Proof.
  set (j := one_record ("/etc/anolis", 5, "op")). cbv zeta.
  apply (save_crash_atomic (H := j) sample_store 5 "op" all_ok (empty_fs true)
    (fs_write (tmp_path sample_store) ("record" +:+ newline) (empty_fs true))).
  - unfold in_int64, int64_min, int64_max; lia.
  - right. left.
  - intros p. destruct (decide (p = tmp_path sample_store)) as [->|Hne].
    + exists (Some (mkInode ("record" +:+ newline) false)). split; [by left|]. simpl.
      by rewrite lookup_singleton_eq.
    + exists None. simpl. rewrite lookup_insert_ne, lookup_singleton_ne by done. by split; [left|].
Defined.

(** Reading fails toward held: the latch reads as absent only when the check
    succeeded and there is no file; it reads as a well-formed record only when
    the file parses to an object that says latched for this configuration
    directory; everything else is present-but-unreadable, which is held. *)
Theorem load_fails_toward_held `{JsonText} (st : LatchStore) (io : LoadIO) (fs : FS) :
  (pl_state (load st io fs) = Absent ↔ exists_error io = None ∧ ns fs !! file_ st = None) ∧
  (pl_state (load st io fs) = Latched ↔
     exists_error io = None ∧ read_ok io = true ∧
     ∃ i doc, ns fs !! file_ st = Some i ∧ json_parse (ino_data i) = Some doc ∧
       jget "latched" doc = Some (JBool true) ∧ jget "config_dir" doc = Some (JString (config_dir_ st))).
Proof.
  unfold load. destruct (exists_error io); simpl; [naive_solver|].
  destruct (ns fs !! file_ st) as [i|]; simpl; [|naive_solver].
  destruct (read_ok io); simpl; [|naive_solver].
  destruct (json_parse (ino_data i)) as [doc|] eqn:Ep; simpl; [|naive_solver].
  destruct (latched_field doc) eqn:El; simpl.
  2:{ split; [naive_solver|]. split; [done|]. intros (_ & _ & i' & doc' & [= <-] & E & Hl & _).
      rewrite Ep in E. injection E as <-. unfold latched_field, is_object, jget in *. destruct doc; try done.
      by rewrite Hl in El. }
  destruct (names_config_dir (config_dir_ st) doc) eqn:En; simpl.
  - split; [naive_solver|]. split; [|done]. intros _. split_and!; [done..|]. exists i, doc.
    unfold latched_field, names_config_dir in *. bool_facts. repeat (case_match; try done).
    bool_facts. by subst.
  - split; [naive_solver|]. split; [done|]. intros (_ & _ & i' & doc' & [= <-] & E & _ & Hn).
    rewrite Ep in E. injection E as <-. unfold names_config_dir in En. rewrite Hn in En.
    by rewrite bool_decide_true in En.
Qed.

(** Removing the record: on success it reads as absent from then on, and
    when there was a file its removal survives any crash; on failure the file is
    untouched, or gone with only its durability in doubt. *)
Theorem remove_behaviour `{JsonText} (st : LatchStore) (unlink_error : option string) (sync : bool) (fs : FS) :
  match remove st unlink_error sync fs with
  | (Ok _, fs') =>
      pl_state (load st good_load fs') = Absent ∧
      (ns fs !! file_ st ≠ None → ∀ f, crash fs' f → pl_state (load st good_load f) = Absent)
  | (Err _, fs') => fs' = fs ∨ (ns fs !! file_ st ≠ None ∧ pl_state (load st good_load fs') = Absent)
  end.
Proof.
  unfold remove, load, good_load. simpl. destruct unlink_error as [msg|]; [by left|].
  destruct (ns fs !! file_ st) as [i|] eqn:Ei; [|by rewrite Ei].
  destruct sync; simpl; rewrite lookup_delete_eq; [|by right].
  split; [done|]. intros _ f Hc. destruct (Hc (file_ st)) as (src & Hsrc & Hm). simpl in Hsrc.
  rewrite lookup_delete_eq in Hsrc. assert (src = None) as -> by intuition.
  by destruct (ns f !! file_ st).
Qed.

(** The directory the store creates is not itself made durable: in a directory
    whose entry never reached the disk, a save that reports success can be lost
    whole in a crash. *)
Theorem save_in_new_directory_can_be_lost `{JsonText} (st : LatchStore) (at_ms : Z) (reason : string)
    (io : SaveIO) (fs : FS) (trace : list FS) :
  dir_stable fs = false → save st at_ms reason io fs = (Some (Ok ()), trace) →
  ∃ f, crash (after fs trace) f ∧ pl_state (load st good_load f) = Absent.
Proof.
  intros Hdir (text & _ & Ha)%save_ok_inv. destruct (renamed_lookup st (text +:+ newline) fs) as (_ & _ & Hd).
  exists (empty_fs false). rewrite Ha. split; [|done]. intros p. exists None. split; [|done].
  simpl. right. right. by rewrite Hd.
Qed.

Lemma path_append_inj a b c : path_append a b = path_append a c → b = c.
Proof.
  unfold path_append. destruct (split_last slash a) as [[x [|y z]]|]; [apply string_app_inj_r|..];
    (case_bool_decide; [done|]); intros E%string_app_inj_r; by apply (string_app_inj_r "/").
Qed.

Lemma hex_length n z : String.length (hex n z) = n.
Proof.
  revert z. induction n as [|n IH]; intros z; [done|]. simpl.
  assert (∀ s c, String.length (s +:+ String c "") = S (String.length s)) as ->.
  { intros s c. induction s as [|x s IHs]; [done|]. rewrite string_app_cons. simpl. by rewrite IHs. }
  by rewrite IH.
Qed.

(** The record's file is a function of the configuration directory's 64-bit
    FNV-1a hash and nothing else: the hash stays within 64 bits, is spelled with
    exactly sixteen hexadecimal digits that read back as it, and two
    configuration directories share a file exactly when their hashes collide. *)
Theorem path_for_by_hash (data_dir a b : string) :
  in_uint64 (fnv1a a) ∧ String.length (hex 16 (fnv1a a)) = 16%nat ∧
  unhex (hex 16 (fnv1a a)) = fnv1a a ∧
  (path_for data_dir a = path_for data_dir b ↔ fnv1a a = fnv1a b).
Proof.
  assert (∀ s, unhex (hex 16 (fnv1a s)) = fnv1a s) as Hu.
  { intros s. apply unhex_hex. pose proof (fnv1a_range s) as [H1 H2]. unfold uint64_max in H2.
    change (16 ^ Z.of_nat 16) with (2 ^ 64). lia. }
  split_and!; [apply fnv1a_range|apply hex_length|apply Hu|]. unfold path_for. split; [|by intros ->].
  intros E%path_append_inj%string_app_inj_l. by rewrite <- (Hu a), E, Hu.
Qed.

(** The published FNV-1a test vectors. *)
Example fnv1a_vectors :
  fnv1a "" = 0xcbf29ce484222325 ∧ fnv1a "a" = 0xaf63dc4c8601ec8c ∧ fnv1a "foobar" = 0x85944171f73967e8.
Proof. vm_compute. done. Qed.
