(* ===== verification/ArgCheck.v ===== *)
(** * Argument coercion and validation ([core/control/call_router.cpp])

    The static half of the call path: handle parsing, function selection, the
    integer coercion against the declared argument types, and the type and range
    checks.  [std::map] arguments are [gmap]s visited in key order. *)

From S2P Require Import Prelude Protocol Registry Floats.

(** [struct CallRequest]. *)
Record CallRequest := mkRequest {
  rq_device_handle : string;
  rq_function_id : Z;
  rq_function_name : string;
  rq_args : gmap string Value;
  rq_is_automated : bool;
  rq_is_behavior_tree : bool;
  rq_safe_state : bool;
  rq_fault_entry_hook : bool;
}.

(** ** Selectors *)

Definition parse_device_handle (device_handle : string) : result (string * string) :=
  match split_first slash device_handle with
  | None => Err ("Invalid device handle format (expected 'provider/device'): " +:+ device_handle)
  | Some (pid, did) =>
      if bool_decide (pid = "") || bool_decide (did = "") then
        Err ("Invalid device handle (empty provider or device): " +:+ device_handle)
      else Ok (pid, did)
  end.

Definition validate_device_exists (r : DeviceRegistry) (device_handle : string) : result unit :=
  match get_device_by_handle_copy r device_handle with
  | None => Err ("Device not found: " +:+ device_handle)
  | Some _ => Ok ()
  end.

Definition validate_function_exists (device : RegisteredDevice) (function_name : string)
    : result FunctionSpec :=
  match alookup function_name (functions_by_id (capabilities device)) with
  | None => Err ("Function not found: " +:+ function_name +:+ " on device " +:+ get_handle device)
  | Some spec => Ok spec
  end.

Definition resolve_function_spec (device : RegisteredDevice) (request : CallRequest)
    : result (string * FunctionSpec) :=
  if negb (rq_function_id request =? 0) then
    match list_find (λ p, fs_function_id p.2 = rq_function_id request)
            (functions_by_id (capabilities device)) with
    | None => Err ("Function ID not found: " +:+ to_string (rq_function_id request))
    | Some (_, (name, spec)) =>
        if negb (bool_decide (rq_function_name request = "")) &&
           negb (bool_decide (rq_function_name request = name)) then
          Err ("Function selector mismatch: function_id " +:+ to_string (rq_function_id request) +:+
               " maps to '" +:+ name +:+ "', not '" +:+ rq_function_name request +:+ "'")
        else Ok (name, spec)
    end
  else if bool_decide (rq_function_name request = "") then
    Err "Missing function selector (function_id or function_name)"
  else
    try spec <- validate_function_exists device (rq_function_name request) ;;
    Ok (rq_function_name request, spec).

(** ** Coercion *)

Definition kMaxExactDouble : Z := Z.shiftl 1 53.

Definition coerce_value (spec : ArgSpec) (arg_value : Value) : result Value :=
  let refuse raw why := Err ("Argument '" +:+ as_name spec +:+ "': " +:+ to_string raw +:+ why) in
  match as_type spec with
  | VALUE_TYPE_UINT64 =>
      if has_int64_value arg_value then
        let raw := int64_value arg_value in
        if raw <? 0 then refuse raw " is negative but the parameter is uint64"
        else Ok (mkValue VALUE_TYPE_UINT64 (KUint64 (to_uint64 raw)))
      else Ok arg_value
  | VALUE_TYPE_INT64 =>
      if has_uint64_value arg_value then
        let raw := uint64_value arg_value in
        if int64_max <? raw then refuse raw " exceeds the maximum of an int64 parameter"
        else Ok (mkValue VALUE_TYPE_INT64 (KInt64 (to_int64 raw)))
      else Ok arg_value
  | VALUE_TYPE_DOUBLE =>
      if has_int64_value arg_value then
        let raw := int64_value arg_value in
        if (kMaxExactDouble <? raw) || (raw <? - kMaxExactDouble) then
          refuse raw " cannot be represented exactly as a double"
        else Ok (mkValue VALUE_TYPE_DOUBLE (KDouble (double_of_Z raw)))
      else if has_uint64_value arg_value then
        let raw := uint64_value arg_value in
        if kMaxExactDouble <? raw then refuse raw " cannot be represented exactly as a double"
        else Ok (mkValue VALUE_TYPE_DOUBLE (KDouble (double_of_Z raw)))
      else Ok arg_value
  | _ => Ok arg_value
  end.

Fixpoint coerce_args (specs : list ArgSpec) (args : gmap string Value) : result (gmap string Value) :=
  match specs with
  | [] => Ok args
  | spec :: rest =>
      match args !! as_name spec with
      | None => coerce_args rest args
      | Some v => try v' <- coerce_value spec v ;; coerce_args rest (<[as_name spec := v']> args)
      end
  end.

Definition coerce_arguments (spec : FunctionSpec) (args : gmap string Value) : result (gmap string Value) :=
  coerce_args (fs_args spec) args.

(** ** Validation *)

Definition value_type_to_string (type : ValueType) : string :=
  match type with
  | VALUE_TYPE_BOOL => "bool"
  | VALUE_TYPE_INT64 => "int64"
  | VALUE_TYPE_UINT64 => "uint64"
  | VALUE_TYPE_DOUBLE => "double"
  | VALUE_TYPE_STRING => "string"
  | VALUE_TYPE_BYTES => "bytes"
  | VALUE_TYPE_OTHER _ => "unknown"
  end.

Definition validate_argument_type (spec : ArgSpec) (value : Value) : result unit :=
  let check (type_match : bool) : result unit :=
    if type_match then Ok ()
    else Err ("Type mismatch: expected " +:+ value_type_to_string (as_type spec) +:+ ", got " +:+
              value_type_to_string (v_type value)) in
  match as_type spec with
  | VALUE_TYPE_BOOL => check (has_bool_value value)
  | VALUE_TYPE_INT64 => check (has_int64_value value)
  | VALUE_TYPE_UINT64 => check (has_uint64_value value)
  | VALUE_TYPE_DOUBLE => check (has_double_value value)
  | VALUE_TYPE_STRING => check (has_string_value value)
  | VALUE_TYPE_BYTES => check (has_bytes_value value)
  | VALUE_TYPE_OTHER _ => Err "Unknown type in ArgSpec"
  end.

(** A list in a message: a separator before an element unless nothing was written yet. *)
Definition listing (l : list string) : string :=
  foldl (λ acc x, acc +:+ (if bool_decide (acc = "") then "" else ", ") +:+ x) "" l.

Section WithText.
Context `{FloatText}.

(** The two bound checks of one numeric type. *)
Definition check_bounds {A} (lt : A → A → bool) (text : A → string) (lo hi : option A) (val : A)
    : result unit :=
  match lo with
  | Some l =>
      if lt val l then Err ("Value " +:+ text val +:+ " below minimum " +:+ text l)
      else match hi with
           | Some h => if lt h val then Err ("Value " +:+ text val +:+ " above maximum " +:+ text h) else Ok ()
           | None => Ok ()
           end
  | None => match hi with
            | Some h => if lt h val then Err ("Value " +:+ text val +:+ " above maximum " +:+ text h) else Ok ()
            | None => Ok ()
            end
  end.

Definition validate_argument_range (spec : ArgSpec) (value : Value) : result unit :=
  match as_type spec with
  | VALUE_TYPE_DOUBLE =>
      check_bounds SFltb ostream_double (as_min_double spec) (as_max_double spec) (double_value value)
  | VALUE_TYPE_INT64 =>
      check_bounds Z.ltb to_string (as_min_int64 spec) (as_max_int64 spec) (int64_value value)
  | VALUE_TYPE_UINT64 =>
      check_bounds Z.ltb to_string (as_min_uint64 spec) (as_max_uint64 spec) (uint64_value value)
  | VALUE_TYPE_STRING =>
      let allowed := as_allowed_values spec in
      if negb (bool_decide (allowed = [])) && negb (bool_decide (string_value value ∈ allowed)) then
        Err ("Value '" +:+ string_value value +:+ "' not in allowed values: " +:+ listing allowed)
      else Ok ()
  | _ => Ok ()
  end.

(** [spec_map]: the last declaration of a name wins. *)
Definition spec_map (specs : list ArgSpec) : gmap string ArgSpec :=
  foldl (λ m s, <[as_name s := s]> m) ∅ specs.

Definition check_required (specs : list ArgSpec) (args : gmap string Value) : result unit :=
  match list_find (λ s, as_required s = true ∧ args !! as_name s = None) specs with
  | Some (_, s) => Err ("Missing required argument: " +:+ as_name s)
  | None => Ok ()
  end.

Definition prefix_error {A} (arg_name : string) (m : result A) : result A :=
  match m with Ok a => Ok a | Err e => Err ("Argument '" +:+ arg_name +:+ "': " +:+ e) end.

Definition check_provided (m : gmap string ArgSpec) (entry : string * Value) : result unit :=
  let '(arg_name, arg_value) := entry in
  match m !! arg_name with
  | None => Err ("Unknown argument: " +:+ arg_name)
  | Some arg_spec =>
      try _ <- prefix_error arg_name (validate_argument_type arg_spec arg_value) ;;
      prefix_error arg_name (validate_argument_range arg_spec arg_value)
  end.

Fixpoint check_each {A} (f : A → result unit) (l : list A) : result unit :=
  match l with
  | [] => Ok ()
  | x :: r => try _ <- f x ;; check_each f r
  end.

Definition validate_arguments (spec : FunctionSpec) (args : gmap string Value) : result unit :=
  let m := spec_map (fs_args spec) in
  try _ <- check_required (fs_args spec) args ;;
  check_each (check_provided m) (map_items args).

(** The dry run. *)
Definition validate_call (r : DeviceRegistry) (request : CallRequest) : result unit :=
  try _ <- validate_device_exists r (rq_device_handle request) ;;
  try (pid, did) <- parse_device_handle (rq_device_handle request) ;;
  match get_device_copy r pid did with
  | None => Err ("Device not found in registry: " +:+ rq_device_handle request)
  | Some device =>
      try (_, spec) <- resolve_function_spec device request ;;
      try args <- coerce_arguments spec (rq_args request) ;;
      validate_arguments spec args
  end.

End WithText.

(** ** Coercion preserves the number *)

(** The integer a value denotes, when it denotes one. *)
Definition denotes (v : Value) (z : Z) : Prop :=
  match v_kind v with
  | KInt64 z' | KUint64 z' => z' = z
  | KDouble d => double_is d z
  | _ => False
  end.

Definition same_number (v v' : Value) : Prop := v' = v ∨ ∃ z, denotes v z ∧ denotes v' z.

Lemma denotes_fun v z z' : denotes v z → denotes v z' → z = z'.
Proof. unfold denotes. destruct (v_kind v); try done; [congruence..|apply double_is_fun]. Qed.

Lemma same_number_trans v1 v2 v3 : same_number v1 v2 → same_number v2 v3 → same_number v1 v3.
Proof.
  intros [->|(z & H1 & H2)]; [done|]. intros [->|(z' & H2' & H3)]; [by right; eauto|].
  right. exists z. split; [done|]. by rewrite (denotes_fun _ _ _ H2 H2').
Qed.

Lemma kMaxExactDouble_eq : kMaxExactDouble = 2 ^ 53.
Proof. reflexivity. Qed.

(** What a coercion does, by the kind it finds. *)
Lemma coerce_value_ok spec v v' :
  value_wf v → coerce_value spec v = Ok v' → same_number v v' ∧ value_wf v'.
Proof.
  destruct v as [t k]. unfold coerce_value, has_int64_value, has_uint64_value, int64_value, uint64_value.
  intros Hw. pose proof kMaxExactDouble_eq as Hk. unfold value_wf in *. simpl in *.
  destruct (as_type spec), k as [| z | z | | | |]; simpl; try (by intros [= <-]; split; [left|]);
    case_match; try done; intros [= <-]; bool_facts; simpl; (split; [right; exists z|]);
    unfold denotes, in_int64, in_uint64, int64_max, int64_min, uint64_max in *; simpl;
    rewrite ?to_uint64_id, ?to_int64_id by (unfold in_uint64, in_int64, uint64_max, int64_max, int64_min; lia);
    try done; try lia; split; try done; apply double_of_Z_exact; lia.
Qed.

(** A coercion is refused only for a number the declared type cannot hold exactly. *)
Lemma coerce_value_err spec v e :
  value_wf v → coerce_value spec v = Err e →
  ∃ z, denotes v z ∧
    match as_type spec with
    | VALUE_TYPE_UINT64 => ¬ in_uint64 z
    | VALUE_TYPE_INT64 => ¬ in_int64 z
    | VALUE_TYPE_DOUBLE => z < - 2 ^ 53 ∨ 2 ^ 53 < z
    | _ => False
    end.
Proof.
  destruct v as [t k]. unfold coerce_value, has_int64_value, has_uint64_value, int64_value, uint64_value.
  intros Hw. pose proof kMaxExactDouble_eq as Hk. unfold value_wf in Hw. simpl in *.
  destruct (as_type spec), k as [| z | z | | | |]; simpl; try done;
    case_match; try done; intros _; exists z; (split; [done|]); bool_facts;
    unfold in_uint64, in_int64, uint64_max, int64_max, int64_min in *; lia.
Qed.

Definition args_wf (args : gmap string Value) : Prop := map_Forall (λ _, value_wf) args.

Definition same_numbers (args args' : gmap string Value) : Prop :=
  ∀ name, match args !! name, args' !! name with
          | None, None => True
          | Some v, Some v' => same_number v v'
          | _, _ => False
          end.

Lemma same_numbers_refl args : same_numbers args args.
Proof. intros name. destruct (args !! name); [by left|done]. Qed.

Lemma same_numbers_trans a b c : same_numbers a b → same_numbers b c → same_numbers a c.
Proof.
  intros H1 H2 name. specialize (H1 name). specialize (H2 name).
  destruct (a !! name), (b !! name), (c !! name); try done. by eapply same_number_trans.
Qed.

Lemma same_numbers_insert args name v v' :
  args !! name = Some v → same_number v v' → same_numbers args (<[name := v']> args).
Proof.
  intros E Hs n. rewrite lookup_insert. case_decide as Hn; [subst; by rewrite E|].
  destruct (args !! n); [by left|done].
Qed.

Lemma coerce_args_ok specs args args' :
  args_wf args → coerce_args specs args = Ok args' → same_numbers args args' ∧ args_wf args'.
Proof.
  revert args. induction specs as [|s specs IH]; simpl; intros args Hw.
  { intros [= <-]. split; [apply same_numbers_refl|done]. }
  destruct (args !! as_name s) as [v|] eqn:Ev; [|by apply IH].
  rewrite rbind_Ok. intros (v' & Hv & Hc).
  destruct (coerce_value_ok s v v' (Hw _ _ Ev) Hv) as [Hs Hw'].
  destruct (IH (<[as_name s := v']> args)) as [Hs2 Hw2]; [by apply map_Forall_insert_2|done|].
  split; [|done]. eapply same_numbers_trans; [by eapply same_numbers_insert|done].
Qed.

(** ** What validation accepts *)

Definition within {A} (lt : A → A → bool) (lo hi : option A) (x : A) : Prop :=
  (∀ l, lo = Some l → lt x l = false) ∧ (∀ h, hi = Some h → lt h x = false).

(** The value has the declared type and lies in the declared range. *)
Definition conforms (s : ArgSpec) (v : Value) : Prop :=
  match as_type s, v_kind v with
  | VALUE_TYPE_BOOL, KBool _ => True
  | VALUE_TYPE_INT64, KInt64 z => within Z.ltb (as_min_int64 s) (as_max_int64 s) z
  | VALUE_TYPE_UINT64, KUint64 z => within Z.ltb (as_min_uint64 s) (as_max_uint64 s) z
  | VALUE_TYPE_DOUBLE, KDouble d => within SFltb (as_min_double s) (as_max_double s) d
  | VALUE_TYPE_STRING, KString t => as_allowed_values s = [] ∨ t ∈ as_allowed_values s
  | VALUE_TYPE_BYTES, KBytes _ => True
  | _, _ => False
  end.

Definition declared (specs : list ArgSpec) (name : string) : option ArgSpec :=
  last (filter (λ s, as_name s = name) specs).

Definition args_conform (spec : FunctionSpec) (args : gmap string Value) : Prop :=
  (∀ s, s ∈ fs_args spec → as_required s = true → is_Some (args !! as_name s)) ∧
  (∀ name v, args !! name = Some v → ∃ s, declared (fs_args spec) name = Some s ∧ conforms s v).

Lemma spec_map_lookup specs m name :
  foldl (λ m s, <[as_name s := s]> m) m specs !! name =
  match declared specs name with Some s => Some s | None => (m : gmap string ArgSpec) !! name end.
Proof.
  revert m. induction specs as [|s specs IH]; intros m; [done|]. simpl. rewrite IH. unfold declared.
  rewrite filter_cons. destruct (decide (as_name s = name)) as [<-|Hne].
  - rewrite lookup_insert_eq, last_cons. by destruct (last _).
  - by rewrite lookup_insert_ne.
Qed.

Lemma check_each_ok {A} (f : A → result unit) l : check_each f l = Ok () ↔ Forall (λ x, f x = Ok ()) l.
Proof.
  induction l as [|x l IH]; simpl; [by split|]. rewrite Forall_cons, <- IH.
  destruct (f x) as [[]|]; simpl; naive_solver.
Qed.

Section Validation.
Context `{FloatText}.

Lemma check_bounds_ok {A} (lt : A → A → bool) text lo hi x :
  check_bounds lt text lo hi x = Ok () ↔ within lt lo hi x.
Proof.
  unfold check_bounds, within.
  destruct lo as [l|]; [destruct (lt x l) eqn:El|]; (destruct hi as [h|]; [destruct (lt h x) eqn:Eh|]);
    (split; [intros ?; try done; split; by intros ? [= <-]|]); intros [H1 H2]; try done;
    try specialize (H1 _ eq_refl); try specialize (H2 _ eq_refl); congruence.
Qed.

Lemma prefix_error_ok {A} n (m : result A) a : prefix_error n m = Ok a ↔ m = Ok a.
Proof. by destruct m. Qed.

Lemma check_one_ok s v :
  (validate_argument_type s v = Ok () ∧ validate_argument_range s v = Ok ()) ↔ conforms s v.
Proof.
  unfold validate_argument_type, validate_argument_range, conforms, double_value, int64_value, uint64_value,
    string_value, has_bool_value, has_int64_value, has_uint64_value, has_double_value, has_string_value,
    has_bytes_value.
  destruct (as_type s), (v_kind v); simpl; rewrite ?check_bounds_ok; try naive_solver.
  do 2 case_bool_decide; simpl; naive_solver.
Qed.

Lemma check_provided_ok specs name v :
  check_provided (spec_map specs) (name, v) = Ok () ↔ ∃ s, declared specs name = Some s ∧ conforms s v.
Proof.
  unfold check_provided, spec_map. rewrite spec_map_lookup, lookup_empty.
  destruct (declared specs name) as [s|]; [|naive_solver].
  rewrite rbind_Ok. setoid_rewrite prefix_error_ok. split.
  - intros ([] & Ht & Hr). exists s. split; [done|]. by apply check_one_ok.
  - intros (s' & [= <-] & [Ht Hr]%check_one_ok). by exists ().
Qed.

Lemma validate_arguments_ok spec args :
  validate_arguments spec args = Ok () ↔ args_conform spec args.
Proof.
  unfold validate_arguments, args_conform.
  assert ((∃ u, check_required (fs_args spec) args = Ok u) ↔
    ∀ s, s ∈ fs_args spec → as_required s = true → is_Some (args !! as_name s)) as Hreq.
  { unfold check_required. destruct (list_find _ _) as [[i s]|] eqn:E.
    - apply list_find_Some in E as (Hi & [Hr Hn] & _). split; [by intros [u ?]|].
      intros Hall. destruct (Hall s) as [v Hv]; [by eapply list_elem_of_lookup_2|done|congruence].
    - apply list_find_None in E. rewrite Forall_forall in E. split; [|by eauto]. intros _ s Hs Hr.
      destruct (args !! as_name s) eqn:En; [by eauto|]. destruct (E s Hs). done. }
  rewrite <- Hreq.
  assert (Forall (λ x, check_provided (spec_map (fs_args spec)) x = Ok ()) (map_items args) ↔
    ∀ name v, args !! name = Some v → ∃ s, declared (fs_args spec) name = Some s ∧ conforms s v) as Hp.
  { rewrite Forall_forall. split.
    - intros Hall name v Hv. apply check_provided_ok, Hall. by apply elem_of_map_items.
    - intros Hall [name v] Hv%elem_of_map_items. by apply check_provided_ok, Hall. }
  rewrite <- Hp, <- check_each_ok, rbind_Ok. naive_solver.
Qed.

End Validation.

(** ** Theorems *)


Definition duty_arg (type : ValueType) : ArgSpec :=
  mkArgSpec "duty" type true "" "" None None (Some 0) (Some 100) (Some 0) (Some 100) [].
Definition set_duty (type : ValueType) : FunctionSpec :=
  mkFunctionSpec 7 "set_duty" "" [duty_arg type] CATEGORY_ACTUATE [] 0 false.

Definition big_duty : gmap string Value := {[ "duty" := mkValue VALUE_TYPE_INT64 (KInt64 (2 ^ 53)) ]}.

Lemma big_duty_wf : args_wf big_duty.
Proof. apply map_Forall_singleton. split; vm_compute; discriminate. Qed.


(** Validation accepts exactly the arguments that conform to the function's
    declaration: every required argument is present, every given argument is
    declared, and each value has the declared type and lies within the declared
    bounds or allowed values, where a repeated declaration counts as its last
    occurrence. *)
Theorem validation_refines_declaration `{FloatText} (spec : FunctionSpec) (args : gmap string Value) :
  validate_arguments spec args = Ok () ↔ args_conform spec args.
Proof. apply validate_arguments_ok. Qed.

(** A handle splits into the provider and device it was made from exactly
    when both are non-empty and the provider id contains no slash; a device id
    may contain slashes. *)
Theorem handle_parse_roundtrip (pid did : string) :
  parse_device_handle (make_handle pid did) = Ok (pid, did) ↔
  pid ≠ "" ∧ did ≠ "" ∧ has_char slash pid = false.
Proof.
  unfold parse_device_handle, make_handle. split.
  - destruct (split_first slash _) as [[p d]|] eqn:E; [|done]. apply split_first_sound in E as [E Hc].
    do 2 case_bool_decide; try done. simpl. by intros [= <- <-].
  - intros (Hp & Hd & Hc). change ("/" +:+ did) with (String slash did).
    rewrite split_first_app by done. by rewrite !bool_decide_false.
Qed.

(** A NaN passes every range check: both comparisons are false. *)
Lemma nan_is_within (lo hi : option double) : within SFltb lo hi S754_nan.
Proof. split; intros b _; [done|]. by destruct b. Qed.
