(* ===== verification/BtNodes.v ===== *)
(** * The behaviour-tree nodes ([core/automation/bt_nodes.cpp])

    The leaf nodes the runtime registers with the tree library: reading signals
    and parameters, building call arguments, calling a device, and the three
    nodes that keep time.  The library is outside: an input port is what
    [getInput] gave, [None] for its error; a tick returns its status, the outputs
    it set and the node's state after it.  Times are [Z]; overflow of the signed
    arithmetic, undefined in the code, is outside.  Log lines are left out. *)

From S2P Require Import Prelude Floats Protocol Json Registry Parameters StateCache ArgCheck.

(** [BT::NodeStatus]. *)
Inductive NodeStatus := SUCCESS | FAILURE | RUNNING | IDLE | SKIPPED.

#[global] Instance NodeStatus_eq_dec : EqDecision NodeStatus.
Proof. solve_decision. Defined.

(** ** Conversions *)

Definition value_to_double (v : Value) : double :=
  match v_kind v with
  | KDouble d => d
  | KInt64 z => double_of_Z z
  | KUint64 z => double_of_Z z
  | KBool b => if b then double_of_Z 1 else double_zero
  | _ => double_zero
  end.

Definition signal_quality_to_string (q : Quality) : string :=
  match q with
  | QUALITY_OK => "OK"
  | QUALITY_STALE => "STALE"
  | QUALITY_FAULT => "FAULT"
  | QUALITY_UNKNOWN => "UNKNOWN"
  | _ => "UNSPECIFIED"
  end.

Definition string_to_quality (s : string) : Quality :=
  if bool_decide (s = "OK") then QUALITY_OK
  else if bool_decide (s = "STALE") then QUALITY_STALE
  else if bool_decide (s = "FAULT") then QUALITY_FAULT
  else if bool_decide (s = "UNKNOWN") then QUALITY_UNKNOWN
  else QUALITY_UNSPECIFIED.

Definition double_to_value (d : double) : Value := mkValue VALUE_TYPE_DOUBLE (KDouble d).
Definition int64_to_value (z : Z) : Value := mkValue VALUE_TYPE_INT64 (KInt64 z).
Definition bool_to_value (b : bool) : Value := mkValue VALUE_TYPE_BOOL (KBool b).
Definition string_to_value (s : string) : Value := mkValue VALUE_TYPE_STRING (KString s).

(** ** Reading nodes *)

(** [ReadSignalNode::tick]; [cache] is [None] without the service. *)
Definition read_signal_tick (cache : option StateCache) (handle signal : option string)
    : NodeStatus * option (double * string) :=
  match cache, handle, signal with
  | Some c, Some h, Some s =>
      match get_signal_value c h s with
      | Some v => (SUCCESS, Some (value_to_double (csv_value v), signal_quality_to_string (csv_quality v)))
      | None => (FAILURE, None)
      end
  | _, _, _ => (FAILURE, None)
  end.

Definition check_quality_tick (cache : option StateCache) (handle signal expected : option string) : NodeStatus :=
  match cache, handle, signal with
  | Some c, Some h, Some s =>
      match get_signal_value c h s with
      | Some v => if bool_decide (csv_quality v = string_to_quality (default "OK" expected)) then SUCCESS else FAILURE
      | None => FAILURE
      end
  | _, _, _ => FAILURE
  end.

(** The three parameter nodes differ in the alternative they accept. *)
Definition get_parameter_tick {A} (accept : ParameterValue → option A) (pm : option ParameterManager)
    (param : option string) : NodeStatus * option A :=
  match pm, param with
  | Some m, Some name =>
      match Parameters.get name m ≫= accept with
      | Some a => (SUCCESS, Some a)
      | None => (FAILURE, None)
      end
  | _, _ => (FAILURE, None)
  end.

Definition accept_number (v : ParameterValue) : option double :=
  match v with PDouble d => Some d | PInt64 z => Some (double_of_Z z) | _ => None end.
Definition accept_bool (v : ParameterValue) : option bool := match v with PBool b => Some b | _ => None end.
Definition accept_int64 (v : ParameterValue) : option Z := match v with PInt64 z => Some z | _ => None end.

Definition check_bool_tick (value expected : option bool) : NodeStatus :=
  match value with
  | None => FAILURE
  | Some v => if bool_decide (v = default true expected) then SUCCESS else FAILURE
  end.

(** ** [PeriodicPulseWindowNode] *)

Record PeriodicInputs := mkPeriodic {
  pi_enabled : option bool;
  pi_startup_delay_s : option Z;
  pi_interval_s : option Z;
  pi_pulse_s : option Z;
  pi_max_pulses_per_hour : option Z;
}.

Record PeriodicState := mkPeriodicState { ps_initialized : bool; ps_enabled_at_ms : Z }.

(** [active], [pulse_index] and [elapsed_ms]. *)
Record PulseOutput := mkPulse { po_active : bool; po_index : Z; po_elapsed_ms : Z }.

(** The interval, stretched to the hourly cap when one is set. *)
Definition capped_interval (interval_s max_pulses_per_hour : Z) : Z :=
  let interval_ms := interval_s * 1000 in
  if 0 <? max_pulses_per_hour then
    let min_interval := Z.quot (3600 * 1000) max_pulses_per_hour in
    if interval_ms <? min_interval then min_interval else interval_ms
  else interval_ms.

Definition periodic_tick (i : PeriodicInputs) (now_ms : Z) (s : PeriodicState)
    : NodeStatus * option PulseOutput * PeriodicState :=
  let startup := default 0 (pi_startup_delay_s i) in
  let interval := default 60 (pi_interval_s i) in
  let pulse := default 1 (pi_pulse_s i) in
  let cap := default 0 (pi_max_pulses_per_hour i) in
  if (startup <? 0) || (interval <=? 0) || (pulse <=? 0) || (interval <? pulse) || (cap <? 0) then (FAILURE, None, s)
  else if negb (default true (pi_enabled i)) then
    (SUCCESS, Some (mkPulse false (-1) 0), mkPeriodicState false (ps_enabled_at_ms s))
  else
    let s' := if ps_initialized s then s else mkPeriodicState true now_ms in
    let elapsed := Z.max 0 (now_ms - ps_enabled_at_ms s') in
    if elapsed <? startup * 1000 then (SUCCESS, Some (mkPulse false (-1) elapsed), s')
    else
      let interval_ms := capped_interval interval cap in
      let effective := elapsed - startup * 1000 in
      (SUCCESS, Some (mkPulse (Z.rem effective interval_ms <? pulse * 1000) (Z.quot effective interval_ms) elapsed), s').

(** ** [RequestedPulseWindowNode] *)

Record RequestedInputs := mkRequested {
  ri_request : option Z;
  ri_delay_s : option Z;
  ri_pulse_s : option Z;
  ri_max_queued : option Z;
}.

Record RequestedState := mkRequestedState {
  rs_initialized : bool;
  rs_last_request : Z;
  rs_queued : Z;
  rs_running : bool;
  rs_start_ms : Z;
}.

Definition requested_start : RequestedState := mkRequestedState false 0 0 false 0.

(** A pulse that has ended frees its place. *)
Definition expire (pulse_ms now_ms : Z) (s : RequestedState) : RequestedState :=
  if rs_running s && (rs_start_ms s + pulse_ms <=? now_ms) then
    mkRequestedState (rs_initialized s) (rs_last_request s) (rs_queued s) false (rs_start_ms s)
  else s.

Definition count_request (max_queued request : Z) (s : RequestedState) : RequestedState :=
  if negb (rs_initialized s) then
    mkRequestedState true request (rs_queued s) (rs_running s) (rs_start_ms s)
  else if rs_last_request s <? request then
    let room := max_queued - rs_queued s - (if rs_running s then 1 else 0) in
    mkRequestedState true request
      (rs_queued s + Z.max 0 (Z.min (request - rs_last_request s) room)) (rs_running s) (rs_start_ms s)
  else if request <? rs_last_request s then
    mkRequestedState true request (rs_queued s) (rs_running s) (rs_start_ms s)
  else s.

Definition start_next (delay_s now_ms : Z) (s : RequestedState) : RequestedState :=
  if negb (rs_running s) && (0 <? rs_queued s) then
    mkRequestedState (rs_initialized s) (rs_last_request s) (rs_queued s - 1) true (now_ms + delay_s * 1000)
  else s.

(** The outputs are [active] and [queued]. *)
Definition requested_tick (i : RequestedInputs) (now_ms : Z) (s : RequestedState)
    : NodeStatus * (bool * Z) * RequestedState :=
  let delay := default 0 (ri_delay_s i) in
  let pulse := default 1 (ri_pulse_s i) in
  let max_queued := default 1 (ri_max_queued i) in
  match ri_request i with
  | None => (FAILURE, (false, rs_queued s), s)
  | Some request =>
      if (delay <? 0) || (pulse <=? 0) || (max_queued <? 1) then (FAILURE, (false, rs_queued s), s)
      else
        let pulse_ms := pulse * 1000 in
        let s' := start_next delay now_ms (count_request max_queued request (expire pulse_ms now_ms s)) in
        (SUCCESS,
         (rs_running s' && (rs_start_ms s' <=? now_ms) && (now_ms <? rs_start_ms s' + pulse_ms), rs_queued s'), s')
  end.

(** ** [EmitOnChangeOrIntervalNode] *)

Record EmitInputs := mkEmit {
  ei_key : option string;
  ei_keepalive_s : option Z;
  ei_min_spacing_ms : option Z;
  ei_force : option bool;
}.

Record EmitState := mkEmitState { es_has_last : bool; es_last_ms : Z; es_last_key : string }.

Definition emit_decision (key : string) (keepalive_s min_spacing_ms : Z) (force : bool) (now_ms : Z) (s : EmitState)
    : bool * string :=
  if force then (true, "force")
  else if negb (es_has_last s) then (true, "first")
  else
    let since := now_ms - es_last_ms s in
    if negb (bool_decide (key = es_last_key s)) && (min_spacing_ms <=? since) then (true, "changed")
    else if (0 <? keepalive_s) && (keepalive_s * 1000 <=? since) then (true, "keepalive")
    else (false, "hold").

Definition emit_tick (i : EmitInputs) (now_ms : Z) (s : EmitState)
    : NodeStatus * option (bool * string) * EmitState :=
  match ei_key i with
  | None => (FAILURE, None, s)
  | Some key =>
      let keepalive := default 30 (ei_keepalive_s i) in
      let spacing := default 0 (ei_min_spacing_ms i) in
      if (keepalive <? 0) || (spacing <? 0) then (FAILURE, None, s)
      else
        let d := emit_decision key keepalive spacing (default false (ei_force i)) now_ms s in
        (SUCCESS, Some d, if d.1 then mkEmitState true now_ms key else s)
  end.

(** ** [BuildArgsJsonNode] *)

Record Slot := mkSlot {
  sl_name : option string;
  sl_type : option string;
  sl_num : option double;
  sl_bool : option bool;
  sl_str : option string;
}.

(** [std::llround]: to the nearest integer, halves away from zero;
    [unspecified] is what it answers for a number that has no such [int64_t]. *)
Definition llround (unspecified : double → Z) (d : double) : Z :=
  match d with
  | S754_zero _ => 0
  | S754_finite s m e =>
      let a := if 0 <=? e then Z.pos m * 2 ^ e else (Z.pos m + 2 ^ (- e - 1)) / 2 ^ (- e) in
      let z := if s then - a else a in
      if (int64_min <=? z) && (z <=? int64_max) then z else unspecified d
  | _ => unspecified d
  end.

(** The double nearest to [1e-9]. *)
Definition tolerance : double := S754_finite false 4835703278458517 (-82).

Definition provided {A} (o : option A) : Z := match o with Some _ => 1 | None => 0 end.

(** The value of one slot, [None] for an unset name. *)
Definition slot_value (unspecified : double → Z) (sl : Slot) : result (option (string * json)) :=
  match sl_name sl with
  | None => Ok None
  | Some name =>
      if bool_decide (name = "") then Ok None
      else
        let type := default "" (sl_type sl) in
        let count := provided (sl_num sl) + provided (sl_bool sl) + provided (sl_str sl) in
        if count =? 0 then Err "Missing value"
        else if 1 <? count then Err "Multiple value sources"
        else if bool_decide (type = "int64") then
          match sl_num sl with
          | None => Err "int64 type requires numeric input"
          | Some raw =>
              let rounded := llround unspecified raw in
              if SFltb tolerance (SFabs (SFsub 53 1024 raw (double_of_Z rounded)))
              then Err "Non-integral numeric value for int64 arg"
              else Ok (Some (name, JInt rounded))
          end
        else if bool_decide (type = "double") then
          match sl_num sl with Some d => Ok (Some (name, JFloat d)) | None => Err "double type requires numeric input" end
        else if bool_decide (type = "bool") then
          match sl_bool sl with Some b => Ok (Some (name, JBool b)) | None => Err "bool type requires bool input" end
        else if bool_decide (type = "string") then
          match sl_str sl with Some s => Ok (Some (name, JString s)) | None => Err "string type requires string input" end
        else if negb (bool_decide (type = "")) then Err "Unsupported arg type"
        else match sl_num sl, sl_bool sl, sl_str sl with
             | Some d, _, _ => Ok (Some (name, JFloat d))
             | None, Some b, _ => Ok (Some (name, JBool b))
             | None, None, Some s => Ok (Some (name, JString s))
             | None, None, None => Err "Missing value"
             end
  end.

(** [args[name] = value] over the six slots. *)
Fixpoint build_args (unspecified : double → Z) (slots : list Slot) (args : gmap string json)
    : result (gmap string json) :=
  match slots with
  | [] => Ok args
  | sl :: rest =>
      match slot_value unspecified sl with
      | Err e => Err e
      | Ok None => build_args unspecified rest args
      | Ok (Some (name, v)) => build_args unspecified rest (<[name := v]> args)
      end
  end.

Section Calls.
Context `{JsonLines}.

(** The output [json]; [None] is the exception of [dump()]. *)
Definition build_args_tick (unspecified : double → Z) (slots : list Slot) : option (NodeStatus * option string) :=
  match build_args unspecified slots ∅ with
  | Err _ => Some (FAILURE, None)
  | Ok args => (λ text, (SUCCESS, Some text)) <$> line_dump (JObject (map_items args))
  end.

(** ** [CallDeviceNode] *)

Definition strip_json_prefix (args : string) : string :=
  if starts_with "json:" args then str_drop 5 args else args.

(** One argument of a request. *)
Definition arg_value (v : json) : option Value :=
  match v with
  | JFloat d => Some (double_to_value d)
  | JInt z => Some (int64_to_value (to_int64 z))
  | JBool b => Some (bool_to_value b)
  | JString s => Some (string_to_value s)
  | _ => None
  end.

Fixpoint convert_args (items : list (string * json)) (args : gmap string Value) : result (gmap string Value) :=
  match items with
  | [] => Ok args
  | (key, v) :: rest =>
      match arg_value v with
      | Some value => convert_args rest (<[key := value]> args)
      | None => Err ("Unsupported JSON type for arg '" +:+ key +:+ "'")
      end
  end.

(** The arguments of the call; [what] is the text of a parse error. *)
Definition parse_args (what : string → string) (port : option string) : result (gmap string Value) :=
  let text := strip_json_prefix (default "{}" port) in
  if bool_decide (text = "") || bool_decide (text = "{}") then Ok ∅
  else match line_parse text with
       | None => Err ("JSON parse error: " +:+ what text)
       | Some (JObject items) => convert_args items ∅
       | Some _ => Err "args must be a JSON object"
       end.

Definition call_device_request (what : string → string) (handle function : option string) (args : option string)
    : result CallRequest :=
  match handle, function with
  | Some h, Some f =>
      rbind (parse_args what args) (λ m, Ok (mkRequest h 0 f m true true false false))
  | _, _ => Err "Missing device_handle or function_name"
  end.

(** What a tick gives: its status with [success] and [error], or the exception
    of a call that ran out of failures. *)
Inductive TickOutcome := Returned (status : NodeStatus) (success : bool) (error : string) | Threw (what : string).

(** [router] and [registry] say which services are there; [execute] is the
    router's answer and [on_result] the runtime's. *)
Definition call_device_tick (what : string → string) (router registry : bool)
    (execute : CallRequest → bool * string) (on_result : option (string → string → bool → string → string))
    (handle function args : option string) : TickOutcome :=
  if negb router then Returned FAILURE false "CallRouter not available"
  else match call_device_request what handle function args with
       | Err e => Returned FAILURE false e
       | Ok request =>
           if negb registry then Returned FAILURE false "Provider registry not available"
           else
             let '(ok, error) := execute request in
             let fault := match on_result with
                          | Some f => f (rq_device_handle request) (rq_function_name request) ok error
                          | None => ""
                          end in
             if bool_decide (fault = "") then Returned (if ok then SUCCESS else FAILURE) ok error
             else Threw fault
       end.
End Calls.

(** ** Requested pulses *)

(** A node ticked over time with one configuration: its state, the time of its
    last tick, the start of every pulse it began, newest first, and the sum of
    the increases of its counter. *)
Record PulseRun := mkPulseRun {
  pr_state : RequestedState;
  pr_now : Z;
  pr_starts : list Z;
  pr_presses : Z;
}.

Section Requested.
Context (delay_s pulse_s max_queued : Z).

Definition pulse_step (r : PulseRun) (tick : Z * option Z) : PulseRun :=
  let '(now, request) := tick in
  let s := pr_state r in
  let '(status, _, s') := requested_tick (mkRequested request (Some delay_s) (Some pulse_s) (Some max_queued)) now s in
  mkPulseRun s' now
    (if bool_decide (status = SUCCESS) && (rs_running s' && negb (rs_running (expire (pulse_s * 1000) now s)))
     then rs_start_ms s' :: pr_starts r else pr_starts r)
    (pr_presses r + match request with
                    | Some n => if rs_initialized s then Z.max 0 (n - rs_last_request s) else 0
                    | None => 0
                    end).

(** Each start is past the end of the one before. *)
Fixpoint separated (starts : list Z) : Prop :=
  match starts with
  | a :: ((b :: _) as rest) => b + pulse_s * 1000 ≤ a ∧ separated rest
  | _ => True
  end.

Record pulse_inv (r : PulseRun) : Prop := {
  pv_queued : 0 ≤ rs_queued (pr_state r);
  pv_bound : rs_queued (pr_state r) + (if rs_running (pr_state r) then 1 else 0) ≤ max_queued;
  pv_count : Z.of_nat (length (pr_starts r)) + rs_queued (pr_state r) ≤ pr_presses r;
  pv_separated : separated (pr_starts r);
  pv_head : match pr_starts r with
            | [] => rs_running (pr_state r) = false
            | a :: _ => if rs_running (pr_state r) then a = rs_start_ms (pr_state r) else a + pulse_s * 1000 ≤ pr_now r
            end;
}.

(** The state a tick starts from once an ended pulse has freed its place. *)
Lemma expire_inv r now :
  pulse_inv r → pr_now r ≤ now →
  pulse_inv (mkPulseRun (expire (pulse_s * 1000) now (pr_state r)) now (pr_starts r) (pr_presses r)).
Proof.
  intros [Hq Hb Hc Hs Hh] Hnow. unfold expire.
  destruct (rs_running (pr_state r)) eqn:Hr; cbn [andb].
  - destruct (Z.leb_spec (rs_start_ms (pr_state r) + pulse_s * 1000) now).
    + constructor; simpl; try done; [lia|]. destruct (pr_starts r); [done|]. subst. lia.
    + constructor; simpl; rewrite ?Hr; done.
  - constructor; simpl; rewrite ?Hr; try done. destruct (pr_starts r); [done|lia].
Qed.

Lemma count_start_inv request now s starts presses :
  0 ≤ delay_s → 0 < pulse_s → 1 ≤ max_queued →
  pulse_inv (mkPulseRun s now starts presses) →
  let s' := start_next delay_s now (count_request max_queued request s) in
  pulse_inv (mkPulseRun s' now
    (if rs_running s' && negb (rs_running s) then rs_start_ms s' :: starts else starts)
    (presses + if rs_initialized s then Z.max 0 (request - rs_last_request s) else 0)).
Proof.
  intros Hd Hp Hm [Hq Hb Hc Hs Hh]. simpl in *.
  set (s1 := count_request max_queued request s).
  set (add := if rs_initialized s then Z.max 0 (request - rs_last_request s) else 0).
  assert (rs_running s1 = rs_running s ∧ rs_start_ms s1 = rs_start_ms s ∧
          rs_queued s ≤ rs_queued s1 ≤ rs_queued s + add ∧
          (rs_queued s1 = rs_queued s ∨ rs_queued s1 + (if rs_running s then 1 else 0) ≤ max_queued)) as (R1 & R2 & R3 & R4).
  { unfold s1, count_request, add. destruct (rs_initialized s); simpl; [|repeat split; lia].
    destruct (Z.ltb_spec (rs_last_request s) request); simpl; [repeat split; lia|].
    destruct (Z.ltb_spec request (rs_last_request s)); simpl; repeat split; lia. }
  unfold start_next. rewrite R1. destruct (rs_running s) eqn:Hr; simpl in *.
  - rewrite R1. simpl. constructor; simpl; rewrite ?R1, ?R2; done || lia.
  - destruct (Z.ltb_spec 0 (rs_queued s1)); simpl.
    + constructor; simpl; try lia. destruct starts as [|b rest]; [done|]. split; [lia|done].
    + rewrite R1. simpl. constructor; simpl; rewrite ?R1; done || lia.
Qed.

Lemma pulse_step_inv r now request :
  0 ≤ delay_s → 0 < pulse_s → 1 ≤ max_queued → pulse_inv r → pr_now r ≤ now → pulse_inv (pulse_step r (now, request)).
Proof.
  intros Hd Hp Hm Hr Hnow. pose proof (expire_inv r now Hr Hnow) as He. unfold pulse_step, requested_tick.
  cbn [ri_request ri_delay_s ri_pulse_s ri_max_queued from_option]. unfold id.
  destruct request as [n|].
  - rewrite (proj2 (Z.ltb_ge delay_s 0)), (proj2 (Z.leb_gt pulse_s 0)), (proj2 (Z.ltb_ge max_queued 1)) by lia.
    cbn [orb]. pose proof (count_start_inv n now _ _ _ Hd Hp Hm He) as Hstep.
    assert (∀ s, rs_initialized (expire (pulse_s * 1000) now s) = rs_initialized s ∧
                 rs_last_request (expire (pulse_s * 1000) now s) = rs_last_request s) as Hsame
      by (intros s; unfold expire; by destruct (_ && _)).
    destruct (Hsame (pr_state r)) as [E1 E2]. rewrite E1, E2 in Hstep. exact Hstep.
  - destruct Hr as [Hq Hb Hc Hs Hh]. rewrite Z.add_0_r. constructor; simpl; try done.
    destruct (pr_starts r); [done|]. destruct (rs_running (pr_state r)); [done|lia].
Qed.
End Requested.

(** Times that never go back. *)
Fixpoint nondecreasing (t : Z) (times : list Z) : Prop :=
  match times with [] => True | u :: rest => t ≤ u ∧ nondecreasing u rest end.

Definition pulse_start (now : Z) : PulseRun := mkPulseRun requested_start now [] 0.

Lemma pulse_start_inv pulse max_queued now : 1 ≤ max_queued → pulse_inv pulse max_queued (pulse_start now).
Proof. intros. constructor; simpl; done || lia. Qed.

Lemma pulse_step_now delay pulse max_queued r tick : pr_now (pulse_step delay pulse max_queued r tick) = tick.1.
Proof. destruct tick as [now request]. unfold pulse_step. by destruct (requested_tick _ _ _) as [[? ?] ?]. Qed.

Lemma pulse_run_inv delay pulse max_queued ticks r :
  0 ≤ delay → 0 < pulse → 1 ≤ max_queued → pulse_inv pulse max_queued r → nondecreasing (pr_now r) (fst <$> ticks) →
  pulse_inv pulse max_queued (foldl (pulse_step delay pulse max_queued) r ticks).
Proof.
  intros Hd Hp Hm. revert r. induction ticks as [|[now request] ticks IH]; intros r Hr; [done|].
  intros [Hle Hrest]. cbn [foldl]. apply IH; [by apply pulse_step_inv|]. by rewrite pulse_step_now.
Qed.

(** A pulse that is on is the newest of the pulses started, and not over. *)
Lemma active_in_pulse delay pulse max_queued r now request :
  pulse_inv pulse max_queued (pulse_step delay pulse max_queued r (now, request)) →
  let '(_, (active, _), _) :=
    requested_tick (mkRequested request (Some delay) (Some pulse) (Some max_queued)) now (pr_state r) in
  active = true →
  ∃ start, head (pr_starts (pulse_step delay pulse max_queued r (now, request))) = Some start ∧
           start ≤ now < start + pulse * 1000.
Proof.
  intros [_ _ _ _ Hhead]. revert Hhead. unfold pulse_step.
  destruct (requested_tick _ _ _) as [[status [active queued]] s'] eqn:E. cbn [pr_starts pr_state pr_now].
  intros Hhead ->. revert E. unfold requested_tick. destruct (ri_request _); [|done].
  destruct (_ || _ || _); [done|]. simpl.
  set (final := start_next _ _ _). intros [= <- Hon _ <-].
  apply andb_true_iff in Hon as [[Hrun Hlo%Z.leb_le]%andb_true_iff Hhi%Z.ltb_lt].
  destruct (if bool_decide _ && _ then _ else _) as [|a l]; rewrite Hrun in Hhead; [done|].
  subst a. by exists (rs_start_ms final).
Qed.

(** A requested-pulse node, ticked at times that never go back and with one
    valid configuration, serves presses and nothing else: it starts no more
    pulses than the operator's counter was increased, each one only after the one
    before has ended; never more than [max_queued] are outstanding, the running
    one included; and [active] is only true inside the newest pulse started. *)
Theorem requested_pulses_bounded delay pulse max_queued now ticks now' request :
  0 ≤ delay → 0 < pulse → 1 ≤ max_queued → nondecreasing now ((fst <$> ticks) ++ [now']) →
  let r := foldl (pulse_step delay pulse max_queued) (pulse_start now) ticks in
  let r' := pulse_step delay pulse max_queued r (now', request) in
  separated pulse (pr_starts r') ∧
  Z.of_nat (length (pr_starts r')) ≤ pr_presses r' ∧
  0 ≤ rs_queued (pr_state r') ∧
  rs_queued (pr_state r') + (if rs_running (pr_state r') then 1 else 0) ≤ max_queued ∧
  ((requested_tick (mkRequested request (Some delay) (Some pulse) (Some max_queued)) now' (pr_state r)).1.2.1 = true →
   ∃ start, head (pr_starts r') = Some start ∧ start ≤ now' < start + pulse * 1000).
Proof.
  intros Hd Hp Hm Hle r r'.
  assert (pulse_inv pulse max_queued r') as Hr'.
  { subst r r'. change (pulse_step _ _ _ (foldl _ _ _) _) with
      (foldl (pulse_step delay pulse max_queued) (foldl (pulse_step delay pulse max_queued) (pulse_start now) ticks)
         [(now', request)]).
    rewrite <- foldl_app. apply pulse_run_inv; [done..|by apply pulse_start_inv|].
    by rewrite fmap_app. }
  pose proof (active_in_pulse delay pulse max_queued r now' request Hr') as Hon.
  destruct Hr' as [Hq Hb Hc Hs _]. split_and!; [done|lia|done|done|].
  by destruct (requested_tick _ _ _) as [[? [active ?]] ?].
Qed.

(** Three presses at once with room for two: the second pulse waits for the end
    of the first. *)
Lemma requested_pulses_bounded_witness :
  let r := foldl (pulse_step 1 2 2) (pulse_start 0) [(0, Some 5); (100, Some 8); (3200, Some 8)] in
  pr_starts r = [4200; 1100] ∧
  Z.of_nat (length (pr_starts (pulse_step 1 2 2 r (4500, Some 8)))) ≤ pr_presses (pulse_step 1 2 2 r (4500, Some 8)).
Proof.
  split; [by vm_compute|].
  apply (requested_pulses_bounded 1 2 2 0 [(0, Some 5); (100, Some 8); (3200, Some 8)] 4500 (Some 8)); simpl; lia.
Defined.

(** ** Periodic pulses *)

Section Periodic.
Context (startup interval pulse cap : Z).
Context (Hstartup : 0 ≤ startup) (Hpulse : 0 < pulse ≤ interval) (Hcap : 0 ≤ cap).

Definition periodic_inputs (enabled : bool) : PeriodicInputs :=
  mkPeriodic (Some enabled) (Some startup) (Some interval) (Some pulse) (Some cap).

(** The start of the [k]-th pulse of a node enabled at [at]. *)
Definition periodic_start (enabled_at k : Z) : Z := enabled_at + startup * 1000 + k * capped_interval interval cap.

Lemma capped_interval_pos : interval * 1000 ≤ capped_interval interval cap.
Proof.
  unfold capped_interval. destruct (0 <? cap); [|lia].
  destruct (Z.ltb_spec (interval * 1000) (Z.quot (3600 * 1000) cap)); lia.
Qed.

(** What a node enabled at [t0] outputs at [now]. *)
Lemma periodic_tick_eq t0 now :
  t0 ≤ now →
  periodic_tick (periodic_inputs true) now (mkPeriodicState true t0) =
  (SUCCESS,
   Some (if now <? periodic_start t0 0 then mkPulse false (-1) (now - t0)
         else let k := (now - periodic_start t0 0) / capped_interval interval cap in
              mkPulse (now <? periodic_start t0 k + pulse * 1000) k (now - t0)),
   mkPeriodicState true t0).
Proof.
  intros Hnow. pose proof capped_interval_pos as HI. unfold periodic_tick, periodic_start.
  cbn [pi_enabled pi_startup_delay_s pi_interval_s pi_pulse_s pi_max_pulses_per_hour periodic_inputs from_option
       ps_initialized ps_enabled_at_ms negb id].
  rewrite (proj2 (Z.ltb_ge startup 0)), (proj2 (Z.leb_gt interval 0)), (proj2 (Z.leb_gt pulse 0)),
    (proj2 (Z.ltb_ge interval pulse)), (proj2 (Z.ltb_ge cap 0)) by lia. cbn [orb].
  rewrite Z.max_r by lia.
  destruct (Z.ltb_spec (now - t0) (startup * 1000)); destruct (Z.ltb_spec now (t0 + startup * 1000 + 0 * capped_interval interval cap));
    try lia; [done|].
  replace (now - (t0 + startup * 1000 + 0 * capped_interval interval cap)) with (now - t0 - startup * 1000) by lia.
  set (e := now - t0 - startup * 1000). rewrite Z.rem_mod_nonneg, Z.quot_div_nonneg by lia.
  pose proof (Z.div_mod e (capped_interval interval cap)).
  rewrite (eq_true_iff_eq (e `mod` capped_interval interval cap <? pulse * 1000)
    (now <? t0 + startup * 1000 + e / capped_interval interval cap * capped_interval interval cap + pulse * 1000));
    [done|]. rewrite !Z.ltb_lt. lia.
Qed.

(** A periodic-pulse node, enabled at [t0] with a valid configuration, is
    active exactly inside its pulse windows: from the start of some pulse [k], the
    enabling time plus the startup delay plus [k] intervals, for the pulse's
    width.  The index it reports is that of the pulse. *)
Theorem periodic_pulses_exact t0 now :
  t0 ≤ now →
  ∃ o, periodic_tick (periodic_inputs true) now (mkPeriodicState true t0) = (SUCCESS, Some o, mkPeriodicState true t0) ∧
  (po_active o = true ↔
   0 ≤ po_index o ∧ periodic_start t0 (po_index o) ≤ now < periodic_start t0 (po_index o) + pulse * 1000) ∧
  (∀ k, 0 ≤ k → periodic_start t0 k ≤ now < periodic_start t0 k + pulse * 1000 → po_active o = true ∧ po_index o = k).
Proof.
  intros Hnow. eexists. split; [by apply periodic_tick_eq|]. pose proof capped_interval_pos as HI.
  unfold periodic_start. set (I := capped_interval interval cap) in *. rewrite Z.mul_0_l, Z.add_0_r.
  destruct (Z.ltb_spec now (t0 + startup * 1000)); simpl.
  - split; [split; [done|lia]|]. intros k Hk ?. exfalso. nia.
  - set (e := now - (t0 + startup * 1000)). pose proof (Z.div_mod e I). pose proof (Z.mod_pos_bound e I).
    pose proof (Z.div_pos e I). rewrite Z.ltb_lt. split; [split; [intros; split_and!; lia|lia]|].
    intros k Hk Hin. assert (e / I = k) as ->; [|lia].
    symmetry. apply Z.div_unique with (e - I * k); lia.
Qed.

(** The pulses that start after one tick and by a later one are the difference of
    the two indices. *)
Lemma index_difference t0 now now' o o' :
  t0 ≤ now ≤ now' →
  periodic_tick (periodic_inputs true) now (mkPeriodicState true t0) = (SUCCESS, Some o, mkPeriodicState true t0) →
  periodic_tick (periodic_inputs true) now' (mkPeriodicState true t0) = (SUCCESS, Some o', mkPeriodicState true t0) →
  (po_index o' - po_index o - 1) * capped_interval interval cap < now' - now.
Proof.
  intros Hnow. rewrite !periodic_tick_eq by lia. intros [= <-] [= <-]. pose proof capped_interval_pos as HI.
  unfold periodic_start. set (I := capped_interval interval cap) in *. rewrite Z.mul_0_l, Z.add_0_r.
  set (e := now - (t0 + startup * 1000)). set (e' := now' - (t0 + startup * 1000)).
  pose proof (Z.div_mod e I). pose proof (Z.mod_pos_bound e I).
  pose proof (Z.div_mod e' I). pose proof (Z.mod_pos_bound e' I).
  destruct (Z.ltb_spec now (t0 + startup * 1000)), (Z.ltb_spec now' (t0 + startup * 1000)); simpl; nia.
Qed.

(** With an hourly cap that divides the hour, no span of less than an hour
    holds more than [max_pulses_per_hour] pulse starts. *)
Theorem hourly_cap_respected t0 now now' o o' :
  0 < cap → (cap | 3600000) → t0 ≤ now ≤ now' → now' < now + 3600000 →
  periodic_tick (periodic_inputs true) now (mkPeriodicState true t0) = (SUCCESS, Some o, mkPeriodicState true t0) →
  periodic_tick (periodic_inputs true) now' (mkPeriodicState true t0) = (SUCCESS, Some o', mkPeriodicState true t0) →
  po_index o' - po_index o ≤ cap.
Proof.
  intros Hpos [q Hq] Hnow Hspan E E'. pose proof (index_difference _ _ _ _ _ Hnow E E') as Hd.
  assert (q ≤ capped_interval interval cap) as Hmin.
  { unfold capped_interval. rewrite (proj2 (Z.ltb_lt 0 cap) Hpos).
    change (3600 * 1000) with 3600000. rewrite Hq, Z.quot_mul by lia.
    destruct (Z.ltb_spec (interval * 1000) q); lia. }
  destruct (Z.le_gt_cases (po_index o' - po_index o) cap) as [|Hgt]; [done|exfalso].
  assert (cap * q ≤ (po_index o' - po_index o - 1) * capped_interval interval cap); [|lia].
  assert (0 < q) by lia. apply Z.mul_le_mono_nonneg; lia.
Qed.
End Periodic.

Lemma periodic_pulses_exact_witness :
  po_active <$> (periodic_tick (periodic_inputs 5 60 2 0 true) 66500 (mkPeriodicState true 0)).1.2 = Some true.
Proof.
  destruct (periodic_pulses_exact 5 60 2 0 ltac:(lia) ltac:(lia) ltac:(lia) 0 66500 ltac:(lia)) as (o & -> & _ & Hk).
  destruct (Hk 1) as [Ho _]; [lia|vm_compute; split; congruence|]. cbn. by rewrite Ho.
Defined.

Lemma hourly_cap_respected_witness :
  11 - (-1) ≤ 12.
Proof.
  apply (hourly_cap_respected 1 60 2 12 ltac:(lia) ltac:(lia) ltac:(lia) 0 999 3600000
    (mkPulse false (-1) 999) (mkPulse false 11 3600000)); try lia; [by exists 300000|by vm_compute..].
Defined.

(** The cap is not kept when it does not divide the hour: the minimum interval is
    rounded down, and a cap of seven lets eight pulses start in one hour. *)
Example cap_of_seven_allows_eight :
  po_index <$> (periodic_tick (periodic_inputs 1 60 2 7 true) 999 (mkPeriodicState true 0)).1.2 = Some (-1) ∧
  po_index <$> (periodic_tick (periodic_inputs 1 60 2 7 true) 3600995 (mkPeriodicState true 0)).1.2 = Some 7 ∧
  3600995 - 999 < 3600000.
Proof. by vm_compute. Qed.

(** ** The emission gate *)

(** After every tick of the emission gate that succeeds with a keepalive, an
    emission is on record that is less than the keepalive old, and whatever the
    key of the tick is, it has been emitted unless that emission is less than the
    minimum spacing old: a changed command waits for the spacing at most, and an
    unchanged one is repeated in time. *)
Theorem emission_never_overdue i now s d s' :
  emit_tick i now s = (SUCCESS, Some d, s') → 0 < default 30 (ei_keepalive_s i) →
  es_has_last s' = true ∧ now - es_last_ms s' < default 30 (ei_keepalive_s i) * 1000 ∧
  (ei_key i = Some (es_last_key s') ∨ now - es_last_ms s' < default 0 (ei_min_spacing_ms i)) ∧
  (d.1 = true → es_last_ms s' = now ∧ ei_key i = Some (es_last_key s')).
Proof.
  unfold emit_tick. destruct (ei_key i) as [key|]; [|done].
  destruct ((_ <? 0) || (_ <? 0)) eqn:Hneg; [done|]. intros [= <- <-] Hk.
  apply orb_false_iff in Hneg as [_ Hsp%Z.ltb_ge].
  unfold emit_decision. destruct (default false (ei_force i)); simpl; [split_and!; auto; lia|].
  destruct (es_has_last s) eqn:Hl; simpl; [|split_and!; auto; lia].
  rewrite (proj2 (Z.ltb_lt _ _) Hk). simpl.
  destruct (bool_decide_reflect (key = es_last_key s)) as [->|]; simpl.
  - destruct (Z.leb_spec (default 30 (ei_keepalive_s i) * 1000) (now - es_last_ms s)); simpl; split_and!; auto; lia || done.
  - destruct (Z.leb_spec (default 0 (ei_min_spacing_ms i)) (now - es_last_ms s)); simpl; [split_and!; auto; lia|].
    destruct (Z.leb_spec (default 30 (ei_keepalive_s i) * 1000) (now - es_last_ms s)); simpl; split_and!; auto; lia || done.
Qed.

Lemma emission_never_overdue_witness :
  let i := mkEmit (Some "b") (Some 5) (Some 1000) None in
  es_last_key (emit_tick i 4000 (mkEmitState true 3500 "a")).2 = "a" ∧
  4000 - es_last_ms (emit_tick i 4000 (mkEmitState true 3500 "a")).2 < 5000.
Proof.
  split; [done|].
  apply (emission_never_overdue (mkEmit (Some "b") (Some 5) (Some 1000) None) 4000 (mkEmitState true 3500 "a")
    (false, "hold") (mkEmitState true 3500 "a")); done.
Defined.

(** The minimum spacing holds back changes only: a keepalive shorter than it
    emits inside it. *)
Example keepalive_ignores_spacing :
  emit_tick (mkEmit (Some "k") (Some 1) (Some 60000) None) 1000 (mkEmitState true 0 "k") =
  (SUCCESS, Some (true, "keepalive"), mkEmitState true 1000 "k").
Proof. by vm_compute. Qed.

(** ** Arguments from slots to the call *)

Lemma llround_exact u d z : double_is d z → int64_min ≤ z ≤ int64_max → llround u d = z.
Proof.
  intros Hd Hz. assert ((int64_min <=? z) && (z <=? int64_max) = true) as Hrange
    by (apply andb_true_iff; split; apply Z.leb_le; lia).
  destruct d as [| | |s m e]; simpl in *; [done|done|done|].
  destruct (decide (0 ≤ e)) as [He|He].
  - rewrite (proj2 (Z.leb_le 0 e)) by done.
    replace (if s then - (Z.pos m * 2 ^ e) else Z.pos m * 2 ^ e) with z by (destruct s; lia). by rewrite Hrange.
  - rewrite (proj2 (Z.leb_gt 0 e)) by lia.
    assert ((Z.pos m + 2 ^ (- e - 1)) / 2 ^ (- e) = Z.abs z) as ->.
    { pose proof (Z.pow_pos_nonneg 2 (- e - 1)). assert (2 ^ (- e) = 2 * 2 ^ (- e - 1)) as Hpow
        by (rewrite <- Z.pow_succ_r by lia; f_equal; lia).
      rewrite Hpow in *. symmetry. apply Z.div_unique with (2 ^ (- e - 1)); destruct s; nia. }
    assert (z = if s then - Z.abs z else Z.abs z) as Hz'.
    { pose proof (Z.pow_pos_nonneg 2 (- e)). destruct s; nia. }
    rewrite <- Hz'. by rewrite Hrange.
Qed.

Lemma sub_self d : (match d with S754_nan | S754_infinity _ => False | _ => True end) →
  SFltb tolerance (SFabs (SFsub 53 1024 d d)) = false.
Proof.
  destruct d as [s| | |s m e]; try done; intros _; [by destruct s|].
  unfold SFsub. by rewrite Z.sub_diag.
Qed.

(** A slot of type [int64] that holds an integer becomes exactly that integer. *)
Lemma int64_slot_exact u name z :
  name ≠ "" → - 2 ^ 53 ≤ z ≤ 2 ^ 53 →
  slot_value u (mkSlot (Some name) (Some "int64") (Some (double_of_Z z)) None None) = Ok (Some (name, JInt z)).
Proof.
  intros Hname Hz. pose proof (double_of_Z_exact z Hz) as Hd. unfold slot_value. cbn [sl_name].
  rewrite bool_decide_false by done. cbn -[llround SFsub SFltb double_of_Z].
  rewrite (llround_exact u _ z Hd) by (unfold int64_min, int64_max; lia).
  rewrite sub_self; [done|]. by destruct (double_of_Z z).
Qed.

(** The conversion error is compared, not the number: a NaN compares with
    nothing, passes the check and is sent as whatever [llround] made of it. *)
Example nan_passes_the_int64_check u :
  slot_value u (mkSlot (Some "n") (Some "int64") (Some S754_nan) None None) = Ok (Some ("n", JInt (u S754_nan))).
Proof. done. Qed.

Section ArgsRoundTrip.
Context `{JsonLines} (u : double → Z) (Hu : ∀ d, int64_min ≤ u d ≤ int64_max).

(** A slot whose number is finite and whose texts can be printed. *)
Definition slot_ok (sl : Slot) : bool :=
  match sl_num sl with Some (S754_nan | S754_infinity _) => false | _ => true end &&
  text_ok (default "" (sl_name sl)) && text_ok (default "" (sl_str sl)).

(** What the object built from such slots holds. *)
Definition sendable (name : string) (j : json) : Prop :=
  canonical j = true ∧ printable text_ok j = true ∧ text_ok name = true ∧ is_Some (arg_value j).

Lemma llround_range d : int64_min ≤ llround u d ≤ int64_max.
Proof.
  destruct d as [| | |s m e]; cbn [llround]; [done|apply Hu|apply Hu|].
  destruct (_ && _) eqn:E; [|apply Hu]. apply andb_true_iff in E as [?%Z.leb_le ?%Z.leb_le]. lia.
Qed.

Lemma slot_value_sendable sl name j :
  slot_ok sl = true → slot_value u sl = Ok (Some (name, j)) → sendable name j.
Proof.
  unfold slot_ok, slot_value. intros [[Hnum Hname]%andb_true_iff Hstr]%andb_true_iff.
  destruct (sl_name sl) as [n|]; [|done]. simpl in Hname.
  destruct (bool_decide (n = "")); [done|]. destruct (_ =? 0); [done|]. destruct (1 <? _); [done|].
  assert (∀ d, sl_num sl = Some d → sendable n (JFloat d)) as Hf.
  { intros d E. rewrite E in Hnum. split_and!; [by destruct d|done|done|by eexists]. }
  assert (∀ z, sendable n (JInt (llround u z))) as Hi.
  { intros z. pose proof (llround_range z). split_and!; [|done|done|by eexists].
    apply canonical_int. unfold int64_max, uint64_max in *. lia. }
  assert (∀ b, sendable n (JBool b)) as Hb by (intros b; split_and!; try done; by eexists).
  assert (∀ s, sl_str sl = Some s → sendable n (JString s)) as Hs.
  { intros s E. rewrite E in Hstr. simpl in Hstr. by split_and!. }
  clear Hnum. repeat case_match; intros; simplify_eq; eauto.
Qed.

Lemma build_args_sendable slots args :
  Forall (λ sl, slot_ok sl = true) slots → (∀ k j, args !! k = Some j → sendable k j) →
  ∀ args', build_args u slots args = Ok args' → ∀ k j, args' !! k = Some j → sendable k j.
Proof.
  intros Hok. revert args. induction Hok as [|sl slots Hsl _ IH]; intros args Hargs args'; simpl; [by intros [= <-]|].
  destruct (slot_value u sl) as [[[name j]|]|] eqn:E; [|by apply IH|done].
  apply IH. intros k j'. destruct (decide (name = k)) as [->|Hne].
  - rewrite lookup_insert_eq. intros [= <-]. by apply (slot_value_sendable sl).
  - rewrite lookup_insert_ne by done. apply Hargs.
Qed.

Lemma convert_args_lookup items args :
  NoDup (fst <$> items) → Forall (λ p, is_Some (arg_value p.2)) items →
  ∃ m, convert_args items args = Ok m ∧
       ∀ k, m !! k = match (list_to_map items : gmap string json) !! k with Some j => arg_value j | None => args !! k end.
Proof.
  revert args. induction items as [|[k0 j0] items IH]; intros args Hnd Hall; [by exists args|].
  apply NoDup_cons in Hnd as [Hk0 Hnd]. apply Forall_cons in Hall as [[v0 Hv0] Hall]. simpl in *. rewrite Hv0.
  destruct (IH (<[k0:=v0]> args) Hnd Hall) as (m & -> & Hm). exists m. split; [done|]. intros k. rewrite Hm.
  destruct (decide (k0 = k)) as [->|Hne].
  - rewrite lookup_insert_eq, (not_elem_of_list_to_map_1 items) by done. by rewrite lookup_insert_eq, Hv0.
  - by rewrite !lookup_insert_ne by done.
Qed.

(** The arguments a tree builds are the arguments its call sends: when the
    slots hold printable texts and finite numbers and the build succeeds, the
    object it prints is read back by the calling node as the same names with the
    same typed values, whatever the number, order and repetition of slots.  The
    two hypotheses on the printer are that only the empty object prints as [{}]
    and that an object's text does not start with [json:]. *)
Theorem built_args_reach_call what slots args :
  (∀ l, line_dump (JObject l) = Some "{}" → l = []) →
  (∀ l text, line_dump (JObject l) = Some text → starts_with "json:" text = false) →
  Forall (λ sl, slot_ok sl = true) slots → build_args u slots ∅ = Ok args →
  ∃ text, build_args_tick u slots = Some (SUCCESS, Some text) ∧
          parse_args what (Some text) = Ok (omap arg_value args) ∧ dom (omap arg_value args) = dom args.
Proof.
  intros Hempty Hprefix Hok Hbuild.
  assert (∀ k j, args !! k = Some j → sendable k j) as Hsend.
  { apply (build_args_sendable slots ∅); [done| |done]. intros k j. by rewrite lookup_empty. }
  assert (is_Some (line_dump (JObject (map_items args)))) as [text Htext].
  { apply line_dump_is_Some. cbn [printable]. apply Is_true_true, forallb_True, Forall_forall.
    intros [k j] Hin%elem_of_map_items. destruct (Hsend k j Hin) as (_ & Hp & Hk & _). simpl. by rewrite Hk, Hp. }
  assert (∀ k, is_Some (args !! k) → is_Some (omap arg_value args !! k)) as Hdom.
  { intros k [j Hj]. rewrite lookup_omap, Hj. by apply (Hsend k j). }
  exists text. unfold build_args_tick. rewrite Hbuild, Htext. split_and!; [done| |].
  - unfold parse_args, strip_json_prefix. simpl. rewrite (Hprefix _ _ Htext).
    destruct (bool_decide_reflect (text = "")) as [->|_]; [by apply line_dump_one in Htext as [_ []]|].
    destruct (bool_decide_reflect (text = "{}")) as [->|_]; simpl.
    { assert (args = ∅) as ->; [|done]. rewrite <- (list_to_map_items args). by rewrite (Hempty _ Htext). }
    rewrite (line_parse_dump _ _ (canonical_map _ (λ k j Hj, proj1 (Hsend k j Hj))) Htext).
    destruct (convert_args_lookup (map_items args) ∅) as (m & -> & Hm); [apply map_items_NoDup| |].
    { apply Forall_forall. intros [k j] Hin%elem_of_map_items. apply (Hsend k j Hin). }
    f_equal. apply map_eq. intros k. rewrite Hm, list_to_map_items, lookup_omap. by destruct (args !! k).
  - apply set_eq. intros k. rewrite !elem_of_dom. split; [|apply Hdom].
    rewrite lookup_omap. destruct (args !! k); simpl; [by eexists|by intros [? ?]].
Qed.
End ArgsRoundTrip.

Lemma bits_text_not_json p : starts_with "json:" (bits_text p) = false ∧ bits_text p ≠ "{}".
Proof. by destruct p. Qed.

Lemma built_args_reach_call_witness :
  let slots := [mkSlot (Some "rate") (Some "int64") (Some (double_of_Z 30)) None None;
                mkSlot None None None None None;
                mkSlot (Some "on") None None (Some true) None;
                mkSlot (Some "on") (Some "bool") None (Some false) None] in
  ∃ text, build_args_tick (H := bit_codec) (λ _, 0) slots = Some (SUCCESS, Some text) ∧
    parse_args (H := bit_codec) (λ s, s) (Some text) =
      Ok (<["rate" := int64_to_value 30]> (<["on" := bool_to_value false]> ∅)).
Proof.
  intros slots.
  destruct (built_args_reach_call (H := bit_codec) (λ _, 0) ltac:(done) (λ s, s) slots
    (<["on" := JBool false]> (<["on" := JBool true]> (<["rate" := JInt 30]> ∅)))) as (text & Ht & Hp & _).
  - intros l [= Hl]. exfalso. by apply (bits_text_not_json (encode (to_tree (JObject l)))).
  - intros l text [= <-]. apply bits_text_not_json.
  - by repeat constructor.
  - by vm_compute.
  - exists text. split; [exact Ht|]. rewrite Hp. f_equal.
Defined.
