(* ===== verification/Automation.v ===== *)
(** * The automation engine ([core/automation/bt_runtime.cpp])

    Loading a definition, the tick loop, the call-failure counters and the status
    views.  The tree library is outside: what a tree does in one tick is an
    argument, the results of its device calls in order and how the tick ends.  An
    iteration of the loop is one step; [others] is what other threads do to the
    mode and the rest of the runtime while the tree ticks, and [later] what they do
    between the FAULT a throwing tick enters and the mode the loop reads after it;
    a load that lands inside a tick is outside.  The sleep between iterations is
    left out, and of the log lines only the three about that mode are kept. *)

From S2P Require Import Prelude Json ModeManager BtNodes.

(** ** Data *)

(** [enum class AutomationStatus] and [BTStatus]. *)
Inductive AutomationStatus := Idle | Running | Blocked | Failed | Completed | Unknown.
Inductive BTStatus := BT_IDLE | BT_RUNNING | BT_STALLED | BT_ERROR.

#[global] Instance AutomationStatus_eq_dec : EqDecision AutomationStatus.
Proof. solve_decision. Defined.

Definition automation_status_to_string (s : AutomationStatus) : string :=
  match s with
  | Idle => "idle"
  | Running => "running"
  | Blocked => "blocked"
  | Failed => "failed"
  | Completed => "completed"
  | Unknown => "unknown"
  end.

Record AutomationVersion := mkVersion {
  av_engine_kind : string;
  av_id : string;
  av_digest : string;
  av_digest_scope : string;
}.

Definition version0 : AutomationVersion := mkVersion "" "" "" "top_level_file".

Record CallFailureView := mkCallFailure {
  cf_device_handle : string;
  cf_function : string;
  cf_consecutive_failures : Z;
  cf_last_error : string;
  cf_last_failure_ms : Z;
}.

Record LoadOutcome := mkLoadOutcome { lo_ok : bool; lo_error : string; lo_version : AutomationVersion }.

Record DefinitionArtifact := mkArtifact { da_media_type : string; da_digest : string; da_bytes : string }.

(** The active definition, guarded by [def_mutex_]. *)
Record Definition_ := mkDefinition {
  df_loaded : bool;
  df_path : string;
  df_bytes : string;
  df_version : AutomationVersion;
}.

(** What [health_mutex_] guards of the current run. *)
Record RunStatus := mkRunStatus {
  rn_last_tick_status : NodeStatus;
  rn_run_ended : bool;
  rn_error_count : Z;
  rn_ticks_since_progress : Z;
  rn_last_error : string;
  rn_call_failures : list CallFailureView;
}.

Definition run_status0 : RunStatus := mkRunStatus BtNodes.IDLE false 0 0 "" [].

Record BTRuntime := mkBTRuntime {
  bt_def : Definition_;
  bt_run : RunStatus;
  bt_last_tick_ms : Z;
  bt_total_ticks : Z;
  bt_running : bool;
  bt_stop_on_terminal : bool;
  bt_max_call_failures : Z;
  bt_tick_rate_hz : Z;
  bt_emitter : bool;
  bt_fault_sink : bool;
  bt_next_event_id : Z;
}.

Definition bt_runtime0 : BTRuntime :=
  mkBTRuntime (mkDefinition false "" "" version0) run_status0 0 0 false false 3 10 false false 1.

Definition with_def d b := mkBTRuntime d (bt_run b) (bt_last_tick_ms b) (bt_total_ticks b) (bt_running b)
  (bt_stop_on_terminal b) (bt_max_call_failures b) (bt_tick_rate_hz b) (bt_emitter b) (bt_fault_sink b) (bt_next_event_id b).
Definition with_run r b := mkBTRuntime (bt_def b) r (bt_last_tick_ms b) (bt_total_ticks b) (bt_running b)
  (bt_stop_on_terminal b) (bt_max_call_failures b) (bt_tick_rate_hz b) (bt_emitter b) (bt_fault_sink b) (bt_next_event_id b).
Definition with_ticked ms total b := mkBTRuntime (bt_def b) (bt_run b) ms total (bt_running b)
  (bt_stop_on_terminal b) (bt_max_call_failures b) (bt_tick_rate_hz b) (bt_emitter b) (bt_fault_sink b) (bt_next_event_id b).
Definition with_running r b := mkBTRuntime (bt_def b) (bt_run b) (bt_last_tick_ms b) (bt_total_ticks b) r
  (bt_stop_on_terminal b) (bt_max_call_failures b) (bt_tick_rate_hz b) (bt_emitter b) (bt_fault_sink b) (bt_next_event_id b).
Definition with_event_id n b := mkBTRuntime (bt_def b) (bt_run b) (bt_last_tick_ms b) (bt_total_ticks b) (bt_running b)
  (bt_stop_on_terminal b) (bt_max_call_failures b) (bt_tick_rate_hz b) (bt_emitter b) (bt_fault_sink b) n.

Definition set_event_sink (emitter : bool) (b : BTRuntime) := mkBTRuntime (bt_def b) (bt_run b) (bt_last_tick_ms b)
  (bt_total_ticks b) (bt_running b) (bt_stop_on_terminal b) (bt_max_call_failures b) (bt_tick_rate_hz b) emitter
  (bt_fault_sink b) (bt_next_event_id b).
Definition set_fault_sink (sink : bool) (b : BTRuntime) := mkBTRuntime (bt_def b) (bt_run b) (bt_last_tick_ms b)
  (bt_total_ticks b) (bt_running b) (bt_stop_on_terminal b) (bt_max_call_failures b) (bt_tick_rate_hz b)
  (bt_emitter b) sink (bt_next_event_id b).
Definition set_stop_on_terminal (stop : bool) (b : BTRuntime) := mkBTRuntime (bt_def b) (bt_run b) (bt_last_tick_ms b)
  (bt_total_ticks b) (bt_running b) stop (bt_max_call_failures b) (bt_tick_rate_hz b) (bt_emitter b)
  (bt_fault_sink b) (bt_next_event_id b).
Definition set_max_consecutive_call_failures (limit : Z) (b : BTRuntime) := mkBTRuntime (bt_def b) (bt_run b)
  (bt_last_tick_ms b) (bt_total_ticks b) (bt_running b) (bt_stop_on_terminal b) (if limit <? 1 then 1 else limit)
  (bt_tick_rate_hz b) (bt_emitter b) (bt_fault_sink b) (bt_next_event_id b).

(** What the engine tells others: events, and the fault sink. *)
Inductive Effect :=
| CallFailedEvent (id : Z) (device_handle function error : string) (consecutive now_ms : Z)
| FaultEvent (id : Z) (locus message : string) (now_ms : Z)
| FaultSink (locus message : string) (now_ms : Z).

(** ** Counting call results *)

Definition is_call (handle function : string) (f : CallFailureView) : bool :=
  bool_decide (cf_device_handle f = handle) && bool_decide (cf_function f = function).

(** The first entry of a call, updated in place. *)
Fixpoint update_call (handle function : string) (g : CallFailureView → CallFailureView)
    (l : list CallFailureView) : option (list CallFailureView) :=
  match l with
  | [] => None
  | f :: rest =>
      if is_call handle function f then Some (g f :: rest) else cons f <$> update_call handle function g rest
  end.

Definition failures_of (handle function : string) (l : list CallFailureView) : Z :=
  match find (is_call handle function) l with Some f => cf_consecutive_failures f | None => 0 end.

Definition add_failure (error : string) (now : Z) (f : CallFailureView) : CallFailureView :=
  mkCallFailure (cf_device_handle f) (cf_function f) (to_uint64 (cf_consecutive_failures f + 1)) error now.

Definition clear_failures (f : CallFailureView) : CallFailureView :=
  mkCallFailure (cf_device_handle f) (cf_function f) 0 (cf_last_error f) (cf_last_failure_ms f).

Definition set_call_failures (l : list CallFailureView) (r : RunStatus) : RunStatus :=
  mkRunStatus (rn_last_tick_status r) (rn_run_ended r) (rn_error_count r) (rn_ticks_since_progress r) (rn_last_error r) l.

Definition fault_reason (handle function error : string) (consecutive : Z) : string :=
  "automation call " +:+ handle +:+ " " +:+ function +:+ " failed " +:+
  (if consecutive =? 1 then "once" else to_string consecutive +:+ " times in a row") +:+ "; last error: " +:+ error.

(** The result of a device call: the fault reason, empty for none. *)
Definition record_call_result (handle function : string) (success : bool) (error : string) (now : Z) (b : BTRuntime)
    : string * list Effect * BTRuntime :=
  let l := rn_call_failures (bt_run b) in
  if success then
    ("", [], with_run (set_call_failures (default l (update_call handle function clear_failures l)) (bt_run b)) b)
  else
    let l' := match update_call handle function (add_failure error now) l with
              | Some l' => l'
              | None => l ++ [add_failure error now (mkCallFailure handle function 0 "" 0)]
              end in
    let consecutive := failures_of handle function l' in
    let b' := with_run (set_call_failures l' (bt_run b)) b in
    let '(effects, b'') :=
      if bt_emitter b then ([CallFailedEvent (bt_next_event_id b) handle function error consecutive now],
                            with_event_id (to_uint64 (bt_next_event_id b + 1)) b')
      else ([], b') in
    (if consecutive <? to_uint64 (bt_max_call_failures b) then "" else fault_reason handle function error consecutive,
     effects, b'').

(** ** Definitions *)

Section Hex.
(** [EVP_Digest] with SHA-256: [None] when it fails. *)
Context (evp_digest : string → option (list Z)).

Definition hex_char (n : Z) : ascii := default "0"%char (String.get (Z.to_nat n) "0123456789abcdef").

Fixpoint hex_bytes (md : list Z) : string :=
  match md with
  | [] => ""
  | c :: rest => String (hex_char (Z.shiftr c 4)) (String (hex_char (Z.land c 15)) (hex_bytes rest))
  end.

Definition sha256_hex (data : string) : string :=
  match evp_digest data with None => "" | Some md => hex_bytes md end.

(** The text after the last [/] or [\ ]. *)
Fixpoint after_separator (path : string) : option string :=
  match path with
  | EmptyString => None
  | String c rest =>
      match after_separator rest with
      | Some s => Some s
      | None => if Ascii.eqb c "/" || Ascii.eqb c "\" then Some rest else None
      end
  end.

Definition file_basename (path : string) : string :=
  let name := default path (after_separator path) in
  match split_last "." name with Some (stem, _) => stem | None => name end.

(** [read] is the file, [parse] and [stage] what the tree library does with it:
    [None], or the text of its exception. *)
Definition load (read : option string) (parse stage : option string) (path : string) (b : BTRuntime)
    : LoadOutcome * BTRuntime :=
  match read with
  | None => (mkLoadOutcome false ("cannot open automation definition: " +:+ path) version0, b)
  | Some bytes =>
      match parse with
      | Some what => (mkLoadOutcome false ("failed to parse automation definition: " +:+ what) version0, b)
      | None =>
          match stage with
          | Some what =>
              (mkLoadOutcome false ("failed to initialise automation definition blackboard: " +:+ what) version0, b)
          | None =>
              let version := mkVersion "behavior_tree" (file_basename path) (sha256_hex bytes) "top_level_file" in
              (mkLoadOutcome true "" version,
               with_run run_status0 (with_def (mkDefinition true path bytes version) b))
          end
      end
  end.
End Hex.

Definition get_tree_path (b : BTRuntime) : string := df_path (bt_def b).

Definition definition (b : BTRuntime) : option DefinitionArtifact :=
  if df_loaded (bt_def b)
  then Some (mkArtifact "application/xml" (av_digest (df_version (bt_def b))) (df_bytes (bt_def b)))
  else None.

(** ** Starting and stopping *)

Definition start_at (tick_rate_hz : Z) (b : BTRuntime) : bool * BTRuntime :=
  if bt_running b then (false, b)
  else if negb (df_loaded (bt_def b)) then (false, b)
  else if (tick_rate_hz <=? 0) || (1000 <? tick_rate_hz) then (false, b)
  else (true, mkBTRuntime (bt_def b) (bt_run b) (bt_last_tick_ms b) (bt_total_ticks b) true (bt_stop_on_terminal b)
                (bt_max_call_failures b) tick_rate_hz (bt_emitter b) (bt_fault_sink b) (bt_next_event_id b)).

Definition start (b : BTRuntime) : result unit * BTRuntime :=
  match start_at (bt_tick_rate_hz b) b with
  | (true, b') => (Ok tt, b')
  | (false, b') =>
      (Err "automation engine failed to start (already running, no definition loaded, or invalid tick rate)", b')
  end.

Definition stop_impl (b : BTRuntime) : BTRuntime := if bt_running b then with_running false b else b.

(** ** The tick loop *)

Record CallResult := mkCallResult {
  cr_handle : string;
  cr_function : string;
  cr_success : bool;
  cr_error : string;
  cr_now : Z;
}.

(** How a tick ends, and what a tree does in one: its device calls in order and,
    if none of them throws, its end. *)
Inductive TickEnd := TickReturns (status : NodeStatus) | TickThrows (what : string).
Record TreeRun := mkTreeRun { tr_calls : list CallResult; tr_end : TickEnd }.

(** The calls of one tick, up to the first that exhausts its failures and throws. *)
Fixpoint run_calls (calls : list CallResult) (b : BTRuntime) : option string * list Effect * BTRuntime :=
  match calls with
  | [] => (None, [], b)
  | c :: rest =>
      let '(fault, effects, b') := record_call_result (cr_handle c) (cr_function c) (cr_success c) (cr_error c) (cr_now c) b in
      if bool_decide (fault = "") then
        let '(thrown, effects', b'') := run_calls rest b' in (thrown, effects ++ effects', b'')
      else (Some fault, effects, b')
  end.

Definition tick (tree : TreeRun) (b : BTRuntime) : TickEnd * list Effect * BTRuntime :=
  if negb (df_loaded (bt_def b)) then (TickReturns FAILURE, [], b)
  else
    match run_calls (tr_calls tree) b with
    | (Some fault, effects, b') => (TickThrows fault, effects, b')
    | (None, effects, b') => (tr_end tree, effects, b')
    end.

(** The health update of a tick that returned. *)
Definition note_status (status : NodeStatus) (stop : bool) (r : RunStatus) : RunStatus :=
  mkRunStatus status
    (if (bool_decide (status = SUCCESS) || bool_decide (status = FAILURE)) && stop then true else rn_run_ended r)
    (rn_error_count r)
    (if bool_decide (status = SUCCESS) || bool_decide (status = RUNNING) then 0
     else if bool_decide (status = FAILURE) then to_uint64 (rn_ticks_since_progress r + 1)
     else rn_ticks_since_progress r)
    (rn_last_error r) (rn_call_failures r).

(** And of one that threw. *)
Definition note_exception (what : string) (r : RunStatus) : RunStatus :=
  mkRunStatus FAILURE (rn_run_ended r) (to_uint64 (rn_error_count r + 1)) (rn_ticks_since_progress r) what
    (rn_call_failures r).

Section Loop.
Context {W : Type} (cbs : Callbacks W).

(** The engine, the loop's [was_auto], and the mode manager with the rest. *)
Record Loop := mkLoop { lp_engine : BTRuntime; lp_was_auto : bool; lp_mode : MM W }.

Definition emit_fault (what : string) (now : Z) (b : BTRuntime) : list Effect * BTRuntime :=
  let '(events, b') :=
    if bt_emitter b then ([FaultEvent (bt_next_event_id b) "tick" what now],
                          with_event_id (to_uint64 (bt_next_event_id b + 1)) b)
    else ([], b) in
  (events ++ (if bt_fault_sink b then [FaultSink "tick" what now] else []), b').

(** What the log says of the mode after a tick that threw. *)
Inductive HaltReport := StillInAuto | AlreadyInFault | HaltedIn (mode : RuntimeMode).

(** What an iteration did: whether it started a run, how it ticked, what it made
    public, and what it reports of the mode. *)
Record Iteration := mkIteration {
  it_new_run : bool;
  it_tick : option TickEnd;
  it_effects : list Effect;
  it_report : option HaltReport;
}.

Definition iteration (tree : TreeRun) (now : Z) (others later : MM W → MM W) (l : Loop) : Iteration * Loop :=
  let m := lp_mode l in
  if negb (bool_decide (current_mode m = AUTO)) then
    (mkIteration false None [] None, mkLoop (lp_engine l) false m)
  else
    let fresh := negb (lp_was_auto l) in
    let b := if fresh then with_run run_status0 (lp_engine l) else lp_engine l in
    if rn_run_ended (bt_run b) then (mkIteration fresh None [] None, mkLoop b true m)
    else
      let '(tick_end, effects, b1) := tick tree b in
      let m1 := others m in
      match tick_end with
      | TickReturns status =>
          (mkIteration fresh (Some tick_end) effects None,
           mkLoop (with_ticked (to_uint64 now) (to_uint64 (bt_total_ticks b1 + 1))
                     (with_run (note_status status (bt_stop_on_terminal b1) (bt_run b1)) b1)) true m1)
      | TickThrows what =>
          let '(events, b2) := emit_fault what now (with_run (note_exception what (bt_run b1)) b1) in
          let m2 := later (snd (set_mode cbs FAULT m1)) in
          let mode_before := current_mode m1 in
          let mode_after := current_mode m2 in
          let report := if bool_decide (mode_after = AUTO) then StillInAuto
                        else if bool_decide (mode_before = FAULT) then AlreadyInFault
                        else HaltedIn mode_after in
          (mkIteration fresh (Some tick_end) (effects ++ events) (Some report),
           mkLoop b2 (bool_decide (mode_after = AUTO)) m2)
      end.
End Loop.
Arguments Loop : clear implicits.
Arguments mkLoop {W} _ _ _.
Arguments lp_engine {W} _.
Arguments lp_was_auto {W} _.
Arguments lp_mode {W} _.

(** ** Views *)

Record AutomationHealth := mkHealth {
  ah_bt_status : BTStatus;
  ah_last_tick_ms : Z;
  ah_ticks_since_progress : Z;
  ah_total_ticks : Z;
  ah_last_error : string;
  ah_error_count : Z;
  ah_current_tree : string;
}.

Definition get_health (b : BTRuntime) : AutomationHealth :=
  let r := bt_run b in
  mkHealth
    (if negb (df_loaded (bt_def b)) || negb (bt_running b) then BT_IDLE
     else if (0 <? rn_error_count r) && bool_decide (rn_last_tick_status r = FAILURE) then BT_ERROR
     else if 10 <? rn_ticks_since_progress r then BT_STALLED
     else BT_RUNNING)
    (bt_last_tick_ms b) (rn_ticks_since_progress r) (bt_total_ticks b) (rn_last_error r) (rn_error_count r)
    (df_path (bt_def b)).

Record AutomationStatusView := mkStatusView {
  sv_status : AutomationStatus;
  sv_version : AutomationVersion;
  sv_last_evaluation_ms : Z;
  sv_last_error : string;
  sv_engine_diagnostics : json;
  sv_call_failures : list CallFailureView;
}.

Definition status (mode : RuntimeMode) (b : BTRuntime) : AutomationStatusView :=
  let in_auto := bool_decide (mode = AUTO) in
  let r := bt_run b in
  let loaded_and_running := df_loaded (bt_def b) && bt_running b in
  mkStatusView
    (if loaded_and_running && (0 <? rn_error_count r) && bool_decide (rn_last_tick_status r = FAILURE) then Failed
     else if loaded_and_running && in_auto && rn_run_ended r then
       if bool_decide (rn_last_tick_status r = SUCCESS) then Completed else Failed
     else if negb loaded_and_running || negb in_auto then Idle
     else if 10 <? rn_ticks_since_progress r then Blocked
     else Running)
    (df_version (bt_def b)) (bt_last_tick_ms b) (rn_last_error r)
    (JObject [("error_count", JInt (rn_error_count r)); ("stall_suspected", JBool (10 <? rn_ticks_since_progress r));
              ("ticks_since_progress", JInt (rn_ticks_since_progress r)); ("total_ticks", JInt (bt_total_ticks b))])
    (rn_call_failures r).

(** ** Call failures *)

Lemma is_call_same h f v g :
  (∀ v, cf_device_handle (g v) = cf_device_handle v ∧ cf_function (g v) = cf_function v) →
  is_call h f (g v) = is_call h f v.
Proof. intros Hg. unfold is_call. by destruct (Hg v) as [-> ->]. Qed.

Lemma is_call_key h f h' f' v : is_call h f v = true → is_call h' f' v = true → h = h' ∧ f = f'.
Proof. unfold is_call. intros. bool_facts. by subst. Qed.

(** The count of a call after an update of another one, or of itself. *)
Lemma update_call_other h f h' f' g l l' :
  (∀ v, cf_device_handle (g v) = cf_device_handle v ∧ cf_function (g v) = cf_function v) →
  (h, f) ≠ (h', f') → update_call h f g l = Some l' → failures_of h' f' l' = failures_of h' f' l.
Proof.
  intros Hg Hne. unfold failures_of. revert l'. induction l as [|v l IH]; intros l'; simpl; [done|].
  destruct (is_call h f v) eqn:E.
  - intros [= <-]. simpl. rewrite (is_call_same h' f' v g Hg).
    destruct (is_call h' f' v) eqn:E'; [|done].
    exfalso. apply Hne. destruct (is_call_key _ _ _ _ _ E E') as [-> ->]. done.
  - destruct (update_call h f g l) as [l1|]; simpl; [|done]. intros [= <-]. simpl.
    destruct (is_call h' f' v); [done|]. by apply IH.
Qed.

Lemma update_call_self h f g l :
  (∀ v, cf_device_handle (g v) = cf_device_handle v ∧ cf_function (g v) = cf_function v) →
  match update_call h f g l with
  | Some l' => ∃ v, find (is_call h f) l = Some v ∧ failures_of h f l' = cf_consecutive_failures (g v)
  | None => find (is_call h f) l = None
  end.
Proof.
  intros Hg. unfold failures_of. induction l as [|v l IH]; simpl; [done|].
  destruct (is_call h f v) eqn:E; simpl.
  - exists v. by rewrite (is_call_same h f v g Hg), E.
  - destruct (update_call h f g l) as [l1|]; simpl; [|done]. by rewrite E.
Qed.

Lemma find_snoc {A} (p : A → bool) l x : find p (l ++ [x]) = match find p l with Some y => Some y | None => find p [x] end.
Proof. induction l as [|y l IH]; simpl; [done|]. by destruct (p y). Qed.

(** The calls of one run, each counted. *)
Definition count_call (b : BTRuntime) (c : CallResult) : BTRuntime :=
  (record_call_result (cr_handle c) (cr_function c) (cr_success c) (cr_error c) (cr_now c) b).2.

(** How often the call [(h, f)] has failed since it last succeeded. *)
Definition failures_in_a_row (h f : string) (calls : list CallResult) : Z :=
  foldl (λ n c, if bool_decide (cr_handle c = h) && bool_decide (cr_function c = f)
                then if cr_success c then 0 else n + 1 else n) 0 calls.

Lemma failures_in_a_row_bounds h f calls : 0 ≤ failures_in_a_row h f calls ≤ Z.of_nat (length calls).
Proof.
  induction calls as [|c calls IH] using rev_ind; [done|].
  unfold failures_in_a_row in *. rewrite foldl_app, length_app. simpl. destruct (_ && _), (cr_success c); lia.
Qed.

Lemma record_call_failures h f success error now b :
  rn_call_failures (bt_run (record_call_result h f success error now b).2) =
  if success then default (rn_call_failures (bt_run b)) (update_call h f clear_failures (rn_call_failures (bt_run b)))
  else match update_call h f (add_failure error now) (rn_call_failures (bt_run b)) with
       | Some l' => l'
       | None => rn_call_failures (bt_run b) ++ [add_failure error now (mkCallFailure h f 0 "" 0)]
       end.
Proof. unfold record_call_result. destruct success; [done|]. by destruct (bt_emitter b). Qed.

(** One call moves exactly its own count. *)
Lemma record_call_count h f success error now h' f' b :
  failures_of h' f' (rn_call_failures (bt_run (record_call_result h f success error now b).2)) =
  if bool_decide (h = h') && bool_decide (f = f')
  then if success then 0 else to_uint64 (failures_of h' f' (rn_call_failures (bt_run b)) + 1)
  else failures_of h' f' (rn_call_failures (bt_run b)).
Proof.
  rewrite record_call_failures. set (l := rn_call_failures (bt_run b)).
  destruct (decide ((h, f) = (h', f'))) as [[= -> ->]|Hne].
  - rewrite !bool_decide_true by done. simpl. destruct success.
    + pose proof (update_call_self h' f' clear_failures l (λ v, conj eq_refl eq_refl)) as Hu.
      destruct (update_call _ _ _ _) as [l'|]; simpl; [by destruct Hu as (v & _ & ->)|].
      unfold failures_of. by rewrite Hu.
    + pose proof (update_call_self h' f' (add_failure error now) l (λ v, conj eq_refl eq_refl)) as Hu.
      destruct (update_call _ _ _ _) as [l'|]; simpl.
      * destruct Hu as (v & Hv & ->). unfold failures_of. by rewrite Hv.
      * unfold failures_of. rewrite find_snoc, Hu. simpl. unfold is_call. simpl. by rewrite !bool_decide_true.
  - replace (bool_decide (h = h') && bool_decide (f = f')) with false; [|by repeat case_bool_decide; subst].
    destruct success; (destruct (update_call _ _ _ _) as [l'|] eqn:E; simpl; [|try done]);
      try (eapply update_call_other; [|exact Hne|exact E]; by intros v).
    unfold failures_of. rewrite find_snoc. destruct (find _ l); [done|]. simpl. unfold is_call. simpl.
    by repeat case_bool_decide; subst.
Qed.

Lemma counted_calls h f calls b :
  rn_call_failures (bt_run b) = [] → Z.of_nat (length calls) < 2 ^ 64 →
  failures_of h f (rn_call_failures (bt_run (foldl count_call b calls))) = failures_in_a_row h f calls.
Proof.
  intros Hb. induction calls as [|c calls IH] using rev_ind; [by simpl; rewrite Hb|].
  rewrite length_app. simpl. intros Hlen. unfold failures_in_a_row. rewrite !foldl_app. cbn [foldl].
  unfold count_call at 1. rewrite record_call_count, IH by lia. fold (failures_in_a_row h f calls).
  destruct (_ && _); [|done]. destruct (cr_success c); [done|]. apply to_uint64_id.
  pose proof (failures_in_a_row_bounds h f calls). unfold in_uint64, uint64_max. lia.
Qed.

Lemma count_call_limit calls b :
  bt_max_call_failures (foldl count_call b calls) = bt_max_call_failures b.
Proof.
  induction calls as [|c calls IH] using rev_ind; [done|]. rewrite foldl_app. cbn [foldl]. rewrite <- IH.
  unfold count_call, record_call_result. destruct (cr_success c); [done|]. by destruct (bt_emitter _).
Qed.

(** In a run, a device call that fails is a fault exactly when it has now
    failed [max_consecutive_call_failures] times since it last succeeded, whatever
    other calls did in between; a call that succeeds never is one. *)
Theorem call_fault_at_limit calls c b :
  rn_call_failures (bt_run b) = [] → 1 ≤ bt_max_call_failures b < 2 ^ 31 → Z.of_nat (length calls) < 2 ^ 64 - 1 →
  let b' := foldl count_call b calls in
  let fault := (record_call_result (cr_handle c) (cr_function c) (cr_success c) (cr_error c) (cr_now c) b').1.1 in
  fault ≠ "" ↔
  cr_success c = false ∧ bt_max_call_failures b ≤ failures_in_a_row (cr_handle c) (cr_function c) calls + 1.
Proof.
  intros Hb Hmax Hlen b' fault.
  assert (fault = if cr_success c then ""
    else if failures_of (cr_handle c) (cr_function c) (rn_call_failures (bt_run (count_call b' c))) <? bt_max_call_failures b
    then "" else fault_reason (cr_handle c) (cr_function c) (cr_error c)
                   (failures_of (cr_handle c) (cr_function c) (rn_call_failures (bt_run (count_call b' c))))) as ->.
  { unfold fault, count_call. rewrite record_call_failures. unfold record_call_result.
    destruct (cr_success c); [done|]. subst b'. rewrite count_call_limit.
    rewrite (to_uint64_id (bt_max_call_failures b)) by (unfold in_uint64, uint64_max; lia).
    by destruct (bt_emitter _). }
  unfold count_call. rewrite record_call_count, !bool_decide_true by done. cbn [andb].
  unfold b'. rewrite counted_calls by (done || lia).
  destruct (cr_success c); [split; [done|by intros [? _]]|].
  pose proof (failures_in_a_row_bounds (cr_handle c) (cr_function c) calls).
  rewrite to_uint64_id by (unfold in_uint64, uint64_max; lia).
  destruct (Z.ltb_spec (failures_in_a_row (cr_handle c) (cr_function c) calls + 1) (bt_max_call_failures b)).
  - split; [done|]. intros [_ ?]. lia.
  - split; [done|]. by intros _.
Qed.

Lemma call_fault_at_limit_witness :
  let fails h := mkCallResult h "set" false "timeout" 0 in
  let calls := [fails "a/b"; mkCallResult "a/b" "set" true "" 0; fails "a/b"; fails "x/y"; fails "a/b"] in
  (record_call_result "a/b" "set" false "timeout" 0 (foldl count_call bt_runtime0 calls)).1.1 ≠ "".
Proof.
  intros fails calls. apply (call_fault_at_limit calls (fails "a/b") bt_runtime0); [done|split; by vm_compute|by vm_compute|].
  split; [done|]. by vm_compute.
Defined.

(** ** Runs

    An abstract run is the ends of its ticks, newest first, each with whether the
    engine then stopped on terminal results. *)

Definition Run := list (TickEnd * bool).

Definition terminal (e : TickEnd) : bool :=
  match e with TickReturns SUCCESS | TickReturns FAILURE => true | _ => false end.

Definition ended (run : Run) : bool := existsb (λ o, terminal o.1 && o.2) run.
Definition threw (o : TickEnd * bool) : bool := match o.1 with TickThrows _ => true | _ => false end.
Fixpoint throws (run : Run) : nat :=
  match run with [] => 0 | o :: rest => (if threw o then 1 else 0) + throws rest end.

Definition last_status (run : Run) : NodeStatus :=
  match run with [] => BtNodes.IDLE | (TickReturns s, _) :: _ => s | (TickThrows _, _) :: _ => FAILURE end.

(** Ticks that returned FAILURE since the last that made progress. *)
Fixpoint stalls (run : Run) : nat :=
  match run with
  | [] => 0
  | (TickReturns (SUCCESS | RUNNING), _) :: _ => 0
  | (TickReturns FAILURE, _) :: rest => S (stalls rest)
  | _ :: rest => stalls rest
  end.

Fixpoint newest_error (run : Run) : string :=
  match run with [] => "" | (TickThrows what, _) :: _ => what | _ :: rest => newest_error rest end.

(** What the status of a run should say. *)
Definition report (live auto : bool) (run : Run) : AutomationStatus :=
  if negb live then Idle
  else if existsb threw run && bool_decide (last_status run = FAILURE) then Failed
  else if negb auto then Idle
  else match run with
       | (TickReturns SUCCESS, true) :: _ => Completed
       | (TickReturns FAILURE, true) :: _ => Failed
       | _ => if 10 <? Z.of_nat (stalls run) then Blocked else Running
       end.

Record run_rel (r : RunStatus) (run : Run) : Prop := {
  rr_last : rn_last_tick_status r = last_status run;
  rr_ended : rn_run_ended r = ended run;
  rr_errors : rn_error_count r = to_uint64 (Z.of_nat (throws run));
  rr_stalls : rn_ticks_since_progress r = to_uint64 (Z.of_nat (stalls run));
  rr_error : rn_last_error r = newest_error run;
  (** No tick follows the end of a run. *)
  rr_final : ended (tail run) = false;
}.

Lemma run_rel_start : run_rel run_status0 [].
Proof. by constructor. Qed.

Lemma to_uint64_succ n : to_uint64 (to_uint64 n + 1) = to_uint64 (n + 1).
Proof. unfold to_uint64. apply Zplus_mod_idemp_l. Qed.

Lemma note_status_rel r run s stop :
  run_rel r run → ended run = false → run_rel (note_status s stop r) ((TickReturns s, stop) :: run).
Proof.
  intros [Hl He Hc Hs Hx Hf] Hend. constructor; simpl; try done.
  - rewrite He, Hend, orb_false_r. by destruct s, stop.
  - rewrite Hs. destruct s; simpl; try done. rewrite to_uint64_succ. f_equal. lia.
Qed.

Lemma note_exception_rel r run what stop :
  run_rel r run → ended run = false → run_rel (note_exception what r) ((TickThrows what, stop) :: run).
Proof.
  intros [Hl He Hc Hs Hx Hf] Hend. constructor; simpl; try done.
  rewrite Hc, to_uint64_succ. f_equal. lia.
Qed.

(** What a call leaves alone. *)
Record same_but_calls (b b' : BTRuntime) : Prop := {
  sb_def : bt_def b' = bt_def b;
  sb_running : bt_running b' = bt_running b;
  sb_stop : bt_stop_on_terminal b' = bt_stop_on_terminal b;
  sb_emitter : bt_emitter b' = bt_emitter b;
  sb_sink : bt_fault_sink b' = bt_fault_sink b;
  sb_run : ∃ l, bt_run b' = set_call_failures l (bt_run b);
}.

Lemma set_call_failures_self r : r = set_call_failures (rn_call_failures r) r.
Proof. by destruct r. Qed.

#[global] Instance same_but_calls_preorder : PreOrder same_but_calls.
Proof.
  split.
  - intros b. constructor; try done. eexists. apply set_call_failures_self.
  - intros a b c [] []. destruct sb_run0 as [l ?], sb_run1 as [l' ?].
    constructor; try congruence. exists l'. by etrans; [|by f_equal]; rewrite ?H; rewrite H0, H.
Qed.

Lemma record_call_same h f success error now b : same_but_calls b (record_call_result h f success error now b).2.
Proof.
  unfold record_call_result. destruct success; [by constructor; eauto|].
  destruct (bt_emitter b) eqn:E; constructor; simpl; eauto.
Qed.

Lemma run_calls_same calls b : same_but_calls b (run_calls calls b).2.
Proof.
  revert b. induction calls as [|c calls IH]; intros b; simpl; [reflexivity|].
  pose proof (record_call_same (cr_handle c) (cr_function c) (cr_success c) (cr_error c) (cr_now c) b) as Hc.
  destruct (record_call_result _ _ _ _ _ _) as [[fault effects] b']. simpl in Hc.
  destruct (bool_decide _); [|done]. specialize (IH b').
  destruct (run_calls calls b') as [[thrown effects'] b'']. simpl in *. by etrans.
Qed.

Lemma tick_same tree b : same_but_calls b (tick tree b).2.
Proof.
  unfold tick. destruct (negb _); [reflexivity|]. pose proof (run_calls_same (tr_calls tree) b) as Hr.
  by destruct (run_calls _ _) as [[[fault|] effects] b'].
Qed.

Lemma run_rel_calls r run l : run_rel r run → run_rel (set_call_failures l r) run.
Proof. by intros []. Qed.

(** ** The engine over time *)

Section Trace.
Context {W : Type} (cbs : Callbacks W) (evp_digest : string → option (list Z)).

(** What happens to an engine: its loop iterates, an operator requests a mode,
    someone loads a definition, starts, stops or configures it. *)
Inductive Op :=
| Iterate (tree : TreeRun) (now : Z) (others later : MM W → MM W)
| RequestMode (mode : RuntimeMode)
| Load (read parse stage : option string) (path : string)
| Start (tick_rate_hz : Z)
| Stop
| StopOnTerminal (stop : bool)
| MaxCallFailures (limit : Z).

Definition tick_entry (stop : bool) (it : Iteration) : Run :=
  match it_tick it with Some e => [(e, stop)] | None => [] end.

(** The state with the current run.  A stopped loop does not iterate; a started
    one is a new thread. *)
Definition step (s : Loop W * Run) (op : Op) : Loop W * Run :=
  let '(l, run) := s in
  let b := lp_engine l in
  match op with
  | Iterate tree now others later =>
      if bt_running b then
        let '(it, l') := iteration cbs tree now others later l in
        (l', tick_entry (bt_stop_on_terminal b) it ++ (if it_new_run it then [] else run))
      else (l, run)
  | RequestMode mode => (mkLoop b (lp_was_auto l) (snd (set_mode cbs mode (lp_mode l))), run)
  | Load read parse stage path =>
      let '(outcome, b') := load evp_digest read parse stage path b in
      (mkLoop b' (lp_was_auto l) (lp_mode l), if lo_ok outcome then [] else run)
  | Start hz =>
      let '(started, b') := start_at hz b in
      (mkLoop b' (if started then false else lp_was_auto l) (lp_mode l), run)
  | Stop => (mkLoop (stop_impl b) (lp_was_auto l) (lp_mode l), run)
  | StopOnTerminal stop => (mkLoop (set_stop_on_terminal stop b) (lp_was_auto l) (lp_mode l), run)
  | MaxCallFailures limit => (mkLoop (set_max_consecutive_call_failures limit b) (lp_was_auto l) (lp_mode l), run)
  end.

Definition created (m : MM W) : Loop W * Run := (mkLoop bt_runtime0 false m, []).

(** The run in the engine is the abstract one, and the active definition is
    described truthfully. *)
Definition def_ok (b : BTRuntime) : Prop :=
  df_loaded (bt_def b) = true →
  df_version (bt_def b) =
    mkVersion "behavior_tree" (file_basename (df_path (bt_def b))) (sha256_hex evp_digest (df_bytes (bt_def b)))
      "top_level_file".

Definition trace_inv (s : Loop W * Run) : Prop :=
  run_rel (bt_run (lp_engine s.1)) s.2 ∧ def_ok (lp_engine s.1) ∧
  (bt_running (lp_engine s.1) = true → df_loaded (bt_def (lp_engine s.1)) = true).

(** What an iteration does to the run and to the definition. *)
Lemma iteration_spec tree now others later l run :
  run_rel (bt_run (lp_engine l)) run →
  let '(it, l') := iteration cbs tree now others later l in
  run_rel (bt_run (lp_engine l'))
    (tick_entry (bt_stop_on_terminal (lp_engine l)) it ++ (if it_new_run it then [] else run)) ∧
  bt_def (lp_engine l') = bt_def (lp_engine l) ∧ bt_running (lp_engine l') = bt_running (lp_engine l).
Proof.
  intros Hrel. unfold iteration. destruct (negb (bool_decide _)); [done|].
  set (b := if negb (lp_was_auto l) then with_run run_status0 (lp_engine l) else lp_engine l).
  set (r0 := if negb (lp_was_auto l) then [] else run).
  assert (run_rel (bt_run b) r0 ∧ bt_def b = bt_def (lp_engine l) ∧ bt_running b = bt_running (lp_engine l) ∧
          bt_stop_on_terminal b = bt_stop_on_terminal (lp_engine l)) as (Hb & Hd & Hr & Hst).
  { subst b r0. destruct (negb _); [|done]. split; [apply run_rel_start|done]. }
  pose proof (tick_same tree b) as Ht.
  destruct (rn_run_ended (bt_run b)) eqn:Hend; [done|]. rewrite (rr_ended _ _ Hb) in Hend.
  destruct (tick tree b) as [[e effects] b1]. simpl in Ht. destruct Ht as [Sd Sr Ss Se Sk [calls Sc]].
  apply (run_rel_calls _ _ calls) in Hb. rewrite <- Sc in Hb.
  destruct e as [st|what].
  - simpl. split_and!; [|congruence..]. unfold tick_entry. simpl. rewrite <- Hst, <- Ss. by apply note_status_rel.
  - assert (bt_run (emit_fault what now (with_run (note_exception what (bt_run b1)) b1)).2 = note_exception what (bt_run b1) ∧
            bt_def (emit_fault what now (with_run (note_exception what (bt_run b1)) b1)).2 = bt_def b1 ∧
            bt_running (emit_fault what now (with_run (note_exception what (bt_run b1)) b1)).2 = bt_running b1) as (F1 & F2 & F3)
      by (unfold emit_fault; cbn; by destruct (bt_emitter b1)).
    destruct (emit_fault _ _ _) as [events b2]. simpl in *. rewrite F1, F2, F3. split_and!; [|congruence..].
    unfold tick_entry. simpl. rewrite <- Hst, <- Ss. by apply note_exception_rel.
Qed.

Lemma engine_step_inv s op : trace_inv s → trace_inv (step s op).
Proof.
  intros Hs. pose proof Hs as (Hrel & Hdef & Hrun). destruct s as [l run]. simpl in Hrel, Hdef, Hrun.
  destruct op as [tree now others later|mode|read parse stage path|hz| |stop|limit]; simpl; try done.
  - destruct (bt_running (lp_engine l)) eqn:Hr; [|done].
    pose proof (iteration_spec tree now others later l run Hrel) as Hi.
    destruct (iteration _ _ _ _ _ _) as [it l']. destruct Hi as (H1 & H2 & H3).
    split_and!; simpl; [done|unfold def_ok; by rewrite H2|rewrite H2; auto].
  - unfold load. destruct read as [bytes|]; [|by destruct l]. destruct parse; [by destruct l|].
    destruct stage; [by destruct l|]. split_and!; simpl; [apply run_rel_start|done|done].
  - unfold start_at. destruct (bt_running _) eqn:Hr; [by destruct l|].
    destruct (df_loaded _) eqn:Hl; simpl; [|by destruct l].
    destruct (_ || _); [by destruct l|]. by split_and!.
  - unfold stop_impl. destruct (bt_running _) eqn:Hr; [|by destruct l]. by split_and!.
Qed.

Lemma trace_reaches ops m : trace_inv (foldl step (created m) ops).
Proof.
  induction ops as [|op ops IH] using rev_ind; [split_and!; [apply run_rel_start|done|done]|].
  rewrite foldl_app. by apply engine_step_inv.
Qed.

Lemma throws_length run : (throws run ≤ length run)%nat.
Proof. induction run as [|o run IH]; simpl; [done|]. destruct (threw o); lia. Qed.

Lemma stalls_length run : (stalls run ≤ length run)%nat.
Proof. induction run as [|[[[]|] ?] run IH]; simpl; lia. Qed.

Lemma throws_pos run : 0 < Z.of_nat (throws run) ↔ existsb threw run = true.
Proof. induction run as [|o run IH]; simpl; [done|]. destruct (threw o); simpl; [split; [done|lia]|exact IH]. Qed.

(** The status the engine computes is the report on its abstract run. *)
Lemma status_rel mode b run :
  run_rel (bt_run b) run → Z.of_nat (length run) < 2 ^ 64 →
  sv_status (status mode b) = report (df_loaded (bt_def b) && bt_running b) (bool_decide (mode = AUTO)) run.
Proof.
  intros [Hl He Hc Hs Hx Hf] Hlen. pose proof (throws_length run). pose proof (stalls_length run).
  unfold status, report. simpl. rewrite Hl, He, Hc, Hs, !to_uint64_id by (unfold in_uint64, uint64_max; lia).
  assert ((0 <? Z.of_nat (throws run)) = existsb threw run) as ->.
  { apply eq_true_iff_eq. by rewrite Z.ltb_lt, throws_pos. }
  destruct (df_loaded (bt_def b) && bt_running b); simpl; [|done].
  destruct (existsb threw run && bool_decide (last_status run = FAILURE)) eqn:Hfail; [done|].
  destruct (bool_decide (mode = AUTO)); simpl; [|done].
  destruct run as [|[[[]|what] stop] run]; simpl in *; rewrite ?Hf, ?orb_false_r; try done; try by destruct stop.
Qed.

(** Whatever operators, loads and the loop do to an engine, in any order, the
    status it shows is the one its current run has earned, and no tick follows the
    end of a run: not loaded or not running is idle; a run with an exception whose
    last tick failed is failed, in every mode; outside AUTO a run is idle;
    a terminal result under [on_terminal: stop] is completed or failed; more than
    ten FAILURE ticks since the last progress is blocked; else it runs. *)
Theorem status_reports_the_run m ops :
  let '(l, run) := foldl step (created m) ops in
  Z.of_nat (length run) < 2 ^ 64 →
  sv_status (status (current_mode_ (lp_mode l)) (lp_engine l)) =
    report (df_loaded (bt_def (lp_engine l)) && bt_running (lp_engine l))
      (bool_decide (current_mode_ (lp_mode l) = AUTO)) run ∧
  sv_last_error (status (current_mode_ (lp_mode l)) (lp_engine l)) = newest_error run ∧
  ended (tail run) = false.
Proof.
  pose proof (trace_reaches ops m) as (Hrel & _). destruct (foldl _ _ _) as [l run]. simpl in *. intros Hlen.
  split_and!; [by apply status_rel|by destruct Hrel|by destruct Hrel].
Qed.

(** The bytes and path of the newest load that succeeded. *)
Definition loaded_by (op : Op) (last : option (string * string)) : option (string * string) :=
  match op with Load (Some bytes) None None path => Some (bytes, path) | _ => last end.
Definition last_loaded (ops : list Op) : option (string * string) := foldl (λ last op, loaded_by op last) None ops.

Definition def_of (loaded : option (string * string)) : Definition_ :=
  match loaded with
  | None => mkDefinition false "" "" version0
  | Some (bytes, path) =>
      mkDefinition true path bytes
        (mkVersion "behavior_tree" (file_basename path) (sha256_hex evp_digest bytes) "top_level_file")
  end.

Lemma step_def s op last :
  trace_inv s → bt_def (lp_engine s.1) = def_of last → bt_def (lp_engine (step s op).1) = def_of (loaded_by op last).
Proof.
  destruct s as [l run]. intros (Hrel & _) Hd. simpl in *.
  destruct op as [tree now others later|mode|read parse stage path|hz| |stop|limit]; simpl; try done.
  - destruct (bt_running _); [|done]. pose proof (iteration_spec tree now others later l run Hrel) as Hi.
    destruct (iteration _ _ _ _ _ _) as [it l']. destruct Hi as (_ & H2 & _). simpl. by rewrite H2.
  - unfold load. by destruct read as [bytes|], parse, stage.
  - unfold start_at. destruct (bt_running _); [done|]. destruct (negb _); [done|]. by destruct (_ || _).
  - unfold stop_impl. by destruct (bt_running _).
Qed.

Lemma trace_def ops m : bt_def (lp_engine (foldl step (created m) ops).1) = def_of (last_loaded ops).
Proof.
  induction ops as [|op ops IH] using rev_ind; [done|].
  unfold last_loaded. rewrite !foldl_app. apply step_def; [apply trace_reaches|exact IH].
Qed.

(** The definition an engine reports is the newest one that loaded, byte for
    byte, with the digest of those bytes and the version built from them: a load
    that cannot read, parse or stage its file changes nothing, and neither does
    running, starting, stopping or configuring. *)
Theorem definition_is_last_loaded m ops :
  let b := lp_engine (foldl step (created m) ops).1 in
  definition b = (λ p : string * string, mkArtifact "application/xml" (sha256_hex evp_digest p.1) p.1) <$> last_loaded ops ∧
  sv_version (status AUTO b) = df_version (def_of (last_loaded ops)) ∧
  get_tree_path b = default "" (snd <$> last_loaded ops).
Proof.
  cbn zeta. unfold definition, get_tree_path, status. cbn [sv_version]. rewrite trace_def.
  by destruct (last_loaded ops) as [[bytes path]|].
Qed.

(** The loop ticks a tree only in AUTO, and only if the iteration starts a new
    run or nothing has ended the current one; an iteration that does not tick makes
    no call and reports nothing. *)
Theorem loop_ticks_live_runs_only m ops tree now others later :
  let '(l, run) := foldl step (created m) ops in
  let '(it, l') := iteration cbs tree now others later l in
  (is_Some (it_tick it) →
     current_mode_ (lp_mode l) = AUTO ∧ it_new_run it = negb (lp_was_auto l) ∧
     (lp_was_auto l = false ∨ ended run = false)) ∧
  (it_tick it = None → it_effects it = [] ∧ lp_mode l' = lp_mode l).
Proof.
  pose proof (trace_reaches ops m) as (Hrel & _). destruct (foldl _ _ _) as [l run]. simpl in *.
  unfold iteration. destruct (bool_decide_reflect (current_mode (lp_mode l) = AUTO)) as [Hm|]; simpl;
    [|by split; [intros [? ?]|]].
  destruct (rn_run_ended _) eqn:Hend; simpl; [by split; [intros [? ?]|]|].
  destruct (tick _ _) as [[[]] b1]; [|destruct (emit_fault _ _ _) as [events b2]]; simpl; (split; [|done]);
    intros _; (split_and!; [done|done|]); destruct (lp_was_auto l); [|by left| |by left]; right; simpl in Hend;
    by rewrite <- (rr_ended _ _ Hrel).
Qed.

(** From FAULT no request gives AUTO. *)
Lemma no_direct_AUTO mode m :
  before_keeps_mode (before_callbacks_ cbs) → after_keeps_mode (callbacks_ cbs) → current_mode_ m = FAULT →
  current_mode_ (set_mode cbs mode m).2 ≠ AUTO.
Proof.
  intros Hb Ha Hm. destruct (decide (mode = AUTO)) as [->|Hne].
  - unfold set_mode. rewrite Hm. simpl. by rewrite Hm.
  - pose proof (set_mode_kept cbs mode m Hb Ha) as Hs. destruct (set_mode cbs mode m) as [r m'].
    destruct Hs as [[Hk _]|(_ & Hk & _)]; simpl; rewrite Hk; [by rewrite Hm|done].
Qed.

(** C14. A tick that throws takes the runtime out of AUTO: its request for FAULT
    leaves the mode FAULT, whatever other threads did during the tick and whatever
    the before-callbacks say, and no single mode request after it gives AUTO; the
    event and the fault sink get the exception's text; the engine shows a failed
    run with that text in every mode.  Unless other threads have brought AUTO back
    by the time the loop reads the mode, which it then reports, the loop ticks
    nothing until AUTO is entered again, and that starts a new run.  The callbacks
    are ones that leave the mode to its transition, as the registered ones do. *)
Theorem throwing_tick_faults tree now others later l it l' what :
  before_keeps_mode (before_callbacks_ cbs) → after_keeps_mode (callbacks_ cbs) →
  0 ≤ rn_error_count (bt_run (lp_engine l)) < uint64_max →
  iteration cbs tree now others later l = (it, l') → it_tick it = Some (TickThrows what) →
  (∃ m, m = (set_mode cbs FAULT (others (lp_mode l))).2 ∧ current_mode_ m = FAULT ∧ lp_mode l' = later m ∧
        ∀ mode, current_mode_ (set_mode cbs mode m).2 ≠ AUTO) ∧
  (if bool_decide (current_mode_ (lp_mode l') = AUTO) then it_report it = Some StillInAuto
   else lp_was_auto l' = false ∧
        ∀ tree' now' others' later', (iteration cbs tree' now' others' later' l').1 = mkIteration false None [] None) ∧
  (bt_emitter (lp_engine l) = true → ∃ id, FaultEvent id "tick" what now ∈ it_effects it) ∧
  (bt_fault_sink (lp_engine l) = true → FaultSink "tick" what now ∈ it_effects it) ∧
  (df_loaded (bt_def (lp_engine l')) = true → bt_running (lp_engine l') = true →
   ∀ mode, sv_status (status mode (lp_engine l')) = Failed ∧ sv_last_error (status mode (lp_engine l')) = what).
Proof.
  intros Hbf Ha Herr. unfold iteration. destruct (negb (bool_decide _)); [by intros [= <- _]|].
  set (b := if negb (lp_was_auto l) then with_run run_status0 (lp_engine l) else lp_engine l).
  assert (bt_emitter b = bt_emitter (lp_engine l) ∧ bt_fault_sink b = bt_fault_sink (lp_engine l) ∧
          0 ≤ rn_error_count (bt_run b) < uint64_max) as (He & Hs & Hc) by (subst b; by destruct (negb _)).
  destruct (rn_run_ended _); [by intros [= <- _]|].
  pose proof (tick_same tree b) as Ht. destruct (tick tree b) as [[e effects] b1]. simpl in Ht.
  destruct Ht as [Sd Sr Ss Se Sk [calls Sc]]. destruct e as [st|what']; [by intros [= <- _]|].
  set (b2 := with_run (note_exception what' (bt_run b1)) b1).
  destruct (emit_fault what' now b2) as [events b3] eqn:Ef.
  destruct (set_mode_FAULT cbs (others (lp_mode l)) Ha) as (m2 & -> & Hm2). simpl.
  intros [= <- <-] [= ->]. cbn [lp_mode lp_was_auto lp_engine it_effects it_report].
  assert (bt_run b3 = note_exception what (bt_run b1) ∧
    events = (if bt_emitter b1 then [FaultEvent (bt_next_event_id b1) "tick" what now] else []) ++
             (if bt_fault_sink b1 then [FaultSink "tick" what now] else [])) as [Hb3 Hev].
  { revert Ef. unfold emit_fault, b2. simpl. by destruct (bt_emitter b1); intros [= <- <-]. }
  unfold current_mode. split_and!.
  - exists m2. split_and!; [done..|]. intros mode. by apply no_direct_AUTO.
  - case_bool_decide as El; [done|]. split; [done|]. intros. unfold iteration, current_mode. simpl.
    by repeat case_bool_decide.
  - intros Hem. exists (bt_next_event_id b1). rewrite Hev, Se, He, Hem. set_solver.
  - intros Hsk. rewrite Hev, Sk, Hs, Hsk. set_solver.
  - intros Hl Hr mode. unfold status. simpl. rewrite Hl, Hr, Hb3, Sc. simpl.
    rewrite to_uint64_id by (unfold in_uint64; lia). by rewrite (proj2 (Z.ltb_lt 0 _)) by lia.
Qed.
End Trace.

Section Witnesses.

(** A tree whose only call always fails, with a limit of two, in AUTO. *)
Definition failing_tree : TreeRun :=
  mkTreeRun [mkCallResult "sim/pump" "set" false "timeout" 5] (TickReturns RUNNING).
Definition sample_ops : list (Op (W := unit)) :=
  [MaxCallFailures 2; Load (Some "<root/>") None None "/etc/trees/demo.xml"; Start 10; RequestMode AUTO;
   Iterate failing_tree 100 id id].

Definition sample_callbacks : Callbacks unit := mkCallbacks [] [] [].

Lemma status_reports_the_run_witness :
  let '(l, run) := foldl (step sample_callbacks (λ _, Some [222; 173])) (created (mkMM MANUAL tt))
    (sample_ops ++ [Iterate failing_tree 200 id id; RequestMode MANUAL]) in
  sv_status (status (current_mode_ (lp_mode l)) (lp_engine l)) = Failed.
Proof.
  pose proof (status_reports_the_run sample_callbacks (λ _, Some [222; 173]) (mkMM MANUAL tt)
    (sample_ops ++ [Iterate failing_tree 200 id id; RequestMode MANUAL])) as H.
  let v := eval vm_compute in (foldl (step sample_callbacks (λ _, Some [222; 173])) (created (mkMM MANUAL tt))
    (sample_ops ++ [Iterate failing_tree 200 id id; RequestMode MANUAL])) in
  assert (foldl (step sample_callbacks (λ _, Some [222; 173])) (created (mkMM MANUAL tt))
    (sample_ops ++ [Iterate failing_tree 200 id id; RequestMode MANUAL]) = v) as E by (vm_compute; reflexivity).
  rewrite E in H |- *. destruct H as (-> & _ & _); by vm_compute.
Defined.

(** An operator resets the fault at once. *)
Definition reset_fault (m : MM unit) : MM unit := (set_mode sample_callbacks MANUAL m).2.

Lemma throwing_tick_faults_witness :
  let s := foldl (step sample_callbacks (λ _, Some [222; 173])) (created (mkMM MANUAL tt)) sample_ops in
  let l' := (iteration sample_callbacks failing_tree 200 id reset_fault s.1).2 in
  current_mode_ (lp_mode l') = MANUAL ∧ lp_was_auto l' = false ∧ sv_status (status AUTO (lp_engine l')) = Failed.
Proof.
  intros s l'.
  destruct (throwing_tick_faults sample_callbacks (λ _, None) failing_tree 200 id reset_fault s.1
    (iteration sample_callbacks failing_tree 200 id reset_fault s.1).1 l'
    "automation call sim/pump set failed 2 times in a row; last error: timeout")
    as (_ & Hauto & _ & _ & Hst);
    [by constructor|by constructor|split; by vm_compute|apply surjective_pairing|by vm_compute|].
  assert (current_mode_ (lp_mode l') = MANUAL) as Hm by (vm_compute; reflexivity).
  rewrite Hm in Hauto. split; [exact Hm|]. split; [exact (proj1 Hauto)|]. apply Hst; vm_compute; reflexivity.
Defined.
End Witnesses.
