(* ===== verification/CallRouter.v ===== *)
(** * The call router ([core/control/call_router.cpp])

    The whole of [execute_call]: mode gating, lookup, the e-stop and device-loss
    latches, coercion and validation, the re-checks under the provider lock, the
    minimum interval, the dispatch, and the post-call poll.  The latches are
    reached through the interfaces the code declares.  Other threads run between
    the checks: each check reads the environment of its own checkpoint, and
    nothing relates one checkpoint's environment to the next unless a theorem
    says so.  Log lines other than the call record are left out. *)

From S2P Require Import Prelude Protocol Interfaces ModeManager Registry Parameters StateCache.
From S2P Require Import DeviceLossLatch ArgCheck.

(** ** Providers *)

(** A provider's answer to [Call]. *)
Inductive CallOutcome :=
| CallOk (results : gmap string Value)
| CallFail (last_error : string) (last_status_code : StatusCode).

(** [IProviderHandle], as the router uses it. *)
Record ProviderHandle := mkProviderHandle {
  p_poll : PollHandle;
  p_call : string → Z → string → gmap string Value → CallOutcome;
}.

(** [Status_Code_Name], generated with the protocol. *)
Class StatusNames := status_code_name : StatusCode → string.

(** [struct CallResult]. *)
Record CallResult := mkCallResult {
  cr_success : bool;
  cr_error_message : string;
  cr_results : gmap string Value;
  cr_status_code : StatusCode;
  cr_dispatched : bool;
}.

(** What was sent to a provider, and when (steady clock, ns). *)
Record Dispatch := mkDispatch {
  d_provider_id : string;
  d_device_id : string;
  d_handle : string;
  d_spec : FunctionSpec;
  d_function_name : string;
  d_args : gmap string Value;
  d_safe_state : bool;
  d_time : Z;
}.

(** The router's own state; [call_log] is the call records it logged. *)
Record CallRouter := mkRouter {
  last_dispatch_ : gmap string Z;
  last_tree_record_ : gmap string string;
  call_log : list string;
}.

Definition new_router : CallRouter := mkRouter ∅ ∅ [].

(** Where [execute_call] reads state other threads may change. *)
Inductive Checkpoint :=
| AtIdle | AtContention | AtProvider | AtDevice | AtModes | AtLatch | AtLoss
| AtLockedLatch | AtLockedLoss | AtRefresh.

Definition quote : string := String "034"%char "".

Section Router.
Context {L D : Type} `{IActuationLatch L} `{IDeviceLossLatch D} `{FloatText} `{StatusNames}.

(** What the router is attached to, at one moment. *)
Record Env := mkEnv {
  env_mode : option RuntimeMode;            (* [None]: no mode manager *)
  env_policy : string;                      (* [manual_gating_policy_] *)
  env_latch : option L;
  env_loss : option D;
  env_registry : DeviceRegistry;
  env_providers : gmap string ProviderHandle;
}.

(** ** Logging a call *)

Definition call_source (request : CallRequest) : string :=
  if rq_safe_state request then "safe-state"
  else if rq_is_behavior_tree request then "behavior tree"
  else if rq_is_automated request then "hook"
  else "HTTP".

Definition format_value (value : Value) : string :=
  match v_kind value with
  | KBool b => if b then "true" else "false"
  | KInt64 z => to_string z
  | KUint64 z => to_string z
  | KDouble d => format_double d
  | KString s => quote +:+ s +:+ quote
  | KBytes s => "<" +:+ to_string (Z.of_nat (String.length s)) +:+ " bytes>"
  | KUnset => "<unset>"
  end.

Definition call_record (request : CallRequest) (function_name : string) (args : gmap string Value)
    (outcome : string) : string :=
  "call " +:+ rq_device_handle request +:+ " " +:+ function_name +:+ "(" +:+
  listing ((λ p, p.1 +:+ "=" +:+ format_value p.2) <$> map_items args) +:+ ") from " +:+
  call_source request +:+ ": " +:+ outcome.

Definition log_call_record (request : CallRequest) (function_name : string) (args : gmap string Value)
    (outcome : string) (rt : CallRouter) : CallRouter :=
  let record := call_record request function_name args outcome in
  if rq_is_behavior_tree request then
    let key := rq_device_handle request +:+ " " +:+ function_name in
    if bool_decide (default "" (last_tree_record_ rt !! key) = record) then rt
    else mkRouter (last_dispatch_ rt) (<[key := record]> (last_tree_record_ rt)) (call_log rt ++ [record])
  else mkRouter (last_dispatch_ rt) (last_tree_record_ rt) (call_log rt ++ [record]).

(** ** The checks; [Some] is the refusal *)

Definition refuse (msg : string) (code : StatusCode) : CallResult := mkCallResult false msg ∅ code false.

Definition check_idle (request : CallRequest) (e : Env) : option CallResult :=
  if negb (rq_safe_state request) && bool_decide (env_mode e = Some IDLE) then
    Some (refuse "Control operations blocked in IDLE mode" CODE_FAILED_PRECONDITION)
  else None.

Definition check_contention (request : CallRequest) (e : Env) : option CallResult :=
  if negb (rq_is_automated request) && negb (rq_safe_state request) && bool_decide (env_mode e = Some AUTO) &&
     bool_decide (env_policy e = "BLOCK") then
    Some (refuse "Manual call blocked in AUTO mode (policy: BLOCK)" CODE_FAILED_PRECONDITION)
  else None.

Definition judged_mode (e : Env) : string :=
  match env_mode e with Some m => mode_to_string m | None => "MANUAL" end.

Definition check_allowed_modes (request : CallRequest) (name : string) (spec : FunctionSpec) (e : Env)
    : option CallResult :=
  if negb (rq_safe_state request) && negb (bool_decide (fs_allowed_modes spec = [])) &&
     negb (existsb (λ declared, bool_decide (string_toupper declared = judged_mode e)) (fs_allowed_modes spec)) then
    Some (refuse (name +:+ " is allowed only in " +:+ listing (fs_allowed_modes spec) +:+
                  "; the runtime is in " +:+ judged_mode e) CODE_FAILED_PRECONDITION)
  else None.

Definition latch_holds (request : CallRequest) (spec : FunctionSpec) (e : Env) : bool :=
  match env_latch e with
  | Some l => negb (rq_safe_state request) && is_engaged l && is_actuating spec &&
              negb (rq_fault_entry_hook request && admits_fault_entry_hooks l)
  | None => false
  end.

Definition check_latch (request : CallRequest) (spec : FunctionSpec) (e : Env) : option CallResult :=
  if latch_holds request spec e then
    Some (refuse "Actuation latched by e-stop (POST /v0/estop/clear to release)" CODE_FAILED_PRECONDITION)
  else None.

Definition check_loss (request : CallRequest) (spec : FunctionSpec) (e : Env) : option CallResult :=
  match env_loss e with
  | Some d =>
      if negb (rq_safe_state request) && rq_is_behavior_tree request &&
         loss_is_latched d (rq_device_handle request) && is_actuating spec then
        Some (refuse "Device was unreachable and has not been re-armed; re-enter AUTO to resume automation"
                CODE_FAILED_PRECONDITION)
      else None
  | None => None
  end.

Definition dispatch_key (handle : string) (spec : FunctionSpec) : string :=
  handle +:+ "/" +:+ to_string (fs_function_id spec).

(** The minimum interval: the refusal, or the router with this dispatch recorded. *)
Definition check_interval (request : CallRequest) (name : string) (spec : FunctionSpec) (now : Z)
    (rt : CallRouter) : CallResult + CallRouter :=
  if 0 <? fs_min_interval_ms spec then
    let key := dispatch_key (rq_device_handle request) spec in
    let record := mkRouter (<[key := now]> (last_dispatch_ rt)) (last_tree_record_ rt) (call_log rt) in
    match last_dispatch_ rt !! key with
    | Some last =>
        let elapsed := ms_of_ns (now - last) in
        if negb (rq_safe_state request) && (elapsed <? fs_min_interval_ms spec) then
          inl (refuse (name +:+ " may be called once every " +:+ to_string (fs_min_interval_ms spec) +:+
                       " ms; retry in " +:+ to_string (fs_min_interval_ms spec - elapsed) +:+ " ms")
                 CODE_FAILED_PRECONDITION)
        else inr record
    | None => inr record
    end
  else inr rt.

(** ** Before the provider lock *)

Record Prepared := mkPrepared {
  pr_provider_id : string;
  pr_device_id : string;
  pr_provider : ProviderHandle;
  pr_name : string;
  pr_spec : FunctionSpec;
  pr_args : gmap string Value;
}.

(** Stop at a refusal. *)
Notation "'unless' c ;; k" := (match c with Some r => inl r | None => k end)
  (at level 100, c at next level, right associativity).
(** Stop at an error, with the status code it maps to. *)
Notation "'need' x <- m 'else' code ;; k" :=
  (match m with Ok x => k | Err e => inl (refuse e (code e)) end)
  (at level 100, x pattern, m at next level, code at next level, right associativity).

Definition resolve_code (e : string) : StatusCode :=
  if contains_sub "not found" e then CODE_NOT_FOUND else CODE_INVALID_ARGUMENT.

Definition prepare (request : CallRequest) (env : Checkpoint → Env) : CallResult + Prepared :=
  unless check_idle request (env AtIdle) ;;
  unless check_contention request (env AtContention) ;;
  need (pid, did) <- parse_device_handle (rq_device_handle request) else (λ _, CODE_INVALID_ARGUMENT) ;;
  match env_providers (env AtProvider) !! pid with
  | None => inl (refuse ("Provider not found: " +:+ pid) CODE_NOT_FOUND)
  | Some provider =>
      if negb (ph_is_available (p_poll provider)) then
        inl (refuse ("Provider not available: " +:+ pid) CODE_UNAVAILABLE)
      else
        match get_device_copy (env_registry (env AtDevice)) pid did with
        | None => inl (refuse "Device not found in registry" CODE_NOT_FOUND)
        | Some device =>
            need (name, spec) <- resolve_function_spec device request else resolve_code ;;
            unless check_allowed_modes request name spec (env AtModes) ;;
            unless check_latch request spec (env AtLatch) ;;
            unless check_loss request spec (env AtLoss) ;;
            need args <- coerce_arguments spec (rq_args request) else (λ _, CODE_INVALID_ARGUMENT) ;;
            need _ <- validate_arguments spec args else (λ _, CODE_INVALID_ARGUMENT) ;;
            inr (mkPrepared pid did provider name spec args)
        end
  end.

(** ** Under the provider lock *)

Definition locked_checks (request : CallRequest) (p : Prepared) (env : Checkpoint → Env) (now : Z)
    (rt : CallRouter) : CallResult + CallRouter :=
  unless check_latch request (pr_spec p) (env AtLockedLatch) ;;
  unless check_loss request (pr_spec p) (env AtLockedLoss) ;;
  check_interval request (pr_name p) (pr_spec p) now rt.

(** The result, what was sent, the router and the cache after. *)
Definition Executed : Type := CallResult * option Dispatch * CallRouter * StateCache.

Definition dispatch (request : CallRequest) (p : Prepared) (env : Checkpoint → Env) (now wall : Z)
    (shutting_down : bool) (rt : CallRouter) (cache : StateCache) : Executed :=
  let d := mkDispatch (pr_provider_id p) (pr_device_id p) (rq_device_handle request) (pr_spec p)
             (pr_name p) (pr_args p) (rq_safe_state request) now in
  match p_call (pr_provider p) (pr_device_id p) (fs_function_id (pr_spec p)) (pr_name p) (pr_args p) with
  | CallFail last_error last_status_code =>
      (mkCallResult false ("Provider call failed: " +:+ last_error) ∅ last_status_code true, Some d,
       log_call_record request (pr_name p) (pr_args p) (status_code_name last_status_code) rt, cache)
  | CallOk results =>
      (mkCallResult true "" results CODE_OK true, Some d,
       log_call_record request (pr_name p) (pr_args p) "OK" rt,
       poll_device_now (rq_device_handle request) (p_poll <$> env_providers (env AtRefresh)) wall
         shutting_down cache)
  end.

Definition execute_call (request : CallRequest) (env : Checkpoint → Env) (now wall : Z)
    (shutting_down : bool) (rt : CallRouter) (cache : StateCache) : Executed :=
  match prepare request env with
  | inl refusal => (refusal, None, rt, cache)
  | inr p =>
      match locked_checks request p env now rt with
      | inl refusal => (refusal, None, rt, cache)
      | inr rt' => dispatch request p env now wall shutting_down rt' cache
      end
  end.

(** [latch_refuses]. *)
Definition latch_refuses (request : CallRequest) (e : Env) : bool :=
  match env_latch e with
  | Some l =>
      if rq_safe_state request || negb (is_engaged l) then false
      else match parse_device_handle (rq_device_handle request) with
           | Err _ => false
           | Ok (pid, did) =>
               match get_device_copy (env_registry e) pid did with
               | None => false
               | Some device =>
                   match resolve_function_spec device request with
                   | Err _ => false
                   | Ok (_, spec) => latch_holds request spec e
                   end
               end
           end
  | None => false
  end.

End Router.
Arguments Env : clear implicits.

(** ** What passing the checks means *)

Section RouterFacts.
Context {L D : Type} `{IActuationLatch L} `{IDeviceLossLatch D} `{FloatText} `{StatusNames}.
Implicit Types (env : Checkpoint → Env L D) (request : CallRequest).

(** Everything [prepare] has established when it succeeds. *)
Record prepared_ok request env (p : Prepared) : Prop := {
  po_idle : check_idle request (env AtIdle) = None;
  po_contention : check_contention request (env AtContention) = None;
  po_handle : parse_device_handle (rq_device_handle request) = Ok (pr_provider_id p, pr_device_id p);
  po_provider : env_providers (env AtProvider) !! pr_provider_id p = Some (pr_provider p);
  po_available : ph_is_available (p_poll (pr_provider p)) = true;
  po_device : ∃ device,
    get_device_copy (env_registry (env AtDevice)) (pr_provider_id p) (pr_device_id p) = Some device ∧
    resolve_function_spec device request = Ok (pr_name p, pr_spec p);
  po_modes : check_allowed_modes request (pr_name p) (pr_spec p) (env AtModes) = None;
  po_latch : check_latch request (pr_spec p) (env AtLatch) = None;
  po_loss : check_loss request (pr_spec p) (env AtLoss) = None;
  po_coerced : coerce_arguments (pr_spec p) (rq_args request) = Ok (pr_args p);
  po_valid : validate_arguments (pr_spec p) (pr_args p) = Ok ();
}.

Lemma prepare_ok request env p : prepare request env = inr p ↔ prepared_ok request env p.
Proof.
  unfold prepare. split.
  - intros Hp. repeat (case_match; try done). simplify_eq.
    repeat match goal with u : () |- _ => destruct u end. bool_facts.
    split; simpl; try done. by eexists.
  - destruct p as [pid did ph name spec args]. intros [H3 H4 H5 H6 H7 (dev & H8 & H9) H10 H11 H12 H13 H14].
    simpl in *. by rewrite H3, H4, H5, H6, H7, H8, H9, H10, H11, H12, H13, H14.
Qed.

(** A call that was sent: prepared, past the locked checks. *)
Lemma execute_call_sent request env now wall sd rt cache res d rt' cache' :
  execute_call request env now wall sd rt cache = (res, Some d, rt', cache') →
  ∃ p rt1, prepared_ok request env p ∧ locked_checks request p env now rt = inr rt1 ∧
    dispatch request p env now wall sd rt1 cache = (res, Some d, rt', cache').
Proof.
  unfold execute_call. destruct (prepare request env) as [r|p] eqn:Ep; [done|].
  destruct (locked_checks _ _ _ _ _) as [r|rt1] eqn:El; [done|]. intros Hd.
  exists p, rt1. split_and!; [by apply prepare_ok|done..].
Qed.

Lemma dispatch_sent request p env now wall sd rt cache :
  ∃ res rt' cache',
    dispatch request p env now wall sd rt cache =
      (res, Some (mkDispatch (pr_provider_id p) (pr_device_id p) (rq_device_handle request) (pr_spec p)
                    (pr_name p) (pr_args p) (rq_safe_state request) now), rt', cache') ∧
    cr_dispatched res = true ∧ last_dispatch_ rt' = last_dispatch_ rt.
Proof.
  assert (∀ n a o, last_dispatch_ (log_call_record request n a o rt) = last_dispatch_ rt) as Hlog.
  { intros. unfold log_call_record. by repeat case_match. }
  unfold dispatch. destruct (p_call _ _ _ _ _); by eexists _, _, _; rewrite ?Hlog.
Qed.

Definition refusal (r : CallResult) : Prop :=
  cr_dispatched r = false ∧ cr_success r = false ∧ cr_status_code r ≠ CODE_OK.

Lemma prepare_refuses request env r : prepare request env = inl r → refusal r.
Proof.
  unfold prepare, check_idle, check_contention, check_allowed_modes, check_latch, check_loss, resolve_code, refuse.
  intros. repeat (case_match; simplify_eq; try done).
Qed.

Lemma locked_refuses request p env now rt r : locked_checks request p env now rt = inl r → refusal r.
Proof.
  unfold locked_checks, check_latch, check_loss, check_interval, refuse.
  intros. repeat (case_match; simplify_eq; try done).
Qed.

Lemma execute_call_refused request env now wall sd rt cache :
  match execute_call request env now wall sd rt cache with
  | (res, None, rt', cache') =>
      rt' = rt ∧ cache' = cache ∧ cr_dispatched res = false ∧ cr_success res = false ∧
      cr_status_code res ≠ CODE_OK
  | (res, Some d, _, _) => cr_dispatched res = true
  end.
Proof.
  unfold execute_call. destruct (prepare request env) as [r|p] eqn:Ep.
  { split; [done|]. split; [done|]. by apply (prepare_refuses request env). }
  destruct (locked_checks _ _ _ _ _) as [r|rt1] eqn:El.
  { split; [done|]. split; [done|]. by apply (locked_refuses request p env now rt). }
  by destruct (dispatch_sent request p env now wall sd rt1 cache) as (res & rt' & cache' & -> & Hr & _).
Qed.

Lemma parse_make_handle handle pid did :
  parse_device_handle handle = Ok (pid, did) → make_handle pid did = handle.
Proof.
  unfold parse_device_handle. destruct (split_first slash handle) as [[p d]|] eqn:E; [|done].
  apply split_first_sound in E as [-> _]. case_match; [done|]. by intros [= <- <-].
Qed.

Lemma check_latch_pass request spec (e : Env L D) :
  check_latch request spec e = None → rq_safe_state request = false → is_actuating spec = true →
  ∀ l, env_latch e = Some l →
  is_engaged l = false ∨ (rq_fault_entry_hook request = true ∧ admits_fault_entry_hooks l = true).
Proof.
  unfold check_latch, latch_holds. intros Hc Hs Ha l Hl. rewrite Hl, Hs, Ha in Hc. simpl in Hc.
  destruct (is_engaged l), (rq_fault_entry_hook request), (admits_fault_entry_hooks l); auto; done.
Qed.

Lemma check_loss_pass request spec (e : Env L D) :
  check_loss request spec e = None → rq_safe_state request = false → rq_is_behavior_tree request = true →
  is_actuating spec = true → ∀ d, env_loss e = Some d → loss_is_latched d (rq_device_handle request) = false.
Proof.
  unfold check_loss. intros Hc Hs Hb Ha d Hd. rewrite Hd, Hs, Hb, Ha in Hc.
  by destruct (loss_is_latched d _).
Qed.

Lemma locked_checks_ok request p env now rt rt' :
  locked_checks request p env now rt = inr rt' →
  check_latch request (pr_spec p) (env AtLockedLatch) = None ∧
  check_loss request (pr_spec p) (env AtLockedLoss) = None ∧
  check_interval request (pr_name p) (pr_spec p) now rt = inr rt'.
Proof. unfold locked_checks. destruct (check_latch _ _ _); [done|]. by destruct (check_loss _ _ _). Qed.

(** An accepted call at the minimum interval. *)
Lemma check_interval_ok request name spec now rt rt' :
  check_interval request name spec now rt = inr rt' →
  let key := dispatch_key (rq_device_handle request) spec in
  if 0 <? fs_min_interval_ms spec then
    last_dispatch_ rt' = <[key := now]> (last_dispatch_ rt) ∧
    (rq_safe_state request = false → ∀ t, last_dispatch_ rt !! key = Some t →
       fs_min_interval_ms spec ≤ ms_of_ns (now - t))
  else rt' = rt.
Proof.
  unfold check_interval. intros Hc. simpl. destruct (0 <? fs_min_interval_ms spec); [|by simplify_eq].
  destruct (last_dispatch_ rt !! _) as [t|]; [|by simplify_eq].
  destruct (rq_safe_state request) eqn:Es; simpl in Hc; [by simplify_eq|].
  destruct (_ <? fs_min_interval_ms spec) eqn:E; [done|]. simplify_eq. simpl. split; [done|].
  intros _ t' [= <-]. bool_facts. lia.
Qed.

End RouterFacts.

(** ** Theorems *)

(** A latch that does not change, and a small machine to run the router on. *)
Record FixedLatch := mkFixedLatch { fl_engaged : bool; fl_admits : bool }.
#[global] Instance fixed_latch_view : IActuationLatch FixedLatch := {
  is_engaged := fl_engaged;
  admits_fault_entry_hooks := fl_admits;
}.

Module Bench.
#[export] Existing Instance plain_text.
#[export] Instance names : StatusNames := λ _, "CODE".

Definition pump_spec (min_interval_ms : Z) : FunctionSpec :=
  mkFunctionSpec 7 "set_duty" "" [duty_arg VALUE_TYPE_UINT64] CATEGORY_ACTUATE [] min_interval_ms false.
Definition pump (min_interval_ms : Z) : RegisteredDevice :=
  mkDevice "sim0" "pump" (mkCaps (mkProtoDevice "pump" "" "" "" []) [] [("set_duty", pump_spec min_interval_ms)]).
Definition provider : ProviderHandle := mkProviderHandle (answering 1) (λ _ _ _ _, CallOk ∅).

Definition env (min_interval_ms : Z) (engaged : bool) (_ : Checkpoint) : Env FixedLatch DeviceLossLatch :=
  mkEnv (Some MANUAL) "BLOCK" (Some (mkFixedLatch engaged false)) (Some empty_loss_latch)
    (commit_provider_devices "sim0" [pump min_interval_ms] true empty_registry) {[ "sim0" := provider ]}.

Definition request (duty : Z) (safe_state : bool) : CallRequest :=
  mkRequest "sim0/pump" 0 "set_duty" {[ "duty" := mkValue VALUE_TYPE_INT64 (KInt64 duty) ]}
    false false safe_state false.

Definition cache : StateCache := started [pump 0] 0.

Definition sent (duty : Z) (safe_state engaged : bool) : Executed :=
  execute_call (request duty safe_state) (env 0 engaged) 0 0 false new_router cache.
End Bench.

(** C3. No gate can be raced: whatever other threads do between the checks, a
    call that reaches its provider had a provider that was available, and, when
    it is not a safe-state call, was sent outside IDLE, was not a manual call in
    AUTO under the BLOCK policy, was in one of the function's allowed modes, and,
    when the function can actuate, was sent with the e-stop latch released (or
    admitting this FAULT-entry hook) and, for the behaviour tree, the device not
    held by the loss latch, both as read under the provider's lock. *)
Theorem dispatch_gated {L D} `{IActuationLatch L} `{IDeviceLossLatch D} `{FloatText} `{StatusNames}
    (request : CallRequest) (env : Checkpoint → Env L D) (now wall : Z) (sd : bool) (rt : CallRouter)
    (cache : StateCache) res d rt' cache' :
  execute_call request env now wall sd rt cache = (res, Some d, rt', cache') →
  (∃ p, env_providers (env AtProvider) !! d_provider_id d = Some p ∧ ph_is_available (p_poll p) = true) ∧
  (rq_safe_state request = false →
     env_mode (env AtIdle) ≠ Some IDLE ∧
     (rq_is_automated request = false →
        env_mode (env AtContention) ≠ Some AUTO ∨ env_policy (env AtContention) ≠ "BLOCK") ∧
     (fs_allowed_modes (d_spec d) ≠ [] →
        ∃ m, m ∈ fs_allowed_modes (d_spec d) ∧ string_toupper m = judged_mode (env AtModes)) ∧
     (is_actuating (d_spec d) = true →
        (∀ l, env_latch (env AtLockedLatch) = Some l →
           is_engaged l = false ∨ (rq_fault_entry_hook request = true ∧ admits_fault_entry_hooks l = true)) ∧
        (rq_is_behavior_tree request = true →
           ∀ ll, env_loss (env AtLockedLoss) = Some ll → loss_is_latched ll (rq_device_handle request) = false))).
Proof.
  intros (p & rt1 & Hp & (Hl & Ho & _)%locked_checks_ok & Hd)%execute_call_sent.
  destruct (dispatch_sent request p env now wall sd rt1 cache) as (? & ? & ? & Hd' & _).
  rewrite Hd in Hd'. simplify_eq. simpl. destruct Hp as [H3 H4 H5 H6 H7 _ H10 _ _ _ _].
  split; [by eauto|]. intros Hs. unfold check_idle, check_contention, check_allowed_modes in *.
  rewrite Hs in *. simpl in *. split_and!.
  - intros E. by rewrite bool_decide_true in H3.
  - intros Ha. rewrite Ha in H4. destruct (decide (env_mode (env AtContention) = Some AUTO)); [|by left].
    right. intros E. by rewrite !bool_decide_true in H4.
  - intros Hne. rewrite bool_decide_false in H10 by done. simpl in H10.
    destruct (existsb _ _) eqn:E; [|done]. apply existsb_exists in E as (m & Hin & Hm).
    apply list_elem_of_In in Hin. apply bool_decide_eq_true in Hm. by eauto.
  - intros Hact. split; [by eapply check_latch_pass|]. intros Hb. by eapply check_loss_pass.
Qed.

Example dispatch_gated_witness :
  is_engaged (mkFixedLatch false false) = false ∨ (false = true ∧ false = true).
Proof.
  destruct (Bench.sent 40 false false) as [[[res [d|]] rt'] cache'] eqn:E; [|vm_compute in E; discriminate E].
  apply (proj2 (dispatch_gated (Bench.request 40 false) (Bench.env 0 false) 0 0 false new_router Bench.cache
    res d rt' cache' E)); [reflexivity| |reflexivity].
  vm_compute in E. injection E as _ <- _ _. reflexivity.
Defined.


Lemma bench_args_wf duty safe : in_int64 duty → args_wf (rq_args (Bench.request duty safe)).
Proof. intros Hd. by apply map_Forall_singleton. Qed.


(** A refused call has no effect: unless the call was sent, the router's
    state and the cache are untouched, and the result says it was not
    dispatched, not successful, and why with a code that is not OK; a call is
    reported dispatched exactly when it was sent. *)
Theorem refused_call_has_no_effect {L D} `{IActuationLatch L} `{IDeviceLossLatch D} `{FloatText} `{StatusNames}
    (request : CallRequest) (env : Checkpoint → Env L D) (now wall : Z) (sd : bool) (rt : CallRouter)
    (cache : StateCache) :
  match execute_call request env now wall sd rt cache with
  | (res, None, rt', cache') =>
      rt' = rt ∧ cache' = cache ∧ cr_dispatched res = false ∧ cr_success res = false ∧
      cr_status_code res ≠ CODE_OK
  | (res, Some d, _, _) => cr_dispatched res = true
  end.
Proof. apply execute_call_refused. Qed.

(** ** Dry run and spacing *)

Section RouterMore.
Context {L D : Type} `{IActuationLatch L} `{IDeviceLossLatch D} `{FloatText} `{StatusNames}.

Lemma validate_call_ok (r : DeviceRegistry) request :
  validate_call r request = Ok () ↔
  ∃ pid did device name spec args,
    parse_device_handle (rq_device_handle request) = Ok (pid, did) ∧
    get_device_copy r pid did = Some device ∧ resolve_function_spec device request = Ok (name, spec) ∧
    coerce_arguments spec (rq_args request) = Ok args ∧ validate_arguments spec args = Ok ().
Proof.
  unfold validate_call, validate_device_exists. split.
  - intros Hv. destruct (get_device_by_handle_copy r _); [|done]. simpl in Hv.
    destruct (parse_device_handle _) as [[pid did]|]; [|done]. simpl in Hv.
    destruct (get_device_copy r pid did) as [dev|] eqn:Ed; [|done].
    destruct (resolve_function_spec dev request) as [[name spec]|] eqn:Er; [|done]. simpl in Hv.
    destruct (coerce_arguments _ _) as [args|] eqn:Ec; [|done]. simpl in Hv.
    by exists pid, did, dev, name, spec, args.
  - intros (pid & did & dev & name & spec & args & Hh & Hd & Hr & Hc & Hv).
    pose proof Hd as Hd'. unfold get_device_copy in Hd'. rewrite (parse_make_handle _ _ _ Hh) in Hd'.
    rewrite Hd', Hh. simpl. rewrite Hd. simpl. rewrite Hr. simpl. rewrite Hc. done.
Qed.

(** A safe-state request passes every dynamic gate. *)
Lemma safe_state_passes request (e : Env L D) name spec now rt :
  rq_safe_state request = true →
  check_idle request e = None ∧ check_contention request e = None ∧
  check_allowed_modes request name spec e = None ∧ check_latch request spec e = None ∧
  check_loss request spec e = None ∧ ∃ rt', check_interval request name spec now rt = inr rt'.
Proof.
  intros Hs.
  unfold check_idle, check_contention, check_allowed_modes, check_latch, latch_holds, check_loss, check_interval.
  rewrite Hs. simpl. rewrite andb_false_r. simpl. split_and!; try done; by repeat case_match; eauto.
Qed.

(** A safe-state request that resolves and validates is sent. *)
Lemma safe_state_sent request (env : Checkpoint → Env L D) now wall sd rt cache p device :
  rq_safe_state request = true →
  parse_device_handle (rq_device_handle request) = Ok (pr_provider_id p, pr_device_id p) →
  env_providers (env AtProvider) !! pr_provider_id p = Some (pr_provider p) →
  ph_is_available (p_poll (pr_provider p)) = true →
  get_device_copy (env_registry (env AtDevice)) (pr_provider_id p) (pr_device_id p) = Some device →
  resolve_function_spec device request = Ok (pr_name p, pr_spec p) →
  coerce_arguments (pr_spec p) (rq_args request) = Ok (pr_args p) →
  validate_arguments (pr_spec p) (pr_args p) = Ok () →
  ∃ rt', execute_call request env now wall sd rt cache = dispatch request p env now wall sd rt' cache.
Proof.
  intros Hs Hh Hph Hav Hd Hr Hc Hv.
  pose proof (λ c, safe_state_passes request (env c) (pr_name p) (pr_spec p) now rt Hs) as Hpass.
  assert (prepare request env = inr p) as Hp.
  { apply prepare_ok. split; try done; [apply (Hpass AtIdle)|apply (Hpass AtContention)|by eauto|
      apply (Hpass AtModes)|apply (Hpass AtLatch)|apply (Hpass AtLoss)]. }
  unfold execute_call, locked_checks. rewrite Hp.
  destruct (Hpass AtLockedLatch) as (_ & _ & _ & -> & _).
  destruct (Hpass AtLockedLoss) as (_ & _ & _ & _ & -> & rt' & ->). by exists rt'.
Qed.

(** One call of a run. *)
Record CallInput := mkInput {
  ci_request : CallRequest;
  ci_env : Checkpoint → Env L D;
  ci_now : Z;
  ci_wall : Z;
  ci_shutting_down : bool;
}.

(** Calls through one router, in the order they take their provider's lock. *)
Fixpoint run_calls (inputs : list CallInput) (rt : CallRouter) (cache : StateCache) : list Dispatch :=
  match inputs with
  | [] => []
  | i :: rest =>
      let '(_, d, rt', cache') :=
        execute_call (ci_request i) (ci_env i) (ci_now i) (ci_wall i) (ci_shutting_down i) rt cache in
      match d with
      | Some d => d :: run_calls rest rt' cache'
      | None => run_calls rest rt' cache'
      end
  end.

Definition limited (d : Dispatch) : Prop := 0 < fs_min_interval_ms (d_spec d).

(** The spacing two dispatches of one function must keep. *)
Definition spaced (d1 d2 : Dispatch) : Prop :=
  dispatch_key (d_handle d1) (d_spec d1) = dispatch_key (d_handle d2) (d_spec d2) →
  limited d1 → limited d2 → d_safe_state d2 = false →
  fs_min_interval_ms (d_spec d2) ≤ ms_of_ns (d_time d2 - d_time d1).

(** Every limited dispatch is on record, with a time no earlier than its own. *)
Definition recorded (rt : CallRouter) (past : list Dispatch) : Prop :=
  ∀ d, d ∈ past → limited d →
  ∃ t, last_dispatch_ rt !! dispatch_key (d_handle d) (d_spec d) = Some t ∧ d_time d ≤ t.

Lemma execute_call_records request (env : Checkpoint → Env L D) now wall sd rt cache res d rt' cache' past :
  execute_call request env now wall sd rt cache = (res, Some d, rt', cache') →
  recorded rt past → (∀ d', d' ∈ past → d_time d' ≤ now) →
  recorded rt' (past ++ [d]) ∧ d_time d = now ∧ ∀ d', d' ∈ past → spaced d' d.
Proof.
  intros (p & rt1 & _ & (_ & _ & Hi)%locked_checks_ok & Hd)%execute_call_sent Hrec Hold.
  destruct (dispatch_sent request p env now wall sd rt1 cache) as (? & ? & ? & Hd' & _ & Hld).
  rewrite Hd in Hd'. simplify_eq. apply check_interval_ok in Hi. simpl in Hi.
  destruct (Z.ltb_spec 0 (fs_min_interval_ms (pr_spec p))) as [Hpos|Hnp].
  - destruct Hi as [Hi Hspace]. split_and!; [|done|].
    + intros d' [Hin| ->%list_elem_of_singleton]%elem_of_app Hlim; simpl.
      * destruct (Hrec d' Hin Hlim) as (t & Ht & Hle). rewrite Hld, Hi, lookup_insert.
        case_decide; [exists now; split; [done|by apply Hold]|by exists t].
      * exists now. by rewrite Hld, Hi, lookup_insert_eq.
    + intros d' Hin Hkey Hl1 _ Hs. simpl in *. destruct (Hrec d' Hin Hl1) as (t & Ht & Hle).
      rewrite Hkey in Ht. specialize (Hspace Hs t Ht). unfold ms_of_ns in *.
      etrans; [exact Hspace|]. apply Z.quot_le_mono; lia.
  - subst rt1. split_and!; [|done|].
    + intros d' [Hin| ->%list_elem_of_singleton]%elem_of_app Hlim; [|unfold limited in Hlim; simpl in Hlim; lia].
      destruct (Hrec d' Hin Hlim) as (t & Ht & Hle). exists t. by rewrite Hld.
    + intros d' _ _ _ Hl. unfold limited in Hl. simpl in Hl. lia.
Qed.

Lemma run_calls_spaced inputs rt cache past :
  recorded rt past → (∀ d i, d ∈ past → i ∈ inputs → d_time d ≤ ci_now i) →
  StronglySorted Z.le (ci_now <$> inputs) →
  ForallOrdPairs spaced (run_calls inputs rt cache) ∧
  ∀ d d', d ∈ past → d' ∈ run_calls inputs rt cache → spaced d d'.
Proof.
  revert rt cache past. induction inputs as [|i inputs IH]; intros rt cache past Hrec Hold Hsort; simpl.
  { split; [constructor|]. intros d d' _ H3. by apply not_elem_of_nil in H3. }
  apply StronglySorted_inv in Hsort as [Hsort Hle].
  pose proof (execute_call_refused (ci_request i) (ci_env i) (ci_now i) (ci_wall i) (ci_shutting_down i)
    rt cache) as Hno.
  destruct (execute_call _ _ _ _ _ rt cache) as [[[res [d|]] rt'] cache'] eqn:E.
  - destruct (execute_call_records _ _ _ _ _ _ _ _ _ _ _ past E Hrec) as (Hrec' & Ht & Hsp).
    { intros d' Hd'. apply Hold; [done|left]. }
    destruct (IH rt' cache' (past ++ [d]) Hrec') as [Hpairs Hcross]; [|done|].
    { intros d' j [Hd'| ->%list_elem_of_singleton]%elem_of_app Hj; [apply Hold; [done|by right]|].
      rewrite Ht. rewrite Forall_forall in Hle. apply Hle. by apply list_elem_of_fmap_2. }
    split; [constructor; [|done]; apply Forall_forall; intros d' Hd'; apply Hcross; set_solver|].
    intros d1 d2 H1' [->|H2']%elem_of_cons; [by apply Hsp|]. apply Hcross; set_solver.
  - destruct Hno as (-> & -> & _). apply IH; [done| |done]. intros d j Hd Hj. apply Hold; [done|by right].
Qed.

End RouterMore.
Arguments CallInput : clear implicits.

(** The dry run is exact: for a safe-state call to an available provider,
    with the registry the dry run sees, [validate_call] accepts exactly the
    requests that [execute_call] sends. *)
Theorem dry_run_matches_dispatch {L D} `{IActuationLatch L} `{IDeviceLossLatch D} `{FloatText} `{StatusNames}
    (request : CallRequest) (env : Checkpoint → Env L D) (now wall : Z) (sd : bool) (rt : CallRouter)
    (cache : StateCache) :
  rq_safe_state request = true →
  (∀ pid did, parse_device_handle (rq_device_handle request) = Ok (pid, did) →
     ∃ p, env_providers (env AtProvider) !! pid = Some p ∧ ph_is_available (p_poll p) = true) →
  validate_call (env_registry (env AtDevice)) request = Ok () ↔
  cr_dispatched (execute_call request env now wall sd rt cache).1.1.1 = true.
Proof.
  intros Hs Hprov. rewrite validate_call_ok. split.
  - intros (pid & did & dev & name & spec & args & Hh & Hd & Hr & Hc & Hv).
    destruct (Hprov pid did Hh) as (ph & Hph & Hav).
    destruct (safe_state_sent request env now wall sd rt cache (mkPrepared pid did ph name spec args) dev)
      as (rt' & ->); [done..|].
    by destruct (dispatch_sent request (mkPrepared pid did ph name spec args) env now wall sd rt' cache)
      as (res & rt2 & cache' & -> & Hr' & _).
  - pose proof (execute_call_refused request env now wall sd rt cache) as Hno. revert Hno.
    destruct (execute_call request env now wall sd rt cache) as [[[res [d|]] rt'] cache'] eqn:E; simpl.
    2:{ intros (_ & _ & -> & _). done. }
    intros _ _. apply execute_call_sent in E as (p & _ & Hp & _).
    destruct Hp as [_ _ Hh _ _ (dev & Hd & Hr) _ _ _ Hc Hv]. by eexists _, _, dev, _, _, _.
Qed.

Example dry_run_matches_dispatch_witness :
  validate_call (H := plain_text) (env_registry (Bench.env 0 true AtDevice)) (Bench.request 40 true) = Ok () ↔
  cr_dispatched (Bench.sent 40 true true).1.1.1 = true.
Proof.
  apply (dry_run_matches_dispatch (H1 := plain_text) (H2 := Bench.names) (Bench.request 40 true) (Bench.env 0 true) 0 0 false new_router Bench.cache);
    [reflexivity|].
  intros pid did E. vm_compute in E. injection E as <- <-. by exists Bench.provider.
Defined.

(** A function's minimum interval holds over any run of calls: under a
    steady clock, of two dispatches of the same function on the same device, the
    later one, unless it is a safe-state call, comes at least the declared
    minimum interval after the earlier one, safe-state calls included among the
    earlier ones. *)
Theorem min_interval_respected {L D} `{IActuationLatch L} `{IDeviceLossLatch D} `{FloatText} `{StatusNames}
    (inputs : list (CallInput L D)) (cache : StateCache) :
  StronglySorted Z.le (ci_now <$> inputs) →
  ForallOrdPairs spaced (run_calls inputs new_router cache).
Proof.
  intros Hs. apply (run_calls_spaced inputs new_router cache []); [|by intros ? ? ?%not_elem_of_nil|done].
  intros d ?%not_elem_of_nil. done.
Qed.

Example min_interval_respected_witness :
  let input now := mkInput (Bench.request 40 false) (Bench.env 500 false) now 0 false in
  let ds := run_calls (H1 := plain_text) (H2 := Bench.names)
              [input 0; input 400000000; input 500000000] new_router Bench.cache in
  d_time <$> ds = [0; 500000000] ∧ ForallOrdPairs spaced ds.
Proof.
  split; [vm_compute; reflexivity|]. apply min_interval_respected.
  repeat constructor; simpl; lia.
Defined.
