(* ===== verification/SafeState.v ===== *)
(** * The safe-state controller ([core/control/safe_state.cpp])

    The e-stop latch and the declared safe-state ladder.  The ladder's calls go
    through [CallRouter.execute_call], each in the environment of its own moment
    ([ctx n] for the n-th call); the latch file goes through [LatchStore]; the
    FAULT entry goes through [ModeManager.set_mode] with whatever callbacks are
    installed.  An exception from the JSON printer leaves an operation where it
    was thrown, as [None].  One inventory is read per ladder run. *)

From S2P Require Import Prelude Protocol Interfaces ModeManager Registry Parameters StateCache.
From S2P Require Import Json LatchStore ArgCheck CallRouter.

(** ** Configuration ([core/runtime/config.hpp]) *)

Record ModeTransitionCallConfig := mkCallConfig {
  cc_device_handle : string;
  cc_function_id : Z;
  cc_function_name : string;
  cc_args : gmap string ParameterValue;
}.

Record SafeStateConfig := mkSafeStateConfig {
  ssc_hooks : list ModeTransitionCallConfig;
  ssc_setpoints : list ModeTransitionCallConfig;
  ssc_zero_is_safe : bool;
}.

(** ** Results *)

Inductive SafeStateKind := KNone | KHooks | KSetpoints | KZero.

#[global] Instance SafeStateKind_eq_dec : EqDecision SafeStateKind.
Proof. solve_decision. Defined.

Inductive FailureCause := CauseRun | CauseConfig.

Record ActionOutcome := mkOutcome {
  ao_device_handle : string;
  ao_function : string;
  ao_success : bool;
  ao_error : string;
  ao_cause : FailureCause;
}.

Record SkippedAction := mkSkipped {
  sk_device_handle : string;
  sk_function : string;
  sk_reason : string;
}.

Record EstopResult := mkEstop {
  er_kind : SafeStateKind;
  er_actions : list ActionOutcome;
  er_skipped : list SkippedAction;
  er_safe_state_achieved : bool;
  er_fault_requested : bool;
  er_fault_ok : bool;
}.

Record StartupSafeStateReport := mkReport {
  rp_ran : bool;
  rp_kind : SafeStateKind;
  rp_safe_state_achieved : bool;
  rp_failed_actions : list ActionOutcome;
  rp_skipped_actions : list SkippedAction;
}.

Definition safe_state_kind_to_string (kind : SafeStateKind) : string :=
  match kind with KHooks => "hooks" | KSetpoints => "setpoints" | KZero => "zero" | KNone => "none" end.

(** ** Planning *)

Definition zero_value (type : ValueType) : option Value :=
  match type with
  | VALUE_TYPE_DOUBLE => Some (mkValue type (KDouble double_zero))
  | VALUE_TYPE_INT64 => Some (mkValue type (KInt64 0))
  | VALUE_TYPE_UINT64 => Some (mkValue type (KUint64 0))
  | _ => None
  end.

Fixpoint zero_required (specs : list ArgSpec) (args : gmap string Value) : result (gmap string Value) :=
  match specs with
  | [] => Ok args
  | arg :: rest =>
      if negb (as_required arg) then zero_required rest args
      else match zero_value (as_type arg) with
           | None => Err ("cannot zero required non-numeric argument '" +:+ as_name arg +:+ "'")
           | Some zero => zero_required rest (<[as_name arg := zero]> args)
           end
  end.

Definition build_zero_args (spec : FunctionSpec) : result (gmap string Value) :=
  try args <- zero_required (fs_args spec) ∅ ;;
  if decide (args = ∅) then Err "cannot zero: no numeric required argument to drive to zero" else Ok args.

Definition to_call_request (call : ModeTransitionCallConfig) : CallRequest :=
  mkRequest (cc_device_handle call) (cc_function_id call) (cc_function_name call)
    (to_provider_value <$> cc_args call) false false true false.

Definition zero_request (handle : string) (spec : FunctionSpec) (args : gmap string Value) (safe_state : bool)
    : CallRequest :=
  mkRequest handle (fs_function_id spec) (fs_function_name spec) args false false safe_state false.

Definition setpoint_matches (setpoint : ModeTransitionCallConfig) (handle : string) (spec : FunctionSpec) : bool :=
  let has_id := negb (cc_function_id setpoint =? 0) in
  let has_name := negb (bool_decide (cc_function_name setpoint = "")) in
  if negb (bool_decide (cc_device_handle setpoint = handle)) then false
  else if has_id && negb (cc_function_id setpoint =? fs_function_id spec) then false
  else if has_name && negb (bool_decide (cc_function_name setpoint = fs_function_name spec)) then false
  else has_id || has_name.

Definition actuating_functions_for (r : DeviceRegistry) : list (string * FunctionSpec) :=
  d ← get_all_devices r;
  (λ p, (get_handle d, p.2)) <$>
    filter (λ p, fs_category p.2 = CATEGORY_ACTUATE) (functions_by_id (capabilities d)).

Definition function_label (handle : string) (spec : FunctionSpec) : string :=
  handle +:+ "/" +:+ fs_function_name spec.

Definition planned_safe_state_kind (r : DeviceRegistry) (safety : SafeStateConfig) : SafeStateKind :=
  let uncovered :=
    filter (λ p : string * FunctionSpec,
              ¬ existsb (λ s, setpoint_matches s p.1 p.2) (ssc_setpoints safety) = true)
      (actuating_functions_for r) in
  if negb (bool_decide (ssc_hooks safety = [])) then KHooks
  else if negb (bool_decide (ssc_setpoints safety = [])) && bool_decide (uncovered = []) then KSetpoints
  else if ssc_zero_is_safe safety then KZero
  else KNone.

Section Planning.
Context `{FloatText}.

Definition is_valid_call (r : DeviceRegistry) (request : CallRequest) : bool :=
  is_ok_b (validate_call r request).

Definition uncovered_actuating_functions (r : DeviceRegistry) (calls : list ModeTransitionCallConfig)
    : list string :=
  (λ p, function_label p.1 p.2) <$>
    filter (λ p : string * FunctionSpec,
              ¬ existsb (λ c, setpoint_matches c p.1 p.2 && is_valid_call r (to_call_request c)) calls = true)
      (actuating_functions_for r).

Definition zero_covers (r : DeviceRegistry) (handle : string) (spec : FunctionSpec) : bool :=
  match build_zero_args spec with
  | Ok args => is_valid_call r (zero_request handle spec args false)
  | Err _ => false
  end.

Definition uncovered_functions (r : DeviceRegistry) (safety : SafeStateConfig) (kind : SafeStateKind)
    : list string :=
  match kind with
  | KHooks => uncovered_actuating_functions r (ssc_hooks safety)
  | KSetpoints => uncovered_actuating_functions r (ssc_setpoints safety)
  | KZero => (λ p, function_label p.1 p.2) <$>
               filter (λ p : string * FunctionSpec, ¬ zero_covers r p.1 p.2 = true) (actuating_functions_for r)
  | KNone => (λ p, function_label p.1 p.2) <$> actuating_functions_for r
  end.

End Planning.

(** ** The controller *)

Record Controller := mkController {
  latched_flag : bool;                       (* [latched_] *)
  fault_entry_hook_thread_ : option nat;
  latched_at_ms_ : option Z;
  latch_store_ : option LatchStore;
  restored_reason_ : option string;
  startup_report_ : StartupSafeStateReport;
}.

Definition no_report : StartupSafeStateReport := mkReport false KNone false [] [].
Definition new_controller : Controller := mkController false None None None None no_report.

(** The latch as a thread sees it. *)
#[global] Instance controller_view : IActuationLatch (Controller * nat) := {
  is_engaged p := latched_flag p.1;
  admits_fault_entry_hooks p := bool_decide (fault_entry_hook_thread_ p.1 = Some p.2);
}.

(** What the controller works in: itself, the router and cache its calls go
    through, the disk, and what has been sent. *)
Record SafeWorld := mkWorld {
  sw_ctl : Controller;
  sw_router : CallRouter;
  sw_cache : StateCache;
  sw_fs : FS;
  sw_sent : list Dispatch;
  sw_calls : nat;
}.

Definition put_ctl (c : Controller) (w : SafeWorld) : SafeWorld :=
  mkWorld c (sw_router w) (sw_cache w) (sw_fs w) (sw_sent w) (sw_calls w).
Definition put_fs (fs : FS) (w : SafeWorld) : SafeWorld :=
  mkWorld (sw_ctl w) (sw_router w) (sw_cache w) fs (sw_sent w) (sw_calls w).

Definition engage (at_ms : Z) (c : Controller) : Controller :=
  mkController true (fault_entry_hook_thread_ c) (Some at_ms) (latch_store_ c) None (startup_report_ c).
Definition set_hook_thread (t : option nat) (c : Controller) : Controller :=
  mkController (latched_flag c) t (latched_at_ms_ c) (latch_store_ c) (restored_reason_ c) (startup_report_ c).
Definition set_report (r : StartupSafeStateReport) (c : Controller) : Controller :=
  mkController (latched_flag c) (fault_entry_hook_thread_ c) (latched_at_ms_ c) (latch_store_ c)
    (restored_reason_ c) r.

(** ** The ladder *)

Definition cause_of (res : CallResult) : FailureCause :=
  if negb (cr_dispatched res) &&
     (bool_decide (cr_status_code res = CODE_NOT_FOUND) ||
      bool_decide (cr_status_code res = CODE_INVALID_ARGUMENT)) then CauseConfig
  else CauseRun.

(** One call of the planned rung. *)
Inductive LadderItem :=
| LCall (call : ModeTransitionCallConfig)
| LZero (handle : string) (spec : FunctionSpec).

Definition name_or_id (name : string) (id : Z) : string := if bool_decide (name = "") then to_string id else name.

Definition item_handle (i : LadderItem) : string :=
  match i with LCall call => cc_device_handle call | LZero handle _ => handle end.

(** The function as a skipped action names it. *)
Definition item_function (i : LadderItem) : string :=
  match i with
  | LCall call => name_or_id (cc_function_name call) (cc_function_id call)
  | LZero _ spec => fs_function_name spec
  end.

Definition ladder_items (r : DeviceRegistry) (safety : SafeStateConfig) (kind : SafeStateKind) : list LadderItem :=
  match kind with
  | KHooks => LCall <$> ssc_hooks safety
  | KSetpoints => LCall <$> ssc_setpoints safety
  | KZero => (λ p, LZero p.1 p.2) <$> actuating_functions_for r
  | KNone => []
  end.

Section Ladder.
Context {L D : Type} `{IActuationLatch L} `{IDeviceLossLatch D} `{FloatText} `{StatusNames} `{JsonText}.

(** The moment of one routed call. *)
Record CallCtx := mkCtx {
  cx_env : Checkpoint → Env L D;
  cx_now : Z;
  cx_wall : Z;
  cx_shutting_down : bool;
}.

Definition route (ctx : nat → CallCtx) (request : CallRequest) (w : SafeWorld) : CallResult * SafeWorld :=
  let c := ctx (sw_calls w) in
  let '(res, d, rt, cache) :=
    execute_call request (cx_env c) (cx_now c) (cx_wall c) (cx_shutting_down c) (sw_router w) (sw_cache w) in
  (res, mkWorld (sw_ctl w) rt cache (sw_fs w) (sw_sent w ++ option_list d) (S (sw_calls w))).

Definition outcome_of (handle function : string) (res : CallResult) : ActionOutcome :=
  if cr_success res then mkOutcome handle function true "" CauseRun
  else mkOutcome handle function false (cr_error_message res) (cause_of res).

Definition run_call (ctx : nat → CallCtx) (call : ModeTransitionCallConfig) (w : SafeWorld)
    : ActionOutcome * SafeWorld :=
  let '(res, w') := route ctx (to_call_request call) w in
  (outcome_of (cc_device_handle call) (name_or_id (cc_function_name call) (cc_function_id call)) res, w').

Definition run_zero_call (ctx : nat → CallCtx) (handle : string) (spec : FunctionSpec) (w : SafeWorld)
    : ActionOutcome * SafeWorld :=
  let function := name_or_id (fs_function_name spec) (fs_function_id spec) in
  match build_zero_args spec with
  | Err why => (mkOutcome handle function false why CauseConfig, w)
  | Ok args =>
      let '(res, w') := route ctx (zero_request handle spec args true) w in
      (outcome_of handle function res, w')
  end.

Definition run_item (ctx : nat → CallCtx) (i : LadderItem) (w : SafeWorld) : ActionOutcome * SafeWorld :=
  match i with
  | LCall call => run_call ctx call w
  | LZero handle spec => run_zero_call ctx handle spec w
  end.

Definition wanted (only_device : option string) (handle : string) : bool :=
  match only_device with None => true | Some d => bool_decide (handle = d) end.

(** The rung's loop: actions and skips in order. *)
Fixpoint run_items (ctx : nat → CallCtx) (only_device : option string) (absent : gmap string string)
    (items : list LadderItem) (w : SafeWorld) : list ActionOutcome * list SkippedAction * SafeWorld :=
  match items with
  | [] => ([], [], w)
  | i :: rest =>
      if negb (wanted only_device (item_handle i)) then run_items ctx only_device absent rest w
      else match absent !! item_handle i with
           | Some reason =>
               let '(acts, skips, w') := run_items ctx only_device absent rest w in
               (acts, mkSkipped (item_handle i) (item_function i) reason :: skips, w')
           | None =>
               let '(a, w1) := run_item ctx i w in
               let '(acts, skips, w') := run_items ctx only_device absent rest w1 in
               (a :: acts, skips, w')
           end
  end.

Definition run_ladder (ctx : nat → CallCtx) (r : DeviceRegistry) (safety : SafeStateConfig)
    (only_device : option string) (absent : gmap string string) (w : SafeWorld) : EstopResult * SafeWorld :=
  let kind := planned_safe_state_kind r safety in
  let '(acts, skips, w') := run_items ctx only_device absent (ladder_items r safety kind) w in
  (mkEstop kind acts skips
     (negb (bool_decide (kind = KNone)) && negb (bool_decide (length acts = 0%nat)) && forallb ao_success acts)
     false false, w').

Definition reassert_for (ctx : nat → CallCtx) (r : DeviceRegistry) (safety : SafeStateConfig)
    (device_handle : string) (w : SafeWorld) : EstopResult * SafeWorld :=
  run_ladder ctx r safety (Some device_handle) ∅ w.

Definition drive_safe_state (ctx : nat → CallCtx) (r : DeviceRegistry) (safety : SafeStateConfig)
    (absent : gmap string string) (w : SafeWorld) : EstopResult * SafeWorld :=
  let '(result, w') := run_ladder ctx r safety None absent w in
  let report := mkReport (negb (bool_decide (er_kind result = KNone))) (er_kind result)
                  (er_safe_state_achieved result)
                  (filter (λ a, ao_success a = false) (er_actions result)) (er_skipped result) in
  (result, put_ctl (set_report report (sw_ctl w')) w').

(** ** Engaging and releasing the latch *)

(** [latch_store_->save(...)]: false when the printer threw. *)
Definition persist (at_ms : Z) (reason : string) (io : SaveIO) (w : SafeWorld) : bool * SafeWorld :=
  match latch_store_ (sw_ctl w) with
  | None => (true, w)
  | Some st =>
      let '(res, trace) := save st at_ms reason io (sw_fs w) in
      (match res with Some _ => true | None => false end, put_fs (after (sw_fs w) trace) w)
  end.

(** The FAULT entry of a trigger, on thread [tid], with the admission held for it. *)
Definition fault_entry (cbs : Callbacks SafeWorld) (tid : nat) (admitted : bool) (m : MM SafeWorld)
    : bool * MM SafeWorld :=
  let m1 := if admitted then mkMM (current_mode_ m) (put_ctl (set_hook_thread (Some tid) (sw_ctl (world m))) (world m))
            else m in
  let '(res, m2) := set_mode cbs FAULT m1 in
  (is_ok_b res, mkMM (current_mode_ m2) (put_ctl (set_hook_thread None (sw_ctl (world m2))) (world m2))).

(** [trigger]; [None] is an exception.  Without a mode manager the mode is idle data. *)
Definition trigger (ctx : nat → CallCtx) (r : DeviceRegistry) (safety : SafeStateConfig)
    (cbs : option (Callbacks SafeWorld)) (tid : nat) (now_ms : Z) (reason : string) (io : SaveIO)
    (m : MM SafeWorld) : option EstopResult * MM SafeWorld :=
  let w := world m in
  let w1 := put_ctl (engage now_ms (sw_ctl w)) w in
  match persist now_ms reason io w1 with
  | (false, w2) => (None, mkMM (current_mode_ m) w2)
  | (true, w2) =>
      let '(result, w3) := run_ladder ctx r safety None ∅ w2 in
      match cbs with
      | None => (Some result, mkMM (current_mode_ m) w3)
      | Some cbs =>
          let '(ok, m') := fault_entry cbs tid (bool_decide (er_kind result = KNone)) (mkMM (current_mode_ m) w3) in
          (Some (mkEstop (er_kind result) (er_actions result) (er_skipped result)
                   (er_safe_state_achieved result) true ok), m')
      end
  end.

Definition clear (refusal : option string) (unlink_error : option string) (sync : bool) (w : SafeWorld)
    : option string * SafeWorld :=
  match refusal with
  | Some why => (Some why, w)
  | None =>
      let c := sw_ctl w in
      let w1 := put_ctl (mkController false (fault_entry_hook_thread_ c) None (latch_store_ c) None
                           (startup_report_ c)) w in
      match latch_store_ c with
      | None => (None, w1)
      | Some st => (None, put_fs (snd (remove st unlink_error sync (sw_fs w1))) w1)
      end
  end.

(** [hold]: false is an exception, which leaves before the FAULT entry. *)
Definition hold (cbs : option (Callbacks SafeWorld)) (now_ms : Z) (reason : string) (io : SaveIO)
    (m : MM SafeWorld) : bool * MM SafeWorld :=
  let w := world m in
  let '(ok, w1) :=
    if latched_flag (sw_ctl w) then (true, w)
    else persist now_ms reason io (put_ctl (engage now_ms (sw_ctl w)) w) in
  if negb ok then (false, mkMM (current_mode_ m) w1)
  else match cbs with
       | None => (true, mkMM (current_mode_ m) w1)
       | Some cbs => (true, snd (set_mode cbs FAULT (mkMM (current_mode_ m) w1)))
       end.

Definition attach_latch_store (store : option LatchStore) (io : LoadIO) (now_ms : Z) (w : SafeWorld) : SafeWorld :=
  let c := sw_ctl w in
  match store with
  | None => put_ctl (mkController (latched_flag c) (fault_entry_hook_thread_ c) (latched_at_ms_ c) None
                       (restored_reason_ c) (startup_report_ c)) w
  | Some st =>
      let persisted := load st io (sw_fs w) in
      match pl_state persisted with
      | Absent => put_ctl (mkController (latched_flag c) (fault_entry_hook_thread_ c) (latched_at_ms_ c) (Some st)
                             (restored_reason_ c) (startup_report_ c)) w
      | _ => put_ctl (mkController true (fault_entry_hook_thread_ c)
                        (Some (default now_ms (pl_latched_at_epoch_ms persisted))) (Some st)
                        (Some ("started latched: " +:+ pl_detail persisted)) (startup_report_ c)) w
      end
  end.

(** [capability]. *)
Record EstopCapability := mkCapability {
  cap_latched : bool;
  cap_software_safe_state : SafeStateKind;
  cap_latched_at_epoch_ms : option Z;
  cap_uncovered_count : nat;
  cap_uncovered_functions : list string;
  cap_restored_reason : option string;
}.

Definition capability (r : DeviceRegistry) (safety : SafeStateConfig) (c : Controller) : EstopCapability :=
  let kind := planned_safe_state_kind r safety in
  let uncovered := uncovered_functions r safety kind in
  mkCapability (latched_flag c) kind (latched_at_ms_ c) (length uncovered) uncovered (restored_reason_ c).

End Ladder.
Arguments CallCtx : clear implicits.

(** ** What a ladder run sends *)

(** A dispatch that answers the selectors of a request. *)
Definition answers (handle : string) (id : Z) (name : string) (d : Dispatch) : Prop :=
  d_handle d = handle ∧ d_safe_state d = true ∧
  (id ≠ 0 → fs_function_id (d_spec d) = id) ∧ (name ≠ "" → d_function_name d = name) ∧ (id ≠ 0 ∨ name ≠ "").

Definition item_answered (i : LadderItem) (d : Dispatch) : Prop :=
  match i with
  | LCall call => answers (cc_device_handle call) (cc_function_id call) (cc_function_name call) d
  | LZero handle spec => answers handle (fs_function_id spec) (fs_function_name spec) d
  end.

(** A dispatch that drives a function of a device. *)
Definition drives (handle : string) (spec : FunctionSpec) (d : Dispatch) : Prop :=
  d_handle d = handle ∧ d_safe_state d = true ∧
  (fs_function_id (d_spec d) = fs_function_id spec ∨ d_function_name d = fs_function_name spec).

Lemma resolve_selects device request name spec :
  resolve_function_spec device request = Ok (name, spec) →
  (rq_function_id request ≠ 0 → fs_function_id spec = rq_function_id request) ∧
  (rq_function_name request ≠ "" → name = rq_function_name request) ∧
  (rq_function_id request ≠ 0 ∨ rq_function_name request ≠ "").
Proof.
  unfold resolve_function_spec. destruct (Z.eqb_spec (rq_function_id request) 0) as [E|E]; simpl.
  - destruct (bool_decide_reflect (rq_function_name request = "")); [done|].
    destruct (validate_function_exists _ _); [|done]. intros [= <- _]. tauto.
  - destruct (list_find _ _) as [[i [n s]]|] eqn:Ef; [|done].
    apply list_find_Some in Ef as (_ & Hid & _). simpl in Hid.
    destruct (bool_decide_reflect (rq_function_name request = "")), (bool_decide_reflect (rq_function_name request = n));
      simpl; try done; intros [= <- <-]; by split_and!; auto.
Qed.

Lemma answers_drives handle id name d spec :
  answers handle id name d → (id ≠ 0 → id = fs_function_id spec) → (name ≠ "" → name = fs_function_name spec) →
  drives handle spec d.
Proof.
  intros (H1 & H2 & H3 & H4 & [H5|H5]) Hid Hname; split_and!; try done; [left|right];
    [rewrite H3 by done; auto|rewrite H4 by done; auto].
Qed.

Lemma setpoint_matches_spec s handle spec :
  setpoint_matches s handle spec = true →
  cc_device_handle s = handle ∧ (cc_function_id s ≠ 0 → cc_function_id s = fs_function_id spec) ∧
  (cc_function_name s ≠ "" → cc_function_name s = fs_function_name spec).
Proof.
  unfold setpoint_matches. destruct (bool_decide_reflect (cc_device_handle s = handle)); [|done]. simpl.
  destruct (Z.eqb_spec (cc_function_id s) 0), (bool_decide_reflect (cc_function_name s = "")); simpl;
    repeat case_match; try done; bool_facts; intros _; split_and!; try done; by intros.
Qed.

Section LadderFacts.
Context {L D : Type} `{IActuationLatch L} `{IDeviceLossLatch D} `{FloatText} `{StatusNames} `{JsonText}.
Implicit Types (ctx : nat → CallCtx L D) (w : SafeWorld).

(** What a routed call leaves alone, and what it sent when it was dispatched. *)
Lemma route_spec ctx request w :
  ∃ res od w', route ctx request w = (res, w') ∧ sw_ctl w' = sw_ctl w ∧ sw_fs w' = sw_fs w ∧
    sw_sent w' = sw_sent w ++ option_list od ∧ (cr_dispatched res = true ↔ is_Some od) ∧
    (cr_success res = true → is_Some od) ∧
    ∀ d, od = Some d → rq_safe_state request = true →
         answers (rq_device_handle request) (rq_function_id request) (rq_function_name request) d.
Proof.
  unfold route. set (c := ctx (sw_calls w)).
  pose proof (execute_call_refused request (cx_env c) (cx_now c) (cx_wall c) (cx_shutting_down c)
    (sw_router w) (sw_cache w)) as Hno.
  destruct (execute_call _ _ _ _ _ _ _) as [[[res od] rt] cache] eqn:E. eexists _, od, _.
  split; [done|]. split_and!; [done..| | |].
  - destruct od; [by split; eauto|]. destruct Hno as (_ & _ & -> & _). split; [done|by intros [? ?]].
  - destruct od; [by eauto|]. destruct Hno as (_ & _ & _ & -> & _). done.
  - intros d -> Hs. apply execute_call_sent in E as (p & rt1 & Hp & _ & Hd).
    destruct (dispatch_sent request p (cx_env c) (cx_now c) (cx_wall c) (cx_shutting_down c) rt1 (sw_cache w))
      as (? & ? & ? & Hd' & _). rewrite Hd in Hd'. simplify_eq.
    destruct (po_device _ _ _ Hp) as (dev & _ & Hr). by apply resolve_selects in Hr.
Qed.

(** One item: it touches neither the controller nor the disk, sends at most one
    call, which answers it, and sends one if it reports success. *)
Lemma run_item_spec ctx i w :
  ∃ a od w', run_item ctx i w = (a, w') ∧ sw_ctl w' = sw_ctl w ∧ sw_fs w' = sw_fs w ∧
    sw_sent w' = sw_sent w ++ option_list od ∧ (ao_success a = true → is_Some od) ∧
    ∀ d, od = Some d → item_answered i d.
Proof.
  assert (∀ h f res, ao_success (outcome_of h f res) = cr_success res) as Hout.
  { intros h f res. unfold outcome_of. by destruct (cr_success res). }
  destruct i as [call|handle spec]; simpl.
  - unfold run_call. destruct (route_spec ctx (to_call_request call) w)
      as (res & od & w' & -> & H1' & H2' & H3' & _ & H4' & H5').
    eexists _, od, w'. split; [done|]. rewrite Hout. split_and!; [done..|]. intros d Hd. by apply H5'.
  - unfold run_zero_call. destruct (build_zero_args spec) as [args|why].
    + destruct (route_spec ctx (zero_request handle spec args true) w)
        as (res & od & w' & -> & H1' & H2' & H3' & _ & H4' & H5').
      eexists _, od, w'. split; [done|]. rewrite Hout. split_and!; [done..|]. intros d Hd. by apply H5'.
    + eexists _, None, w. split; [done|]. simpl. by rewrite app_nil_r.
Qed.

(** The items a run is due to issue. *)
Definition due (only : option string) (absent : gmap string string) (i : LadderItem) : Prop :=
  wanted only (item_handle i) = true ∧ absent !! item_handle i = None.
#[global] Instance due_dec only absent i : Decision (due only absent i) := ltac:(unfold due; apply _).

Lemma run_items_spec ctx only absent items w :
  ∃ acts skips w' ds, run_items ctx only absent items w = (acts, skips, w') ∧
    sw_ctl w' = sw_ctl w ∧ sw_fs w' = sw_fs w ∧ sw_sent w' = sw_sent w ++ ds ∧
    length acts = length (filter (due only absent) items) ∧
    (forallb ao_success acts = true → Forall2 item_answered (filter (due only absent) items) ds).
Proof.
  revert w. induction items as [|i items IH]; intros w; simpl run_items.
  { exists [], [], w, []. rewrite app_nil_r. by split_and!. }
  rewrite filter_cons. destruct (wanted only (item_handle i)) eqn:Ew; simpl.
  2:{ rewrite decide_False by (unfold due; rewrite Ew; naive_solver). apply IH. }
  destruct (absent !! item_handle i) as [reason|] eqn:Ea.
  { rewrite decide_False by (unfold due; rewrite Ea; naive_solver).
    destruct (IH w) as (acts & skips & w' & ds & -> & Hrest). by eexists _, _, _, _. }
  rewrite decide_True by done.
  destruct (run_item_spec ctx i w) as (a & od & w1 & -> & C1 & F1 & S1 & Ha & Hd).
  destruct (IH w1) as (acts & skips & w' & ds & -> & C2 & F2 & S2 & Hlen & Hall).
  eexists _, _, _, (option_list od ++ ds). split; [done|].
  split_and!; [congruence..|by rewrite S2, S1, app_assoc|simpl; by rewrite Hlen|].
  simpl. intros [Hs Hss]%andb_true_iff. destruct (Ha Hs) as [d ->]. constructor; [by apply Hd|by apply Hall].
Qed.

End LadderFacts.

Lemma due_all (items : list LadderItem) : filter (due None ∅) items = items.
Proof. apply filter_all, Forall_forall. intros i _. split; [done|apply lookup_empty]. Qed.

Lemma planned_setpoints_cover r safety handle spec :
  planned_safe_state_kind r safety = KSetpoints → (handle, spec) ∈ actuating_functions_for r →
  ∃ s, s ∈ ssc_setpoints safety ∧ setpoint_matches s handle spec = true.
Proof.
  unfold planned_safe_state_kind. case_bool_decide; simpl; [|done].
  case_bool_decide; simpl; [by case_match|]. case_bool_decide as Hu; [|by case_match]. intros _ Hin.
  destruct (existsb (λ s, setpoint_matches s handle spec) (ssc_setpoints safety)) eqn:E.
  - apply existsb_exists in E as (s & Hs & Hm). exists s. by rewrite list_elem_of_In.
  - assert ((handle, spec) ∈ filter (λ p : string * FunctionSpec,
      ¬ existsb (λ s, setpoint_matches s p.1 p.2) (ssc_setpoints safety) = true) (actuating_functions_for r)) as Hf.
    { apply list_elem_of_filter. simpl. by rewrite E. }
    rewrite Hu in Hf. by apply not_elem_of_nil in Hf.
Qed.

(** Every actuator has an item in the setpoints and the zero rung. *)
Lemma planned_item r safety handle spec :
  planned_safe_state_kind r safety = KSetpoints ∨ planned_safe_state_kind r safety = KZero →
  (handle, spec) ∈ actuating_functions_for r →
  ∃ i, i ∈ ladder_items r safety (planned_safe_state_kind r safety) ∧ item_handle i = handle ∧
       ∀ d, item_answered i d → drives handle spec d.
Proof.
  intros [Hk|Hk] Hin; rewrite Hk.
  - destruct (planned_setpoints_cover _ _ _ _ Hk Hin) as (s & Hs & Hm).
    apply setpoint_matches_spec in Hm as (<- & Hid & Hname). exists (LCall s).
    split_and!; [by apply list_elem_of_fmap_2|done|]. intros d Ha. by eapply answers_drives.
  - exists (LZero handle spec). split_and!; [apply list_elem_of_fmap; by exists (handle, spec)|done|].
    intros d Ha. by eapply answers_drives.
Qed.

(** What a whole-machine run leaves out is listed. *)
Lemma run_items_skips {L D} `{IActuationLatch L} `{IDeviceLossLatch D} `{FloatText} `{StatusNames}
    (ctx : nat → CallCtx L D) absent items w acts skips w' i reason :
  run_items ctx None absent items w = (acts, skips, w') → i ∈ items → absent !! item_handle i = Some reason →
  mkSkipped (item_handle i) (item_function i) reason ∈ skips.
Proof.
  revert w acts skips w'. induction items as [|j items IH]; intros w acts skips w' E Hi Ha;
    [by apply not_elem_of_nil in Hi|]. simpl in E.
  destruct (absent !! item_handle j) as [reason'|] eqn:Ej.
  - destruct (run_items ctx None absent items w) as [[acts1 skips1] w1] eqn:E1. simplify_eq.
    apply elem_of_cons in Hi as [->|Hi]; [rewrite Ha in Ej; simplify_eq; left|right; by eapply IH].
  - destruct (run_item ctx j w) as [a w1]. destruct (run_items ctx None absent items w1) as [[acts1 skips1] w2] eqn:E1.
    simplify_eq. apply elem_of_cons in Hi as [->|Hi]; [congruence|by eapply IH].
Qed.

(** ** Theorems *)

Module LadderBench.
#[export] Existing Instance plain_text.
#[export] Existing Instance Bench.names.
Definition setpoint (duty : Z) : ModeTransitionCallConfig :=
  mkCallConfig "sim0/pump" 0 "set_duty" {[ "duty" := PInt64 duty ]}.
Definition safety : SafeStateConfig := mkSafeStateConfig [] [setpoint 0] false.
Definition registry : DeviceRegistry := commit_provider_devices "sim0" [Bench.pump 0] true empty_registry.
Definition ctx (n : nat) : CallCtx FixedLatch DeviceLossLatch.DeviceLossLatch :=
  mkCtx (Bench.env 0 true) (Z.of_nat n) 0 false.
Definition codec : JsonText := one_record ("/etc/anolis", 1700000000000, "operator").
Definition controller : Controller := mkController false None None (Some sample_store) None no_report.
Definition w0 : SafeWorld := mkWorld controller new_router Bench.cache (empty_fs true) [] 0.
Definition quiet : Callbacks SafeWorld := mkCallbacks [] [] [].
End LadderBench.

(** C6. "Safe state achieved" means every actuator was driven: when a
    whole-machine run of the setpoints or the zero rung reports it, then every
    ACTUATE function of the inventory was sent a safe-state call that selects it
    during the run, or its device was one the run was told to leave out, and then
    the result lists a skipped call of that device with the reason.  An e-stop
    leaves nothing out ([absent] is empty). *)
Theorem achieved_drives_every_actuator {L D} `{IActuationLatch L} `{IDeviceLossLatch D} `{FloatText}
    `{StatusNames} (ctx : nat → CallCtx L D) (r : DeviceRegistry) (safety : SafeStateConfig)
    (absent : gmap string string) (w : SafeWorld) (res : EstopResult) (w' : SafeWorld) :
  run_ladder ctx r safety None absent w = (res, w') →
  er_safe_state_achieved res = true → er_kind res = KSetpoints ∨ er_kind res = KZero →
  ∃ ds, sw_sent w' = sw_sent w ++ ds ∧
    ∀ handle spec, (handle, spec) ∈ actuating_functions_for r →
      match absent !! handle with
      | None => ∃ d, d ∈ ds ∧ drives handle spec d
      | Some reason => ∃ function, mkSkipped handle function reason ∈ er_skipped res
      end.
Proof.
  unfold run_ladder. set (kind := planned_safe_state_kind r safety).
  destruct (run_items_spec ctx None absent (ladder_items r safety kind) w)
    as (acts & skips & w1 & ds & E & _ & _ & Hsent & _ & Hall). rewrite E.
  intros [= <- <-]. simpl. intros [_ Hok]%andb_true_iff Hkind. specialize (Hall Hok).
  exists ds. split; [done|]. intros handle spec Hin.
  assert (∃ i, i ∈ ladder_items r safety kind ∧ item_handle i = handle ∧ ∀ d, item_answered i d → drives handle spec d)
    as (i & Hi & Hh & Hd) by (by apply planned_item).
  destruct (absent !! handle) as [reason|] eqn:Ea.
  - exists (item_function i). rewrite <- Hh. eapply run_items_skips; [exact E|done|by rewrite Hh].
  - assert (i ∈ filter (due None absent) (ladder_items r safety kind)) as [n Hn]%list_elem_of_lookup.
    { apply list_elem_of_filter. split; [|done]. unfold due. by rewrite Hh. }
    destruct (Forall2_lookup_l _ _ _ _ _ Hall Hn) as (d & Hd' & Ha).
    exists d. split; [by eapply list_elem_of_lookup_2|auto].
Qed.

Example achieved_drives_every_actuator_witness :
  let out := run_ladder (H1 := plain_text) (H2 := Bench.names) LadderBench.ctx LadderBench.registry
               LadderBench.safety None ∅ LadderBench.w0 in
  er_safe_state_achieved out.1 = true ∧
  ∃ ds, sw_sent out.2 = ds ∧
    ∀ handle spec, (handle, spec) ∈ actuating_functions_for LadderBench.registry →
    ∃ d, d ∈ ds ∧ drives handle spec d.
Proof.
  cbv zeta. split; [vm_compute; reflexivity|].
  destruct (run_ladder _ _ _ _ _ _) as [res w'] eqn:E.
  assert (er_safe_state_achieved res = true ∧ er_kind res = KSetpoints) as [Ha Hk].
  { vm_compute in E. injection E as <- _. split; reflexivity. }
  exact (achieved_drives_every_actuator LadderBench.ctx LadderBench.registry LadderBench.safety ∅ LadderBench.w0
    res w' E Ha (or_introl Hk)).
Defined.

(** ** Coverage *)

Section Coverage.
Context {L D : Type} `{IActuationLatch L} `{IDeviceLossLatch D} `{FloatText} `{StatusNames}.
Implicit Types (ctx : nat → CallCtx L D).

(** Every call of the run finds this inventory, and the provider of every
    registered device connected and available. *)
Definition connected ctx (r : DeviceRegistry) : Prop :=
  ∀ n, env_registry (cx_env (ctx n) AtDevice) = r ∧
    ∀ handle pid did device,
    parse_device_handle handle = Ok (pid, did) → get_device_copy r pid did = Some device →
    ∃ p, env_providers (cx_env (ctx n) AtProvider) !! pid = Some p ∧ ph_is_available (p_poll p) = true.

(** The call an item makes, and that it passes the dry run. *)
Definition item_valid (r : DeviceRegistry) (i : LadderItem) : Prop :=
  match i with
  | LCall call => is_valid_call r (to_call_request call) = true
  | LZero handle spec => zero_covers r handle spec = true
  end.

Lemma route_valid_sent ctx r request w :
  connected ctx r → rq_safe_state request = true → is_valid_call r request = true →
  ∃ d, sw_sent (route ctx request w).2 = sw_sent w ++ [d] ∧
       answers (rq_device_handle request) (rq_function_id request) (rq_function_name request) d.
Proof.
  intros Hc Hs Hv. destruct (route_spec ctx request w) as (res & od & w' & Hr & _ & _ & Hsent & Hd & _ & Ha).
  destruct (Hc (sw_calls w)) as [Hreg Hprov].
  unfold is_valid_call in Hv. apply is_ok_b_true in Hv as [[] Hv].
  apply validate_call_ok in Hv as (pid & did & dev & name & spec & args & Hh & Hdev & Hres & Hco & Hva).
  destruct (Hprov _ pid did dev Hh Hdev) as (ph & Hph & Hav).
  assert (is_Some od) as [d ->].
  { apply Hd. revert Hr. unfold route.
    destruct (safe_state_sent request (cx_env (ctx (sw_calls w))) (cx_now (ctx (sw_calls w)))
      (cx_wall (ctx (sw_calls w))) (cx_shutting_down (ctx (sw_calls w))) (sw_router w) (sw_cache w)
      (mkPrepared pid did ph name spec args) dev) as (rt' & ->); try done; [by rewrite Hreg|].
    edestruct (dispatch_sent request (mkPrepared pid did ph name spec args) (cx_env (ctx (sw_calls w))))
      as (res' & rt2 & cache' & -> & Hdisp & _). by intros [= <- _]. }
  exists d. rewrite Hr. split; [done|]. by apply Ha.
Qed.

Lemma run_item_valid_sent ctx r i w :
  connected ctx r → item_valid r i →
  ∃ d, sw_sent (run_item ctx i w).2 = sw_sent w ++ [d] ∧ item_answered i d.
Proof.
  intros Hc Hv. destruct i as [call|handle spec]; simpl in *.
  - destruct (route_valid_sent ctx r (to_call_request call) w Hc eq_refl Hv) as (d & Hd & Ha).
    exists d. unfold run_call. by destruct (route ctx _ w).
  - unfold zero_covers in Hv. unfold run_zero_call. destruct (build_zero_args spec) as [args|]; [|done].
    destruct (route_valid_sent ctx r (zero_request handle spec args true) w Hc eq_refl Hv) as (d & Hd & Ha).
    exists d. by destruct (route ctx _ w).
Qed.

Lemma run_items_valid_sent ctx r items w acts skips w' :
  connected ctx r → run_items ctx None ∅ items w = (acts, skips, w') →
  ∃ ds, sw_sent w' = sw_sent w ++ ds ∧
    ∀ i, i ∈ items → item_valid r i → ∃ d, d ∈ ds ∧ item_answered i d.
Proof.
  intros Hc. revert w acts skips w'. induction items as [|i items IH]; intros w acts skips w'; simpl.
  { intros [= <- <- <-]. exists []. rewrite app_nil_r. split; [done|]. intros i Hi. by apply not_elem_of_nil in Hi. }
  rewrite lookup_empty. pose proof (run_item_valid_sent ctx r i w Hc) as Hv.
  destruct (run_item_spec ctx i w) as (a & od & w1 & Er & _ & _ & Hs & _). rewrite Er in Hv |- *.
  destruct (run_items ctx None ∅ items w1) as [[acts1 skips1] w2] eqn:E. intros [= <- <- <-].
  destruct (IH _ _ _ _ E) as (ds & Hds & Hall). exists (option_list od ++ ds). split.
  - by rewrite Hds, Hs, app_assoc.
  - intros j [->|Hj]%elem_of_cons Hjv.
    + destruct (Hv Hjv) as (d & Hd & Ha). simpl in Hd. rewrite Hs in Hd. apply app_inv_head in Hd.
      exists d. rewrite Hd. split; [set_solver|done].
    + destruct (Hall j Hj Hjv) as (d & Hd & Ha). exists d. split; [set_solver|done].
Qed.

(** A function not reported uncovered has a valid item in the rung. *)
Lemma covered_item r safety kind handle spec :
  (handle, spec) ∈ actuating_functions_for r → kind ≠ KNone →
  function_label handle spec ∉ uncovered_functions r safety kind →
  ∃ i, i ∈ ladder_items r safety kind ∧ item_valid r i ∧ ∀ d, item_answered i d → drives handle spec d.
Proof.
  intros Hin Hk Hu.
  assert (∀ calls, function_label handle spec ∉ uncovered_actuating_functions r calls →
    ∃ i, i ∈ (LCall <$> calls) ∧ item_valid r i ∧ ∀ d, item_answered i d → drives handle spec d) as Hcalls.
  { intros calls Hn.
    destruct (existsb (λ c, setpoint_matches c handle spec && is_valid_call r (to_call_request c)) calls) eqn:E.
    - apply existsb_exists in E as (c & Hc & [Hm Hv]%andb_true_iff). exists (LCall c). simpl.
      split_and!; [by apply list_elem_of_fmap_2, list_elem_of_In|done|]. intros d Ha.
      apply setpoint_matches_spec in Hm as (<- & Hid & Hname). by eapply answers_drives.
    - destruct Hn. apply list_elem_of_fmap. exists (handle, spec). split; [done|].
      apply list_elem_of_filter. simpl. by rewrite E. }
  destruct kind; simpl in *; [done|by apply Hcalls|by apply Hcalls|].
  exists (LZero handle spec). split_and!.
  - apply list_elem_of_fmap. by exists (handle, spec).
  - simpl. destruct (zero_covers r handle spec) eqn:E; [done|]. destruct Hu. apply list_elem_of_fmap.
    exists (handle, spec). split; [done|]. apply list_elem_of_filter. simpl. by rewrite E.
  - intros d Ha. by eapply answers_drives.
Qed.

End Coverage.

(** The uncovered-functions report is honest: whichever rung is planned,
    with the inventory unchanged and its providers connected, an ACTUATE
    function the report does not list gets a safe-state call that selects it
    when the ladder runs, even when other calls of the rung fail. *)
Theorem unlisted_functions_are_driven {L D} `{IActuationLatch L} `{IDeviceLossLatch D} `{FloatText}
    `{StatusNames} (ctx : nat → CallCtx L D) (r : DeviceRegistry) (safety : SafeStateConfig) (c : Controller)
    (w : SafeWorld) (handle : string) (spec : FunctionSpec) :
  connected ctx r → (handle, spec) ∈ actuating_functions_for r →
  cap_software_safe_state (capability r safety c) ≠ KNone →
  function_label handle spec ∉ cap_uncovered_functions (capability r safety c) →
  ∃ ds, sw_sent (run_ladder ctx r safety None ∅ w).2 = sw_sent w ++ ds ∧ ∃ d, d ∈ ds ∧ drives handle spec d.
Proof.
  intros Hc Hin Hk Hu. simpl in *. destruct (covered_item _ _ _ _ _ Hin Hk Hu) as (i & Hi & Hv & Hd).
  unfold run_ladder. destruct (run_items _ _ _ _ _) as [[acts skips] w'] eqn:E.
  destruct (run_items_valid_sent ctx r _ _ _ _ _ Hc E) as (ds & Hs & Hall).
  exists ds. split; [done|]. destruct (Hall i Hi Hv) as (d & Hd' & Ha). by eauto.
Qed.

Lemma bench_connected : connected LadderBench.ctx LadderBench.registry.
Proof.
  intros n. split; [reflexivity|]. intros handle pid did device Hp E. apply parse_make_handle in Hp as Hh.
  assert (handle = "sim0/pump") as ->.
  { unfold get_device_copy, get_device_by_handle_copy in E. rewrite Hh in E.
    change (handle_to_index_ LadderBench.registry) with (<["sim0/pump" := 0%nat]> (∅ : gmap string nat)) in E.
    rewrite lookup_insert, lookup_empty in E. by case_decide. }
  vm_compute in Hp. injection Hp as <- <-. by exists Bench.provider.
Qed.

Example unlisted_functions_are_driven_witness :
  ∃ ds, sw_sent (run_ladder (H1 := plain_text) (H2 := Bench.names) LadderBench.ctx LadderBench.registry
                   LadderBench.safety None ∅ LadderBench.w0).2 = [] ++ ds ∧
        ∃ d, d ∈ ds ∧ drives "sim0/pump" (Bench.pump_spec 0) d.
Proof.
  apply (unlisted_functions_are_driven (H1 := plain_text) (H2 := Bench.names) LadderBench.ctx
    LadderBench.registry LadderBench.safety new_controller LadderBench.w0 "sim0/pump" (Bench.pump_spec 0)
    bench_connected).
  - left.
  - vm_compute. discriminate.
  - assert (cap_uncovered_functions (capability (H1 := plain_text) LadderBench.registry LadderBench.safety
      new_controller) = []) as -> by (vm_compute; reflexivity). apply not_elem_of_nil.
Defined.

(** ** The latch across operations *)

Section LatchFacts.
Context {L D : Type} `{IActuationLatch L} `{IDeviceLossLatch D} `{FloatText} `{StatusNames} `{JsonText}.
Implicit Types (ctx : nat → CallCtx L D) (w : SafeWorld) (m : MM SafeWorld).

Definition engaged_world w : Prop := latched_flag (sw_ctl w) = true ∧ is_Some (latched_at_ms_ (sw_ctl w)).

Lemma run_ladder_keeps ctx r safety only absent w :
  sw_ctl (run_ladder ctx r safety only absent w).2 = sw_ctl w ∧
  sw_fs (run_ladder ctx r safety only absent w).2 = sw_fs w.
Proof.
  unfold run_ladder.
  by destruct (run_items_spec ctx only absent (ladder_items r safety (planned_safe_state_kind r safety)) w)
    as (acts & skips & w' & ds & -> & ? & ? & _).
Qed.

Lemma persist_ctl at_ms reason io w : sw_ctl (persist at_ms reason io w).2 = sw_ctl w.
Proof. unfold persist. destruct (latch_store_ _); [|done]. by destruct (save _ _ _ _ _). Qed.

Lemma fault_entry_spec cbs tid admitted m :
  after_keeps_mode (callbacks_ cbs) → callbacks_keep engaged_world cbs → engaged_world (world m) →
  ∃ m', fault_entry cbs tid admitted m = (true, m') ∧ current_mode_ m' = FAULT ∧ engaged_world (world m') ∧
        fault_entry_hook_thread_ (sw_ctl (world m')) = None.
Proof.
  intros Ha Hk He. unfold fault_entry. set (m1 := if admitted then _ else m).
  assert (engaged_world (world m1)) as He1 by (by subst m1; destruct admitted).
  destruct (set_mode_FAULT cbs m1 Ha) as (m2 & E & Hm).
  pose proof (set_mode_keeps engaged_world cbs FAULT m1 Hk He1) as He2. rewrite E in He2 |- *. simpl in *.
  by eexists.
Qed.

Lemma trigger_spec ctx r safety cbs tid now_ms reason io m :
  (∀ c, cbs = Some c → after_keeps_mode (callbacks_ c) ∧ callbacks_keep engaged_world c) →
  match trigger ctx r safety cbs tid now_ms reason io m with
  | (Some res, m') =>
      engaged_world (world m') ∧ er_kind res = planned_safe_state_kind r safety ∧
      match cbs with
      | Some _ => current_mode_ m' = FAULT ∧ er_fault_ok res = true ∧
                  fault_entry_hook_thread_ (sw_ctl (world m')) = None
      | None => current_mode_ m' = current_mode_ m
      end
  | (None, m') =>
      engaged_world (world m') ∧
      ∃ st, latch_store_ (sw_ctl (world m)) = Some st ∧ json_dump (latch_doc (config_dir_ st) now_ms reason) = None
  end.
Proof.
  intros Hcbs. unfold trigger. set (w1 := put_ctl _ (world m)).
  assert (engaged_world w1) as He1 by (split; [done|by eexists]).
  pose proof (persist_ctl now_ms reason io w1) as Hctl.
  destruct (persist now_ms reason io w1) as [ok w2] eqn:Ep. simpl in Hctl.
  assert (engaged_world w2) as He2 by (unfold engaged_world in *; by rewrite Hctl).
  destruct ok.
  - destruct (run_ladder_keeps ctx r safety None ∅ w2) as [Hc3 _].
    assert (er_kind (run_ladder ctx r safety None ∅ w2).1 = planned_safe_state_kind r safety) as Hk.
    { unfold run_ladder. by destruct (run_items _ _ _ _ _) as [[? ?] ?]. }
    destruct (run_ladder ctx r safety None ∅ w2) as [res w3]. simpl in *.
    assert (engaged_world w3) as He3 by (unfold engaged_world in *; by rewrite Hc3).
    destruct cbs as [cbs|]; [|done]. destruct (Hcbs cbs eq_refl) as [Ha Hkeep].
    destruct (fault_entry_spec cbs tid (bool_decide (er_kind res = KNone)) (mkMM (current_mode_ m) w3) Ha Hkeep He3)
      as (m' & -> & ? & ? & ?). done.
  - split; [done|]. unfold persist in Ep. simpl in Ep.
    destruct (latch_store_ (sw_ctl (world m))) as [st|]; [|done]. exists st. split; [done|].
    unfold save in Ep. destruct (mkdir_error io); [done|]. destruct (json_dump _); [|done].
    by repeat case_match.
Qed.

End LatchFacts.

(** ** What a trigger runs *)

Section Rung.
Context {L D : Type} `{IActuationLatch L} `{IDeviceLossLatch D} `{FloatText} `{StatusNames} `{JsonText}.
Implicit Types (ctx : nat → CallCtx L D).

(** What became of one item of the rung: its outcome, and the call sent for it.
    Success means a call that answers the item was sent; on a connected inventory
    every call the dry run accepts is sent, whatever becomes of the others. *)
Record item_done ctx (r : DeviceRegistry) (i : LadderItem) (p : ActionOutcome * option Dispatch) : Prop := {
  done_sent : ao_success p.1 = true → is_Some p.2;
  done_answers : ∀ d, p.2 = Some d → item_answered i d;
  done_valid : connected ctx r → item_valid r i → is_Some p.2;
}.

Definition sent_for (ps : list (ActionOutcome * option Dispatch)) : list Dispatch := ps.*2 ≫= option_list.

(** What a run was told to leave out, as it reports it. *)
Definition left_out (absent : gmap string string) (items : list LadderItem) : list SkippedAction :=
  omap (λ i, mkSkipped (item_handle i) (item_function i) <$> absent !! item_handle i) items.

Lemma run_items_done ctx r absent items w :
  ∃ ps w', run_items ctx None absent items w = (ps.*1, left_out absent items, w') ∧
           Forall2 (item_done ctx r) (filter (due None absent) items) ps ∧ sw_sent w' = sw_sent w ++ sent_for ps.
Proof.
  revert w. induction items as [|i items IH]; intros w; simpl.
  { exists [], w. unfold sent_for. simpl. by rewrite app_nil_r. }
  unfold left_out. simpl. rewrite filter_cons. destruct (absent !! item_handle i) as [reason|] eqn:Ea; simpl.
  { rewrite decide_False by (unfold due; rewrite Ea; naive_solver).
    destruct (IH w) as (ps & w' & -> & Hps & Hs). by exists ps, w'. }
  rewrite decide_True by done. pose proof (run_item_valid_sent ctx r i w) as Hv.
  destruct (run_item_spec ctx i w) as (a & od & w1 & Er & _ & _ & Hs & Ha & Hd). rewrite Er in Hv |- *. simpl in Hv.
  destruct (IH w1) as (ps & w' & -> & Hps & Hsent). exists ((a, od) :: ps), w'. split; [done|]. split.
  - constructor; [|done]. constructor; [done|done|]. intros Hc Hi. destruct (Hv Hc Hi) as (d & Hd' & _).
    rewrite Hs in Hd'. apply app_inv_head in Hd'. destruct od; [by eexists|done].
  - rewrite Hsent, Hs, <- app_assoc. done.
Qed.

(** The rung as a run's result reports it: every item that is due, in order, and
    what was sent for it; the others listed as left out. *)
Definition rung_ran ctx r safety (absent : gmap string string) (res : EstopResult) (before now : list Dispatch) : Prop :=
  let items := ladder_items r safety (planned_safe_state_kind r safety) in
  ∃ ps, Forall2 (item_done ctx r) (filter (due None absent) items) ps ∧ er_actions res = ps.*1 ∧
        er_skipped res = left_out absent items ∧ (before ++ sent_for ps) `prefix_of` now ∧
        er_safe_state_achieved res =
          negb (bool_decide (planned_safe_state_kind r safety = KNone)) &&
          negb (bool_decide (filter (due None absent) items = [])) && forallb ao_success ps.*1.

Lemma run_ladder_rung ctx r safety absent w :
  rung_ran ctx r safety absent (run_ladder ctx r safety None absent w).1 (sw_sent w)
    (sw_sent (run_ladder ctx r safety None absent w).2).
Proof.
  unfold run_ladder, rung_ran.
  destruct (run_items_done ctx r absent (ladder_items r safety (planned_safe_state_kind r safety)) w)
    as (ps & w' & -> & Hps & Hs). simpl. exists ps. split_and!; [done..|by rewrite Hs|].
  do 3 f_equal. apply bool_decide_ext. by rewrite length_fmap, <- (Forall2_length _ _ _ Hps), length_zero_iff_nil.
Qed.

Lemma rung_ran_later ctx r safety absent res before now now' :
  now `prefix_of` now' → rung_ran ctx r safety absent res before now → rung_ran ctx r safety absent res before now'.
Proof. intros Hn (ps & ? & ? & ? & ? & ?). exists ps. split_and!; [done..|by etrans|done]. Qed.

Lemma trigger_rung ctx r safety cbs tid now_ms reason io m :
  (∀ c, cbs = Some c → ∀ sent, callbacks_keep (λ w, sent `prefix_of` sw_sent w) c) →
  match trigger ctx r safety cbs tid now_ms reason io m with
  | (Some res, m') => rung_ran ctx r safety ∅ res (sw_sent (world m)) (sw_sent (world m'))
  | (None, m') => sw_sent (world m') = sw_sent (world m)
  end.
Proof.
  intros Hk. unfold trigger.
  assert (∀ at_ms w, sw_sent (persist at_ms reason io w).2 = sw_sent w) as Hp.
  { intros at_ms w. unfold persist. destruct (latch_store_ _); [|done]. by destruct (save _ _ _ _ _). }
  specialize (Hp now_ms (put_ctl (engage now_ms (sw_ctl (world m))) (world m))).
  destruct (persist _ _ _ _) as [[] w2]; [|done]. simpl in Hp.
  pose proof (run_ladder_rung ctx r safety ∅ w2) as Hr. rewrite Hp in Hr.
  destruct (run_ladder ctx r safety None ∅ w2) as [er w3]. simpl in Hr. destruct cbs as [cbs|]; simpl; [|done].
  unfold fault_entry. set (m1 := if bool_decide _ then _ else _).
  assert (sw_sent (world m1) = sw_sent w3) as Hm1. { subst m1. by destruct (bool_decide (_ = KNone)). }
  pose proof (set_mode_keeps (λ w, sw_sent w3 `prefix_of` sw_sent w) cbs FAULT m1 (Hk cbs eq_refl _)
    ltac:(simpl; by rewrite Hm1)) as Hpre.
  destruct (set_mode cbs FAULT m1) as [ok m2]. simpl in *. by eapply rung_ran_later.
Qed.
End Rung.

(** C4. An e-stop always latches, runs the planned rung and reaches FAULT: with an
    automation machine's callbacks, which leave the latch, the mode and the calls
    already sent alone, a trigger leaves the latch engaged with its time set; it
    went through every item of the planned rung in order, sent a call that answers
    the item for each it reports done and for each the dry run accepts on a
    connected inventory, and reports the safe state exactly when all of them
    succeeded; it ends in FAULT, says so, and leaves no hook admitted through the
    latch.  The only other outcome is the record's printer throwing, which still
    leaves the latch engaged. *)
Theorem trigger_latches_and_faults {L D} `{IActuationLatch L} `{IDeviceLossLatch D} `{FloatText}
    `{StatusNames} `{JsonText} (ctx : nat → CallCtx L D) (r : DeviceRegistry) (safety : SafeStateConfig)
    (cbs : Callbacks SafeWorld) (tid : nat) (now_ms : Z) (reason : string) (io : SaveIO) (m : MM SafeWorld) :
  after_keeps_mode (callbacks_ cbs) → callbacks_keep engaged_world cbs →
  (∀ sent, callbacks_keep (λ w, sent `prefix_of` sw_sent w) cbs) →
  match trigger ctx r safety (Some cbs) tid now_ms reason io m with
  | (Some res, m') =>
      engaged_world (world m') ∧ er_kind res = planned_safe_state_kind r safety ∧
      rung_ran ctx r safety ∅ res (sw_sent (world m)) (sw_sent (world m')) ∧
      current_mode_ m' = FAULT ∧ er_fault_ok res = true ∧ fault_entry_hook_thread_ (sw_ctl (world m')) = None
  | (None, m') =>
      engaged_world (world m') ∧
      ∃ st, latch_store_ (sw_ctl (world m)) = Some st ∧ json_dump (latch_doc (config_dir_ st) now_ms reason) = None
  end.
Proof.
  intros Ha Hk Hsent.
  pose proof (trigger_spec ctx r safety (Some cbs) tid now_ms reason io m ltac:(by intros c [= <-])) as Ht.
  pose proof (trigger_rung ctx r safety (Some cbs) tid now_ms reason io m ltac:(by intros c [= <-])) as Hr.
  by destruct (trigger _ _ _ _ _ _ _ _ _) as [[res|] m']; [destruct Ht as (? & ? & ? & ? & ?)|].
Qed.

Definition bench_trigger : option EstopResult * MM SafeWorld :=
  trigger (H1 := plain_text) (H2 := Bench.names) (H3 := LadderBench.codec) LadderBench.ctx LadderBench.registry
    LadderBench.safety (Some LadderBench.quiet) 1 1700000000000 "operator" all_ok (mkMM AUTO LadderBench.w0).

Example trigger_latches_and_faults_witness :
  match bench_trigger with
  | (Some res, m') =>
      er_safe_state_achieved res = true ∧ current_mode_ m' = FAULT ∧
      rung_ran (H1 := plain_text) LadderBench.ctx LadderBench.registry LadderBench.safety ∅ res [] (sw_sent (world m')) ∧
      length (sw_sent (world m')) = 1%nat
  | (None, _) => False
  end.
Proof.
  pose proof (trigger_latches_and_faults (H1 := plain_text) (H2 := Bench.names) (H3 := LadderBench.codec)
    LadderBench.ctx LadderBench.registry LadderBench.safety LadderBench.quiet 1 1700000000000 "operator" all_ok
    (mkMM AUTO LadderBench.w0) ltac:(constructor) ltac:(split; constructor) ltac:(split; constructor)) as Ht.
  fold bench_trigger in Ht. destruct bench_trigger as [[res|] m'] eqn:E.
  - destruct Ht as (_ & _ & Hr & Hm & _). vm_compute in E. injection E as <- <-.
    split; [reflexivity|]. split; [exact Hm|]. split; [exact Hr|reflexivity].
  - vm_compute in E. discriminate E.
Defined.

(** The record is written before the ladder runs, and the printer refuses text
    that is not UTF-8: with a configuration directory or reason it refuses, a
    trigger latches but sends no safe-state call and does not enter FAULT. *)
Theorem unprintable_record_skips_ladder {L D} `{IActuationLatch L} `{IDeviceLossLatch D} `{FloatText}
    `{StatusNames} `{JsonText} (ctx : nat → CallCtx L D) (r : DeviceRegistry) (safety : SafeStateConfig)
    (cbs : option (Callbacks SafeWorld)) (tid : nat) (now_ms : Z) (reason : string) (io : SaveIO)
    (m : MM SafeWorld) (st : LatchStore) :
  latch_store_ (sw_ctl (world m)) = Some st → mkdir_error io = None →
  json_dump (latch_doc (config_dir_ st) now_ms reason) = None →
  let '(res, m') := trigger ctx r safety cbs tid now_ms reason io m in
  res = None ∧ sw_sent (world m') = sw_sent (world m) ∧ current_mode_ m' = current_mode_ m.
Proof.
  intros Hst Hmk Hd. unfold trigger, persist. simpl. rewrite Hst. unfold save. by rewrite Hmk, Hd.
Qed.

Example unprintable_record_skips_ladder_witness :
  let '(res, m') := trigger (H1 := plain_text) (H2 := Bench.names) (H3 := LadderBench.codec) LadderBench.ctx
    LadderBench.registry LadderBench.safety (Some LadderBench.quiet) 1 5 "not in the codec" all_ok
    (mkMM AUTO LadderBench.w0) in
  res = None ∧ sw_sent (world m') = [] ∧ current_mode_ m' = AUTO.
Proof.
  exact (unprintable_record_skips_ladder (H1 := plain_text) (H2 := Bench.names) (H3 := LadderBench.codec)
    LadderBench.ctx LadderBench.registry LadderBench.safety (Some LadderBench.quiet) 1 5 "not in the codec" all_ok
    (mkMM AUTO LadderBench.w0) sample_store eq_refl eq_refl eq_refl).
Defined.

(** ** Across a restart *)

Section Restart.
Context {L D : Type} `{IActuationLatch L} `{IDeviceLossLatch D} `{FloatText} `{StatusNames} `{JsonText}.

Lemma trigger_fs (ctx : nat → CallCtx L D) r safety cbs tid now_ms reason io m st fs' :
  latch_store_ (sw_ctl (world m)) = Some st →
  after (sw_fs (world m)) (save st now_ms reason io (sw_fs (world m))).2 = fs' →
  (∀ c, cbs = Some c → callbacks_keep (λ w, sw_fs w = fs') c) →
  sw_fs (world (trigger ctx r safety cbs tid now_ms reason io m).2) = fs'.
Proof.
  intros Hst Hfs Hk. unfold trigger, persist. simpl. rewrite Hst.
  destruct (save st now_ms reason io (sw_fs (world m))) as [res trace]. simpl in Hfs. rewrite Hfs.
  set (w2 := put_fs fs' _). assert (sw_fs w2 = fs') as H2' by done. clearbody w2.
  destruct res as [res|]; simpl; [|done].
  destruct (run_ladder_keeps ctx r safety None ∅ w2) as [_ Hf].
  destruct (run_ladder ctx r safety None ∅ w2) as [er w3]. simpl in Hf.
  destruct cbs as [cbs|]; simpl; [|congruence]. unfold fault_entry. simpl.
  set (m1 := if bool_decide _ then _ else _).
  assert (sw_fs (world m1) = fs') as Hm1 by (subst m1; case_bool_decide; simpl; congruence).
  pose proof (set_mode_keeps (λ w, sw_fs w = fs') cbs FAULT m1 (Hk cbs eq_refl) Hm1) as Hm2.
  by destruct (set_mode cbs FAULT m1).
Qed.

End Restart.

(** C15. A stop whose record was saved survives a restart: when the save succeeded
    and the callbacks do not touch the disk, a controller started on the disk the
    trigger left, or, in a directory whose own entry is durable, on any disk a
    crash at that point leaves, comes up latched however the calls of its load go,
    and with the time of the stop when they succeed.  (In a directory that is not
    durable a crash may take the record: [save_in_new_directory_can_be_lost].) *)
Theorem stop_survives_restart {L D} `{IActuationLatch L} `{IDeviceLossLatch D} `{FloatText}
    `{StatusNames} `{JsonText} (ctx : nat → CallCtx L D) (r : DeviceRegistry) (safety : SafeStateConfig)
    (cbs : Callbacks SafeWorld) (tid : nat) (now_ms later_ms : Z) (reason : string) (io : SaveIO)
    (m : MM SafeWorld) (st : LatchStore) (trace : list FS) (w' : SafeWorld) (lio : LoadIO) :
  latch_store_ (sw_ctl (world m)) = Some st → in_int64 now_ms →
  save st now_ms reason io (sw_fs (world m)) = (Some (Ok ()), trace) →
  callbacks_keep (λ w, sw_fs w = after (sw_fs (world m)) trace) cbs →
  let left_behind := sw_fs (world (trigger ctx r safety (Some cbs) tid now_ms reason io m).2) in
  sw_fs w' = left_behind ∨ (dir_stable (sw_fs (world m)) = true ∧ crash left_behind (sw_fs w')) →
  let c := sw_ctl (attach_latch_store (Some st) lio later_ms w') in
  latched_flag c = true ∧ (lio = good_load → latched_at_ms_ c = Some now_ms).
Proof.
  intros Hst Hnow Hsave Hk left_behind Hw. subst left_behind.
  rewrite (trigger_fs ctx r safety (Some cbs) tid now_ms reason io m st (after (sw_fs (world m)) trace)) in Hw;
    [|done|by rewrite Hsave|by intros c [= <-]].
  pose proof (saved_loads st now_ms reason io (sw_fs (world m)) trace (sw_fs w') Hnow Hsave Hw) as Hl.
  pose proof (load_held_anyway st lio (sw_fs w') ltac:(by rewrite Hl)) as Hn. unfold attach_latch_store. split.
  - by destruct (pl_state (load st lio (sw_fs w'))).
  - intros ->. by rewrite Hl.
Qed.

(** A start on the disk left behind, with and without a read error. *)
Example stop_survives_restart_witness :
  let left_behind := sw_fs (world bench_trigger.2) in
  let w' := mkWorld new_controller new_router Bench.cache left_behind [] 0 in
  let start io := sw_ctl (attach_latch_store (H3 := LadderBench.codec) (Some sample_store) io 1800000000000 w') in
  latched_at_ms_ (start good_load) = Some 1700000000000 ∧ latched_flag (start (mkLoadIO None false)) = true.
Proof.
  cbv zeta. set (left_behind := sw_fs (world bench_trigger.2)).
  set (w' := mkWorld new_controller new_router Bench.cache left_behind [] 0).
  assert (∀ lio, let c := sw_ctl (attach_latch_store (H3 := LadderBench.codec) (Some sample_store) lio 1800000000000 w') in
    latched_flag c = true ∧ (lio = good_load → latched_at_ms_ c = Some 1700000000000)) as Hs.
  { intros lio.
    apply (stop_survives_restart (H1 := plain_text) (H2 := Bench.names) (H3 := LadderBench.codec) LadderBench.ctx
      LadderBench.registry LadderBench.safety LadderBench.quiet 1 1700000000000 1800000000000 "operator" all_ok
      (mkMM AUTO LadderBench.w0) sample_store
      (save (H := LadderBench.codec) sample_store 1700000000000 "operator" all_ok (empty_fs true)).2).
    - reflexivity.
    - split; vm_compute; discriminate.
    - vm_compute. reflexivity.
    - split; constructor.
    - left. reflexivity. }
  split; [exact (proj2 (Hs good_load) eq_refl)|exact (proj1 (Hs (mkLoadIO None false)))].
Defined.

(** ** Who releases the latch *)

(** The controller's operations, from any thread and in any order. *)
Inductive ctl_step {L D} `{IActuationLatch L} `{IDeviceLossLatch D} `{FloatText} `{StatusNames} `{JsonText} :
    bool → SafeWorld → SafeWorld → Prop :=
| step_trigger (ctx : nat → CallCtx L D) r safety tid now_ms reason io w :
    ctl_step false w (world (trigger ctx r safety None tid now_ms reason io (mkMM MANUAL w)).2)
| step_hold now_ms reason io w :
    ctl_step false w (world (hold None now_ms reason io (mkMM MANUAL w)).2)
| step_reassert (ctx : nat → CallCtx L D) r safety handle w :
    ctl_step false w (reassert_for ctx r safety handle w).2
| step_drive (ctx : nat → CallCtx L D) r safety absent w :
    ctl_step false w (drive_safe_state ctx r safety absent w).2
| step_attach store io now_ms w : ctl_step false w (attach_latch_store store io now_ms w)
| step_clear refusal unlink_error sync w :
    ctl_step (bool_decide (refusal = None)) w (clear refusal unlink_error sync w).2.
Arguments ctl_step L D {_ _ _ _ _}.

Definition ctl_inv (w : SafeWorld) : Prop :=
  let c := sw_ctl w in
  (latched_flag c = true → is_Some (latched_at_ms_ c)) ∧ (is_Some (restored_reason_ c) → latched_flag c = true).

Section Release.
Context {L D : Type} `{IActuationLatch L} `{IDeviceLossLatch D} `{FloatText} `{StatusNames} `{JsonText}.

Lemma persist_put_inv at_ms reason io w :
  ctl_inv (persist at_ms reason io (put_ctl (engage at_ms (sw_ctl w)) w)).2 ∧
  latched_flag (sw_ctl (persist at_ms reason io (put_ctl (engage at_ms (sw_ctl w)) w)).2) = true.
Proof.
  unfold ctl_inv. rewrite persist_ctl. simpl. split_and!; [by eexists|done|done].
Qed.

Lemma trigger_none_ctl (ctx : nat → CallCtx L D) r safety tid now_ms reason io w :
  sw_ctl (world (trigger ctx r safety None tid now_ms reason io (mkMM MANUAL w)).2) =
  sw_ctl (persist now_ms reason io (put_ctl (engage now_ms (sw_ctl w)) w)).2.
Proof.
  unfold trigger. simpl. destruct (persist _ _ _ _) as [[] w2]; [|done].
  destruct (run_ladder_keeps ctx r safety None ∅ w2) as [Hc _]. by destruct (run_ladder ctx r safety None ∅ w2).
Qed.

Lemma ctl_step_inv b w w' :
  ctl_inv w → ctl_step L D b w w' →
  ctl_inv w' ∧ (latched_flag (sw_ctl w) = true → b = false → latched_flag (sw_ctl w') = true) ∧
  (b = true → latched_flag (sw_ctl w') = false).
Proof.
  intros Hi Hs. destruct Hs as [ctx r safety tid now_ms reason io w|now_ms reason io w|ctx r safety handle w
    |ctx r safety absent w|store io now_ms w|refusal unlink_error sync w].
  - destruct (persist_put_inv now_ms reason io w) as [H1' H2']. unfold ctl_inv in *.
    by rewrite trigger_none_ctl.
  - unfold hold. simpl. destruct (latched_flag (sw_ctl w)) eqn:E; simpl; [by split_and!|].
    destruct (persist_put_inv now_ms reason io w) as [H1' H2'].
    destruct (persist _ _ _ _) as [[] w2]; simpl in *; by split_and!.
  - unfold reassert_for, ctl_inv. destruct (run_ladder_keeps ctx r safety (Some handle) ∅ w) as [-> _].
    by split_and!; try apply Hi.
  - unfold drive_safe_state, ctl_inv. destruct (run_ladder_keeps ctx r safety None absent w) as [Hc _].
    destruct (run_ladder ctx r safety None absent w) as [res w2]. simpl in *. rewrite Hc.
    by split_and!; try apply Hi.
  - unfold attach_latch_store, ctl_inv in *. destruct store as [st|]; [|by split_and!; try apply Hi].
    destruct (pl_state _); simpl; split_and!; try done; try apply Hi; by eexists.
  - unfold clear, ctl_inv in *. destruct refusal as [why|]; simpl; [by split_and!; try apply Hi|].
    destruct (latch_store_ (sw_ctl w)); simpl; split_and!; try done; by intros [].
Qed.

End Release.

(** C7. Only a permitted clear releases the latch: over any history of triggers,
    holds, re-asserts, startup runs, attached stores and clears, an engaged latch
    always has its time on record, a restored reason is only ever shown while
    engaged, and the only step that takes the latch from engaged to released is a
    clear its guard did not refuse, which always does. *)
Theorem latch_released_only_by_clear {L D} `{IActuationLatch L} `{IDeviceLossLatch D} `{FloatText}
    `{StatusNames} `{JsonText} (w0 w w' : SafeWorld) (b : bool) :
  sw_ctl w0 = new_controller → rtc (λ w1 w2, ∃ b, ctl_step L D b w1 w2) w0 w → ctl_step L D b w w' →
  ctl_inv w ∧
  (latched_flag (sw_ctl w) = true → latched_flag (sw_ctl w') = false → b = true) ∧
  (b = true → latched_flag (sw_ctl w') = false).
Proof.
  intros H0' Hr Hs. assert (ctl_inv w) as Hi.
  { eapply (rtc_invariant _ ctl_inv); [| |exact Hr].
    - unfold ctl_inv. rewrite H0'. by split; [|intros []].
    - intros a c Ha (b' & Hb). by destruct (ctl_step_inv b' a c Ha Hb). }
  destruct (ctl_step_inv b w w' Hi Hs) as (_ & H1' & H2'). split_and!; [apply Hi..| |done].
  intros Hl Hl'. destruct b; [done|]. rewrite (H1' Hl eq_refl) in Hl'. done.
Qed.

Example latch_released_only_by_clear_witness :
  let w := LadderBench.w0 in
  let w0 := mkWorld new_controller new_router Bench.cache (empty_fs true) [] 0 in
  let held := world (hold (H3 := LadderBench.codec) None 5 "stop" all_ok (mkMM MANUAL w0)).2 in
  latched_flag (sw_ctl held) = true ∧ latched_flag (sw_ctl (clear None None true held).2) = false.
Proof.
  cbv zeta. split; [vm_compute; reflexivity|].
  set (w0 := mkWorld new_controller new_router Bench.cache (empty_fs true) [] 0).
  refine (proj2 (proj2 (latch_released_only_by_clear (L := FixedLatch) (D := DeviceLossLatch.DeviceLossLatch)
    (H1 := plain_text) (H2 := Bench.names) (H3 := LadderBench.codec) w0
    (world (hold (H3 := LadderBench.codec) None 5 "stop" all_ok (mkMM MANUAL w0)).2) _ true eq_refl
    (rtc_once _ _ (ex_intro _ false (step_hold 5 "stop" all_ok w0))) (step_clear None None true _))) eq_refl).
Defined.
