(* ===== verification/ActuationGate.v ===== *)
(** * The gates into AUTO ([core/runtime/actuation_gate.cpp])

    The refuse-hookless gate and the e-stop gate, installed on the mode manager
    both as before-callbacks and as commit guards, and the re-check after a
    provider restart.  The world of the mode manager is any type from which the
    live device registry and the e-stop latch can be read. *)

From S2P Require Import Prelude Protocol Interfaces ModeManager Registry Parameters StateCache.
From S2P Require Import Json LatchStore ArgCheck CallRouter SafeState.

(** ** Configuration ([core/runtime/config.hpp]) *)

Record ModeTransitionHookConfig := mkHook {
  hk_from : string;
  hk_to : string;
  hk_fail_on_error : bool;
  hk_calls : list ModeTransitionCallConfig;
}.

Record AutomationConfig := mkAutomation {
  au_enabled : bool;
  au_before_transition : list ModeTransitionHookConfig;
  au_after_transition : list ModeTransitionHookConfig;
}.

(** ** Hooks *)

Definition filter_allows (filter name : string) : bool :=
  bool_decide (filter = "") || bool_decide (filter = "*") || bool_decide (filter = name).

Definition hook_covers_auto_to_fault (hook : ModeTransitionHookConfig) : bool :=
  filter_allows (hk_from hook) "AUTO" && filter_allows (hk_to hook) "FAULT".

Definition mode_hook_request (call : ModeTransitionCallConfig) (next : RuntimeMode) : CallRequest :=
  mkRequest (cc_device_handle call) (cc_function_id call) (cc_function_name call)
    (to_provider_value <$> cc_args call) true false false (bool_decide (next = FAULT)).

Definition has_fault_safe_state_hook (automation : AutomationConfig) : bool :=
  existsb hook_covers_auto_to_fault (au_before_transition automation) ||
  existsb hook_covers_auto_to_fault (au_after_transition automation).

Definition fault_hook_uncovered_functions `{FloatText} (r : DeviceRegistry) (automation : AutomationConfig)
    : list string :=
  if negb (au_enabled automation) || negb (has_fault_safe_state_hook automation) then []
  else
    let covering := filter (λ h, hook_covers_auto_to_fault h = true) in
    uncovered_actuating_functions r
      (mjoin (hk_calls <$> (covering (au_before_transition automation) ++
                            covering (au_after_transition automation)))).

(** ** The refuse-hookless gate *)

Record HooklessAutoGate := mkGate {
  gate_refused : bool;
  gate_message : string;
  gate_actuating_functions : list string;
}.

Definition gate_functions (r : DeviceRegistry) : list string :=
  d ← get_all_devices r;
  (λ p, function_label (get_handle d) p.2) <$>
    filter (λ p, is_actuating p.2 = true) (functions_by_id (capabilities d)).

Definition gate_text (functions : list string) (planned : SafeStateKind) : string :=
  "refusing AUTO: automation is enabled with actuating outputs but no safe-state hook " +:+
  "covers the AUTO->FAULT transition. Declare an automation.mode_transition_hooks entry " +:+
  "matching AUTO->FAULT (from: AUTO/" +:+ quote +:+ "*" +:+ quote +:+ "/omitted and to: FAULT/" +:+
  quote +:+ "*" +:+ quote +:+ "/omitted) with calls " +:+
  "that drive actuators to a safe state. Actuating outputs: " +:+ join ", " functions +:+
  (if bool_decide (planned = KNone) then
     ". Note: that hook satisfies this gate but is NOT the e-stop's safe state — POST /v0/estop runs " +:+
     "safety.safe_state, and on this inventory that ladder would drive nothing, so the e-stop would run " +:+
     "only the -> FAULT hooks that match the mode it is pressed in (in IDLE, only after_transition " +:+
     "hooks: the IDLE gate refuses before_transition calls) and report safe_state_achieved=false. " +:+
     "Declare safety.safe_state (setpoints count only if they cover every actuating output)"
   else "").

Definition evaluate_hookless_auto_gate (r : DeviceRegistry) (automation : AutomationConfig)
    (safety : SafeStateConfig) : HooklessAutoGate :=
  if negb (au_enabled automation) then mkGate false "" []
  else if has_fault_safe_state_hook automation then mkGate false "" []
  else
    let functions := gate_functions r in
    if bool_decide (functions = []) then mkGate false "" functions
    else mkGate true (gate_text functions (planned_safe_state_kind r safety)) functions.

Definition estop_veto : string :=
  "refusing AUTO: the software stop's latch is engaged. Clear it (POST /v0/estop/clear) once the machine " +:+
  "is safe, then enter AUTO.".

Section Gates.
Context {W L : Type} `{IActuationLatch L} (registry_of : W → DeviceRegistry) (latch_of : W → L).
Context (automation : AutomationConfig) (safety : SafeStateConfig).

Definition hookless_check (next : RuntimeMode) (w : W) : Verdict :=
  if negb (bool_decide (next = AUTO)) then Allow
  else let gate := evaluate_hookless_auto_gate (registry_of w) automation safety in
       if gate_refused gate then Reject (gate_message gate) else Allow.

Definition estop_check (next : RuntimeMode) (w : W) : Verdict :=
  if negb (bool_decide (next = AUTO)) || negb (is_engaged (latch_of w)) then Allow else Reject estop_veto.

(** A check installed before the transition's hooks and again at commit. *)
Definition install (check : RuntimeMode → W → Verdict) (cbs : Callbacks W) : Callbacks W :=
  add_commit_guard (λ _ next w, check next w)
    (on_before_mode_change (λ _ next m, (check next (world m), m)) cbs).

Definition install_hookless_auto_gate (cbs : Callbacks W) : Callbacks W := install hookless_check cbs.
Definition install_estop_auto_gate (cbs : Callbacks W) : Callbacks W := install estop_check cbs.

Definition enforce_hookless_gate_in_auto (cbs : Callbacks W) (m : MM W) : bool * MM W :=
  if negb (bool_decide (current_mode_ m = AUTO)) then (false, m)
  else if negb (gate_refused (evaluate_hookless_auto_gate (registry_of (world m)) automation safety))
       then (false, m)
       else (true, snd (set_mode cbs FAULT m)).

End Gates.

(** ** Theorems *)

(** A registered function that is not declared read-only. *)
Definition has_actuating_function (r : DeviceRegistry) : Prop :=
  ∃ d name spec, d ∈ get_all_devices r ∧ (name, spec) ∈ functions_by_id (capabilities d) ∧
                 fs_category spec ≠ CATEGORY_READ.

Lemma gate_functions_nonempty r : gate_functions r ≠ [] ↔ has_actuating_function r.
Proof.
  unfold gate_functions, has_actuating_function. split.
  - destruct (_ ≫= _) as [|x l] eqn:E; [done|]. intros _.
    assert (x ∈ x :: l) as Hx by left. rewrite <- E in Hx.
    apply list_elem_of_bind in Hx as (d & Hx & Hd). apply list_elem_of_fmap in Hx as ([name spec] & _ & Hp).
    apply list_elem_of_filter in Hp as [Ha Hp]. exists d, name, spec. split_and!; [done..|].
    unfold is_actuating in Ha. simpl in Ha. by bool_facts.
  - intros (d & name & spec & Hd & Hp & Hc) E.
    assert (function_label (get_handle d) spec ∈ (d ← get_all_devices r;
      (λ p, function_label (get_handle d) p.2) <$>
        filter (λ p, is_actuating p.2 = true) (functions_by_id (capabilities d)))) as Hin.
    { apply list_elem_of_bind. exists d. split; [|done]. apply list_elem_of_fmap. exists (name, spec).
      split; [done|]. apply list_elem_of_filter. split; [|done]. unfold is_actuating. simpl.
      by rewrite bool_decide_false. }
    rewrite E in Hin. by apply not_elem_of_nil in Hin.
Qed.

Lemma gate_refused_iff r automation safety :
  gate_refused (evaluate_hookless_auto_gate r automation safety) = true ↔
  au_enabled automation = true ∧
  (∀ h, h ∈ au_before_transition automation ++ au_after_transition automation →
        hook_covers_auto_to_fault h = false) ∧
  has_actuating_function r.
Proof.
  unfold evaluate_hookless_auto_gate. rewrite <- gate_functions_nonempty.
  destruct (au_enabled automation); simpl; [|by split; [|intros (? & _)]].
  assert (has_fault_safe_state_hook automation = false ↔
    ∀ h, h ∈ au_before_transition automation ++ au_after_transition automation →
         hook_covers_auto_to_fault h = false) as Hh.
  { unfold has_fault_safe_state_hook. rewrite <- existsb_app. split.
    - intros E h Hin. destruct (hook_covers_auto_to_fault h) eqn:Ec; [|done].
      rewrite (proj2 (existsb_exists _ _)) in E; [done|]. exists h. by rewrite <- list_elem_of_In.
    - intros Hall. apply not_true_iff_false. intros (h & Hin & Hc)%existsb_exists.
      rewrite Hall in Hc; [done|by apply list_elem_of_In]. }
  rewrite <- Hh. destruct (has_fault_safe_state_hook automation); simpl; [naive_solver|].
  case_bool_decide; simpl; naive_solver.
Qed.

(** A gate installed among other callbacks guards the commit. *)
Lemma install_guards {W} (check : RuntimeMode → W → Verdict) cbs :
  (λ _ next w, check next w) ∈ commit_guards_ (install check cbs) ∧
  ∀ g, g ∈ commit_guards_ cbs → g ∈ commit_guards_ (install check cbs).
Proof. unfold install, add_commit_guard. simpl. split; [set_solver|intros g Hg; set_solver]. Qed.

(** C5. AUTO is never entered unguarded: with the two gates installed beside any
    other callbacks, whatever those do, a committed transition into AUTO found,
    in the very state AUTO is written into, the e-stop latch released and either
    automation disabled, a declared hook that fires on AUTO to FAULT, or no
    registered function that could actuate. *)
Theorem auto_entry_gated {W L : Type} `{IActuationLatch L} (registry_of : W → DeviceRegistry) (latch_of : W → L)
    (automation : AutomationConfig) (safety : SafeStateConfig) (cbs0 : Callbacks W)
    (others : Callbacks W → Callbacks W) (m m' : MM W) :
  let cbs := others (install_estop_auto_gate latch_of
                       (install_hookless_auto_gate registry_of automation safety cbs0)) in
  (∀ c g, g ∈ commit_guards_ c → g ∈ commit_guards_ (others c)) →
  current_mode_ m ≠ AUTO → set_mode cbs AUTO m = (Ok tt, m') →
  ∃ at_commit, m' = run_after (callbacks_ cbs) (current_mode_ m) AUTO (mkMM AUTO at_commit) ∧
    is_engaged (latch_of at_commit) = false ∧
    (au_enabled automation = false ∨
     (∃ h, h ∈ au_before_transition automation ++ au_after_transition automation ∧
           hook_covers_auto_to_fault h = true) ∨
     ¬ has_actuating_function (registry_of at_commit)).
Proof.
  intros cbs Hothers Hm Hset.
  destruct (set_mode_commits cbs AUTO m m' ltac:(done) Hm Hset) as (mb & _ & _ & _ & Hg & ->).
  exists (world mb). split; [done|]. rewrite Forall_forall in Hg.
  assert (estop_check latch_of AUTO (world mb) = Allow) as He.
  { apply (Hg (λ _ next w, estop_check latch_of next w)). apply Hothers.
    exact (proj1 (install_guards (estop_check latch_of)
      (install_hookless_auto_gate registry_of automation safety cbs0))). }
  assert (hookless_check registry_of automation safety AUTO (world mb) = Allow) as Hh.
  { apply (Hg (λ _ next w, hookless_check registry_of automation safety next w)). apply Hothers.
    apply (proj2 (install_guards (estop_check latch_of) _)).
    exact (proj1 (install_guards (hookless_check registry_of automation safety) cbs0)). }
  split.
  - unfold estop_check in He. simpl in He. by destruct (is_engaged _).
  - unfold hookless_check in Hh. simpl in Hh.
    destruct (gate_refused (evaluate_hookless_auto_gate _ _ _)) eqn:Eg; [done|].
    apply not_true_iff_false in Eg. rewrite gate_refused_iff in Eg.
    destruct (au_enabled automation); [|by left]. right.
    destruct (decide (Exists (λ h, hook_covers_auto_to_fault h = true)
      (au_before_transition automation ++ au_after_transition automation))) as [Hex|Hno].
    + left. by apply Exists_exists in Hex.
    + right. intros Hact. apply Eg. split_and!; [done| |done]. intros h Hin.
      destruct (hook_covers_auto_to_fault h) eqn:Ec; [|done]. destruct Hno. apply Exists_exists. by exists h.
Qed.

Definition gate_world : Type := DeviceRegistry * FixedLatch.
Definition fault_hook : ModeTransitionHookConfig := mkHook "*" "FAULT" false [LadderBench.setpoint 0].
Definition hooked : AutomationConfig := mkAutomation true [fault_hook] [].
Definition gated : Callbacks gate_world :=
  install_estop_auto_gate snd
    (install_hookless_auto_gate fst hooked LadderBench.safety (mkCallbacks [] [] [])).

Example auto_entry_gated_witness :
  set_mode gated AUTO (mkMM MANUAL (LadderBench.registry, mkFixedLatch true false)) =
    (Err estop_veto, mkMM MANUAL (LadderBench.registry, mkFixedLatch true false)) ∧
  ∃ at_commit, is_engaged (snd at_commit) = false ∧
    mkMM AUTO (LadderBench.registry, mkFixedLatch false false) = mkMM AUTO at_commit.
Proof.
  split; [vm_compute; reflexivity|].
  destruct (auto_entry_gated (W := gate_world) fst snd hooked LadderBench.safety (mkCallbacks [] [] []) (λ c, c)
    (mkMM MANUAL (LadderBench.registry, mkFixedLatch false false))
    (mkMM AUTO (LadderBench.registry, mkFixedLatch false false)))
    as (w & Hm & Hl & _); [done|done|vm_compute; reflexivity|].
  exists w. split; [exact Hl|exact Hm].
Defined.

(** The gate refuses exactly when it should: automation is enabled, no
    declared hook fires on AUTO to FAULT, and some registered function is not
    declared read-only; and in AUTO the re-check after an inventory change then
    forces FAULT, and otherwise changes nothing. *)
Theorem hookless_gate_enforced {W : Type} (registry_of : W → DeviceRegistry) (automation : AutomationConfig)
    (safety : SafeStateConfig) (cbs : Callbacks W) (m : MM W) :
  after_keeps_mode (callbacks_ cbs) →
  let unsafe := current_mode_ m = AUTO ∧ au_enabled automation = true ∧
    (∀ h, h ∈ au_before_transition automation ++ au_after_transition automation →
          hook_covers_auto_to_fault h = false) ∧
    has_actuating_function (registry_of (world m)) in
  let '(forced, m') := enforce_hookless_gate_in_auto registry_of automation safety cbs m in
  (forced = true ↔ unsafe) ∧
  (forced = true → current_mode_ m' = FAULT) ∧ (forced = false → m' = m).
Proof.
  intros Ha unsafe. unfold enforce_hookless_gate_in_auto.
  destruct (bool_decide_reflect (current_mode_ m = AUTO)) as [Hm|Hm]; simpl.
  2:{ split_and!; [|done|done]. split; [done|]. by intros (? & _). }
  pose proof (gate_refused_iff (registry_of (world m)) automation safety) as Hg.
  destruct (gate_refused _); simpl.
  - destruct (set_mode_FAULT cbs m Ha) as (m' & -> & HF). split_and!; [|done|done].
    split; [|done]. intros _. split; [done|]. by apply Hg.
  - split_and!; [|done|done]. split; [done|]. intros (_ & Hu). by apply Hg in Hu.
Qed.

Example hookless_gate_enforced_witness :
  let '(forced, m') := enforce_hookless_gate_in_auto fst (mkAutomation true [] []) LadderBench.safety gated
                         (mkMM AUTO (LadderBench.registry, mkFixedLatch false false)) in
  forced = true ∧ current_mode_ m' = FAULT.
Proof.
  pose proof (hookless_gate_enforced fst (mkAutomation true [] []) LadderBench.safety gated
    (mkMM AUTO (LadderBench.registry, mkFixedLatch false false)) ltac:(constructor)) as Hx.
  cbv zeta in Hx. destruct (enforce_hookless_gate_in_auto _ _ _ _ _) as [forced m'] eqn:E.
  assert (forced = true) as -> by (vm_compute in E; injection E as <- _; reflexivity).
  split; [reflexivity|]. apply Hx. reflexivity.
Defined.
