(* ===== verification/StopChain.v ===== *)
(** * The stop-chain monitor ([core/control/stop_chain.cpp])

    The observed emergency stop: classification of the status signal's cached
    reading, the state the runtime acts on, the refusal it gives the latch's
    clear, and the mismatch alarms for devices the stop should have reached.
    Each call reads the clock once ([now], system clock, ns).  The reading that
    [contradiction] quotes for a device that still answers is the first in the
    order the signals are visited in, which the code leaves open. *)

From S2P Require Import Prelude Protocol Interfaces ModeManager Registry Parameters StateCache.
From S2P Require Import Json LatchStore ArgCheck CallRouter SafeState.

(** [SignalValue_Quality_Name] and the enumerators' numbers, generated with the protocol. *)
Class QualityNames := {
  quality_proto_name : Quality → string;
  quality_number : Quality → Z;
}.

(** ** Configuration and state *)

Inductive StopChainExpect := PowerLoss | ReportsEstop.

Record StopChainConfig := mkStopConfig {
  sc_status : option (string * bool);   (* "provider/device/signal", value meaning in force *)
  sc_devices : list string;
  sc_expectations : gmap string StopChainExpect;
}.

Inductive StopChainState := NotConfigured | InForce | Clear | Unknown.

#[global] Instance StopChainState_eq_dec : EqDecision StopChainState.
Proof. solve_decision. Defined.

Definition stop_chain_state_to_string (state : StopChainState) : string :=
  match state with InForce => "in_force" | Clear => "clear" | Unknown => "unknown" | NotConfigured => "not_configured" end.

Definition stop_chain_expect_to_string (expect : StopChainExpect) : string :=
  match expect with PowerLoss => "power_loss" | ReportsEstop => "reports_estop" end.

Record StopChainSnapshot := mkSnapshot {
  sn_state : StopChainState;
  sn_reason : string;
  sn_since_epoch_ms : option Z;
}.

Record StopChainMismatch := mkMismatch {
  mm_device : string;
  mm_expect : StopChainExpect;
  mm_reason : string;
  mm_since_epoch_ms : Z;
}.

Record StopChainMonitor := mkMonitor {
  sm_config : StopChainConfig;
  sm_stale_after : Z;           (* ms *)
  sm_device_handle : string;
  sm_signal_id : string;
  sm_current : StopChainSnapshot;
  sm_mismatches : gmap string StopChainMismatch;
}.

Definition new_monitor (config : StopChainConfig) (stale_after : Z) : StopChainMonitor :=
  let '(handle, signal_id) :=
    match sc_status config with
    | Some (signal, _) => default (signal, signal) (split_last slash signal)
    | None => ("", "")
    end in
  mkMonitor config stale_after handle signal_id (mkSnapshot NotConfigured "" None) ∅.

Definition configured (m : StopChainMonitor) : bool :=
  match sc_status (sm_config m) with Some _ => true | None => false end.

Definition bool_text (b : bool) : string := if b then "true" else "false".

Section StopChain.
Context `{QualityNames}.

Definition quality_name (q : Quality) : string :=
  let name := quality_proto_name q in
  if bool_decide (name = "") then to_string (quality_number q) else name.

Definition is_ok (v : CachedSignalValue) : bool := bool_decide (csv_quality v = QUALITY_OK).

Definition classify (m : StopChainMonitor) (cache : StateCache) (now : Z) : StopChainState * string :=
  match sc_status (sm_config m) with
  | None => (NotConfigured, "")
  | Some (signal, active) =>
      match get_signal_value cache (sm_device_handle m) (sm_signal_id m) with
      | None => (Unknown, signal +:+ " has no reading (not registered, or not polled yet)")
      | Some value =>
          if is_stale value (sm_stale_after m) now then
            (Unknown, signal +:+ " is stale (" +:+ to_string (age value now) +:+ " ms old, quality " +:+
                      quality_name (csv_quality value) +:+ ")")
          else if negb (is_ok value) then
            (Unknown, signal +:+ " has quality " +:+ quality_name (csv_quality value) +:+ ", not QUALITY_OK")
          else if negb (has_bool_value (csv_value value)) then (Unknown, signal +:+ " is not a bool")
          else
            let reads := signal +:+ " reads " +:+ bool_text (bool_value (csv_value value)) in
            if Bool.eqb (bool_value (csv_value value)) active then (InForce, reads) else (Clear, reads)
      end
  end.

Definition put_current (s : StopChainSnapshot) (m : StopChainMonitor) : StopChainMonitor :=
  mkMonitor (sm_config m) (sm_stale_after m) (sm_device_handle m) (sm_signal_id m) s (sm_mismatches m).
Definition put_mismatches (x : gmap string StopChainMismatch) (m : StopChainMonitor) : StopChainMonitor :=
  mkMonitor (sm_config m) (sm_stale_after m) (sm_device_handle m) (sm_signal_id m) (sm_current m) x.

Definition update (cache : StateCache) (now : Z) (m : StopChainMonitor)
    : option (StopChainSnapshot * StopChainSnapshot) * StopChainMonitor :=
  if negb (configured m) then (None, m)
  else
    let '(state, reason) := classify m cache now in
    let current := sm_current m in
    if bool_decide (state = sn_state current) && bool_decide (is_Some (sn_since_epoch_ms current)) then
      (None, put_current (mkSnapshot (sn_state current) reason (sn_since_epoch_ms current)) m)
    else
      let next := mkSnapshot state reason (Some (ms_of_ns now)) in
      (Some (current, next), put_current next m).

Definition contradiction (m : StopChainMonitor) (cache : StateCache) (now : Z) (handle : string)
    (expect : StopChainExpect) : option string :=
  match expect with
  | PowerLoss =>
      match get_device_state cache handle with
      | None => None
      | Some device =>
          match list_find (λ p, is_stale p.2 (sm_stale_after m) now = false) (map_to_list (ds_signals device)) with
          | Some (_, (signal_id, value)) =>
              Some (handle +:+ " still answers: " +:+ signal_id +:+ " read " +:+ to_string (age value now) +:+
                    " ms ago, after the stop")
          | None => None
          end
      end
  | ReportsEstop =>
      match get_signal_value cache handle "estop" with
      | None => None
      | Some estop =>
          if negb (is_ok estop) || is_stale estop (sm_stale_after m) now ||
             negb (has_bool_value (csv_value estop)) || bool_value (csv_value estop) then None
          else Some (handle +:+ "/estop reads false")
      end
  end.

(** The stop has been in force for the stale bound. *)
Definition judged (m : StopChainMonitor) (now_ms : Z) : bool :=
  bool_decide (sn_state (sm_current m) = InForce) &&
  match sn_since_epoch_ms (sm_current m) with
  | Some since => sm_stale_after m <=? now_ms - since
  | None => false
  end.

Definition found_mismatches (m : StopChainMonitor) (cache : StateCache) (now : Z) : gmap string StopChainMismatch :=
  if judged m (ms_of_ns now) then
    map_imap (λ handle expect,
                (λ reason, mkMismatch handle expect reason (ms_of_ns now)) <$> contradiction m cache now handle expect)
      (sc_expectations (sm_config m))
  else ∅.

(** [StopChainMismatchChange]: the mismatch, and whether it was raised. *)
Definition MismatchChange : Type := StopChainMismatch * bool.

Definition resolved (m : StopChainMonitor) (now : Z) (x : StopChainMismatch) : StopChainMismatch :=
  mkMismatch (mm_device x) (mm_expect x)
    (if bool_decide (sn_state (sm_current m) = InForce) then mm_device x +:+ " now behaves as expected"
     else "the stop is no longer in force") (ms_of_ns now).

Definition update_mismatches (cache : StateCache) (now : Z) (m : StopChainMonitor)
    : list MismatchChange * StopChainMonitor :=
  if negb (configured m) || bool_decide (sc_expectations (sm_config m) = ∅) then ([], m)
  else
    let found := found_mismatches m cache now in
    let standing := sm_mismatches m in
    let gone := filter (λ p : string * StopChainMismatch, found !! p.1 = None) (map_items standing) in
    let fresh := filter (λ p : string * StopChainMismatch, standing !! p.1 = None) (map_items found) in
    (((λ p, (resolved m now p.2, false)) <$> gone) ++ ((λ p, (p.2, true)) <$> fresh),
     put_mismatches
       (map_imap (λ handle x, Some match standing !! handle with
                                   | Some old => mkMismatch (mm_device old) (mm_expect old) (mm_reason x)
                                                   (mm_since_epoch_ms old)
                                   | None => x
                                   end) found) m).

Definition mismatches (m : StopChainMonitor) : list StopChainMismatch := snd <$> map_items (sm_mismatches m).

Definition holds (m : StopChainMonitor) : bool :=
  bool_decide (sn_state (sm_current m) = InForce) || bool_decide (sn_state (sm_current m) = Unknown).

Definition clear_refusal (m : StopChainMonitor) : option string :=
  match sn_state (sm_current m) with
  | InForce => Some ("the emergency stop is in force (" +:+ sn_reason (sm_current m) +:+ "); release it first")
  | Unknown => Some ("the emergency stop's status is unavailable (" +:+ sn_reason (sm_current m) +:+
                     "): it may be in force, or power may be lost")
  | _ => None
  end.

Definition in_scope (m : StopChainMonitor) (handle : string) : bool :=
  bool_decide (handle ∈ sc_devices (sm_config m)).

End StopChain.

(** ** Per-device view of the changes *)

Lemma filter_none_l {A} (P : A → Prop) `{∀ x, Decision (P x)} (l : list A) :
  (∀ x, x ∈ l → ¬ P x) → filter P l = [].
Proof. intros Hn. apply filter_none, Forall_forall. intros x Hx. by apply Hn. Qed.

(** The entries of one key in an ordered map. *)
Lemma map_items_key {A} (m : gmap string A) k :
  filter (λ p : string * A, p.1 = k) (map_items m) = match m !! k with Some x => [(k, x)] | None => [] end.
Proof.
  assert (NoDup (fst <$> map_items m)) as Hnd.
  { unfold map_items. rewrite merge_sort_Permutation. apply NoDup_fst_map_to_list. }
  assert (∀ p, p ∈ map_items m ↔ m !! p.1 = Some p.2) as Hin.
  { intros [k' x]. apply elem_of_map_items. }
  destruct (m !! k) as [x|] eqn:E.
  2:{ apply filter_none_l. intros [k' y] Hp%Hin. simpl in *. intros ->. congruence. }
  apply (Hin (k, x)) in E. revert Hnd E. clear Hin. generalize (map_items m). intros l Hnd E.
  induction l as [|[k' y] l IH]; [by apply not_elem_of_nil in E|].
  simpl in Hnd. apply NoDup_cons in Hnd as [Hni Hnd]. rewrite filter_cons. simpl.
  apply elem_of_cons in E as [[= <- <-]|E].
  - rewrite decide_True by done. f_equal. apply filter_none_l. intros [k2 z] Hp E2. simpl in E2. subst k2. apply Hni.
    apply list_elem_of_fmap. by exists (k, z).
  - rewrite decide_False; [by apply IH|]. intros ->. apply Hni. apply list_elem_of_fmap. by exists (k, x).
Qed.

Definition changes_of (h : string) (l : list MismatchChange) : list bool :=
  snd <$> filter (λ c, mm_device c.1 = h) l.

(** Raised, resolved, raised, ...: the run fails at the first repetition. *)
Fixpoint alarm_run (standing : bool) (l : list bool) : option bool :=
  match l with
  | [] => Some standing
  | raised :: rest => if Bool.eqb raised standing then None else alarm_run raised rest
  end.

Definition keyed (m : gmap string StopChainMismatch) : Prop := map_Forall (λ k x, mm_device x = k) m.

Lemma alarm_run_app b l1 l2 : alarm_run b (l1 ++ l2) = alarm_run b l1 ≫= λ b', alarm_run b' l2.
Proof. revert b. induction l1 as [|r l1 IH]; intros b; simpl; [done|]. by case_match. Qed.

Lemma changes_of_app h l1 l2 : changes_of h (l1 ++ l2) = changes_of h l1 ++ changes_of h l2.
Proof. unfold changes_of. by rewrite filter_app, fmap_app. Qed.

(** The changes one list of entries makes for a device. *)
Lemma changes_of_entries (m : gmap string StopChainMismatch) (P : string * StopChainMismatch → Prop)
    `{∀ p, Decision (P p)} (f : StopChainMismatch → StopChainMismatch) raised h :
  keyed m → (∀ x, mm_device (f x) = mm_device x) →
  changes_of h ((λ p : string * StopChainMismatch, (f p.2, raised)) <$> filter P (map_items m)) =
  match m !! h with Some x => if decide (P (h, x)) then [raised] else [] | None => [] end.
Proof.
  intros Hk Hf. unfold changes_of.
  transitivity (snd <$> ((λ p : string * StopChainMismatch, (f p.2, raised)) <$>
    filter P (filter (λ p : string * StopChainMismatch, p.1 = h) (map_items m)))).
  { f_equal. assert (∀ p, p ∈ map_items m → mm_device p.2 = p.1) as Hin.
    { intros [k x] Hp%elem_of_map_items. by apply Hk. }
    revert Hin. generalize (map_items m). intros l. induction l as [|p l IH]; intros Hin; [done|].
    specialize (IH ltac:(intros; apply Hin; by right)).
    assert (mm_device (f p.2) = p.1) as Hp by (rewrite Hf; apply Hin; left).
    destruct (decide (P p)) as [HP|HP], (decide (p.1 = h)) as [Eh|Eh];
      [rewrite (filter_cons_True P p l), (filter_cons_True _ p l), (filter_cons_True P p _), !fmap_cons by done;
         rewrite filter_cons_True by (simpl; congruence); f_equal; exact IH
      |rewrite (filter_cons_True P p l), (filter_cons_False _ p l), fmap_cons by done;
         rewrite filter_cons_False by (simpl; congruence); exact IH
      |rewrite (filter_cons_False P p l), (filter_cons_True _ p l), (filter_cons_False P p _) by done; exact IH
      |rewrite (filter_cons_False P p l), (filter_cons_False _ p l) by done; exact IH]. }
  rewrite map_items_key. destruct (m !! h); [|done]. rewrite filter_cons. by destruct (decide _).
Qed.

Section Alarms.
Context `{QualityNames}.

Lemma found_keyed m cache now : keyed (found_mismatches m cache now).
Proof.
  unfold found_mismatches. case_match; [|apply map_Forall_empty]. intros k x Hx.
  rewrite map_lookup_imap in Hx. destruct (sc_expectations _ !! k); [|done]. simpl in Hx.
  destruct (contradiction _ _ _ _ _); simplify_eq/=. done.
Qed.

(** What a re-judgement does to one device. *)
Lemma update_mismatches_device m cache now h :
  keyed (sm_mismatches m) →
  let '(changes, m') := update_mismatches cache now m in
  keyed (sm_mismatches m') ∧
  alarm_run (bool_decide (is_Some (sm_mismatches m !! h))) (changes_of h changes) =
  Some (bool_decide (is_Some (sm_mismatches m' !! h))).
Proof.
  intros Hk. unfold update_mismatches. destruct (negb _ || _); [done|]. simpl.
  pose proof (found_keyed m cache now) as Hf. set (found := found_mismatches m cache now) in *. split.
  - intros k x Hx. rewrite map_lookup_imap in Hx. destruct (found !! k) as [y|] eqn:Ey; [|done].
    simpl in Hx. simplify_eq. specialize (Hf k y Ey). destruct (sm_mismatches m !! k) as [old|] eqn:Eo; [|done].
    by apply Hk in Eo.
  - rewrite changes_of_app.
    rewrite (changes_of_entries _ _ (resolved m now)) by done.
    rewrite (changes_of_entries _ _ (λ x, x)) by done.
    rewrite map_lookup_imap. destruct (sm_mismatches m !! h) as [x|] eqn:Ex, (found !! h) as [y|] eqn:Ey; simpl;
      rewrite ?Ex, ?Ey; repeat case_decide; simplify_eq; try done.
Qed.

End Alarms.

(** ** Theorems *)

(** A monitor in use: status updates and re-judgements, in any order; the log
    collects every mismatch change reported. *)
Inductive monitor_step `{QualityNames} :
    StopChainMonitor * list MismatchChange → StopChainMonitor * list MismatchChange → Prop :=
| mon_update cache now m log : monitor_step (m, log) ((update cache now m).2, log)
| mon_judge cache now m log :
    monitor_step (m, log)
      ((update_mismatches cache now m).2, log ++ (update_mismatches cache now m).1).

Definition alarms_inv (s : StopChainMonitor * list MismatchChange) : Prop :=
  keyed (sm_mismatches s.1) ∧
  ∀ h, alarm_run false (changes_of h s.2) = Some (bool_decide (is_Some (sm_mismatches s.1 !! h))).

Lemma alarms_step `{QualityNames} s s' : alarms_inv s → monitor_step s s' → alarms_inv s'.
Proof.
  intros [Hk Hr] Hs. destruct Hs as [cache now m log|cache now m log]; simpl in *.
  - assert (sm_mismatches (update cache now m).2 = sm_mismatches m) as E.
    { unfold update. by repeat case_match. }
    unfold alarms_inv. simpl. by rewrite E.
  - split; simpl.
    + pose proof (update_mismatches_device m cache now "" Hk) as Hd. by destruct (update_mismatches cache now m), Hd.
    + intros h. rewrite changes_of_app, alarm_run_app, Hr. simpl.
      pose proof (update_mismatches_device m cache now h Hk) as Hd. by destruct (update_mismatches cache now m), Hd.
Qed.

(** Mismatch alarms are coherent: for every device the changes a monitor
    reports over its life alternate raised, resolved, raised, ..., and the device
    stands on the mismatch list exactly when its last change was a raise. *)
Theorem mismatch_alarms_alternate `{QualityNames} (config : StopChainConfig) (stale_after : Z)
    (m : StopChainMonitor) (log : list MismatchChange) (h : string) :
  rtc monitor_step (new_monitor config stale_after, []) (m, log) →
  alarm_run false (changes_of h log) = Some (bool_decide (is_Some (sm_mismatches m !! h))).
Proof.
  intros Hr. assert (alarms_inv (m, log)) as [_ Ha]; [|apply Ha].
  eapply (rtc_invariant _ alarms_inv); [|intros a b; apply alarms_step|exact Hr].
  assert (sm_mismatches (new_monitor config stale_after) = ∅) as E.
  { unfold new_monitor. by destruct (match sc_status config with Some _ => _ | None => _ end). }
  split; simpl; rewrite E; [apply map_Forall_empty|]. intros h'. by rewrite lookup_empty.
Qed.

Module StopBench.
Definition q_names : QualityNames := {| quality_proto_name _ := "Q"; quality_number _ := 0 |}.
Definition config : StopChainConfig :=
  mkStopConfig (Some ("sim0/relay/stop", true)) ["sim0/a"] {[ "sim0/a" := PowerLoss ]}.
Definition reading (b : bool) (quality : Quality) (at_ns : Z) : CachedSignalValue :=
  mkCached (mkValue VALUE_TYPE_BOOL (KBool b)) at_ns quality.
Definition device (handle sid : string) (v : CachedSignalValue) : DeviceState :=
  mkDeviceState handle {[ sid := v ]} 0 true false false.
Definition cache (stop : CachedSignalValue) (at_ns : Z) : StateCache :=
  put_states (<["sim0/relay" := device "sim0/relay" "stop" stop]>
    {[ "sim0/a" := device "sim0/a" "t" (reading true QUALITY_OK at_ns) ]}) (new_cache true true).
Definition m0 : StopChainMonitor := new_monitor config 1000.
Definition s : Z := 1000000000.
End StopBench.

Example mismatch_alarms_alternate_witness :
  let c0 := StopBench.cache (StopBench.reading true QUALITY_OK 0) 0 in
  let c1 := StopBench.cache (StopBench.reading true QUALITY_OK (2 * StopBench.s)) (2 * StopBench.s) in
  let m1 := (update (H := StopBench.q_names) c0 0 StopBench.m0).2 in
  let out := update_mismatches c1 (2 * StopBench.s) m1 in
  snd <$> out.1 = [true] ∧
  alarm_run false (changes_of "sim0/a" ([] ++ out.1)) = Some (bool_decide (is_Some (sm_mismatches out.2 !! "sim0/a"))).
Proof.
  cbv zeta. split; [vm_compute; reflexivity|].
  apply (mismatch_alarms_alternate (H := StopBench.q_names) StopBench.config 1000).
  eapply rtc_l; [apply mon_update|]. apply rtc_once, mon_judge.
Defined.

(** An observed stop holds the latch: right after the monitor re-reads its
    status, a clear of the engaged latch under the monitor's guard releases it
    exactly when the cache holds a fresh, QUALITY_OK, boolean reading of the
    status signal with the value that means the stop is not in force; any other
    reading, or none, refuses the clear and leaves the controller as it was. *)
Theorem observed_stop_holds_latch `{QualityNames} (m : StopChainMonitor) (signal : string) (active : bool)
    (cache : StateCache) (now : Z) (unlink_error : option string) (sync : bool) (w : SafeWorld) :
  sc_status (sm_config m) = Some (signal, active) → latched_flag (sw_ctl w) = true →
  let m' := (update cache now m).2 in
  let '(refusal, w') := clear (clear_refusal m') unlink_error sync w in
  (latched_flag (sw_ctl w') = false ↔
     ∃ v, get_signal_value cache (sm_device_handle m) (sm_signal_id m) = Some v ∧
          is_stale v (sm_stale_after m) now = false ∧ csv_quality v = QUALITY_OK ∧
          v_kind (csv_value v) = KBool (negb active)) ∧
  (refusal = None ↔ latched_flag (sw_ctl w') = false) ∧ (is_Some refusal → w' = w).
Proof.
  intros Hc Hl m'. assert (sn_state (sm_current m') = (classify m cache now).1) as Hs.
  { subst m'. unfold update, configured. rewrite Hc. simpl. destruct (classify m cache now) as [st rs].
    case_bool_decide as E1; simpl; [|done]. by case_bool_decide. }
  assert ((classify m cache now).1 = Clear ↔
     ∃ v, get_signal_value cache (sm_device_handle m) (sm_signal_id m) = Some v ∧
          is_stale v (sm_stale_after m) now = false ∧ csv_quality v = QUALITY_OK ∧
          v_kind (csv_value v) = KBool (negb active)) as Hclear.
  { unfold classify. rewrite Hc. destruct (get_signal_value _ _ _) as [v|]; simpl; [|naive_solver].
    destruct (is_stale v _ now) eqn:Est; simpl; [naive_solver congruence|].
    unfold is_ok, has_bool_value, bool_value. case_bool_decide; simpl; [|naive_solver].
    destruct (v_kind (csv_value v)) as [b| | | | | |] eqn:Ek; simpl;
      (split; [intros E; try done|intros (v' & [= <-] & _ & _ & Hk); rewrite Ek in Hk; try done]).
    - exists v. rewrite Ek. by destruct b, active.
    - injection Hk as ->. by destruct active. }
  assert ((classify m cache now).1 ≠ NotConfigured) as Hn.
  { unfold classify. rewrite Hc. repeat case_match; done. }
  rewrite <- Hs in Hclear, Hn. clear Hs. unfold clear_refusal, clear. revert Hclear Hn.
  destruct (sn_state (sm_current m')); intros Hclear Hn; simpl; rewrite ?Hl, <- ?Hclear;
    [done|by split_and!| |by split_and!].
  destruct (latch_store_ (sw_ctl w)); simpl; rewrite <- Hclear; split_and!; try done; by intros [].
Qed.

Example observed_stop_holds_latch_witness :
  let held := put_ctl (engage 5 (sw_ctl LadderBench.w0)) LadderBench.w0 in
  let after stop := (update (H := StopBench.q_names) (StopBench.cache stop 0) 0 StopBench.m0).2 in
  latched_flag (sw_ctl (clear (clear_refusal (after (StopBench.reading false QUALITY_UNSPECIFIED 0)))
                          None true held).2) = true ∧
  latched_flag (sw_ctl (clear (clear_refusal (after (StopBench.reading false QUALITY_OK 0))) None true held).2) = false.
Proof.
  cbv zeta. split; [vm_compute; reflexivity|].
  set (held := put_ctl _ LadderBench.w0).
  refine (proj2 (proj1 (observed_stop_holds_latch (H := StopBench.q_names) StopBench.m0 "sim0/relay/stop" true
    (StopBench.cache (StopBench.reading false QUALITY_OK 0) 0) 0 None true held eq_refl eq_refl)) _).
  exists (StopBench.reading false QUALITY_OK 0). split_and!; vm_compute; reflexivity.
Defined.
