(* ===== verification/RuntimeHooks.v ===== *)
(** * The runtime's mode-transition callbacks ([core/runtime/runtime.cpp])

    What [Runtime::init_automation] registers on the mode manager beside the
    gates: the declared before- and after-transition hooks, whose calls go
    through the call router, the re-arm of the device-loss latches on the
    deliberate MANUAL to AUTO transition, and the publication of a mode change to
    the event emitter and the run journal; and the publication of a parameter
    change.  Log lines are left out; the n-th call, made or held, sees the
    environment [ctx n]. *)

From S2P Require Import Prelude Protocol Interfaces ModeManager Registry Parameters StateCache.
From S2P Require Import Json RunJournal EventEmitter.
From S2P Require Import DeviceLossLatch LatchStore ArgCheck CallRouter SafeState ActuationGate.

Record RuntimeWorld := mkRuntime {
  rw_safe : SafeWorld;
  rw_loss : DeviceLossLatch;
  rw_events : list Event;             (* emitted, oldest first *)
  rw_journal : option RunJournal;
}.

(** [hook_mode_matches]. *)
Definition hook_mode_matches (filter : string) (actual : RuntimeMode) : bool :=
  if bool_decide (filter = "") || bool_decide (filter = "*") then true
  else bool_decide (filter = mode_to_string actual).

Definition hook_matches (hook : ModeTransitionHookConfig) (prev next : RuntimeMode) : bool :=
  hook_mode_matches (hk_from hook) prev && hook_mode_matches (hk_to hook) next.

(** The calls a transition fires, in order, with their hook's [fail_on_error]. *)
Definition hook_plan (hooks : list ModeTransitionHookConfig) (prev next : RuntimeMode)
    : list (bool * ModeTransitionCallConfig) :=
  h ← filter (λ h, hook_matches h prev next = true) hooks; pair (hk_fail_on_error h) <$> hk_calls h.

(** What became of one planned call. *)
Inductive HookOutcome :=
| Held                       (* the latch refuses this FAULT entry's call: not made *)
| Ran (result : CallResult).

Section Hooks.
Context {L D : Type} `{IActuationLatch L} `{IDeviceLossLatch D} `{FloatText} `{StatusNames}.
Context (ctx : nat → CallCtx L D).

(** A call that is not made still takes its moment. *)
Definition tick (w : SafeWorld) : SafeWorld :=
  mkWorld (sw_ctl w) (sw_router w) (sw_cache w) (sw_fs w) (sw_sent w) (S (sw_calls w)).

Definition run_hook_call (next : RuntimeMode) (call : ModeTransitionCallConfig) (w : SafeWorld)
    : HookOutcome * SafeWorld :=
  let request := mode_hook_request call next in
  if rq_fault_entry_hook request && latch_refuses request (cx_env (ctx (sw_calls w)) AtLatch) then (Held, tick w)
  else let '(result, w') := route ctx request w in (Ran result, w').

Definition hook_error (timing : string) (prev next : RuntimeMode) (call : ModeTransitionCallConfig)
    (result : CallResult) : string :=
  timing +:+ "-transition hook failed (" +:+ mode_to_string prev +:+ " -> " +:+ mode_to_string next +:+ "): " +:+
  cc_device_handle call +:+ " " +:+ name_or_id (cc_function_name call) (cc_function_id call) +:+ " - " +:+
  cr_error_message result.

(** The before-transition hooks: the veto, what became of each call, the world. *)
Fixpoint run_before_hooks (prev next : RuntimeMode) (plan : list (bool * ModeTransitionCallConfig))
    (w : SafeWorld) : option string * list HookOutcome * SafeWorld :=
  match plan with
  | [] => (None, [], w)
  | (fail_on_error, call) :: rest =>
      let '(o, w1) := run_hook_call next call w in
      let veto :=
        match o with
        | Held => None
        | Ran result =>
            if cr_success result then None
            else if bool_decide (next = FAULT) then None
            else if fail_on_error then Some (hook_error "Before" prev next call result) else None
        end in
      match veto with
      | Some error => (Some error, [o], w1)
      | None => let '(v, os, w2) := run_before_hooks prev next rest w1 in (v, o :: os, w2)
      end
  end.

Fixpoint run_after_hooks (prev next : RuntimeMode) (plan : list (bool * ModeTransitionCallConfig))
    (w : SafeWorld) : list HookOutcome * SafeWorld :=
  match plan with
  | [] => ([], w)
  | (_, call) :: rest =>
      let '(o, w1) := run_hook_call next call w in
      let '(os, w2) := run_after_hooks prev next rest w1 in (o :: os, w2)
  end.

Definition with_safe (w : SafeWorld) (rest : RuntimeWorld) : RuntimeWorld :=
  mkRuntime w (rw_loss rest) (rw_events rest) (rw_journal rest).

Definition put_safe (w : SafeWorld) (m : MM RuntimeWorld) : MM RuntimeWorld :=
  mkMM (current_mode_ m) (with_safe w (world m)).

Definition before_hooks_callback (hooks : list ModeTransitionHookConfig)
    : BeforeModeChangeCallback (W := RuntimeWorld) :=
  λ prev next m,
    let '(veto, _, w) := run_before_hooks prev next (hook_plan hooks prev next) (rw_safe (world m)) in
    (match veto with Some error => Reject error | None => Allow end, put_safe w m).

Definition after_hooks_callback (hooks : list ModeTransitionHookConfig) : ModeChangeCallback (W := RuntimeWorld) :=
  λ prev next m,
    (None, put_safe (run_after_hooks prev next (hook_plan hooks prev next) (rw_safe (world m))).2 m).

(** Re-arming on MANUAL to AUTO. *)
Definition rearm_callback : ModeChangeCallback (W := RuntimeWorld) :=
  λ prev next m,
    (None,
     if negb (bool_decide (prev = MANUAL)) || negb (bool_decide (next = AUTO)) then m
     else mkMM (current_mode_ m) (mkRuntime (rw_safe (world m)) (release_all (rw_loss (world m))).2
                                    (rw_events (world m)) (rw_journal (world m)))).

(** What one publication meets: when there is an emitter, its [next_event_id()] at
    the n-th event; the system clock; whether it runs on the tick thread; the
    journal's clock readings and its file answers. *)
Record Publishing := mkPublishing {
  pu_emitter : option (nat → Z);
  pu_now_ms : nat → Z;
  pu_on_tick_thread : bool;
  pu_journal_now : Z * Z * Z;
  pu_io : Io;
}.

Section Publish.
Context `{JsonLines} (cast : double → Z) (pub : Publishing).

Definition emit_event (event : Z → Z → Event) (events : list Event) : list Event :=
  match pu_emitter pub with
  | Some next_event_id => events ++ [event (next_event_id (length events)) (pu_now_ms pub (length events))]
  | None => events
  end.

Definition publish_mode_change : ModeChangeCallback (W := RuntimeWorld) := λ prev next m,
  let w := world m in
  let '(now, now1, now2) := pu_journal_now pub in
  let events := emit_event (λ id ms, EventEmitter.ModeChange id (mode_to_string prev) (mode_to_string next) ms)
                  (rw_events w) in
  let '(thrown, journal) :=
    match rw_journal w with
    | None => (None, None)
    | Some j =>
        let '(res, j') := record_mode_change cast (mode_to_string prev) (mode_to_string next) (pu_on_tick_thread pub)
                            now now1 now2 (pu_io pub) j in
        (match res with Some _ => None | None => Some "type_error" end, Some j')
    end in
  (thrown, mkMM (current_mode_ m) (mkRuntime (rw_safe w) (rw_loss w) events journal)).

(** The callback on the parameter manager: the event, and the open run's entry;
    false when the journal's printer threw. *)
Definition publish_parameter_change `{FloatText} (name : string) (old_value new_value : ParameterValue)
    (events : list Event) (journal : option RunJournal) : bool * list Event * option RunJournal :=
  let old_text := parameter_value_to_string old_value in
  let new_text := parameter_value_to_string new_value in
  let '(_, now1, now2) := pu_journal_now pub in
  let events' := emit_event (λ id ms, EventEmitter.ParameterChange id name old_text new_text ms) events in
  match journal with
  | None => (true, events', None)
  | Some j =>
      match j_open_run_id j with
      | None => (true, events', Some j)
      | Some open_id =>
          let '(res, j') := append_event cast open_id RunJournal.ParameterChange name
              (JObject [("new_value", JString new_text); ("old_value", JString old_text);
                        ("parameter_name", JString name)]) 0 now1 now2 (pu_io pub) j in
          (match res with Some _ => true | None => false end, events', Some j')
      end
  end.
End Publish.

(** The registration order of [init_automation]. *)
Definition init_automation `{JsonLines} (cast : double → Z) (pub : Publishing) (automation : AutomationConfig)
    (safety : SafeStateConfig) (tid : nat) (registry_of : RuntimeWorld → DeviceRegistry) : Callbacks RuntimeWorld :=
  let cbs0 := install_estop_auto_gate (λ w, (sw_ctl (rw_safe w), tid))
                (install_hookless_auto_gate registry_of automation safety (mkCallbacks [] [] [])) in
  let cbs1 := on_mode_change rearm_callback cbs0 in
  let cbs2 := if bool_decide (length (au_before_transition automation) = 0%nat) then cbs1
              else on_before_mode_change (before_hooks_callback (au_before_transition automation)) cbs1 in
  let cbs3 := if bool_decide (length (au_after_transition automation) = 0%nat) then cbs2
              else on_mode_change (after_hooks_callback (au_after_transition automation)) cbs2 in
  on_mode_change (publish_mode_change cast pub) cbs3.

End Hooks.

(** ** The controller's view

    The safe-state controller's operations ([SafeState.v]) work on the mode and
    the part of the world they touch, and enter no mode but FAULT.  Here they are
    run with the registered callbacks seen through that part; a FAULT they entered
    is then published, as the last callback does. *)

Definition safe_view (m : MM RuntimeWorld) : MM SafeWorld := mkMM (current_mode_ m) (rw_safe (world m)).
Definition full_view (rest : RuntimeWorld) (m : MM SafeWorld) : MM RuntimeWorld :=
  mkMM (current_mode_ m) (with_safe (world m) rest).

Definition safe_callbacks (rest : RuntimeWorld) (cbs : Callbacks RuntimeWorld) : Callbacks SafeWorld :=
  mkCallbacks
    ((λ (cb : BeforeModeChangeCallback) p n m, let '(v, m') := cb p n (full_view rest m) in (v, safe_view m'))
       <$> before_callbacks_ cbs)
    ((λ (g : CommitGuard) p n w, g p n (with_safe w rest)) <$> commit_guards_ cbs)
    ((λ (cb : ModeChangeCallback) p n m, let '(e, m') := cb p n (full_view rest m) in (e, safe_view m'))
       <$> callbacks_ cbs).

Definition on_controller `{JsonLines} {A} (cast : double → Z) (pub : Publishing) (cbs : Callbacks RuntimeWorld)
    (operation : Callbacks SafeWorld → MM SafeWorld → A * MM SafeWorld) (m : MM RuntimeWorld)
    : A * MM RuntimeWorld :=
  let '(x, ms) := operation (safe_callbacks (world m) cbs) (safe_view m) in
  let m1 := full_view (world m) ms in
  (x, if bool_decide (current_mode_ ms = current_mode_ m) then m1
      else (publish_mode_change cast pub (current_mode_ m) (current_mode_ ms) m1).2).

(** ** The hooks as the gate counts them *)

Lemma hook_mode_matches_allows f mode : hook_mode_matches f mode = filter_allows f (mode_to_string mode).
Proof. unfold hook_mode_matches, filter_allows. by destruct (bool_decide _ || bool_decide _). Qed.

(** The gate's predicate is the dispatcher's, at AUTO to FAULT. *)
Lemma covers_is_matches h : hook_covers_auto_to_fault h = hook_matches h AUTO FAULT.
Proof. unfold hook_covers_auto_to_fault, hook_matches. by rewrite !hook_mode_matches_allows. Qed.

Lemma hook_plan_elem hooks prev next h call :
  h ∈ hooks → hook_matches h prev next = true → call ∈ hk_calls h →
  (hk_fail_on_error h, call) ∈ hook_plan hooks prev next.
Proof.
  intros Hh Hm Hc. unfold hook_plan. apply list_elem_of_bind. exists h.
  split; [by apply list_elem_of_fmap_2|by apply list_elem_of_filter].
Qed.

Section HookFacts.
Context {L D : Type} `{IActuationLatch L} `{IDeviceLossLatch D} `{FloatText} `{StatusNames}.
Context (ctx : nat → CallCtx L D).

(** A call is held only by an engaged latch that does not admit it. *)
Lemma latch_refuses_engaged request (e : Env L D) :
  latch_refuses request e = true →
  ∃ l, env_latch e = Some l ∧ is_engaged l = true ∧
       (rq_fault_entry_hook request = true → admits_fault_entry_hooks l = false).
Proof.
  unfold latch_refuses, latch_holds. destruct (env_latch e) as [l|]; [|done]. intros Hr. exists l.
  destruct (rq_safe_state request); [done|]. destruct (is_engaged l); [|done]. simpl in Hr.
  destruct (parse_device_handle _) as [[pid did]|]; [|done]. destruct (get_device_copy _ _ _); [|done].
  destruct (resolve_function_spec _ _) as [[name spec]|]; [|done].
  split_and!; [done..|]. intros Hf. rewrite Hf in Hr.
  by destruct (is_actuating spec), (admits_fault_entry_hooks l).
Qed.

Definition outcome_ok (next : RuntimeMode) (call : ModeTransitionCallConfig) (o : HookOutcome) : Prop :=
  match o with
  | Held => next = FAULT ∧ ∃ n l, env_latch (cx_env (ctx n) AtLatch) = Some l ∧ is_engaged l = true ∧
                                  admits_fault_entry_hooks l = false
  | Ran result => ∃ w, result = (route ctx (mode_hook_request call next) w).1
  end.

Lemma run_hook_call_ok next call w : outcome_ok next call (run_hook_call ctx next call w).1.
Proof.
  unfold run_hook_call. simpl. destruct (bool_decide_reflect (next = FAULT)) as [E|E]; simpl.
  - destruct (latch_refuses _ _) eqn:El.
    + apply latch_refuses_engaged in El as (l & H1' & H2' & H3'). simpl. split; [done|].
      exists (sw_calls w), l. split_and!; [done..|]. apply H3'. simpl. by rewrite bool_decide_true.
    + destruct (route ctx _ w) as [res w'] eqn:Er. exists w. by rewrite Er.
  - destruct (route ctx _ w) as [res w'] eqn:Er. exists w. by rewrite Er.
Qed.

(** On the way into FAULT the before-hooks run to the end. *)
Lemma run_before_hooks_FAULT prev plan w :
  ∃ os w', run_before_hooks ctx prev FAULT plan w = (None, os, w') ∧
           Forall2 (λ p o, outcome_ok FAULT p.2 o) plan os.
Proof.
  revert w. induction plan as [|[foe call] plan IH]; intros w; simpl; [by eexists [], w|].
  pose proof (run_hook_call_ok FAULT call w) as Ho.
  destruct (run_hook_call ctx FAULT call w) as [o w1]. destruct (IH w1) as (os & w2 & E & Hos). rewrite E.
  exists (o :: os), w2. split; [|by constructor]. destruct o; [done|]. by destruct (cr_success result).
Qed.

Lemma run_after_hooks_all prev next plan w :
  Forall2 (λ p o, outcome_ok next p.2 o) plan (run_after_hooks ctx prev next plan w).1.
Proof.
  revert w. induction plan as [|[foe call] plan IH]; intros w; simpl; [constructor|].
  pose proof (run_hook_call_ok next call w) as Ho. destruct (run_hook_call ctx next call w) as [o w1].
  specialize (IH w1). destruct (run_after_hooks ctx prev next plan w1) as [os w2]. by constructor.
Qed.

End HookFacts.

(** ** What the callbacks leave alone *)

Lemma publish_keeps `{JsonLines} cast pub prev next m :
  let m' := (publish_mode_change cast pub prev next m).2 in
  current_mode_ m' = current_mode_ m ∧ rw_safe (world m') = rw_safe (world m) ∧ rw_loss (world m') = rw_loss (world m).
Proof.
  unfold publish_mode_change. destruct (pu_journal_now pub) as [[now now1] now2].
  destruct (rw_journal (world m)) as [j|]; [|done]. by destruct (record_mode_change _ _ _ _ _ _ _ _ _).
Qed.

Section Keeps.
Context {L D : Type} `{IActuationLatch L} `{IDeviceLossLatch D} `{FloatText} `{StatusNames} `{JsonLines}.
Context (ctx : nat → CallCtx L D) (cast : double → Z) (pub : Publishing) (automation : AutomationConfig).
Context (safety : SafeStateConfig) (tid : nat) (registry_of : RuntimeWorld → DeviceRegistry).

(** A hook's call leaves the controller alone and adds to the calls sent. *)
Definition only_sends (w w' : SafeWorld) : Prop := sw_ctl w' = sw_ctl w ∧ sw_sent w `prefix_of` sw_sent w'.

#[local] Instance only_sends_preorder : PreOrder only_sends.
Proof. split; [by intros w; split|]. intros w1 w2 w3 [Hc1 Hs1] [Hc2 Hs2]. split; [congruence|by etrans]. Qed.

Lemma run_hook_call_sends next call w : only_sends w (run_hook_call ctx next call w).2.
Proof.
  unfold run_hook_call. destruct (_ && _); [done|].
  destruct (route_spec ctx (mode_hook_request call next) w) as (res & od & w' & -> & Hc & _ & Hs & _).
  split; [done|]. simpl. rewrite Hs. by eexists.
Qed.

Lemma run_before_hooks_sends prev next plan w : only_sends w (run_before_hooks ctx prev next plan w).2.
Proof.
  revert w. induction plan as [|[foe call] plan IH]; intros w; simpl; [done|].
  pose proof (run_hook_call_sends next call w) as Hc. destruct (run_hook_call ctx next call w) as [o w1]. simpl in Hc.
  specialize (IH w1). destruct (run_before_hooks ctx prev next plan w1) as [[v os] w2]. simpl in *.
  destruct (match o with Held => None | Ran _ => _ end); simpl; [done|by etrans].
Qed.

Lemma run_after_hooks_sends prev next plan w : only_sends w (run_after_hooks ctx prev next plan w).2.
Proof.
  revert w. induction plan as [|[foe call] plan IH]; intros w; simpl; [done|].
  pose proof (run_hook_call_sends next call w) as Hc. destruct (run_hook_call ctx next call w) as [o w1]. simpl in Hc.
  specialize (IH w1). destruct (run_after_hooks ctx prev next plan w1) as [os w2]. simpl in *. by etrans.
Qed.

(** Every registered callback leaves the mode to its transition and the controller
    alone; the before-callbacks publish nothing. *)
Lemma init_automation_before cb :
  cb ∈ before_callbacks_ (init_automation ctx cast pub automation safety tid registry_of) → ∀ p n m,
  current_mode_ (cb p n m).2 = current_mode_ m ∧ only_sends (rw_safe (world m)) (rw_safe (world (cb p n m).2)) ∧
  ∃ w, world (cb p n m).2 = with_safe w (world m).
Proof.
  intros Hcb p n m. unfold init_automation in Hcb.
  assert (cb ∈ [λ _ next m, (hookless_check registry_of automation safety next (world m), m);
                λ _ next m, (estop_check (λ w, (sw_ctl (rw_safe w), tid)) next (world m), m)] ∨
          cb = before_hooks_callback ctx (au_before_transition automation)) as [Hg| ->].
  { revert Hcb. do 2 case_bool_decide; simpl; rewrite ?elem_of_cons, ?list_elem_of_singleton; tauto. }
  - apply elem_of_cons in Hg as [->|[->|Hn]%elem_of_cons]; [..|by apply elem_of_nil in Hn]; simpl;
      (do 2 (split; [done|])); exists (rw_safe (world m)); by destruct (world m).
  - unfold before_hooks_callback.
    pose proof (run_before_hooks_sends p n (hook_plan (au_before_transition automation) p n) (rw_safe (world m))) as Hc.
    destruct (run_before_hooks _ _ _ _ _) as [[v os] w]. split; [done|]. split; [done|]. by exists w.
Qed.

Lemma init_automation_after cb :
  cb ∈ callbacks_ (init_automation ctx cast pub automation safety tid registry_of) → ∀ p n m,
  current_mode_ (cb p n m).2 = current_mode_ m ∧ only_sends (rw_safe (world m)) (rw_safe (world (cb p n m).2)).
Proof.
  intros Hcb p n m. unfold init_automation in Hcb.
  assert (cb = rearm_callback ∨ cb = after_hooks_callback ctx (au_after_transition automation) ∨
          cb = publish_mode_change cast pub) as [->|[->| ->]].
  { revert Hcb. do 2 case_bool_decide; simpl; rewrite ?elem_of_cons, ?elem_of_nil; tauto. }
  - unfold rearm_callback. by destruct (_ || _).
  - split; [done|]. simpl. apply run_after_hooks_sends.
  - destruct (publish_keeps cast pub p n m) as (? & -> & _). done.
Qed.

Lemma init_automation_keeps_mode :
  let cbs := init_automation ctx cast pub automation safety tid registry_of in
  before_keeps_mode (before_callbacks_ cbs) ∧ after_keeps_mode (callbacks_ cbs).
Proof.
  split; apply Forall_forall; intros cb Hcb p n m;
    [by apply init_automation_before|by apply init_automation_after].
Qed.

Lemma init_automation_keeps (P : Controller → Prop) :
  callbacks_keep (λ w, P (sw_ctl (rw_safe w))) (init_automation ctx cast pub automation safety tid registry_of).
Proof.
  split; apply Forall_forall; intros cb Hcb p n m Hp;
    [destruct (init_automation_before cb Hcb p n m) as (_ & [-> _] & _)|
     destruct (init_automation_after cb Hcb p n m) as (_ & -> & _)]; done.
Qed.

(** So they do as the controller sees them. *)
Lemma safe_callbacks_keep_mode rest :
  let cbs := safe_callbacks rest (init_automation ctx cast pub automation safety tid registry_of) in
  before_keeps_mode (before_callbacks_ cbs) ∧ after_keeps_mode (callbacks_ cbs).
Proof.
  split; apply Forall_forall; simpl; intros cb (cb' & -> & Hcb)%list_elem_of_fmap p n m.
  - destruct (init_automation_before cb' Hcb p n (full_view rest m)) as (Hm & _).
    by destruct (cb' p n (full_view rest m)).
  - destruct (init_automation_after cb' Hcb p n (full_view rest m)) as (Hm & _).
    by destruct (cb' p n (full_view rest m)).
Qed.

Lemma safe_callbacks_keep_world rest (P : SafeWorld → Prop) :
  (∀ w w', only_sends w w' → P w → P w') →
  callbacks_keep P (safe_callbacks rest (init_automation ctx cast pub automation safety tid registry_of)).
Proof.
  intros HP. split; apply Forall_forall; simpl; intros cb (cb' & -> & Hcb)%list_elem_of_fmap p n m Hp.
  - destruct (init_automation_before cb' Hcb p n (full_view rest m)) as (_ & Hc & _).
    destruct (cb' p n (full_view rest m)) as [v m']. simpl in *. by eapply HP.
  - destruct (init_automation_after cb' Hcb p n (full_view rest m)) as (_ & Hc).
    destruct (cb' p n (full_view rest m)) as [v m']. simpl in *. by eapply HP.
Qed.

Lemma safe_callbacks_keep rest (P : Controller → Prop) :
  callbacks_keep (λ w, P (sw_ctl w)) (safe_callbacks rest (init_automation ctx cast pub automation safety tid registry_of)).
Proof. apply safe_callbacks_keep_world. by intros w w' [-> _]. Qed.

Lemma safe_callbacks_send rest sent :
  callbacks_keep (λ w, sent `prefix_of` sw_sent w)
    (safe_callbacks rest (init_automation ctx cast pub automation safety tid registry_of)).
Proof. apply safe_callbacks_keep_world. intros w w' [_ Hs] ?. by etrans. Qed.

(** The two gates stand guard over every commit. *)
Lemma init_automation_guards :
  commit_guards_ (init_automation ctx cast pub automation safety tid registry_of) =
  [λ _ next w, hookless_check registry_of automation safety next w;
   λ _ next w, estop_check (λ w, (sw_ctl (rw_safe w), tid)) next w].
Proof. unfold init_automation. by do 2 case_bool_decide. Qed.

(** What the callbacks do on the way into FAULT is done to the controller's part. *)
Definition local_before (rest : RuntimeWorld) (cb : BeforeModeChangeCallback) : Prop :=
  ∀ p n ms, (cb p n (full_view rest ms)).2 = full_view rest (safe_view (cb p n (full_view rest ms)).2).
Definition local_after (rest : RuntimeWorld) (cb : ModeChangeCallback) : Prop :=
  ∀ p ms, (cb p FAULT (full_view rest ms)).2 = full_view rest (safe_view (cb p FAULT (full_view rest ms)).2).

Lemma run_before_view rest l p ms :
  Forall (local_before rest) l →
  run_before l p FAULT (full_view rest ms) =
    let '(e, ms') := run_before ((λ (cb : BeforeModeChangeCallback) p n m,
        let '(v, m') := cb p n (full_view rest m) in (v, safe_view m')) <$> l) p FAULT ms in (e, full_view rest ms').
Proof.
  intros Hl. revert ms. induction Hl as [|cb l Hcb _ IH]; intros ms; [done|]. cbn [fmap list_fmap run_before].
  specialize (Hcb p FAULT ms). destruct (cb p FAULT (full_view rest ms)) as [v m'] eqn:E. simpl in Hcb.
  rewrite Hcb. destruct v; rewrite ?decide_True by done; apply IH.
Qed.

Lemma run_after_view rest l p ms :
  Forall (local_after rest) l →
  run_after l p FAULT (full_view rest ms) =
    full_view rest (run_after ((λ (cb : ModeChangeCallback) p n m,
        let '(e, m') := cb p n (full_view rest m) in (e, safe_view m')) <$> l) p FAULT ms).
Proof.
  intros Hl. revert ms. induction Hl as [|cb l Hcb _ IH]; intros ms; [done|]. cbn [fmap list_fmap run_after].
  specialize (Hcb p ms). destruct (cb p FAULT (full_view rest ms)) as [e m'] eqn:E. simpl in *.
  rewrite Hcb. apply IH.
Qed.

Lemma init_automation_last :
  ∃ l, callbacks_ (init_automation ctx cast pub automation safety tid registry_of) =
         l ++ [publish_mode_change cast pub] ∧ ∀ rest, Forall (local_after rest) l.
Proof.
  assert (∀ rest, local_after rest rearm_callback) as Hr by (by intros rest p [mode w]; destruct p).
  assert (∀ rest, local_after rest (after_hooks_callback ctx (au_after_transition automation))) as Ha
    by (by intros rest p [mode w]).
  exists (rearm_callback :: if bool_decide (length (au_after_transition automation) = 0%nat) then []
                            else [after_hooks_callback ctx (au_after_transition automation)]).
  split; [unfold init_automation; by do 2 case_bool_decide|]. intros rest.
  apply Forall_cons_2; [done|]. case_bool_decide; [apply Forall_nil_2|by apply Forall_singleton].
Qed.
End Keeps.

(** ** Theorems *)

(** C18. The safe-state hooks run to the end on the way from AUTO into FAULT:
    every call of every before- or after-transition hook that the hookless gate
    counts as covering that transition is either made, whatever happened to the
    calls before it, or held by an engaged e-stop latch that admits no hook; and
    the before-hooks never veto. *)
Theorem fault_hooks_run_to_the_end {L D} `{IActuationLatch L} `{IDeviceLossLatch D} `{FloatText} `{StatusNames}
    (ctx : nat → CallCtx L D) (hooks : list ModeTransitionHookConfig) (h : ModeTransitionHookConfig)
    (call : ModeTransitionCallConfig) (w : SafeWorld) :
  h ∈ hooks → hook_covers_auto_to_fault h = true → call ∈ hk_calls h →
  let plan := hook_plan hooks AUTO FAULT in
  (∃ os w', run_before_hooks ctx AUTO FAULT plan w = (None, os, w') ∧
     ∃ i o, snd <$> plan !! i = Some call ∧ os !! i = Some o ∧ outcome_ok ctx FAULT call o) ∧
  (∃ i o, snd <$> plan !! i = Some call ∧ (run_after_hooks ctx AUTO FAULT plan w).1 !! i = Some o ∧
     outcome_ok ctx FAULT call o).
Proof.
  intros Hh Hc Hcall plan. rewrite covers_is_matches in Hc.
  pose proof (hook_plan_elem hooks AUTO FAULT h call Hh Hc Hcall) as [i Hi]%list_elem_of_lookup_1.
  assert (∀ os, Forall2 (λ p o, outcome_ok ctx FAULT p.2 o) plan os →
    ∃ i o, snd <$> plan !! i = Some call ∧ os !! i = Some o ∧ outcome_ok ctx FAULT call o) as Hall.
  { intros os Hos. destruct (Forall2_lookup_l _ _ _ _ _ Hos Hi) as (o & Ho & Hok).
    exists i, o. fold plan in Hi. by rewrite Hi. }
  split; [|apply Hall, run_after_hooks_all].
  destruct (run_before_hooks_FAULT ctx AUTO plan w) as (os & w' & E & Hos). exists os, w'. split; [done|]. by apply Hall.
Qed.

Example fault_hooks_run_to_the_end_witness :
  let plan := hook_plan [fault_hook] AUTO FAULT in
  ∃ i o, snd <$> plan !! i = Some (LadderBench.setpoint 0) ∧
    (run_after_hooks (H1 := plain_text) (H2 := Bench.names) LadderBench.ctx AUTO FAULT plan LadderBench.w0).1 !! i
      = Some o ∧ outcome_ok (H1 := plain_text) (H2 := Bench.names) LadderBench.ctx FAULT (LadderBench.setpoint 0) o.
Proof.
  refine (proj2 (fault_hooks_run_to_the_end (H1 := plain_text) (H2 := Bench.names) LadderBench.ctx [fault_hook]
    fault_hook (LadderBench.setpoint 0) LadderBench.w0 _ _ _)); [left|reflexivity|left].
Defined.

(** Device-loss latches are re-armed exactly by a deliberate entry into
    AUTO: with the runtime's callbacks, a mode request leaves the loss latch as
    it was unless it committed MANUAL to AUTO, and then nothing stays latched; a
    vetoed or refused transition releases nothing. *)
Theorem rearm_only_on_auto_entry {L D} `{IActuationLatch L} `{IDeviceLossLatch D} `{FloatText} `{StatusNames}
    `{JsonLines} (ctx : nat → CallCtx L D) (cast : double → Z) (pub : Publishing) (automation : AutomationConfig)
    (safety : SafeStateConfig) (tid : nat) (registry_of : RuntimeWorld → DeviceRegistry) (n : RuntimeMode)
    (m : MM RuntimeWorld) :
  let '(r, m') := set_mode (init_automation ctx cast pub automation safety tid registry_of) n m in
  if decide (is_ok_b r = true ∧ current_mode_ m = MANUAL ∧ n = AUTO)
  then latched_ (rw_loss (world m')) = ∅
  else rw_loss (world m') = rw_loss (world m).
Proof.
  set (cbs := init_automation ctx cast pub automation safety tid registry_of).
  assert (∀ l p n m, rw_loss (world m) = l →
            rw_loss (world (run_before (before_callbacks_ cbs) p n m).2) = l) as Hbefore.
  { intros l p n' m0. apply (run_before_keeps (λ w, rw_loss w = l)). subst cbs. unfold init_automation.
    do 2 case_bool_decide; simpl; repeat constructor; intros p' q m1 Hm1; simpl; try done;
      unfold before_hooks_callback; by destruct (run_before_hooks _ _ _ _ _) as [[? ?] ?]. }
  assert (∀ q m1, rw_loss (world (run_after (callbacks_ cbs) q n m1)) =
    if decide (q = MANUAL ∧ n = AUTO) then (release_all (rw_loss (world m1))).2 else rw_loss (world m1)) as Hafter.
  { intros q m1. subst cbs. unfold init_automation.
    do 2 case_bool_decide; simpl;
      (match goal with |- context [publish_mode_change cast pub ?q ?n ?m] =>
         destruct (publish_keeps cast pub q n m) as (_ & _ & ->) end); destruct q, n; done. }
  pose proof (set_mode_cases cbs n m) as Hc. destruct (set_mode cbs n m) as [r m'].
  destruct Hc as [[Hw Hok]|(mb & q & Hb & -> & Hq & ->)].
  - rewrite decide_False.
    + destruct Hw as [-> |(e & mb & Hb & ->)]; [done|].
      pose proof (Hbefore (rw_loss (world m)) (current_mode_ m) n m eq_refl) as Hk. by rewrite Hb in Hk.
    + intros ([[] Hr]%is_ok_b_true & Hm & ->). destruct (Hok Hr) as [E|E]; congruence.
  - pose proof (Hbefore (rw_loss (world m)) (current_mode_ m) n m eq_refl) as Hk. rewrite Hb in Hk. simpl in Hk.
    rewrite Hafter. simpl. rewrite Hk. destruct (decide (n = AUTO)) as [->|Hn].
    + rewrite (Hq ltac:(done)). destruct (current_mode_ m); by repeat (rewrite ?decide_True, ?decide_False by tauto).
    + rewrite !decide_False by tauto. done.
Qed.

Lemma run_after_app {W} (l1 l2 : list (ModeChangeCallback (W := W))) p n m :
  run_after (l1 ++ l2) p n m = run_after l2 p n (run_after l1 p n m).
Proof. revert m. by induction l1 as [|cb l1 IH]; intros m; simpl. Qed.

(** What the controller's view hides is not lost: with the runtime's callbacks, a
    FAULT entered through the view is the one [set_mode] enters, hooks,
    publication and all. *)
Theorem fault_through_view {L D} `{IActuationLatch L} `{IDeviceLossLatch D} `{FloatText} `{StatusNames} `{JsonLines}
    (ctx : nat → CallCtx L D) (cast : double → Z) (pub : Publishing) (automation : AutomationConfig)
    (safety : SafeStateConfig) (tid : nat) (registry_of : RuntimeWorld → DeviceRegistry) (m : MM RuntimeWorld) :
  let cbs := init_automation ctx cast pub automation safety tid registry_of in
  on_controller cast pub cbs (λ c, set_mode c FAULT) m = set_mode cbs FAULT m.
Proof.
  intros cbs. assert (full_view (world m) (safe_view m) = m) as Hm by (by destruct m as [mode []]).
  destruct (init_automation_last ctx cast pub automation safety tid registry_of) as (l & El & Hl).
  specialize (Hl (world m)). destruct (init_automation_keeps_mode ctx cast pub automation safety tid registry_of)
    as [Hkb Hka]. fold cbs in El, Hkb, Hka.
  assert (Forall (local_before (world m)) (before_callbacks_ cbs)) as Hb.
  { apply Forall_forall. intros cb Hcb p n ms.
    destruct (init_automation_before _ _ _ _ _ _ _ cb Hcb p n (full_view (world m) ms)) as (_ & _ & w & E).
    destruct (cb p n (full_view (world m) ms)).2 as [mode w'] eqn:E2. simpl in E. by subst. }
  clearbody cbs.
  pose proof (run_before_view (world m) (before_callbacks_ cbs) (current_mode_ m) (safe_view m) Hb) as Hr.
  rewrite Hm in Hr. unfold on_controller, set_mode. cbn [current_mode_ safe_view].
  destruct (decide (current_mode_ m = FAULT)) as [E|E]; [simpl; by rewrite bool_decide_true, Hm|].
  rewrite valid_transition_FAULT. cbn [negb]. rewrite Hr. cbn [safe_callbacks before_callbacks_].
  pose proof (run_before_mode _ (current_mode_ m) FAULT m Hkb) as Hmode. rewrite Hr in Hmode.
  match type of Hr with _ = let '(e, ms') := run_before ?l' ?p FAULT ?x in _ =>
    pose proof (run_before_FAULT l' p x) as Hn; destruct (run_before l' p FAULT x) as [e ms1] end.
  simpl in Hn, Hmode. subst e.
  unfold commit_mode. cbn [current_mode_ full_view]. rewrite Hmode, !decide_True by done.
  rewrite !commit_from_FAULT. cbn [safe_callbacks callbacks_ fst snd]. rewrite El, fmap_app, !run_after_app.
  change (mkMM FAULT (world (full_view (world m) ms1))) with (full_view (world m) (mkMM FAULT (world ms1))).
  rewrite run_after_view by done.
  match goal with |- context [run_after (?f <$> l) ?p ?n ?x] => set (mp := run_after (f <$> l) p n x) end.
  assert (current_mode_ mp = FAULT) as Hmp.
  { pose proof (run_after_view (world m) l (current_mode_ m) (mkMM FAULT (world ms1)) Hl) as Hv. fold mp in Hv.
    change (current_mode_ mp) with (current_mode_ (full_view (world m) mp)). rewrite <- Hv.
    rewrite run_after_mode; [done|]. unfold after_keeps_mode in *. rewrite El in Hka. by apply Forall_app in Hka as [? _]. }
  match goal with |- context [bool_decide (current_mode_ ?x = _)] => assert (x = mp) as -> end.
  { etransitivity; [apply run_after_app|]. fold mp. cbn [fmap list_fmap run_after].
    destruct (publish_mode_change cast pub (current_mode_ m) FAULT (full_view (world m) mp)) as [e m'] eqn:Ep.
    pose proof (publish_keeps cast pub (current_mode_ m) FAULT (full_view (world m) mp)) as (K1 & K2 & _).
    rewrite Ep in K1, K2. simpl in *. unfold safe_view. rewrite K1, K2. by destruct mp. }
  rewrite bool_decide_false by congruence. cbn [run_after]. by rewrite Hmp.
Qed.


Definition sample_publishing : Publishing := mkPublishing (Some (λ n, 7 + Z.of_nat n)) (λ _, 5) false (0, 0, 0) good_io.

Definition sample_runtime : MM RuntimeWorld := mkMM MANUAL (mkRuntime LadderBench.w0 (empty_loss_latch) [] None).

Definition sample_request (n : RuntimeMode) : result unit * MM RuntimeWorld :=
  set_mode (init_automation (H1 := plain_text) (H2 := Bench.names) (H3 := ascii_codec) LadderBench.ctx (λ _, 0)
    sample_publishing hooked LadderBench.safety 1%nat (λ _, LadderBench.registry)) n sample_runtime.

