(* ===== verification/Runtime.v ===== *)
(** * The running runtime ([core/runtime/runtime.cpp])

    The stop-chain tick, the restart of a provider, the main loop that runs both
    and the shutdown order.  They work on the components' own states: the mode
    manager over the safe-state controller's world (which holds the router, the
    cache and the disk), the device registry, the provider handles and the
    stop-chain monitor.  Log lines are left out; the preflight a restart repeats
    is in [Startup.v].  An exception that would leave the main loop is [None] of
    a loop's result. *)

From S2P Require Import Prelude Protocol Interfaces ModeManager Registry Ownership Parameters ProviderRegistry.
From S2P Require Import EventEmitter Supervisor StateCache DeviceLossLatch Json LatchStore ArgCheck CallRouter.
From S2P Require Import SafeState ActuationGate StopChain.

(** ** The stop-chain tick *)

(** The moment of one tick: the clock as [update] and [update_mismatches] read
    it, the time and disk answers of a hold, and, when there is an emitter, its
    [next_event_id()] at the n-th event. *)
Record StopTick := mkStopTick {
  st_now : Z;
  st_mismatch_now : Z;
  st_hold_ms : Z;
  st_io : SaveIO;
  st_emitter : option (nat → Z);
}.

Definition stop_chain_event (id : Z) (before next : StopChainSnapshot) : Event :=
  StopChainChange id (stop_chain_state_to_string (sn_state before)) (stop_chain_state_to_string (sn_state next))
    (sn_reason next) (default 0 (sn_since_epoch_ms next)).

Definition mismatch_event (id : Z) (change : MismatchChange) : Event :=
  let x := change.1 in
  StopChainMismatchChange id (mm_device x) (stop_chain_expect_to_string (mm_expect x)) change.2 (mm_reason x)
    (mm_since_epoch_ms x).

Definition stop_hold_reason (s : StopChainSnapshot) : string :=
  "emergency stop " +:+ stop_chain_state_to_string (sn_state s) +:+ ": " +:+ sn_reason s.

(** [event_emitter_->emit(...)] of the events one tick makes, from the n-th on. *)
Definition emitted {A} (emitter : option (nat → Z)) (n : nat) (event : Z → A → Event) (l : list A) : list Event :=
  match emitter with Some id => imap (λ i x, event (id (n + i)%nat) x) l | None => [] end.

(** The state of the tick: false when a hold threw. *)
Record TickResult := mkTickResult {
  tr_completed : bool;
  tr_events : list Event;
  tr_monitor : option StopChainMonitor;
  tr_mode : MM SafeWorld;
}.

Section Tick.
Context `{JsonText} `{QualityNames}.

Definition update_stop_chain (t : StopTick) (cbs : option (Callbacks SafeWorld))
    (stop_chain : option StopChainMonitor) (m : MM SafeWorld) : TickResult :=
  match stop_chain with
  | None => mkTickResult true [] None m
  | Some mon =>
      if negb (configured mon) then mkTickResult true [] stop_chain m
      else
        let '(change, mon1) := update (sw_cache (world m)) (st_now t) mon in
        let events := emitted (st_emitter t) 0 (λ id c, stop_chain_event id c.1 c.2) (option_list change) in
        let '(ok, m1) :=
          match change with
          | Some (_, next) =>
              if holds mon1 then hold cbs (st_hold_ms t) (stop_hold_reason next) (st_io t) m else (true, m)
          | None => (true, m)
          end in
        if negb ok then mkTickResult false events (Some mon1) m1
        else
          let '(changes, mon2) := update_mismatches (sw_cache (world m1)) (st_mismatch_now t) mon1 in
          mkTickResult true (events ++ emitted (st_emitter t) (length events) mismatch_event changes) (Some mon2) m1
  end.

(** The guard [wire_stop_chain] gives the controller's clear. *)
Definition clear_guard (stop_chain : option StopChainMonitor) : option string :=
  match stop_chain with
  | Some mon => if configured mon then clear_refusal mon else None
  | None => None
  end.

(** [wire_stop_chain]: the bound after which a reading is stale, in ms. *)
Definition stop_stale_after (polling_interval_ms : Z) : Z := Z.max 1000 (3 * polling_interval_ms).

Definition wire_stop_chain (config : StopChainConfig) (polling_interval_ms : Z) : StopChainMonitor :=
  new_monitor config (stop_stale_after polling_interval_ms).

(** The reason [wire_stop_chain] gives the loss latch for a loss it expects. *)
Definition expected_loss (mon : StopChainMonitor) (signal device_handle : string) : option string :=
  if negb (bool_decide (sn_state (sm_current mon) = InForce)) || negb (in_scope mon device_handle) then None
  else Some ("the emergency stop in force (" +:+ signal +:+ ")").

End Tick.

(** ** Restarting a provider *)

(** What the registries publish, and the provider processes that may be running,
    each with the provider id it was started for. *)
Record Deployment := mkDeployment {
  dp_registry : DeviceRegistry;
  dp_providers : ProviderRegistry;
  dp_running : gmap Handle string;
}.

Definition put_running (x : gmap Handle string) (d : Deployment) : Deployment :=
  mkDeployment (dp_registry d) (dp_providers d) x.
Definition put_registry (r : DeviceRegistry) (d : Deployment) : Deployment :=
  mkDeployment r (dp_providers d) (dp_running d).

(** What one restart meets: whether the old handle's [stop()] and the new one's
    [start()] succeed, the time since the start at the two checks, what the new
    provider answers, the cache's clock, and whether the process of a rejected
    replacement is gone once its handle is destroyed. *)
Record RestartIO := mkRestartIO {
  ri_stop : bool;
  ri_handle : Handle;
  ri_start : bool;
  ri_start_ms : Z;
  ri_discovery : DiscoveryHandle;
  ri_discovery_ms : Z;
  ri_now : Z;
  ri_gone : bool;
}.

Definition stop_old (pid : string) (io : RestartIO) (d : Deployment) : bool * Deployment :=
  match get_provider (dp_providers d) pid with
  | None => (true, d)
  | Some old => (ri_stop io, if ri_stop io then put_running (delete old (dp_running d)) d else d)
  end.

(** [make_shared] and [start()]: from here on its process may be running. *)
Definition bring_up (pid : string) (io : RestartIO) (d : Deployment) : Deployment :=
  put_running (<[ri_handle io := pid]> (dp_running d)) d.

(** An early return drops the last reference to the replacement; its destructor
    shuts the process down and cannot report that it did not exit. *)
Definition drop_replacement (io : RestartIO) (d : Deployment) : Deployment :=
  if ri_gone io then put_running (delete (ri_handle io) (dp_running d)) d else d.

Definition put_cache (c : StateCache) (w : SafeWorld) : SafeWorld :=
  mkWorld (sw_ctl w) (sw_router w) c (sw_fs w) (sw_sent w) (sw_calls w).

Definition rebuild_cache (pid : string) (r : DeviceRegistry) (now : Z) (m : MM SafeWorld) : MM SafeWorld :=
  mkMM (current_mode_ m)
    (put_cache (rebuild_poll_configs pid (get_all_devices r) now (sw_cache (world m))) (world m)).

Section Restart.
Context (automation : AutomationConfig) (safety : SafeStateConfig).

(** The check a restart ends with: a hookless inventory does not stay in AUTO. *)
Definition recheck_auto (r : DeviceRegistry) (cbs : option (Callbacks SafeWorld)) (m : MM SafeWorld) : MM SafeWorld :=
  match cbs with
  | Some c => if au_enabled automation then (enforce_hookless_gate_in_auto (λ _, r) automation safety c m).2 else m
  | None => m
  end.

Definition restart_provider (pid : string) (timeout_ms : Z) (io : RestartIO) (cbs : option (Callbacks SafeWorld))
    (d : Deployment) (m : MM SafeWorld) : bool * Deployment * MM SafeWorld :=
  let '(stopped, d1) := stop_old pid io d in
  if negb stopped then (false, d1, m)
  else
    let d2 := bring_up pid io d1 in
    if negb (ri_start io) then (false, drop_replacement io d2, m)
    else if timeout_ms <=? ri_start_ms io then (false, drop_replacement io d2, m)
    else
      let '(found, r) := inspect_provider_devices pid (ri_discovery io) (dp_registry d2) in
      let d3 := put_registry r d2 in
      match found with
      | None => (false, drop_replacement io d3, m)
      | Some replacement =>
          if timeout_ms <=? ri_discovery_ms io then (false, drop_replacement io d3, m)
          else match validate_ownership_claims_after_provider_replacement (get_all_devices r) pid replacement with
               | Err _ => (false, drop_replacement io d3, m)
               | Ok _ =>
                   let r' := commit_provider_devices pid replacement true r in
                   let m' := rebuild_cache pid r' (ri_now io) m in
                   (true,
                    mkDeployment r' (add_provider pid (ri_handle io) (dp_providers d3)) (dp_running d3),
                    recheck_auto r' cbs m')
               end
      end.
End Restart.

(** ** The main loop *)

(** One iteration's moment: the tick, the restart's result when its future is
    ready, the shutdown signal, what the providers' handles report, the clock. *)
Record LoopInput := mkLoopInput {
  li_tick : StopTick;
  li_restart_ready : option bool;
  li_shutdown : bool;
  li_available : string → option bool;
  li_now : Z;
}.

Record LoopWorld := mkLoopWorld {
  lw_loop : LoopState;
  lw_stop_chain : option StopChainMonitor;
  lw_mode : MM SafeWorld;
  lw_events : list Event;
  lw_started : list (string * bool);   (* restarts started, newest last; true for a probe *)
  lw_ticks : nat;                      (* stop-chain ticks run *)
  lw_running : bool;                   (* [running_] *)
}.

Section Loop.
Context `{JsonText} `{QualityNames}.
Context (ids : list string) (cbs : option (Callbacks SafeWorld)).

Definition loop_iteration (i : LoopInput) (w : LoopWorld) : option LoopWorld :=
  let t := update_stop_chain (li_tick i) cbs (lw_stop_chain w) (lw_mode w) in
  if negb (tr_completed t) then None
  else
    let l1 := collect_restart (li_restart_ready i) (li_now i) (lw_loop w) in
    let w1 started l running :=
      mkLoopWorld l (tr_monitor t) (tr_mode t) (lw_events w ++ tr_events t) (lw_started w ++ started)
        (S (lw_ticks w)) running in
    if li_shutdown i then Some (w1 [] l1 false)
    else match supervise_all ids (li_available i) (li_now i) l1 with
         | None => None
         | Some (l2, started) => Some (w1 started l2 (lw_running w))
         end.

(** [while (running_)]: the iterations the inputs last for. *)
Fixpoint run_loop (inputs : list LoopInput) (w : LoopWorld) : option LoopWorld :=
  if negb (lw_running w) then Some w
  else match inputs with
       | [] => Some w
       | i :: rest => match loop_iteration i w with Some w' => run_loop rest w' | None => None end
       end.
End Loop.

(** ** Shutdown *)

Inductive ShutdownStep :=
| StopBT | StopHttp | StopHealthTask | StopTelemetry | StopPolling | StopReissue | ClearProviders.

(** The services that were created. *)
Record Services := mkServices {
  sv_bt : bool; sv_http : bool; sv_health_task : bool; sv_telemetry : bool; sv_cache : bool; sv_reissue : bool;
}.

Definition shutdown (s : Services) : list ShutdownStep :=
  let stop (present : bool) step := if present then [step] else [] in
  stop (sv_bt s) StopBT ++ stop (sv_http s) StopHttp ++ stop (sv_health_task s) StopHealthTask ++
  stop (sv_telemetry s) StopTelemetry ++ stop (sv_cache s) StopPolling ++ stop (sv_reissue s) StopReissue ++
  [ClearProviders].

(** ** What a tick does *)

Lemma update_cases `{QualityNames} cache now mon :
  configured mon = true →
  let state := (classify mon cache now).1 in
  let mon1 := (update cache now mon).2 in
  sm_config mon1 = sm_config mon ∧ sn_state (sm_current mon1) = state ∧
  ((update cache now mon).1 = None ∧ state = sn_state (sm_current mon) ∨
   ∃ next, (update cache now mon).1 = Some (sm_current mon, next) ∧ sn_state next = state).
Proof.
  intros Hc. unfold update. rewrite Hc. simpl. destruct (classify mon cache now) as [state reason]. simpl.
  case_bool_decide as E1; simpl; [|split_and!; [done..|right; by eexists]].
  case_bool_decide; simpl; [split_and!; [done|done|by left]|split_and!; [done..|right; by eexists]].
Qed.

Lemma update_mismatches_current `{QualityNames} cache now mon :
  sm_current (update_mismatches cache now mon).2 = sm_current mon ∧
  sm_config (update_mismatches cache now mon).2 = sm_config mon.
Proof. unfold update_mismatches. by destruct (_ || _). Qed.

Definition latched (m : MM SafeWorld) : Prop := latched_flag (sw_ctl (world m)) = true.

(** Callbacks that do not release the latch. *)
Definition keeps_latch (cbs : option (Callbacks SafeWorld)) : Prop :=
  ∀ c, cbs = Some c → callbacks_keep (λ w, latched_flag (sw_ctl w) = true) c.

(** A hold leaves the latch engaged, thrown or not. *)
Lemma hold_latches `{JsonText} cbs now_ms reason io m : keeps_latch cbs → latched (hold cbs now_ms reason io m).2.
Proof.
  intros Hk. unfold latched, hold. destruct (latched_flag (sw_ctl (world m))) eqn:El; simpl.
  - destruct cbs as [c|]; simpl; [|done]. by apply (set_mode_keeps (λ w, latched_flag (sw_ctl w) = true)); [apply Hk|].
  - set (w1 := put_ctl _ _). assert (latched_flag (sw_ctl (persist now_ms reason io w1).2) = true) as Hl by (by rewrite persist_ctl).
    destruct (persist now_ms reason io w1) as [[] w2]; simpl in *; [|done]. destruct cbs as [c|]; simpl; [|done].
    by apply (set_mode_keeps (λ w, latched_flag (sw_ctl w) = true)); [apply Hk|].
Qed.

Lemma hold_faults `{JsonText} c now_ms reason io m :
  after_keeps_mode (callbacks_ c) → (hold (Some c) now_ms reason io m).1 = true →
  current_mode_ (hold (Some c) now_ms reason io m).2 = FAULT.
Proof.
  intros Ha. unfold hold. destruct (if latched_flag _ then _ else _) as [[] w1]; [|done]. intros _. simpl.
  by destruct (set_mode_FAULT c (mkMM (current_mode_ m) w1) Ha) as (m' & -> & ?).
Qed.

(** The monitor and the controller as ticks, guarded clears and everything else
    that does not release the latch ([latch_released_only_by_clear]) drive them. *)
Inductive stop_step `{JsonText} `{QualityNames} :
    option StopChainMonitor * MM SafeWorld → option StopChainMonitor * MM SafeWorld → Prop :=
| stop_tick t cbs mon m :
    keeps_latch cbs →
    stop_step (mon, m) (tr_monitor (update_stop_chain t cbs mon m), tr_mode (update_stop_chain t cbs mon m))
| stop_clear unlink_error sync mon m :
    stop_step (mon, m)
      (mon, mkMM (current_mode_ m) (SafeState.clear (clear_guard mon) unlink_error sync (world m)).2)
| stop_other mon m m' : (latched m → latched m') → stop_step (mon, m) (mon, m').

Definition stop_held (s : option StopChainMonitor * MM SafeWorld) : Prop :=
  ∀ mon, s.1 = Some mon →
    (configured mon = false → sn_state (sm_current mon) = NotConfigured) ∧ (holds mon = true → latched s.2).

Lemma stop_tick_held `{JsonText} `{QualityNames} t cbs mon m :
  keeps_latch cbs → stop_held (mon, m) →
  stop_held (tr_monitor (update_stop_chain t cbs mon m), tr_mode (update_stop_chain t cbs mon m)).
Proof.
  intros Hk Hi. destruct mon as [mon|]; [|done]. simpl. destruct (configured mon) eqn:Hc; simpl; [|done].
  destruct (Hi mon eq_refl) as [_ Hl]. simpl in Hl.
  pose proof (update_cases (sw_cache (world m)) (st_now t) mon Hc) as (Hcfg & Hst & Hcase).
  destruct (update _ _ mon) as [change mon1]. cbn [fst snd] in *.
  set (r := match change with Some _ => _ | None => _ end).
  assert (holds mon1 = true → latched r.2) as Hr.
  { intros Hh. subst r. destruct Hcase as [[-> E]|(next & -> & E)].
    - apply Hl. unfold holds in *. by rewrite <- E, <- Hst.
    - rewrite Hh. by apply hold_latches. }
  assert (configured mon1 = true) as Hc1 by (unfold configured in *; by rewrite Hcfg).
  destruct r as [ok m1]. simpl in Hr. destruct ok; simpl.
  - pose proof (update_mismatches_current (sw_cache (world m1)) (st_mismatch_now t) mon1) as [Hcur Hcf].
    destruct (update_mismatches _ _ _) as [changes mon2]. simpl in *. intros ? [= <-].
    unfold configured, holds in *. rewrite Hcur, Hcf. split; [by rewrite Hc1|]. done.
  - intros ? [= <-]. split; [by rewrite Hc1|done].
Qed.

Lemma stop_step_held `{JsonText} `{QualityNames} s s' : stop_step s s' → stop_held s → stop_held s'.
Proof.
  intros Hs Hi. destruct Hs as [t cbs mon m Hk|unlink_error sync mon m|mon m m' Hm]; [by apply stop_tick_held| |].
  - destruct mon as [mon|]; [|done]. intros ? [= <-]. destruct (Hi mon eq_refl) as [Hn Hl]. split; [done|].
    simpl in *. intros Hh. specialize (Hl Hh). unfold latched in *. simpl.
    destruct (configured mon) eqn:Hc; [|unfold holds in Hh; by rewrite (Hn eq_refl) in Hh].
    unfold clear_refusal. unfold holds in Hh. by destruct (sn_state (sm_current mon)).
  - intros mon' E. destruct (Hi mon' E) as [Hn Hl]. simpl in *. split; [done|]. auto.
Qed.

(** Latch and mode follow the observed stop: from a freshly wired monitor, over
    any history of ticks, clears under the monitor's guard and operations that do
    not release the latch, whenever the monitor's reading is in force or unknown
    the e-stop latch is engaged. *)
Theorem stop_in_force_holds_latch `{JsonText} `{QualityNames} (config : StopChainConfig) (polling_interval_ms : Z)
    (m0 : MM SafeWorld) (s : option StopChainMonitor * MM SafeWorld) (mon : StopChainMonitor) :
  rtc stop_step (Some (wire_stop_chain config polling_interval_ms), m0) s → s.1 = Some mon → holds mon = true →
  latched_flag (sw_ctl (world s.2)) = true.
Proof.
  intros Hr E Hh. assert (stop_held s) as Hi.
  { eapply (rtc_invariant _ stop_held); [|intros ? ? ? ?; by eapply stop_step_held|exact Hr].
    intros ? [= <-]. unfold wire_stop_chain, new_monitor, holds. simpl.
    by destruct (match sc_status config with Some _ => _ | None => _ end). }
  by apply (Hi mon E).
Qed.

(** A machine without a latch record, and its stop signal's reading. *)
Definition sample_machine (stop : bool) : MM SafeWorld :=
  mkMM MANUAL (mkWorld new_controller new_router (StopBench.cache (StopBench.reading stop QUALITY_OK 0) 0)
                 (empty_fs true) [] 0).

Definition sample_tick (now : Z) : StopTick := mkStopTick now now 5 all_ok (Some Z.of_nat).

(** A stop read in force: the change is published, the latch engaged, FAULT entered. *)
Definition sample_stop : TickResult :=
  update_stop_chain (H := LadderBench.codec) (H0 := StopBench.q_names) (sample_tick 0) (Some LadderBench.quiet)
    (Some (wire_stop_chain StopBench.config 500))
    (sample_machine true).

Example stop_in_force_holds_latch_witness :
  current_mode_ (tr_mode sample_stop) = FAULT ∧ length (tr_events sample_stop) = 1%nat ∧
  latched_flag (sw_ctl (world (tr_mode sample_stop))) = true.
Proof.
  split; [vm_compute; reflexivity|]. split; [vm_compute; reflexivity|].
  refine (stop_in_force_holds_latch (H := LadderBench.codec) (H0 := StopBench.q_names) StopBench.config 500
    (sample_machine true)
    (tr_monitor sample_stop, tr_mode sample_stop)
    (default (wire_stop_chain StopBench.config 500) (tr_monitor sample_stop)) _ eq_refl _).
  - apply rtc_once. refine (stop_tick (H := LadderBench.codec) (H0 := StopBench.q_names) (sample_tick 0)
      (Some LadderBench.quiet) _ _ _). intros c [= <-]. split; constructor.
  - vm_compute. reflexivity.
Defined.

(** One tick, on every branch: an unchanged status leaves the controller and the
    mode as they were; a change is published first, with the old and the new
    status; a change to in force or unknown engages the latch and, unless the
    latch record could not be printed, enters FAULT on a machine with modes; any
    other change leaves latch and mode alone. *)
Theorem stop_tick_outcome `{JsonText} `{QualityNames} (t : StopTick) (cbs : option (Callbacks SafeWorld))
    (mon : StopChainMonitor) (m : MM SafeWorld) (id : nat → Z) :
  configured mon = true → keeps_latch cbs → (∀ c, cbs = Some c → after_keeps_mode (callbacks_ c)) →
  st_emitter t = Some id →
  let r := update_stop_chain t cbs (Some mon) m in
  let state := (classify mon (sw_cache (world m)) (st_now t)).1 in
  match (update (sw_cache (world m)) (st_now t) mon).1 with
  | None => state = sn_state (sm_current mon) ∧ tr_completed r = true ∧ tr_mode r = m
  | Some (before, next) =>
      before = sm_current mon ∧ sn_state next = state ∧
      head (tr_events r) = Some (stop_chain_event (id 0%nat) before next) ∧
      if bool_decide (state = InForce) || bool_decide (state = Unknown) then
        latched (tr_mode r) ∧
        (tr_completed r = true → ∀ c, cbs = Some c → current_mode_ (tr_mode r) = FAULT)
      else tr_completed r = true ∧ tr_mode r = m
  end.
Proof.
  intros Hc Hk Ha Hid. simpl. rewrite Hc. simpl.
  pose proof (update_cases (sw_cache (world m)) (st_now t) mon Hc) as (Hcfg & Hst & Hcase).
  destruct (update _ _ mon) as [change mon1]. cbn [fst snd] in *.
  destruct Hcase as [[-> E]|(next & -> & E)]; simpl.
  { destruct (update_mismatches _ _ mon1) as [changes mon2]. by split_and!. }
  rewrite Hid. cbn [option_list emitted imap]. split_and!; [done..| |].
  - destruct (if holds mon1 then _ else _) as [[] m1]; simpl; [|done].
    by destruct (update_mismatches _ _ mon1) as [changes mon2].
  - unfold holds. rewrite Hst. destruct (bool_decide _ || bool_decide _).
    + pose proof (hold_latches cbs (st_hold_ms t) (stop_hold_reason next) (st_io t) m Hk) as Hl.
      pose proof (λ c, hold_faults c (st_hold_ms t) (stop_hold_reason next) (st_io t) m) as Hf.
      destruct cbs as [c|].
      * specialize (Hf c (Ha c eq_refl)). destruct (hold _ _ _ _ m) as [[] m1]; simpl in *; [|done].
        destruct (update_mismatches _ _ mon1) as [changes mon2]. split; [done|]. intros _ c' [= <-]. by apply Hf.
      * destruct (hold _ _ _ _ m) as [[] m1]; simpl in *; [|done].
        by destruct (update_mismatches _ _ mon1) as [changes mon2].
    + simpl. by destruct (update_mismatches _ _ mon1) as [changes mon2].
Qed.

Example stop_tick_outcome_witness :
  let r := sample_stop in
  head (tr_events r) = Some (StopChainChange 0 "not_configured" "in_force" "sim0/relay/stop reads true" 0) ∧
  current_mode_ (tr_mode r) = FAULT.
Proof.
  pose proof (stop_tick_outcome (H := LadderBench.codec) (H0 := StopBench.q_names) (sample_tick 0)
    (Some LadderBench.quiet) (wire_stop_chain StopBench.config 500)
    (sample_machine true) Z.of_nat
    eq_refl) as Ht. cbv zeta in *.
  assert (keeps_latch (Some LadderBench.quiet)) as Hk by (intros c [= <-]; split; constructor).
  assert (∀ c, Some LadderBench.quiet = Some c → after_keeps_mode (callbacks_ c)) as Ha.
  { intros c [= <-]. constructor. }
  specialize (Ht Hk Ha eq_refl). clear Hk Ha. split; [vm_compute; reflexivity|].
  match type of Ht with match ?u with _ => _ end => destruct u as [[b n]|] eqn:E end; [|vm_compute in E; done].
  destruct Ht as (_ & _ & _ & Ht). change (bool_decide _ || bool_decide _) with true in Ht. simpl in Ht.
  by apply (proj2 Ht eq_refl LadderBench.quiet).
Defined.

(** ** What a restart does *)

(** What a restart needs to succeed. *)
Definition restart_admissible (pid : string) (timeout_ms : Z) (io : RestartIO) (d : Deployment)
    (replacement : list RegisteredDevice) : Prop :=
  (get_provider (dp_providers d) pid = None ∨ ri_stop io = true) ∧ ri_start io = true ∧
  ri_start_ms io < timeout_ms ∧ (inspect_provider_devices pid (ri_discovery io) (dp_registry d)).1 = Some replacement ∧
  ri_discovery_ms io < timeout_ms ∧
  ¬ claim_conflict (get_all_devices (commit_provider_devices pid replacement true (dp_registry d))).

Lemma stop_old_spec pid io d :
  (stop_old pid io d).1 = bool_decide (get_provider (dp_providers d) pid = None ∨ ri_stop io = true) ∧
  dp_registry (stop_old pid io d).2 = dp_registry d ∧ dp_providers (stop_old pid io d).2 = dp_providers d.
Proof.
  unfold stop_old. destruct (get_provider (dp_providers d) pid) as [old|].
  - by destruct (ri_stop io).
  - done.
Qed.

Lemma drop_replacement_keeps io d :
  dp_registry (drop_replacement io d) = dp_registry d ∧ dp_providers (drop_replacement io d) = dp_providers d.
Proof. unfold drop_replacement. by destruct (ri_gone io). Qed.

Lemma inspect_keeps pid p r :
  devices_ (inspect_provider_devices pid p r).2 = devices_ r ∧
  handle_to_index_ (inspect_provider_devices pid p r).2 = handle_to_index_ r ∧
  ∀ ds, (inspect_provider_devices pid p r).1 = Some ds →
        Forall (λ d, provider_id d = pid) ds ∧ (inspect_provider_devices pid p r).2 = r.
Proof.
  unfold inspect_provider_devices. destruct (list_devices p); [|done]. split_and!; [done..|].
  intros ds [= <-]. split; [apply inspected_devices|done].
Qed.

(** What is published: the inventory and the handles. *)
Definition same_published (d d' : Deployment) : Prop :=
  devices_ (dp_registry d') = devices_ (dp_registry d) ∧
  handle_to_index_ (dp_registry d') = handle_to_index_ (dp_registry d) ∧ dp_providers d' = dp_providers d.

Section RestartFacts.
Context (automation : AutomationConfig) (safety : SafeStateConfig).

(** Both outcomes of a restart: an early return publishes nothing; otherwise the
    inspected devices and the new handle are published together. *)
Lemma restart_cases pid timeout_ms io cbs d m :
  (∃ d', restart_provider automation safety pid timeout_ms io cbs d m = (false, d', m) ∧ same_published d d' ∧
         ∀ replacement, ¬ restart_admissible pid timeout_ms io d replacement) ∨
  (∃ replacement running,
     restart_admissible pid timeout_ms io d replacement ∧ Forall (λ d, provider_id d = pid) replacement ∧
     let r' := commit_provider_devices pid replacement true (dp_registry d) in
     restart_provider automation safety pid timeout_ms io cbs d m =
       (true, mkDeployment r' (add_provider pid (ri_handle io) (dp_providers d)) running,
        recheck_auto automation safety r' cbs (rebuild_cache pid r' (ri_now io) m)) ∧
     running = <[ri_handle io := pid]> (dp_running (stop_old pid io d).2)).
Proof.
  unfold restart_provider. destruct (stop_old_spec pid io d) as (Hst & Hr1 & Hp1).
  destruct (stop_old pid io d) as [stopped d1]. cbn [fst snd] in *.
  destruct stopped; symmetry in Hst; bool_facts; simpl.
  2:{ left. exists d1. split_and!; [done|split_and!; congruence|]. unfold restart_admissible. tauto. }
  rewrite Hr1, Hp1. unfold restart_admissible.
  assert (∀ r, devices_ r = devices_ (dp_registry d) → handle_to_index_ r = handle_to_index_ (dp_registry d) →
    same_published d (drop_replacement io (put_registry r (bring_up pid io d1)))) as Hkeep.
  { intros r E1 E2. destruct (drop_replacement_keeps io (put_registry r (bring_up pid io d1))) as [A B].
    unfold same_published. rewrite A, B. simpl. by rewrite Hp1. }
  assert (same_published d (drop_replacement io (bring_up pid io d1))) as Hkeep0.
  { destruct (drop_replacement_keeps io (bring_up pid io d1)) as [A B]. unfold same_published. rewrite A, B. simpl.
    by rewrite Hr1, Hp1. }
  destruct (ri_start io); simpl; [|left; eexists; split_and!; [done..|naive_solver]].
  destruct (Z.leb_spec timeout_ms (ri_start_ms io)); [left; eexists; split_and!; [done..|naive_solver lia]|].
  destruct (inspect_keeps pid (ri_discovery io) (dp_registry d)) as (Hd & Hi & Hf).
  destruct (inspect_provider_devices _ _ _) as [[replacement|] r]; cbn [fst snd] in *;
    [|left; eexists; split_and!; [done|by apply Hkeep|naive_solver]].
  destruct (Hf replacement eq_refl) as [Hall ->].
  destruct (Z.leb_spec timeout_ms (ri_discovery_ms io)); [left; eexists; split_and!; [done|by apply Hkeep|naive_solver lia]|].
  assert (validate_ownership_claims_after_provider_replacement (get_all_devices (dp_registry d)) pid replacement = Ok tt ↔
    ¬ claim_conflict (get_all_devices (commit_provider_devices pid replacement true (dp_registry d)))) as Hown.
  { rewrite <- validate_ownership_Ok. unfold validate_ownership_claims_after_provider_replacement, replacement_candidate.
    unfold get_all_devices, commit_provider_devices, Registry.remove_provider. simpl.
    destruct (validate_ownership_claims _) as [[]|]; naive_solver. }
  destruct (validate_ownership_claims_after_provider_replacement _ _ _) as [[]|e].
  - right. exists replacement, (<[ri_handle io := pid]> (dp_running d1)). simpl. by split_and!; try apply Hown.
  - left. eexists. split_and!; [done|by apply Hkeep|]. intros rep (_ & _ & _ & [= <-] & _ & Hno). by apply Hown in Hno.
Qed.
End RestartFacts.

(** C22. A restart is all or nothing: it succeeds exactly when the old provider is
    stopped, the new one starts and answers its discovery within the time limit
    and its devices claim nothing another device claims.  Then the provider's
    devices are the ones it was asked for, every other provider's devices and
    handles are as before, no claim is held twice, the provider's handle is the
    new one, and a machine in AUTO is not left there with an inventory the
    hookless gate refuses.  Otherwise the inventory, the handles, the cache, the
    mode and the controller are as before. *)
Theorem restart_all_or_nothing (automation : AutomationConfig) (safety : SafeStateConfig) (pid : string)
    (timeout_ms : Z) (io : RestartIO) (cbs : Callbacks SafeWorld) (d : Deployment) (m : MM SafeWorld) :
  after_keeps_mode (callbacks_ cbs) →
  let '(ok, d', m') := restart_provider automation safety pid timeout_ms io (Some cbs) d m in
  (ok = true ↔ ∃ replacement, restart_admissible pid timeout_ms io d replacement) ∧
  if ok then
    (∃ dl, list_devices (ri_discovery io) = Ok dl ∧
       get_devices_for_provider (dp_registry d') pid = flat_map (inspect_device pid (ri_discovery io)) dl) ∧
    Registry.remove_provider pid (get_all_devices (dp_registry d')) =
      Registry.remove_provider pid (get_all_devices (dp_registry d)) ∧
    ¬ claim_conflict (get_all_devices (dp_registry d')) ∧
    (∀ other, get_provider (dp_providers d') other =
       if decide (other = pid) then Some (ri_handle io) else get_provider (dp_providers d) other) ∧
    (current_mode_ m' = AUTO → gate_refused (evaluate_hookless_auto_gate (dp_registry d') automation safety) = false)
  else same_published d d' ∧ m' = m.
Proof.
  intros Ha. destruct (restart_cases automation safety pid timeout_ms io (Some cbs) d m)
    as [(d' & -> & Hp & Hno)|(replacement & running & Had & Hall & -> & _)].
  { split; [|done]. split; [done|]. intros [rep Hrep]. by apply Hno in Hrep. }
  split; [by split; eauto|]. destruct (commit_replaces pid replacement (dp_registry d) Hall) as [Hmine Hothers].
  destruct Had as (_ & _ & _ & Hins & _ & Hown). split_and!; [|done|done| |].
  - unfold inspect_provider_devices in Hins. destruct (list_devices (ri_discovery io)) as [dl|]; [|done].
    injection Hins as <-. by exists dl.
  - intros other. simpl. unfold get_provider, add_provider. case_decide as E.
    + subst. apply lookup_insert_eq.
    + by rewrite lookup_insert_ne.
  - unfold recheck_auto. destruct (au_enabled automation) eqn:Hen.
    2:{ intros _. unfold evaluate_hookless_auto_gate. by rewrite Hen. }
    unfold enforce_hookless_gate_in_auto. simpl. case_bool_decide as Em; simpl; [|by intros ?].
    destruct (gate_refused _) eqn:Hg; [|done]. simpl.
    destruct (set_mode_FAULT cbs (rebuild_cache pid (commit_provider_devices pid replacement true (dp_registry d))
      (ri_now io) m) Ha) as (m2 & -> & E2). simpl. by rewrite E2.
Qed.

(** A provider with one device, and a restart of it that meets no trouble. *)
Definition sample_discovery : DiscoveryHandle :=
  mkDiscoveryHandle (Ok [mkProtoDevice "a" "" "" "" []])
    (λ _, Ok (mkProtoDevice "a" "" "" "" [], mkProtoCaps [] [])).

Definition smooth_restart (h : Handle) : RestartIO := mkRestartIO true h true 10 sample_discovery 20 0 true.

Definition no_automation : AutomationConfig := mkAutomation false [] [].

Definition deployed : Deployment :=
  mkDeployment (discover_provider "sim0" sample_discovery false empty_registry).2 {["sim0" := 0%nat]}
    {[0%nat := "sim0"]}.

Example restart_all_or_nothing_witness :
  let '(ok, d', m') := restart_provider no_automation LadderBench.safety "sim0" 1000 (smooth_restart 1%nat)
                         (Some LadderBench.quiet) deployed (sample_machine false) in
  ok = true ∧ get_provider (dp_providers d') "sim0" = Some 1%nat ∧ dp_running d' = {[1%nat := "sim0"]}.
Proof.
  pose proof (restart_all_or_nothing no_automation LadderBench.safety "sim0" 1000 (smooth_restart 1%nat) LadderBench.quiet
    deployed (sample_machine false) ltac:(constructor)) as Hr.
  destruct (restart_provider _ _ _ _ _ _ _ _) as [[ok d'] m'] eqn:E.
  assert (ok = true) as -> by (vm_compute in E; by injection E).
  destruct Hr as (_ & _ & _ & _ & Hp & _). split; [done|]. split; [by rewrite Hp|].
  assert (dp_running d' = dp_running (restart_provider no_automation LadderBench.safety "sim0" 1000 (smooth_restart 1%nat)
    (Some LadderBench.quiet) deployed (sample_machine false)).1.2) as -> by (by rewrite E).
  vm_compute. reflexivity.
Defined.

(** ** One process per provider *)

(** Every process that may be running belongs to the handle its provider's id names. *)
Definition one_process (d : Deployment) : Prop :=
  ∀ h pid, dp_running d !! h = Some pid → get_provider (dp_providers d) pid = Some h.

(** Restarts of any providers, in a row.  Beside the deployment, the handles of the
    rejected replacements whose process did not end when they were dropped. *)
Definition left_behind (io : RestartIO) (ok : bool) (left : list Handle) : list Handle :=
  if negb ok && negb (ri_gone io) then ri_handle io :: left else left.

Inductive restart_step (automation : AutomationConfig) (safety : SafeStateConfig) :
    Deployment * list Handle → Deployment * list Handle → Prop :=
| step_restart pid timeout_ms io cbs d m left :
    let r := restart_provider automation safety pid timeout_ms io cbs d m in
    restart_step automation safety (d, left) (r.1.2, left_behind io r.1.1 left).

(** Every other process that may be running is the one its provider's id names. *)
Definition one_process_but (s : Deployment * list Handle) : Prop :=
  ∀ h pid, dp_running s.1 !! h = Some pid → get_provider (dp_providers s.1) pid = Some h ∨ h ∈ s.2.

Lemma stop_old_running pid io d left :
  one_process_but (d, left) → (stop_old pid io d).1 = true →
  (∀ h, dp_running (stop_old pid io d).2 !! h = Some pid → h ∈ left) ∧
  (∀ h pid', dp_running (stop_old pid io d).2 !! h = Some pid' → dp_running d !! h = Some pid').
Proof.
  intros Hone. unfold stop_old. destruct (get_provider (dp_providers d) pid) as [old|] eqn:E; simpl.
  - intros ->. simpl. split.
    + intros h. rewrite lookup_delete_Some. intros [Hne [Hh|Hh]%Hone]; [|done]. simpl in Hh. congruence.
    + intros h pid'. rewrite lookup_delete_Some. tauto.
  - intros _. split; [|done]. intros h [Hh|Hh]%Hone; [|done]. simpl in Hh. congruence.
Qed.

Lemma stop_old_sub pid io d h pid' :
  dp_running (stop_old pid io d).2 !! h = Some pid' → dp_running d !! h = Some pid'.
Proof.
  unfold stop_old. destruct (get_provider _ _); [|done]. destruct (ri_stop io); [|done]. simpl.
  rewrite lookup_delete_Some. tauto.
Qed.

(** What may run after a restart: what ran once the old process was stopped, and the
    replacement when it was published or did not end. *)
Lemma restart_running automation safety pid timeout_ms io cbs d m h p :
  let '(ok, d', _) := restart_provider automation safety pid timeout_ms io cbs d m in
  dp_running d' !! h = Some p →
  dp_running (stop_old pid io d).2 !! h = Some p ∨ h = ri_handle io ∧ p = pid ∧ (ok = true ∨ ri_gone io = false).
Proof.
  unfold restart_provider. destruct (stop_old pid io d) as [stopped d1]. simpl.
  destruct stopped; simpl; [|by left].
  assert (∀ d2, dp_running d2 = <[ri_handle io := pid]> (dp_running d1) →
    dp_running (drop_replacement io d2) !! h = Some p →
    dp_running d1 !! h = Some p ∨ h = ri_handle io ∧ p = pid ∧ (false = true ∨ ri_gone io = false)) as Hdrop.
  { intros d2 E. unfold drop_replacement. destruct (ri_gone io); simpl; rewrite E.
    - rewrite lookup_delete_Some, lookup_insert_Some. intuition congruence.
    - rewrite lookup_insert_Some. intuition congruence. }
  destruct (ri_start io); simpl; [|by apply Hdrop].
  destruct (timeout_ms <=? ri_start_ms io); [by apply Hdrop|].
  destruct (inspect_provider_devices _ _ _) as [[replacement|] r]; [|by apply Hdrop].
  destruct (timeout_ms <=? ri_discovery_ms io); [by apply Hdrop|].
  destruct (validate_ownership_claims_after_provider_replacement _ _ _); [|by apply Hdrop].
  simpl. rewrite lookup_insert_Some. intuition congruence.
Qed.

Lemma restart_step_one_process automation safety s s' :
  restart_step automation safety s s' → one_process_but s → one_process_but s'.
Proof.
  intros Hs Hone. destruct Hs as [pid timeout_ms io cbs d m left r]. intros h p Hh.
  pose proof (restart_running automation safety pid timeout_ms io cbs d m h p) as Hrun.
  pose proof (restart_cases automation safety pid timeout_ms io cbs d m) as Hc. subst r.
  destruct (restart_provider _ _ _ _ _ _ _ _) as [[ok d'] m'] eqn:E. cbn [fst snd] in *. specialize (Hrun Hh).
  destruct Hc as [(d2 & [= -> -> ->] & (_ & _ & Hp) & _)|(replacement & running & Had & _ & [= -> -> ->] & _)].
  - rewrite Hp. destruct Hrun as [Hr%stop_old_sub|(-> & _ & [?|Hg])]; [|done|].
    + destruct (Hone h p Hr) as [?|?]; [by left|right]. unfold left_behind. destruct (negb _ && _); [by right|done].
    + right. unfold left_behind. rewrite Hg. left.
  - destruct (stop_old_running pid io d left Hone) as [Hnone Hsub].
    { destruct (stop_old_spec pid io d) as (-> & _). apply bool_decide_true. by destruct Had. }
    simpl. unfold get_provider, add_provider. rewrite lookup_insert_Some.
    destruct Hrun as [Hr|(-> & -> & _)]; [|by left; left]. destruct (decide (pid = p)) as [<-|Hne].
    + right. by apply Hnone.
    + destruct (Hone h p (Hsub h p Hr)) as [?|?]; [left; by right|by right].
Qed.

(** C23. Restarts do not double a provider's process: when every process that may be
    running is the one the runtime talks to, then over any history of restarts,
    failed ones included, every process that may be running is the one the runtime
    talks to, no provider id having two such, or belongs to a replacement that a
    failed restart dropped and whose process did not end; and nothing else of the
    old provider is running when its replacement is started. *)
Theorem restarts_never_double (automation : AutomationConfig) (safety : SafeStateConfig) (d0 d : Deployment)
    (left : list Handle) (pid : string) (io : RestartIO) :
  one_process d0 → rtc (restart_step automation safety) (d0, []) (d, left) →
  (∀ h p, dp_running d !! h = Some p → get_provider (dp_providers d) p = Some h ∨ h ∈ left) ∧
  (∀ h1 h2 p, dp_running d !! h1 = Some p → dp_running d !! h2 = Some p → h1 = h2 ∨ h1 ∈ left ∨ h2 ∈ left) ∧
  ((stop_old pid io d).1 = true → ∀ h, dp_running (stop_old pid io d).2 !! h = Some pid → h ∈ left).
Proof.
  intros Hd0 Hr. assert (one_process_but (d, left)) as Hone.
  { eapply (rtc_invariant _ one_process_but); [|intros ? ? ? ?; by eapply restart_step_one_process|exact Hr].
    intros h p Hh. left. by apply Hd0. }
  split_and!; [exact Hone| |by intros; eapply stop_old_running].
  intros h1 h2 p [H1|H1]%Hone [H2|H2]%Hone; simpl in *; [left; congruence|tauto..].
Qed.

Example restarts_never_double_witness :
  let d := (restart_provider no_automation LadderBench.safety "sim0" 1000 (smooth_restart 1%nat)
              None deployed (sample_machine false)).1.2 in
  dp_running d !! 1%nat = Some "sim0" ∧ get_provider (dp_providers d) "sim0" = Some 1%nat ∧
  ∀ h, dp_running (stop_old "sim0" (smooth_restart 2%nat) d).2 !! h ≠ Some "sim0".
Proof.
  set (d := (restart_provider _ _ _ _ _ _ _ _).1.2).
  assert (one_process deployed) as Hone.
  { intros h p Hh. unfold deployed in Hh. cbn [dp_running] in Hh. apply lookup_singleton_Some in Hh as [<- <-]. reflexivity. }
  destruct (restarts_never_double no_automation LadderBench.safety deployed d [] "sim0" (smooth_restart 2%nat) Hone)
    as (Hreg & _ & Hstop).
  - apply rtc_once. exact (step_restart no_automation LadderBench.safety "sim0" 1000 (smooth_restart 1%nat) None deployed
      (sample_machine false) []).
  - split; [reflexivity|]. split.
    + destruct (Hreg 1%nat "sim0" eq_refl) as [E|E%not_elem_of_nil]; [exact E|destruct E].
    + intros h Hh. exact (not_elem_of_nil h (Hstop eq_refl h Hh)).
Defined.

(** A replacement that is rejected and does not exit when it is killed is tracked
    by nobody: the next restart stops the registered handle only and starts
    another process beside it. *)
Example rejected_replacement_can_linger :
  let stuck := mkRestartIO true 1%nat false 0 sample_discovery 0 0 false in
  let attempt io d := (restart_provider no_automation LadderBench.safety "sim0" 1000 io None d (sample_machine false)).1.2 in
  dp_running (attempt (smooth_restart 2%nat) (attempt stuck deployed)) = {[1%nat := "sim0"; 2%nat := "sim0"]}.
Proof. vm_compute. reflexivity. Qed.

(** ** The loop ends when it is told to *)

(** The only throw in a hold, and so in a tick: the record of a latch that was not
    engaged yet cannot be printed. *)
Lemma hold_throws `{JsonText} cbs now_ms reason io m :
  (hold cbs now_ms reason io m).1 = false →
  ∃ st, latch_store_ (sw_ctl (world m)) = Some st ∧ json_dump (latch_doc (config_dir_ st) now_ms reason) = None.
Proof.
  unfold hold. destruct (latched_flag _); simpl; [by destruct cbs|].
  set (w1 := put_ctl _ _). destruct (persist now_ms reason io w1) as [[] w2] eqn:E; simpl; [by destruct cbs|]. intros _.
  unfold persist in E. change (latch_store_ (sw_ctl w1)) with (latch_store_ (sw_ctl (world m))) in E.
  destruct (latch_store_ (sw_ctl (world m))) as [st|]; [|done]. exists st. split; [done|].
  unfold save in E. destruct (mkdir_error io); [done|]. destruct (json_dump _); [|done]. by repeat case_match.
Qed.

(** A tick that throws: it found a stop to hold for, and the record of that hold
    cannot be printed. *)
Definition tick_throws `{JsonText} `{QualityNames} (t : StopTick) (mon : option StopChainMonitor) (m : MM SafeWorld)
    : Prop :=
  ∃ q before next st, mon = Some q ∧ (update (sw_cache (world m)) (st_now t) q).1 = Some (before, next) ∧
    holds (update (sw_cache (world m)) (st_now t) q).2 = true ∧ latch_store_ (sw_ctl (world m)) = Some st ∧
    json_dump (latch_doc (config_dir_ st) (st_hold_ms t) (stop_hold_reason next)) = None.

Lemma tick_thrown `{JsonText} `{QualityNames} t cbs mon m :
  tr_completed (update_stop_chain t cbs mon m) = false → tick_throws t mon m.
Proof.
  unfold update_stop_chain. destruct mon as [mon|]; [|done]. destruct (configured mon); [|done]. simpl.
  destruct (update _ _ mon) as [change mon1] eqn:Eu.
  destruct change as [[b n]|]; [destruct (holds mon1) eqn:Eh|]; simpl; [|by destruct (update_mismatches _ _ mon1)..].
  pose proof (hold_throws cbs (st_hold_ms t) (stop_hold_reason n) (st_io t) m) as Hh.
  destruct (hold _ _ _ _ _) as [[] m1]; simpl in *; [by destruct (update_mismatches _ _ mon1)|].
  intros _. destruct (Hh eq_refl) as (st & ? & ?). exists mon, b, n, st. by rewrite Eu.
Qed.

(** What a tick does to the mode: nothing without a mode manager; with one, a tick
    that is not the state it found has entered FAULT, as long as the latch record
    can be printed. *)
Lemma tick_mode_alone `{JsonText} `{QualityNames} t mon m :
  current_mode_ (tr_mode (update_stop_chain t None mon m)) = current_mode_ m.
Proof.
  unfold update_stop_chain. destruct mon as [mon|]; [|done]. destruct (configured mon); [|done]. simpl.
  destruct (update _ _ mon) as [change mon1].
  set (r := match change with Some _ => _ | None => _ end).
  assert (current_mode_ r.2 = current_mode_ m) as Hr.
  { subst r. destruct change as [[b n]|]; [|done]. destruct (holds mon1); [|done]. unfold hold.
    by destruct (if latched_flag _ then _ else _) as [[] w1]. }
  destruct r as [[] m1]; simpl in *; [|done]. by destruct (update_mismatches _ _ mon1).
Qed.

Lemma hold_thrown_mode `{JsonText} cbs now_ms reason io m :
  (hold cbs now_ms reason io m).1 = false → current_mode_ (hold cbs now_ms reason io m).2 = current_mode_ m.
Proof.
  unfold hold. destruct (latched_flag _); simpl; [by destruct cbs|].
  destruct (persist _ _ _ _) as [[] w2]; simpl; [by destruct cbs|done].
Qed.

(** With a mode manager: a tick ends in FAULT, or finds nothing new to hold for and
    leaves everything as it was, or throws and leaves the mode. *)
Lemma tick_outcome `{JsonText} `{QualityNames} t c mon m :
  after_keeps_mode (callbacks_ c) →
  let r := update_stop_chain t (Some c) mon m in
  if tr_completed r then
    current_mode_ (tr_mode r) = FAULT ∨
    (tr_mode r = m ∧ ∀ q', tr_monitor r = Some q' → holds q' = true → ∃ q, mon = Some q ∧ holds q = true)
  else current_mode_ (tr_mode r) = current_mode_ m.
Proof.
  intros Ha. unfold update_stop_chain. destruct mon as [mon|]; [|right; split; [done|naive_solver]].
  destruct (configured mon) eqn:Hc; [|right; split; [done|naive_solver]]. simpl.
  pose proof (update_cases (sw_cache (world m)) (st_now t) mon Hc) as (_ & Hst & Hcase).
  destruct (update _ _ mon) as [change mon1]. cbn [fst snd] in *.
  assert (∀ cache now q', Some (update_mismatches cache now mon1).2 = Some q' → holds q' = true → holds mon1 = true) as Hmm.
  { intros cache now q' [= <-]. unfold holds. by rewrite (proj1 (update_mismatches_current cache now mon1)). }
  destruct change as [[b n]|]; [destruct (holds mon1) eqn:Eh|]; simpl.
  - pose proof (hold_faults c (st_hold_ms t) (stop_hold_reason n) (st_io t) m Ha) as Hf.
    pose proof (hold_thrown_mode (Some c) (st_hold_ms t) (stop_hold_reason n) (st_io t) m) as Ht.
    destruct (hold _ _ _ _ _) as [[] m1]; simpl in *; [|by apply Ht].
    destruct (update_mismatches _ _ mon1). left. by apply Hf.
  - specialize (Hmm (sw_cache (world m)) (st_mismatch_now t)). destruct (update_mismatches _ _ mon1). right.
    split; [done|]. intros q' E Hq. by apply (Hmm q' E) in Hq.
  - specialize (Hmm (sw_cache (world m)) (st_mismatch_now t)). destruct (update_mismatches _ _ mon1). right.
    split; [done|]. intros q' E Hq. exists mon. split; [done|]. apply (Hmm q' E) in Hq.
    destruct Hcase as [[_ E']|(? & ? & _)]; [|done]. unfold holds in *. by rewrite <- E', <- Hst.
Qed.

Lemma collect_restart_wf ready now l : sup_wf (sup l) → sup_wf (sup (collect_restart ready now l)).
Proof.
  intros Hwf. unfold collect_restart. destruct (restart l) as [[id probe]|]; [|done].
  destruct ready as [restarted|]; [|done]. destruct probe; [|done]. by apply sup_wf_probe.
Qed.

(** An iteration whose stop-chain tick returns produces the next state: it leaves
    well-formed streaks, and goes on exactly when no shutdown was requested. *)
Lemma loop_iteration_total `{JsonText} `{QualityNames} ids cbs i w :
  sup_wf (sup (lw_loop w)) →
  if tr_completed (update_stop_chain (li_tick i) cbs (lw_stop_chain w) (lw_mode w)) then
    ∃ w', loop_iteration ids cbs i w = Some w' ∧ sup_wf (sup (lw_loop w')) ∧ lw_ticks w' = S (lw_ticks w) ∧
      lw_running w' = (if li_shutdown i then false else lw_running w) ∧
      (li_shutdown i = true → lw_started w' = lw_started w)
  else loop_iteration ids cbs i w = None ∧ tick_throws (li_tick i) (lw_stop_chain w) (lw_mode w).
Proof.
  intros Hwf. unfold loop_iteration. destruct (tr_completed _) eqn:Et; [|split; [done|by eapply tick_thrown]]. simpl.
  pose proof (collect_restart_wf (li_restart_ready i) (li_now i) (lw_loop w) Hwf) as Hwf1.
  destruct (li_shutdown i); [eexists; split_and!; [done..|intros _; apply app_nil_r]|].
  destruct (supervise_all_total ids (li_available i) (li_now i) _ Hwf1) as (l2 & started & -> & Hwf2).
  eexists. by split_and!.
Qed.

(** C26. The main loop ends at the first iteration that sees the shutdown request,
    whatever is being restarted, unless an exception ended it before: with valid
    restart policies, either every iteration before it ran its stop-chain tick, and
    it ticked too, started no restart and was the last, what would have come after
    it not being looked at; or some iteration up to it ended the loop by throwing,
    and the record of a stop it had to hold for could not be printed. *)
Theorem shutdown_ends_loop `{JsonText} `{QualityNames} (ids : list string) (cbs : option (Callbacks SafeWorld))
    (before after : list LoopInput) (i : LoopInput) (w : LoopWorld) :
  sup_wf (sup (lw_loop w)) → lw_running w = true →
  Forall (λ j, li_shutdown j = false) before → li_shutdown i = true →
  (∃ w1 w', run_loop ids cbs before w = Some w1 ∧ lw_running w1 = true ∧
     run_loop ids cbs (before ++ i :: after) w = Some w' ∧ lw_running w' = false ∧
     lw_ticks w' = (lw_ticks w + length before + 1)%nat ∧ lw_started w' = lw_started w1) ∨
  (run_loop ids cbs (before ++ i :: after) w = None ∧
   ∃ l1 j l2 w1, before ++ [i] = l1 ++ j :: l2 ∧ run_loop ids cbs l1 w = Some w1 ∧ tick_throws (li_tick j) (lw_stop_chain w1) (lw_mode w1)).
Proof.
  intros Hwf Hrun Hbefore Hi. revert w Hwf Hrun.
  induction Hbefore as [|j before Hj _ IH]; intros w Hwf Hrun.
  - pose proof (loop_iteration_total ids cbs i w Hwf) as Hit. simpl. rewrite Hrun. simpl.
    destruct (tr_completed _); [left|right].
    + destruct Hit as (w' & -> & _ & Ht & Hr & Hs). rewrite Hi in Hr. exists w, w'.
      split_and!; [done..| |done|lia|by apply Hs]. destruct after; simpl; by rewrite Hr.
    + destruct Hit as [-> Ht]. split; [done|]. exists [], i, [], w. simpl. by rewrite Hrun.
  - pose proof (loop_iteration_total ids cbs j w Hwf) as Hit. simpl. rewrite Hrun. simpl.
    destruct (tr_completed _).
    + destruct Hit as (w1 & E & Hwf1 & Ht & Hr & _). rewrite E. rewrite Hj, Hrun in Hr.
      destruct (IH w1 Hwf1 Hr) as [(w2 & w' & ? & ? & ? & ? & ? & ?)|(En & l1 & k & l2 & w2 & El & ? & ?)]; [left|right].
      * exists w2, w'. split_and!; [done..|lia|done].
      * split; [done|]. exists (j :: l1), k, l2, w2. simpl. rewrite El, Hrun. simpl. by rewrite E.
    + right. destruct Hit as [-> Ht]. split; [done|]. exists [], j, (before ++ [i]), w. simpl. by rewrite Hrun.
Qed.

(** A provider that is down from the first iteration on, and a shutdown in the second. *)
Definition sample_input (shutdown : bool) (now : Z) : LoopInput :=
  mkLoopInput (sample_tick now) None shutdown (λ _, Some false) now.

Definition sample_loop : LoopWorld :=
  mkLoopWorld (mkLoop (register_provider "sim0" sample_policy sample_sup) None)
    (Some (wire_stop_chain StopBench.config 500)) (sample_machine false) [] [] 0 true.

Lemma sample_loop_wf : sup_wf (sup (lw_loop sample_loop)).
Proof.
  intros id p st [Hp Hs]%find_provider_states. unfold sample_loop in *. cbn [lw_loop sup] in *.
  unfold register_provider, sample_sup in Hp, Hs. cbn [policies_ states_] in Hp, Hs.
  apply lookup_insert_Some in Hp as [[<- <-]|[_ Hp]]; [|by rewrite lookup_empty in Hp].
  rewrite lookup_insert_eq in Hs. injection Hs as <-. split; [reflexivity|done].
Qed.

Example shutdown_ends_loop_witness :
  ∃ w', run_loop (H := bit_text) (H0 := StopBench.q_names) ["sim0"] (Some LadderBench.quiet)
          ([sample_input false 0] ++ sample_input true 200000000 :: [sample_input false 300000000]) sample_loop = Some w' ∧
        lw_running w' = false ∧ lw_ticks w' = 2%nat.
Proof.
  destruct (shutdown_ends_loop (H := bit_text) (H0 := StopBench.q_names) ["sim0"] (Some LadderBench.quiet)
    [sample_input false 0] [sample_input false 300000000] (sample_input true 200000000) sample_loop)
    as [(w1 & w' & _ & _ & E & Hr & Ht & _)|(_ & l1 & j & l2 & w1 & _ & _ & q & bf & next & st & _ & _ & _ & _ & Hd)].
  - exact sample_loop_wf.
  - reflexivity.
  - constructor; [reflexivity|constructor].
  - reflexivity.
  - exists w'. split; [exact E|]. split; [exact Hr|exact Ht].
  - cbn in Hd. discriminate Hd.
Defined.

(** ** The shutdown order *)

(** Whatever was created: the re-issue worker stops after everything that may
    still hand it an edge or make a call, and the providers go last. *)
Lemma shutdown_order s :
  ∃ pre, shutdown s = pre ++ (if sv_reissue s then [StopReissue] else []) ++ [ClearProviders] ∧
         (StopReissue ∉ pre) ∧ (ClearProviders ∉ pre).
Proof.
  unfold shutdown. rewrite !(app_assoc _ _ (_ ++ [ClearProviders])). eexists. split; [reflexivity|].
  split; (destruct s as [[] [] [] [] [] []]; simpl; rewrite ?elem_of_cons, ?elem_of_nil; intuition discriminate).
Qed.
