(* ===== verification/Config.v ===== *)
(** * The runtime configuration and its validation ([core/runtime/config.{hpp,cpp}])

    The configuration structures with their defaults, and [validate_config].
    Warnings it logs are left out. *)

From S2P Require Import Prelude Protocol ModeManager Parameters Supervisor SafeState ActuationGate StopChain.

(** ** Structures *)

Inductive GatingPolicy := BLOCK | OVERRIDE.
Inductive OnTerminal := REPEAT | STOP.
Inductive StartupOutputs := StartSafeState | StartLeave.

Definition parse_gating_policy (s : string) : option GatingPolicy :=
  if decide (s = "BLOCK") then Some BLOCK
  else if decide (s = "OVERRIDE") then Some OVERRIDE
  else None.

Definition gating_policy_to_string (p : GatingPolicy) : string :=
  match p with BLOCK => "BLOCK" | OVERRIDE => "OVERRIDE" end.

Record HealthStalenessConfig := mkStaleness { hs_warn_after_ms : Z; hs_stale_after_ms : Z }.

Record HealthConfig := mkHealthConfig {
  hc_staleness : HealthStalenessConfig;
  hc_excluded_signals : gmap string (gset string);
}.

Record RuntimeModeConfig := mkRuntimeModeConfig {
  rm_name : string;
  rm_shutdown_timeout_ms : Z;
  rm_startup_timeout_ms : Z;
  rm_data_dir : string;
}.

Record HttpConfig := mkHttpConfig {
  ht_enabled : bool;
  ht_bind : string;
  ht_port : Z;
  ht_cors_allowed_origins : list string;
  ht_cors_allow_credentials : bool;
  ht_thread_pool_size : Z;
  ht_auth_enabled : bool;
  ht_auth_token : string;
  ht_auth_exempt_loopback : bool;
  ht_allow_insecure_bind : bool;
  ht_tls_cert_path : string;
  ht_tls_key_path : string;
}.

Record TelemetryConfig := mkTelemetryConfig {
  te_enabled : bool;
  te_influx_url : string;
  te_influx_org : string;
  te_influx_bucket : string;
  te_influx_token : string;
  te_batch_size : Z;
  te_flush_interval_ms : Z;
  te_queue_size : Z;
  te_max_retry_buffer_size : Z;
  te_health_interval_ms : Z;
}.

Record ParameterConfig := mkParameterConfig {
  pc_name : string;
  pc_type : ParameterType;
  pc_default : ParameterValue;
  pc_min : option double;
  pc_max : option double;
  pc_allowed_values : list string;
}.

Record ProviderConfig := mkProviderConfig {
  pr_id : string;
  pr_command : string;
  pr_args : list string;
  pr_timeout_ms : Z;
  pr_hello_timeout_ms : Z;
  pr_ready_timeout_ms : Z;
  pr_restart_policy : RestartPolicyConfig;
}.

Record SafetyConfig := mkSafetyConfig {
  sf_safe_state : SafeStateConfig;
  sf_on_startup : StartupOutputs;
  sf_stop_chain : StopChainConfig;
}.

(** The [automation] section; its hooks as the actuation gate takes them. *)
Record AutomationSection := mkAutomationSection {
  at_enabled : bool;
  at_behavior_tree : string;
  at_tick_rate_hz : Z;
  at_manual_gating_policy : GatingPolicy;
  at_on_terminal : OnTerminal;
  at_max_consecutive_call_failures : Z;
  at_parameters : list ParameterConfig;
  at_before_transition : list ModeTransitionHookConfig;
  at_after_transition : list ModeTransitionHookConfig;
}.

Record RuntimeConfig := mkRuntimeConfig {
  c_runtime : RuntimeModeConfig;
  c_http : HttpConfig;
  c_providers : list ProviderConfig;
  c_polling_interval_ms : Z;
  c_telemetry : TelemetryConfig;
  c_logging_level : string;
  c_automation : AutomationSection;
  c_safety : SafetyConfig;
  c_health : HealthConfig;
  c_config_dir : string;
}.

(** *** Defaults: the member initialisers *)

Definition default_runtime : RuntimeModeConfig := mkRuntimeModeConfig "" 2000 30000 "".
Definition default_http : HttpConfig :=
  mkHttpConfig true "127.0.0.1" 8080 [] false 40 false "" false false "" "".
Definition default_telemetry : TelemetryConfig :=
  mkTelemetryConfig false "http://localhost:8086" "anolis" "anolis" "" 100 1000 10000 1000 15000.
Definition default_restart_policy : RestartPolicyConfig := mkPolicy false 3 [100; 1000; 5000] 30000 1000.
Definition default_provider : ProviderConfig :=
  mkProviderConfig "" "" [] 5000 5000 60000 default_restart_policy.
Definition default_stop_chain : StopChainConfig := mkStopConfig None [] ∅.
Definition default_safety : SafetyConfig :=
  mkSafetyConfig (mkSafeStateConfig [] [] false) StartSafeState default_stop_chain.
Definition default_automation : AutomationSection :=
  mkAutomationSection false "" 10 BLOCK REPEAT 3 [] [] [].
Definition default_health : HealthConfig := mkHealthConfig (mkStaleness 0 0) ∅.
Definition default_polling : Z := 500.
Definition default_logging : string := "info".
Definition default_config : RuntimeConfig :=
  mkRuntimeConfig default_runtime default_http [] default_polling default_telemetry default_logging
    default_automation default_safety default_health "".

(** ** Validation *)

(** [if (cond) { error = e; return false; }]. *)
Definition refuse_if (cond : bool) (e : string) : result unit := if cond then Err e else Ok tt.

(** The first refusal of a loop over a list, with the index of the element. *)
Fixpoint check_each {A} (check : Z → A → result unit) (i : Z) (l : list A) : result unit :=
  match l with
  | [] => Ok tt
  | x :: r => try _ <- check i x;; check_each check (i + 1) r
  end.

Definition is_valid_mode_name (m : string) : bool :=
  bool_decide (m = "MANUAL") || bool_decide (m = "AUTO") || bool_decide (m = "IDLE") ||
  bool_decide (m = "FAULT") || bool_decide (m = "*").

(** [bind.rfind("127.", 0) == 0]: starts with it. *)
Definition is_loopback_bind (bind : string) : bool :=
  bool_decide (bind = "127.0.0.1") || bool_decide (bind = "::1") || bool_decide (bind = "localhost") ||
  starts_with "127." bind.

Definition is_empty (s : string) : bool := bool_decide (s = "").

Definition validate_runtime (r : RuntimeModeConfig) : result unit :=
  try _ <- refuse_if ((rm_shutdown_timeout_ms r <? 500) || (30000 <? rm_shutdown_timeout_ms r))
             "runtime.shutdown_timeout_ms must be between 500 and 30000 (0.5s - 30s)";;
  refuse_if ((rm_startup_timeout_ms r <? 5000) || (300000 <? rm_startup_timeout_ms r))
    "runtime.startup_timeout_ms must be between 5000 and 300000 (5s - 5min)".

Definition validate_http (h : HttpConfig) : result unit :=
  if negb (ht_enabled h) then Ok tt
  else
    try _ <- refuse_if ((ht_port h <? 1) || (65535 <? ht_port h)) "HTTP port must be between 1 and 65535";;
    try _ <- refuse_if (ht_thread_pool_size h <? 1) "HTTP thread_pool_size must be at least 1";;
    try _ <- refuse_if (ht_cors_allow_credentials h && bool_decide ("*" ∈ ht_cors_allowed_origins h))
               "CORS wildcard origin '*' cannot be used with cors_allow_credentials=true";;
    try _ <- refuse_if (ht_auth_enabled h && is_empty (ht_auth_token h))
               "http.auth_enabled=true requires http.auth_token (or the ANOLIS_API_TOKEN env var)";;
    try _ <- refuse_if (negb (is_loopback_bind (ht_bind h)) && negb (ht_auth_enabled h) &&
                        negb (ht_allow_insecure_bind h))
               ("http.bind '" +:+ ht_bind h +:+
                "' is non-loopback but authentication is disabled; set http.auth_enabled=true " +:+
                "(recommended) or http.allow_insecure_bind=true to override");;
    refuse_if (negb (eqb (is_empty (ht_tls_cert_path h)) (is_empty (ht_tls_key_path h))))
      "http TLS requires both tls_cert_path and tls_key_path (or neither)".

(** One turn of the provider loop, after the duplicate check. *)
Definition validate_provider (p : ProviderConfig) : result unit :=
  try _ <- refuse_if (is_empty (pr_command p)) ("Provider '" +:+ pr_id p +:+ "' missing 'command' field");;
  try _ <- refuse_if (pr_timeout_ms p <? 100) "Provider timeout must be >= 100ms";;
  try _ <- refuse_if (pr_hello_timeout_ms p <? 100) "Provider hello_timeout_ms must be >= 100ms";;
  try _ <- refuse_if (pr_ready_timeout_ms p <? 1000) "Provider ready_timeout_ms must be >= 1000ms";;
  validate_restart_policy (pr_id p) (pr_restart_policy p).

Fixpoint validate_providers (seen : gset string) (ps : list ProviderConfig) : result unit :=
  match ps with
  | [] => Ok tt
  | p :: r =>
      try _ <- refuse_if (is_empty (pr_id p)) "Provider missing 'id' field";;
      try _ <- refuse_if (bool_decide (pr_id p ∈ seen)) ("Duplicate provider ID: '" +:+ pr_id p +:+ "'");;
      try _ <- validate_provider p;;
      validate_providers ({[pr_id p]} ∪ seen) r
  end.

Definition validate_health (h : HealthStalenessConfig) : result unit :=
  try _ <- refuse_if ((hs_warn_after_ms h <? 0) || (hs_stale_after_ms h <? 0))
             "health.staleness.warn_after_ms/stale_after_ms must be >= 0";;
  refuse_if ((0 <? hs_warn_after_ms h) && (0 <? hs_stale_after_ms h) &&
             (hs_stale_after_ms h <=? hs_warn_after_ms h))
    "health.staleness.stale_after_ms must be > warn_after_ms when both are set".

Definition validate_logging (level : string) : result unit :=
  refuse_if (negb (bool_decide (level = "debug")) && negb (bool_decide (level = "info")) &&
             negb (bool_decide (level = "warn")) && negb (bool_decide (level = "error")))
    ("Invalid log level: " +:+ level).

Definition is_numeric (t : ParameterType) : bool := match t with DOUBLE | INT64 => true | _ => false end.

Definition validate_parameter (p : ParameterConfig) : result unit :=
  try _ <- refuse_if (is_empty (pc_name p)) "Parameter missing name";;
  try _ <- refuse_if (negb (parameter_value_matches_type (pc_type p) (pc_default p)))
             ("Parameter '" +:+ pc_name p +:+ "' default value type mismatch: expected " +:+
              parameter_type_to_string (pc_type p) +:+ ", got " +:+ parameter_value_type_name (pc_default p));;
  try _ <- refuse_if (negb (is_numeric (pc_type p)) &&
                      (bool_decide (is_Some (pc_min p)) || bool_decide (is_Some (pc_max p))))
             ("Parameter '" +:+ pc_name p +:+ "' min/max constraints require numeric type");;
  try _ <- refuse_if (match pc_min p, pc_max p with Some lo, Some hi => SFltb hi lo | _, _ => false end)
             ("Parameter '" +:+ pc_name p +:+ "' has invalid constraints: min > max");;
  refuse_if (negb (bool_decide (pc_type p = STRING)) && negb (bool_decide (pc_allowed_values p = [])))
    ("Parameter '" +:+ pc_name p +:+ "' allowed_values is only valid for string parameters").

(** The two checks every configured call must pass. *)
Definition validate_call_config (call_path : string) (c : ModeTransitionCallConfig) : result unit :=
  try _ <- refuse_if (is_empty (cc_device_handle c)) (call_path +:+ ".device_handle is required");;
  refuse_if ((cc_function_id c =? 0) && is_empty (cc_function_name c))
    (call_path +:+ " must provide function_id or function_name").

Definition indexed (path : string) (i : Z) : string := path +:+ "[" +:+ to_string i +:+ "]".

Definition validate_hook (group_name : string) (i : Z) (h : ModeTransitionHookConfig) : result unit :=
  let hook_path := indexed ("automation.mode_transition_hooks." +:+ group_name) i in
  try _ <- refuse_if (negb (is_empty (hk_from h)) && negb (is_valid_mode_name (hk_from h)))
             (hook_path +:+ ".from must be one of MANUAL/AUTO/IDLE/FAULT/*");;
  try _ <- refuse_if (negb (is_empty (hk_to h)) && negb (is_valid_mode_name (hk_to h)))
             (hook_path +:+ ".to must be one of MANUAL/AUTO/IDLE/FAULT/*");;
  try _ <- refuse_if (bool_decide (length (hk_calls h) = 0%nat))
             (hook_path +:+ ".calls must contain at least one call");;
  check_each (λ j, validate_call_config (indexed (hook_path +:+ ".calls") j)) 0 (hk_calls h).

Definition validate_hook_group (group_name : string) (hooks : list ModeTransitionHookConfig) : result unit :=
  check_each (validate_hook group_name) 0 hooks.

Definition validate_automation (a : AutomationSection) : result unit :=
  if negb (at_enabled a) then Ok tt
  else
    try _ <- refuse_if (is_empty (at_behavior_tree a))
               "Automation enabled but behavior_tree path not specified";;
    try _ <- refuse_if ((at_tick_rate_hz a <? 1) || (1000 <? at_tick_rate_hz a))
               "Automation tick_rate_hz must be between 1 and 1000 Hz";;
    try _ <- refuse_if (at_max_consecutive_call_failures a <? 1)
               "Automation max_consecutive_call_failures must be at least 1";;
    try _ <- check_each (λ _, validate_parameter) 0 (at_parameters a);;
    try _ <- validate_hook_group "before_transition" (at_before_transition a);;
    validate_hook_group "after_transition" (at_after_transition a).

Definition validate_safety_calls (list_name : string) (calls : list ModeTransitionCallConfig) : result unit :=
  check_each (λ i, validate_call_config (indexed ("safety.safe_state." +:+ list_name) i)) 0 calls.

Definition validate_config (c : RuntimeConfig) : result unit :=
  try _ <- validate_runtime (c_runtime c);;
  try _ <- validate_http (c_http c);;
  try _ <- refuse_if (bool_decide (length (c_providers c) = 0%nat)) "Config must specify at least one provider";;
  try _ <- validate_providers ∅ (c_providers c);;
  try _ <- refuse_if (c_polling_interval_ms c <? 100) "polling interval must be >= 100ms";;
  try _ <- validate_health (hc_staleness (c_health c));;
  try _ <- validate_logging (c_logging_level c);;
  try _ <- validate_automation (c_automation c);;
  try _ <- validate_safety_calls "hooks" (ssc_hooks (sf_safe_state (c_safety c)));;
  validate_safety_calls "setpoints" (ssc_setpoints (sf_safe_state (c_safety c))).

(** ** What an accepted configuration satisfies *)

Definition valid_call (c : ModeTransitionCallConfig) : Prop :=
  cc_device_handle c ≠ "" ∧ (cc_function_id c ≠ 0 ∨ cc_function_name c ≠ "").

Definition valid_mode_filter (m : string) : Prop :=
  m = "" ∨ m = "*" ∨ ∃ mode, string_to_mode m = Some mode.

Definition valid_hook (h : ModeTransitionHookConfig) : Prop :=
  valid_mode_filter (hk_from h) ∧ valid_mode_filter (hk_to h) ∧ hk_calls h ≠ [] ∧
  Forall valid_call (hk_calls h).

Definition valid_restart_policy (p : RestartPolicyConfig) : Prop :=
  enabled p = true →
  1 ≤ max_attempts p ∧ Z.of_nat (length (backoff_ms p)) = max_attempts p ∧
  Forall (λ b, 0 ≤ b) (backoff_ms p) ∧ 1000 ≤ timeout_ms p ∧ 0 ≤ success_reset_ms p.

Definition valid_provider (p : ProviderConfig) : Prop :=
  pr_id p ≠ "" ∧ pr_command p ≠ "" ∧ 100 ≤ pr_timeout_ms p ∧ 100 ≤ pr_hello_timeout_ms p ∧
  1000 ≤ pr_ready_timeout_ms p ∧ valid_restart_policy (pr_restart_policy p).

Definition valid_http (h : HttpConfig) : Prop :=
  ht_enabled h = true →
  1 ≤ ht_port h ≤ 65535 ∧ 1 ≤ ht_thread_pool_size h ∧
  ¬ (ht_cors_allow_credentials h = true ∧ "*" ∈ ht_cors_allowed_origins h) ∧
  (ht_auth_enabled h = true → ht_auth_token h ≠ "") ∧
  (is_loopback_bind (ht_bind h) = true ∨ ht_auth_enabled h = true ∨ ht_allow_insecure_bind h = true) ∧
  (ht_tls_cert_path h = "" ↔ ht_tls_key_path h = "").

Definition valid_parameter (p : ParameterConfig) : Prop :=
  pc_name p ≠ "" ∧ parameter_value_matches_type (pc_type p) (pc_default p) = true ∧
  (is_numeric (pc_type p) = false → pc_min p = None ∧ pc_max p = None) ∧
  (∀ lo hi, pc_min p = Some lo → pc_max p = Some hi → SFltb hi lo = false) ∧
  (pc_type p ≠ STRING → pc_allowed_values p = []).

Definition valid_automation (a : AutomationSection) : Prop :=
  at_enabled a = true →
  at_behavior_tree a ≠ "" ∧ 1 ≤ at_tick_rate_hz a ≤ 1000 ∧ 1 ≤ at_max_consecutive_call_failures a ∧
  Forall valid_parameter (at_parameters a) ∧
  Forall valid_hook (at_before_transition a) ∧ Forall valid_hook (at_after_transition a).

Definition valid_staleness (h : HealthStalenessConfig) : Prop :=
  0 ≤ hs_warn_after_ms h ∧ 0 ≤ hs_stale_after_ms h ∧
  (0 < hs_warn_after_ms h → 0 < hs_stale_after_ms h → hs_warn_after_ms h < hs_stale_after_ms h).

Record valid_config (c : RuntimeConfig) : Prop := {
  vc_shutdown : 500 ≤ rm_shutdown_timeout_ms (c_runtime c) ≤ 30000;
  vc_startup : 5000 ≤ rm_startup_timeout_ms (c_runtime c) ≤ 300000;
  vc_http : valid_http (c_http c);
  vc_some_provider : c_providers c ≠ [];
  vc_providers : Forall valid_provider (c_providers c);
  vc_unique_ids : NoDup (pr_id <$> c_providers c);
  vc_polling : 100 ≤ c_polling_interval_ms c;
  vc_health : valid_staleness (hc_staleness (c_health c));
  vc_logging : c_logging_level c ∈ ["debug"; "info"; "warn"; "error"];
  vc_automation : valid_automation (c_automation c);
  vc_hooks : Forall valid_call (ssc_hooks (sf_safe_state (c_safety c)));
  vc_setpoints : Forall valid_call (ssc_setpoints (sf_safe_state (c_safety c)));
}.

(** *** Each check against its specification *)

Lemma rbind_unit_Ok (m k : result unit) : (try _ <- m;; k) = Ok tt ↔ m = Ok tt ∧ k = Ok tt.
Proof. destruct m as [[]|]; simpl; naive_solver. Qed.

Lemma refuse_if_Ok b e : refuse_if b e = Ok tt ↔ b = false.
Proof. by destruct b. Qed.

Lemma is_empty_true s : is_empty s = true ↔ s = "".
Proof. apply bool_decide_eq_true. Qed.

Lemma is_empty_false s : is_empty s = false ↔ s ≠ "".
Proof. apply bool_decide_eq_false. Qed.

Lemma check_each_Ok {A} (check : Z → A → result unit) (P : A → Prop) i l :
  (∀ j x, check j x = Ok tt ↔ P x) → check_each check i l = Ok tt ↔ Forall P l.
Proof.
  intros Hc. revert i. induction l as [|x l IH]; intros i; simpl; [by split|].
  by rewrite rbind_unit_Ok, Hc, IH, Forall_cons.
Qed.

Create Rewrite HintDb config.
#[export] Hint Rewrite rbind_unit_Ok refuse_if_Ok is_empty_true is_empty_false andb_false_iff orb_false_iff
  negb_false_iff negb_true_iff Z.ltb_ge Z.leb_gt Z.eqb_neq Z.ltb_lt Z.leb_le
  bool_decide_eq_true bool_decide_eq_false : config.

Lemma validate_call_config_Ok path c : validate_call_config path c = Ok tt ↔ valid_call c.
Proof. unfold validate_call_config, valid_call. by autorewrite with config. Qed.

Lemma is_valid_mode_name_spec m : is_valid_mode_name m = true ↔ m = "*" ∨ ∃ mode, string_to_mode m = Some mode.
Proof.
  unfold is_valid_mode_name, string_to_mode. split.
  - rewrite !orb_true_iff, !bool_decide_eq_true.
    intros [[[[->| ->]| ->]| ->]| ->]; [right; by eexists..|by left].
  - intros [->|[mode H]]; [done|]. repeat case_decide; simplify_eq; done.
Qed.

Lemma mode_filter_Ok m :
  negb (is_empty m) && negb (is_valid_mode_name m) = false ↔ valid_mode_filter m.
Proof.
  unfold valid_mode_filter. rewrite andb_false_iff, !negb_false_iff, is_empty_true, is_valid_mode_name_spec. tauto.
Qed.

Lemma validate_hook_group_Ok g hooks : validate_hook_group g hooks = Ok tt ↔ Forall valid_hook hooks.
Proof.
  apply check_each_Ok. intros j h. unfold validate_hook, valid_hook.
  rewrite !rbind_unit_Ok, !refuse_if_Ok, !mode_filter_Ok, bool_decide_eq_false.
  rewrite (check_each_Ok _ valid_call) by (intros; apply validate_call_config_Ok).
  by rewrite length_zero_iff_nil.
Qed.

Lemma validate_restart_policy_Ok id p : validate_restart_policy id p = Ok tt ↔ valid_restart_policy p.
Proof.
  unfold validate_restart_policy, valid_restart_policy.
  destruct (enabled p); simpl; [|by split].
  destruct (Z.ltb_spec (max_attempts p) 1); [split; [done|]; intros Hv; specialize (Hv eq_refl); lia|].
  case_bool_decide as Hb; [split; [done|]; intros Hv; destruct (Hv eq_refl) as (_ & Hl & _);
    rewrite Hb in Hl; simpl in Hl; lia|].
  case_bool_decide as Hl; simpl; [|split; [done|]; intros Hv; destruct (Hv eq_refl) as (_ & ? & _); done].
  destruct (list_find _ _) as [[i b]|] eqn:Hf.
  - split; [done|]. intros Hv. destruct (Hv eq_refl) as (_ & _ & Ha & _).
    apply list_find_Some in Hf as (Hi & Hneg & _). rewrite Forall_lookup in Ha.
    specialize (Ha _ _ Hi). simpl in Ha. lia.
  - apply list_find_None in Hf. destruct (Z.ltb_spec (timeout_ms p) 1000);
      [split; [done|]; intros Hv; specialize (Hv eq_refl); lia|].
    destruct (Z.ltb_spec (success_reset_ms p) 0);
      [split; [done|]; intros Hv; specialize (Hv eq_refl); lia|].
    split; [|done]. intros _ _. split_and!; try lia. eapply Forall_impl; [exact Hf|]. simpl. lia.
Qed.

Lemma validate_providers_Ok seen ps :
  validate_providers seen ps = Ok tt ↔
  Forall valid_provider ps ∧ NoDup (pr_id <$> ps) ∧ Forall (λ p, pr_id p ∉ seen) ps.
Proof.
  revert seen. induction ps as [|p ps IH]; intros seen; simpl.
  { split; [|done]. intros _. split_and!; constructor. }
  rewrite !rbind_unit_Ok, !refuse_if_Ok, IH. unfold validate_provider, valid_provider.
  rewrite !rbind_unit_Ok, !refuse_if_Ok, validate_restart_policy_Ok, !Forall_cons, NoDup_cons, !Z.ltb_ge,
    bool_decide_eq_false, !is_empty_false.
  assert (Forall (λ q, pr_id q ∉ {[pr_id p]} ∪ seen) ps ↔
          ¬ (pr_id p ∈ pr_id <$> ps) ∧ Forall (λ q, pr_id q ∉ seen) ps) as ->; [|tauto].
  rewrite !Forall_forall, list_elem_of_fmap. split.
  - intros Hf. split; [|set_solver]. intros (q & Heq & Hq). apply (Hf q Hq). set_solver.
  - intros [Hn Hs] q Hq. specialize (Hs q Hq). rewrite elem_of_union, elem_of_singleton. naive_solver.
Qed.

Lemma validate_http_Ok h : validate_http h = Ok tt ↔ valid_http h.
Proof.
  unfold validate_http, valid_http. destruct (ht_enabled h); simpl; [|by split].
  assert (eqb (is_empty (ht_tls_cert_path h)) (is_empty (ht_tls_key_path h)) = true ↔
          (ht_tls_cert_path h = "" ↔ ht_tls_key_path h = "")) as Htls.
  { rewrite eqb_true_iff, <- !is_empty_true. by destruct (is_empty (ht_tls_cert_path h)), (is_empty (ht_tls_key_path h)); naive_solver. }
  autorewrite with config. rewrite Htls. destruct (ht_auth_enabled h), (ht_cors_allow_credentials h); simpl;
    split; intros Hv; (try specialize (Hv eq_refl)); naive_solver.
Qed.

Lemma validate_parameter_Ok p : validate_parameter p = Ok tt ↔ valid_parameter p.
Proof.
  unfold validate_parameter, valid_parameter. autorewrite with config.
  rewrite !eq_None_not_Some.
  assert (match pc_min p, pc_max p with Some lo, Some hi => SFltb hi lo | _, _ => false end = false ↔
          ∀ lo hi, pc_min p = Some lo → pc_max p = Some hi → SFltb hi lo = false) as ->.
  { destruct (pc_min p), (pc_max p); naive_solver. }
  destruct (is_numeric (pc_type p)); destruct (decide (pc_type p = STRING)); naive_solver.
Qed.

Lemma validate_automation_Ok a : validate_automation a = Ok tt ↔ valid_automation a.
Proof.
  unfold validate_automation, valid_automation. destruct (at_enabled a); simpl; [|by split].
  rewrite !rbind_unit_Ok, !validate_hook_group_Ok, (check_each_Ok _ valid_parameter)
    by (intros; apply validate_parameter_Ok).
  autorewrite with config. split.
  - intros (? & [? ?] & ? & ? & ? & ?) _. done.
  - intros Hv. destruct (Hv eq_refl) as (? & [? ?] & ? & ? & ? & ?). done.
Qed.

Lemma validate_safety_calls_Ok name calls : validate_safety_calls name calls = Ok tt ↔ Forall valid_call calls.
Proof. apply check_each_Ok. intros. apply validate_call_config_Ok. Qed.

Lemma validate_logging_Ok level :
  validate_logging level = Ok tt ↔ level ∈ ["debug"; "info"; "warn"; "error"].
Proof.
  unfold validate_logging. autorewrite with config. rewrite !elem_of_cons, elem_of_nil. tauto.
Qed.

Lemma validate_config_Ok c : validate_config c = Ok tt ↔ valid_config c.
Proof.
  unfold validate_config.
  rewrite !rbind_unit_Ok, validate_http_Ok, validate_providers_Ok, validate_logging_Ok, validate_automation_Ok,
    !validate_safety_calls_Ok.
  unfold validate_runtime, validate_health. autorewrite with config. rewrite length_zero_iff_nil.
  split.
  - intros ((Hsh & Hst) & Hht & Hp & (Hpr & Hnd & _) & Hpo & (Hh1 & Hh2) & Hl & Ha & Hho & Hse).
    constructor; try done; try lia. unfold valid_staleness. lia.
  - intros [? ? ? ? ? ? ? Hv ? ? ? ?]. unfold valid_staleness in Hv.
    split_and!; try done; try lia. rewrite Forall_forall. set_solver.
Qed.

(** C36. [validate_config] accepts exactly the configurations that satisfy the
    rules, stated one by one: bounds of every timeout, unique named providers
    with a command and a consistent restart policy, typed parameters, complete
    hooks and safe-state calls, and an HTTP surface that is loopback-only,
    authenticated with a token, or exposed by explicit override. *)
Theorem validate_config_correct c : validate_config c = Ok tt ↔ valid_config c.
Proof. apply validate_config_Ok. Qed.

Definition simple_config : RuntimeConfig :=
  mkRuntimeConfig default_runtime default_http [mkProviderConfig "sim0" "/opt/sim" [] 5000 5000 60000
    (mkPolicy true 3 [100; 1000; 5000] 30000 1000)] 500 default_telemetry "info" default_automation
    default_safety default_health "/etc/anolis".

Example simple_config_accepted : validate_config simple_config = Ok tt.
Proof. vm_compute. reflexivity. Qed.

Example exposed_surface_refused :
  is_ok_b (validate_http (mkHttpConfig true "0.0.0.0" 8080 [] false 40 false "" false false "" "")) = false.
Proof. reflexivity. Qed.
