(* ===== verification/ConfigLoad.v ===== *)
(** * Loading the configuration ([load_config] of [core/runtime/config.cpp])

    The loader over a parsed YAML document, from the root map to the validated
    configuration.  yaml-cpp is an interface: what reading the file gives, and
    what [as<T>()] gives for a node or throws.  The environment, the canonical
    directory of the file and [lexically_normal] are arguments.  Log lines are
    left out, but not the exceptions the key checks can throw. *)

From S2P Require Import Prelude Protocol ModeManager Parameters Supervisor SafeState ActuationGate StopChain.
From S2P Require Import Config.

(** ** YAML *)

(** A node of a document; map entries in document order. *)
#[warnings="-register-all"]
Inductive ynode :=
| YNull
| YScalar (text : string)
| YSeq (items : list ynode)
| YMap (entries : list (ynode * ynode)).

Definition is_null (n : ynode) : bool := match n with YNull => true | _ => false end.
Definition is_map (n : ynode) : bool := match n with YMap _ => true | _ => false end.
Definition is_sequence (n : ynode) : bool := match n with YSeq _ => true | _ => false end.
Definition is_scalar (n : ynode) : bool := match n with YScalar _ => true | _ => false end.

(** [node[key]] of a map or a null: the first entry under a scalar key with that
    text; [None] is an undefined node. *)
Fixpoint find_entry (key : string) (l : list (ynode * ynode)) : option ynode :=
  match l with
  | [] => None
  | (YScalar k, v) :: r => if decide (k = key) then Some v else find_entry key r
  | _ :: r => find_entry key r
  end.

Definition yget (key : string) (n : ynode) : option ynode :=
  match n with YMap l => find_entry key l | _ => None end.

(** The items of a range-for over a sequence or a null. *)
Definition items (n : ynode) : list ynode := match n with YSeq l => l | _ => [] end.
Definition entries (n : ynode) : list (ynode * ynode) := match n with YMap l => l | _ => [] end.

(** ** Outcomes: a value, [error = msg; return false], or an exception *)

Inductive outcome (A : Type) :=
| Done (a : A)
| Refuse (msg : string)
| Throw (what : string).
Arguments Done {A} a.
Arguments Refuse {A} msg.
Arguments Throw {A} what.

Definition obind {A B} (m : outcome A) (f : A → outcome B) : outcome B :=
  match m with Done a => f a | Refuse e => Refuse e | Throw w => Throw w end.

Notation "'load' x <- m ;; k" := (obind m (λ x, k))
  (at level 100, x pattern, m at next level, right associativity,
   format "'load'  x  <-  m  ;; '//' k") : anolis_scope.

(** A loop whose body may leave the function. *)
Fixpoint omap_each {A B} (f : Z → A → outcome B) (i : Z) (l : list A) : outcome (list B) :=
  match l with
  | [] => Done []
  | x :: r => load y <- f i x;; load ys <- omap_each f (i + 1) r;; Done (y :: ys)
  end.

Fixpoint ofold_each {A S} (f : Z → A → S → outcome S) (i : Z) (l : list A) (s : S) : outcome S :=
  match l with
  | [] => Done s
  | x :: r => load s <- f i x s;; ofold_each f (i + 1) r s
  end.

(** What reading the file gives. *)
Inductive LoadedFile := BadFile | ParserException (what : string) | Loaded (root : ynode).

(** [node.as<T>()].  A scalar converts to its text; an integer that converts is
    within its width. *)
Class YamlConvert := {
  as_string : ynode → outcome string;
  as_bool : ynode → outcome bool;
  as_int : ynode → outcome Z;
  as_int64 : ynode → outcome Z;
  as_uint32 : ynode → outcome Z;
  as_size : ynode → outcome Z;
  as_double : ynode → outcome double;
  as_string_scalar : ∀ s, as_string (YScalar s) = Done s;
}.

(** [std::stod] on text that has the form of a literal: [None] when it throws. *)
Class StdStod := stod : string → option double.

(** Where the process runs: environment variables, the canonical directory of a
    path, and [lexically_normal]. *)
Record Host := mkHost {
  getenv : string → option string;
  canonical_dir : string → string;
  lexically_normal : string → string;
}.

(** ** Literals *)

(** [kIntPattern]: a sign and digits; the integer it denotes. *)
Definition int_literal (s : string) : option Z :=
  let '(neg, r) := strip_sign s in
  let '(d, rest) := span_digits r in
  if bool_decide (d = "") || negb (bool_decide (rest = "")) then None
  else Some (if neg then - digits_value 0 d else digits_value 0 d).

(** The exponent part [([eE][+-]?[0-9]+)?] up to the end. *)
Definition exponent_literal (s : string) : bool :=
  match s with
  | EmptyString => true
  | String c r =>
      (Ascii.eqb c "e" || Ascii.eqb c "E") &&
      let '(_, r) := strip_sign r in
      let '(d, rest) := span_digits r in
      negb (bool_decide (d = "")) && bool_decide (rest = "")
  end.

(** [kFloatPattern]: digits around a point, one side at least, and an exponent. *)
Definition is_float_literal (s : string) : bool :=
  let '(_, r) := strip_sign s in
  let '(d1, r) := span_digits r in
  match r with
  | String "." r =>
      let '(d2, r) := span_digits r in
      (negb (bool_decide (d1 = "")) || negb (bool_decide (d2 = ""))) && exponent_literal r
  | _ => false
  end.

(** ** Helpers of the loader *)

Definition ensure_mapping (n : ynode) (path : string) : outcome unit :=
  if is_null n then Done tt
  else if negb (is_map n) then Refuse ("'" +:+ path +:+ "' must be a map")
  else Done tt.

Definition ensure_sequence (n : ynode) (path : string) : outcome unit :=
  if is_null n then Done tt
  else if negb (is_sequence n) then Refuse ("'" +:+ path +:+ "' must be a sequence")
  else Done tt.

(** A `provider/device` or `provider/device/signal` handle: the loop over the
    characters, with the count so far and whether the current part is empty. *)
Fixpoint is_handle_from (s : string) (part_empty : bool) (count : Z) (parts : Z) : bool :=
  match s with
  | EmptyString => if part_empty then false else bool_decide (count = parts)
  | String c r =>
      if Ascii.eqb c slash then
        if part_empty then false else is_handle_from r true (count + 1) parts
      else is_handle_from r false count parts
  end.

Definition is_handle (value : string) (parts : Z) : bool := is_handle_from value true 1 parts.

Section Loader.
Context `{YamlConvert} `{StdStod}.

(** The keys that are not known: they are logged. Converting a key may throw. *)
Fixpoint warn_unknown_entries (l : list (ynode * ynode)) (valid : list string) : outcome (list string) :=
  match l with
  | [] => Done []
  | (k, _) :: r =>
      load key <- as_string k;;
      load rest <- warn_unknown_entries r valid;;
      Done (if bool_decide (key ∈ valid) then rest else key :: rest)
  end.

Definition warn_unknown_keys (n : ynode) (valid : list string) : outcome (list string) :=
  warn_unknown_entries (entries n) valid.

(** [if (node[key]) { member = node[key].as<T>(); }]. *)
Definition field {A} (n : ynode) (key : string) (conv : ynode → outcome A) (d : A) : outcome A :=
  match yget key n with Some v => conv v | None => Done d end.

Definition parse_scalar_parameter_value (n : ynode) (path : string) : outcome ParameterValue :=
  if negb (is_scalar n) then Refuse ("'" +:+ path +:+ "' must be a scalar value")
  else
    load raw <- as_string n;;
    if bool_decide (raw = "true") || bool_decide (raw = "false") then Done (PBool (bool_decide (raw = "true")))
    else match int_literal raw with
         | Some z =>
             if (int64_min <=? z) && (z <=? int64_max) then Done (PInt64 z)
             else Refuse ("'" +:+ path +:+ "' integer value out of range")
         | None =>
             if is_float_literal raw then
               match stod raw with
               | Some d => Done (PDouble d)
               | None => Refuse ("'" +:+ path +:+ "' floating value out of range")
               end
             else Done (PString raw)
         end.

(** ** Calls *)

Definition parse_arg (call_path : string) (e : ynode * ynode) (args : gmap string ParameterValue)
    : outcome (gmap string ParameterValue) :=
  load arg_key <- as_string e.1;;
  load arg_value <- parse_scalar_parameter_value e.2 (call_path +:+ ".args." +:+ arg_key);;
  Done (<[arg_key := arg_value]> args).

Definition parse_call (base_path : string) (i : Z) (n : ynode) : outcome ModeTransitionCallConfig :=
  let call_path := indexed base_path i in
  if negb (is_map n) then Refuse ("'" +:+ call_path +:+ "' must be a map")
  else
    load _ <- warn_unknown_keys n ["device_handle"; "function_id"; "function_name"; "args"];;
    load device_handle <- field n "device_handle" as_string "";;
    load function_id <- field n "function_id" as_uint32 0;;
    load function_name <- field n "function_name" as_string "";;
    load args <- match yget "args" n with
                 | None => Done ∅
                 | Some a =>
                     load _ <- ensure_mapping a (call_path +:+ ".args");;
                     ofold_each (λ _, parse_arg call_path) 0 (entries a) ∅
                 end;;
    Done (mkCallConfig device_handle function_id function_name args).

Definition parse_call_list (n : ynode) (base_path : string) : outcome (list ModeTransitionCallConfig) :=
  load _ <- ensure_sequence n base_path;;
  omap_each (parse_call base_path) 0 (items n).

(** ** The stop chain *)

Definition parse_status (status : ynode) : outcome (string * bool) :=
  load _ <- ensure_mapping status "safety.stop_chain.status";;
  load _ <- warn_unknown_keys status ["signal"; "active"];;
  match yget "signal" status with
  | Some s =>
      if negb (is_scalar s) then
        Refuse "safety.stop_chain.status.signal is required: the provider/device/signal that reports the stop"
      else
        load signal <- as_string s;;
        if negb (is_handle signal 3) then
          Refuse ("safety.stop_chain.status.signal must be provider/device/signal, got '" +:+ signal +:+ "'")
        else
          load active <- field status "active" as_bool true;;
          Done (signal, active)
  | None =>
      Refuse "safety.stop_chain.status.signal is required: the provider/device/signal that reports the stop"
  end.

(** The position of a handle already listed. *)
Definition listed_once (devices : list string) (handle path : string) : outcome unit :=
  match list_find (λ h, h = handle) devices with
  | None => Done tt
  | Some (i, _) =>
      Refuse (path +:+ " lists " +:+ handle +:+ ", already listed at devices[" +:+ to_string (Z.of_nat i) +:+ "]")
  end.

Definition parse_expect (path handle : string) (e : ynode) (m : gmap string StopChainExpect)
    : outcome (gmap string StopChainExpect) :=
  load expect <- (if is_scalar e then as_string e else Done "");;
  if decide (expect = "power_loss") then Done (<[handle := PowerLoss]> m)
  else if decide (expect = "reports_estop") then Done (<[handle := ReportsEstop]> m)
  else Refuse (path +:+ ".expect must be power_loss or reports_estop, got '" +:+ expect +:+ "'").

(** One entry of [devices]. *)
Definition parse_chain_device (i : Z) (entry : ynode) (s : list string * gmap string StopChainExpect)
    : outcome (list string * gmap string StopChainExpect) :=
  let '(devices, expectations) := s in
  let path := indexed "safety.stop_chain.devices" i in
  if is_scalar entry then
    load handle <- as_string entry;;
    if negb (is_handle handle 2) then
      Refuse (path +:+ " must be provider/device, got '" +:+ handle +:+ "'")
    else
      load _ <- listed_once devices handle path;;
      Done (devices ++ [handle], expectations)
  else if negb (is_map entry) then
    Refuse (path +:+ " must be a provider/device handle or a mapping with handle")
  else
    load _ <- warn_unknown_keys entry ["handle"; "expect"];;
    match yget "handle" entry with
    | Some hn =>
        if negb (is_scalar hn) then Refuse (path +:+ ".handle is required")
        else
          load handle <- as_string hn;;
          if negb (is_handle handle 2) then
            Refuse (path +:+ ".handle must be provider/device, got '" +:+ handle +:+ "'")
          else
            load _ <- listed_once devices handle path;;
            load expectations <- match yget "expect" entry with
                                 | Some e => parse_expect path handle e expectations
                                 | None => Done expectations
                                 end;;
            Done (devices ++ [handle], expectations)
    | None => Refuse (path +:+ ".handle is required")
    end.

Definition parse_stop_chain (n : ynode) : outcome StopChainConfig :=
  load _ <- ensure_mapping n "safety.stop_chain";;
  load _ <- warn_unknown_keys n ["status"; "devices"];;
  load status <- match yget "status" n with
                 | Some s => load p <- parse_status s;; Done (Some p)
                 | None => Done None
                 end;;
  load de <- match yget "devices" n with
             | Some d =>
                 load _ <- ensure_sequence d "safety.stop_chain.devices";;
                 ofold_each parse_chain_device 0 (items d) ([], ∅)
             | None => Done ([], ∅)
             end;;
  Done (mkStopConfig status (fst de) (snd de)).

(** ** Sections

    Each takes the root map; a missing section is its default. *)

(** [if (root[key]) { ensure_mapping; body }]. *)
Definition section {A} (root : ynode) (key : string) (d : A) (body : ynode → outcome A) : outcome A :=
  match yget key root with
  | None => Done d
  | Some n => load _ <- ensure_mapping n key;; body n
  end.

Definition load_runtime (root : ynode) : outcome RuntimeModeConfig :=
  section root "runtime" default_runtime (λ n,
    load _ <- warn_unknown_keys n ["name"; "shutdown_timeout_ms"; "startup_timeout_ms"; "data_dir"; "mode"];;
    load name <- field n "name" as_string "";;
    load data_dir <- field n "data_dir" as_string "";;
    load shutdown <- field n "shutdown_timeout_ms" as_int 2000;;
    load startup <- field n "startup_timeout_ms" as_int 30000;;
    match yget "mode" n with
    | Some _ =>
        Refuse ("runtime.mode is no longer configurable. IDLE mode is enforced at startup. " +:+
                "Use HTTP POST /v0/mode to transition: IDLE -> MANUAL -> AUTO")
    | None => Done (mkRuntimeModeConfig name shutdown startup data_dir)
    end).

(** A scalar or a sequence of origins. *)
Definition load_origins (n : ynode) : outcome (list string) :=
  match n with
  | YSeq l => omap_each (λ _, as_string) 0 l
  | YScalar _ => load s <- as_string n;; Done [s]
  | _ => Refuse "'http.cors_allowed_origins' must be a string or sequence"
  end.

Definition load_http (host : Host) (root : ynode) : outcome HttpConfig :=
  section root "http" default_http (λ n,
    load _ <- warn_unknown_keys n ["enabled"; "bind"; "port"; "cors_allowed_origins"; "cors_allow_credentials";
                                   "thread_pool_size"; "auth_enabled"; "auth_token"; "auth_exempt_loopback";
                                   "allow_insecure_bind"; "tls_cert_path"; "tls_key_path"];;
    load enabled <- field n "enabled" as_bool true;;
    load bind <- field n "bind" as_string "127.0.0.1";;
    load port <- field n "port" as_int 8080;;
    load origins <- field n "cors_allowed_origins" load_origins [];;
    load credentials <- field n "cors_allow_credentials" as_bool false;;
    load pool <- field n "thread_pool_size" as_int 40;;
    load auth <- field n "auth_enabled" as_bool false;;
    load token <- field n "auth_token" as_string "";;
    load exempt <- field n "auth_exempt_loopback" as_bool false;;
    load insecure <- field n "allow_insecure_bind" as_bool false;;
    load cert <- field n "tls_cert_path" as_string "";;
    load key <- field n "tls_key_path" as_string "";;
    let token :=
      if auth && is_empty token then default token (getenv host "ANOLIS_API_TOKEN") else token in
    Done (mkHttpConfig enabled bind port origins credentials pool auth token exempt insecure cert key)).

Definition load_restart_policy (path : string) (n : ynode) : outcome RestartPolicyConfig :=
  load _ <- ensure_mapping n path;;
  load _ <- warn_unknown_keys n ["enabled"; "max_attempts"; "backoff_ms"; "timeout_ms"; "success_reset_ms"];;
  load enabled <- field n "enabled" as_bool false;;
  load attempts <- field n "max_attempts" as_int 3;;
  load backoff <- field n "backoff_ms" (λ b, load _ <- ensure_sequence b (path +:+ ".backoff_ms");;
                                             omap_each (λ _, as_int) 0 (items b)) [100; 1000; 5000];;
  load timeout <- field n "timeout_ms" as_int 30000;;
  load reset <- field n "success_reset_ms" as_int 1000;;
  Done (mkPolicy enabled attempts backoff timeout reset).

Definition load_provider (i : Z) (n : ynode) : outcome ProviderConfig :=
  let path := indexed "providers" i in
  if negb (is_map n) then Refuse ("'" +:+ path +:+ "' must be a map")
  else
    load _ <- warn_unknown_keys n ["id"; "command"; "args"; "timeout_ms"; "hello_timeout_ms"; "ready_timeout_ms";
                                   "restart_policy"];;
    load id <- field n "id" as_string "";;
    load command <- field n "command" as_string "";;
    load args <- field n "args" (λ a, load _ <- ensure_sequence a (path +:+ ".args");;
                                      omap_each (λ _, as_string) 0 (items a)) [];;
    load timeout <- field n "timeout_ms" as_int 5000;;
    load hello <- field n "hello_timeout_ms" as_int 5000;;
    load ready <- field n "ready_timeout_ms" as_int 60000;;
    load policy <- field n "restart_policy" (load_restart_policy (path +:+ ".restart_policy"))
                     default_restart_policy;;
    Done (mkProviderConfig id command args timeout hello ready policy).

Definition load_providers (root : ynode) : outcome (list ProviderConfig) :=
  match yget "providers" root with
  | None => Done []
  | Some n => load _ <- ensure_sequence n "providers";; omap_each load_provider 0 (items n)
  end.

Definition load_polling (root : ynode) : outcome Z :=
  section root "polling" default_polling (λ n, field n "interval_ms" as_int default_polling).

Definition load_staleness (n : ynode) : outcome HealthStalenessConfig :=
  load _ <- ensure_mapping n "health.staleness";;
  load _ <- warn_unknown_keys n ["warn_after_ms"; "stale_after_ms"];;
  load warn <- field n "warn_after_ms" as_int 0;;
  load stale <- field n "stale_after_ms" as_int 0;;
  Done (mkStaleness warn stale).

(** The test on [device_handle]: one slash, with text on both sides. *)
Definition is_excluded_handle (handle : string) : bool :=
  match split_first slash handle with
  | None => false
  | Some (p, d) => negb (is_empty p) && negb (is_empty d) && negb (has_char slash d)
  end.

Definition load_excluded (i : Z) (entry : ynode) (m : gmap string (gset string))
    : outcome (gmap string (gset string)) :=
  let path := indexed "health.excluded_signals" i in
  load _ <- ensure_mapping entry path;;
  load _ <- warn_unknown_keys entry ["device_handle"; "signals"];;
  match yget "device_handle" entry with
  | Some hn =>
      if negb (is_scalar hn) then Refuse (path +:+ ".device_handle is required")
      else
        load handle <- as_string hn;;
        if negb (is_excluded_handle handle) then
          Refuse (path +:+ ".device_handle must be provider_id/device_id, got '" +:+ handle +:+ "'")
        else if bool_decide (is_Some (m !! handle)) then
          Refuse (path +:+ ".device_handle '" +:+ handle +:+ "' is listed more than once")
        else
          match yget "signals" entry with
          | None => Refuse (path +:+ ".signals is required")
          | Some sn =>
              load _ <- ensure_sequence sn (path +:+ ".signals");;
              if bool_decide (length (items sn) = 0%nat) then
                Refuse (path +:+ ".signals must list at least one signal")
              else
                load signals <- ofold_each (λ _ s acc,
                    load signal_id <- as_string s;;
                    if is_empty signal_id then
                      Refuse (path +:+ ".signals must not contain an empty signal id")
                    else Done ({[signal_id]} ∪ acc)) 0 (items sn) ∅;;
                Done (<[handle := signals]> m)
          end
  | None => Refuse (path +:+ ".device_handle is required")
  end.

Definition load_health (root : ynode) : outcome HealthConfig :=
  section root "health" default_health (λ n,
    load _ <- warn_unknown_keys n ["staleness"; "excluded_signals"];;
    load staleness <- field n "staleness" load_staleness (mkStaleness 0 0);;
    load excluded <- field n "excluded_signals" (λ e,
        load _ <- ensure_sequence e "health.excluded_signals";;
        ofold_each load_excluded 0 (items e) ∅) ∅;;
    Done (mkHealthConfig staleness excluded)).

(** The settings both shapes have, flat keys first, then the nested block. *)
Record InfluxSettings := mkInflux {
  in_url : string; in_org : string; in_bucket : string; in_token : string;
  in_batch_size : Z; in_flush_interval_ms : Z;
}.

Definition load_influx (url org bucket token : string) (n : ynode) (s : InfluxSettings) : outcome InfluxSettings :=
  load u <- field n url as_string (in_url s);;
  load o <- field n org as_string (in_org s);;
  load b <- field n bucket as_string (in_bucket s);;
  load t <- field n token as_string (in_token s);;
  load batch <- field n "batch_size" as_size (in_batch_size s);;
  load flush <- field n "flush_interval_ms" as_int (in_flush_interval_ms s);;
  Done (mkInflux u o b t batch flush).

Definition default_influx : InfluxSettings :=
  mkInflux (te_influx_url default_telemetry) (te_influx_org default_telemetry)
    (te_influx_bucket default_telemetry) (te_influx_token default_telemetry)
    (te_batch_size default_telemetry) (te_flush_interval_ms default_telemetry).

(** The nested block: the shared settings, then the two sizes only it has. *)
Definition load_influx_block (n : ynode) (flat : InfluxSettings) : outcome (InfluxSettings * Z * Z) :=
  load _ <- ensure_mapping n "telemetry.influxdb";;
  load _ <- warn_unknown_keys n ["url"; "org"; "bucket"; "token"; "batch_size"; "flush_interval_ms";
                                 "max_retry_buffer_size"; "queue_size"];;
  load s <- load_influx "url" "org" "bucket" "token" n flat;;
  load retry <- field n "max_retry_buffer_size" as_size 1000;;
  load queue <- field n "queue_size" as_size 10000;;
  Done (s, retry, queue).

Definition load_telemetry (host : Host) (root : ynode) : outcome TelemetryConfig :=
  section root "telemetry" default_telemetry (λ n,
    load _ <- warn_unknown_keys n ["enabled"; "influxdb"; "influx_url"; "influx_org"; "influx_bucket";
                                   "influx_token"; "batch_size"; "flush_interval_ms"; "health_interval_ms"];;
    load enabled <- field n "enabled" as_bool false;;
    load interval <- field n "health_interval_ms" (λ h,
        load i <- as_int h;;
        if i <? 0 then Refuse "telemetry.health_interval_ms must be >= 0" else Done i) 15000;;
    load flat <- load_influx "influx_url" "influx_org" "influx_bucket" "influx_token" n default_influx;;
    load nested <- field n "influxdb" (λ b, load_influx_block b flat) (flat, 1000, 10000);;
    let '(s, retry, queue) := nested in
    let token :=
      if enabled && is_empty (in_token s) then default (in_token s) (getenv host "INFLUXDB_TOKEN")
      else in_token s in
    Done (mkTelemetryConfig enabled (in_url s) (in_org s) (in_bucket s) token (in_batch_size s)
            (in_flush_interval_ms s) queue retry interval)).

Definition load_logging (root : ynode) : outcome string :=
  section root "logging" default_logging (λ n, field n "level" as_string default_logging).

Definition load_on_startup (n : ynode) : outcome StartupOutputs :=
  load s <- as_string n;;
  if decide (s = "safe_state") then Done StartSafeState
  else if decide (s = "leave") then Done StartLeave
  else Refuse ("safety.on_startup must be safe_state or leave, got '" +:+ s +:+ "'").

Definition load_safe_state (n : ynode) : outcome SafeStateConfig :=
  load _ <- ensure_mapping n "safety.safe_state";;
  load _ <- warn_unknown_keys n ["hooks"; "setpoints"; "zero_is_safe"];;
  load hooks <- field n "hooks" (λ h, parse_call_list h "safety.safe_state.hooks") [];;
  load setpoints <- field n "setpoints" (λ h, parse_call_list h "safety.safe_state.setpoints") [];;
  load zero <- field n "zero_is_safe" as_bool false;;
  Done (mkSafeStateConfig hooks setpoints zero).

Definition load_safety (root : ynode) : outcome SafetyConfig :=
  section root "safety" default_safety (λ n,
    load _ <- warn_unknown_keys n ["safe_state"; "on_startup"; "stop_chain"];;
    load on_startup <- field n "on_startup" load_on_startup StartSafeState;;
    load safe_state <- field n "safe_state" load_safe_state (mkSafeStateConfig [] [] false);;
    load chain <- field n "stop_chain" parse_stop_chain default_stop_chain;;
    Done (mkSafetyConfig safe_state on_startup chain)).

(** ** Automation *)

Definition zero_of (t : ParameterType) : ParameterValue :=
  match t with
  | DOUBLE => PDouble double_zero | INT64 => PInt64 0 | BOOL => PBool false | STRING => PString ""
  end.

(** [default], converted by the declared type; an exception is an error of its own. *)
Definition load_default (name : string) (t : ParameterType) (n : ynode) : outcome ParameterValue :=
  let conv :=
    match t with
    | DOUBLE => load d <- as_double n;; Done (PDouble d)
    | INT64 => load z <- as_int64 n;; Done (PInt64 z)
    | BOOL => load b <- as_bool n;; Done (PBool b)
    | STRING => load s <- as_string n;; Done (PString s)
    end in
  match conv with
  | Throw w => Refuse ("Parameter '" +:+ name +:+ "' default value parse failed: " +:+ w)
  | r => r
  end.

Definition load_bound (n : ynode) : outcome (option double) := load d <- as_double n;; Done (Some d).

Definition load_parameter (i : Z) (n : ynode) : outcome ParameterConfig :=
  let path := indexed "automation.parameters" i in
  if negb (is_map n) then Refuse ("'" +:+ path +:+ "' must be a map")
  else
    load _ <- warn_unknown_keys n ["name"; "type"; "default"; "min"; "max"; "allowed_values"];;
    load name <- field n "name" as_string "";;
    match yget "type" n with
    | None => Refuse ("Parameter '" +:+ name +:+ "' missing type")
    | Some tn =>
        load type_str <- as_string tn;;
        match parameter_type_from_string type_str with
        | None => Refuse ("Parameter '" +:+ name +:+ "' has invalid type: " +:+ type_str)
        | Some t =>
            load value <- field n "default" (load_default name t) (zero_of t);;
            load lo <- field n "min" load_bound None;;
            load hi <- field n "max" load_bound None;;
            load allowed <- field n "allowed_values" (λ a,
                load _ <- ensure_sequence a (path +:+ ".allowed_values");;
                omap_each (λ _, as_string) 0 (items a)) [];;
            Done (mkParameterConfig name t value lo hi allowed)
        end
    end.

Definition parse_hook (group_path : string) (i : Z) (n : ynode) : outcome ModeTransitionHookConfig :=
  let path := indexed group_path i in
  if negb (is_map n) then Refuse ("'" +:+ path +:+ "' must be a map")
  else
    load _ <- warn_unknown_keys n ["from"; "to"; "fail_on_error"; "calls"];;
    load from <- field n "from" as_string "";;
    load to <- field n "to" as_string "";;
    load fail_on_error <- field n "fail_on_error" as_bool true;;
    match yget "calls" n with
    | None => Refuse ("'" +:+ path +:+ ".calls' is required")
    | Some c =>
        load calls <- parse_call_list c (path +:+ ".calls");;
        Done (mkHook from to fail_on_error calls)
    end.

Definition parse_hook_group (n : ynode) (group_path : string) : outcome (list ModeTransitionHookConfig) :=
  load _ <- ensure_sequence n group_path;;
  omap_each (parse_hook group_path) 0 (items n).

Definition load_hooks (n : ynode)
    : outcome (list ModeTransitionHookConfig * list ModeTransitionHookConfig) :=
  load _ <- ensure_mapping n "automation.mode_transition_hooks";;
  load _ <- warn_unknown_keys n ["before_transition"; "after_transition"];;
  load before <- field n "before_transition"
    (λ g, parse_hook_group g "automation.mode_transition_hooks.before_transition") [];;
  load after <- field n "after_transition"
    (λ g, parse_hook_group g "automation.mode_transition_hooks.after_transition") [];;
  Done (before, after).

Definition load_policy (n : ynode) : outcome GatingPolicy :=
  load s <- as_string n;;
  match parse_gating_policy s with
  | Some p => Done p
  | None => Refuse "Invalid manual_gating_policy: must be BLOCK or OVERRIDE"
  end.

Definition load_on_terminal (n : ynode) : outcome OnTerminal :=
  load s <- as_string n;;
  if decide (s = "repeat") then Done REPEAT
  else if decide (s = "stop") then Done STOP
  else Refuse "Invalid automation.on_terminal: must be repeat or stop".

(** [behavior_tree], or the deprecated [behavior_tree_path]. *)
Definition load_behavior_tree (n : ynode) : outcome string :=
  match yget "behavior_tree" n with
  | Some b => as_string b
  | None => field n "behavior_tree_path" as_string ""
  end.

Definition load_automation (root : ynode) : outcome AutomationSection :=
  section root "automation" default_automation (λ n,
    load _ <- warn_unknown_keys n ["enabled"; "behavior_tree"; "behavior_tree_path"; "tick_rate_hz";
                                   "manual_gating_policy"; "on_terminal"; "max_consecutive_call_failures";
                                   "parameters"; "mode_transition_hooks"];;
    load enabled <- field n "enabled" as_bool false;;
    load tree <- load_behavior_tree n;;
    load tick <- field n "tick_rate_hz" as_int 10;;
    load policy <- field n "manual_gating_policy" load_policy BLOCK;;
    load terminal <- field n "on_terminal" load_on_terminal REPEAT;;
    load failures <- field n "max_consecutive_call_failures" as_int 3;;
    load parameters <- field n "parameters" (λ p,
        load _ <- ensure_sequence p "automation.parameters";;
        omap_each load_parameter 0 (items p)) [];;
    load hooks <- field n "mode_transition_hooks" load_hooks ([], []);;
    Done (mkAutomationSection enabled tree tick policy terminal failures parameters (fst hooks) (snd hooks))).

(** ** The whole file *)

(** [path.is_absolute()] and [dir / path] on POSIX. *)
Definition is_absolute (p : string) : bool := starts_with "/" p.

Fixpoint ends_with_slash (s : string) : bool :=
  match s with
  | EmptyString => false
  | String c EmptyString => Ascii.eqb c slash
  | String _ r => ends_with_slash r
  end.

Definition path_append (dir p : string) : string :=
  if is_empty dir || ends_with_slash dir then dir +:+ p else dir +:+ "/" +:+ p.

Definition resolve_data_dir (host : Host) (config_dir data_dir : string) : string :=
  let d := if is_empty data_dir then "anolis-data" else data_dir in
  lexically_normal host (if is_absolute d then d else path_append config_dir d).

Definition set_data_dir (d : string) (r : RuntimeModeConfig) : RuntimeModeConfig :=
  mkRuntimeModeConfig (rm_name r) (rm_shutdown_timeout_ms r) (rm_startup_timeout_ms r) d.

(** Everything up to [validate_config]. *)
Definition load_root (host : Host) (config_path : string) (root : ynode) : outcome RuntimeConfig :=
  if negb (is_map root) then Refuse "Config root must be a map"
  else
    let config_dir := canonical_dir host config_path in
    load _ <- warn_unknown_keys root ["runtime"; "http"; "providers"; "polling"; "telemetry"; "logging";
                                      "automation"; "safety"; "health"];;
    load runtime <- load_runtime root;;
    load http <- load_http host root;;
    load providers <- load_providers root;;
    load polling <- load_polling root;;
    load health <- load_health root;;
    load telemetry <- load_telemetry host root;;
    load logging <- load_logging root;;
    load safety <- load_safety root;;
    load automation <- load_automation root;;
    Done (mkRuntimeConfig (set_data_dir (resolve_data_dir host config_dir (rm_data_dir runtime)) runtime)
            http providers polling telemetry logging automation safety health config_dir).

Definition load_config (host : Host) (config_path : string) (file : LoadedFile) : result RuntimeConfig :=
  match file with
  | BadFile => Err ("Cannot open config file: " +:+ config_path)
  | ParserException what => Err ("YAML parse error: " +:+ what)
  | Loaded root =>
      match load_root host config_path root with
      | Throw what => Err ("Config load error: " +:+ what)
      | Refuse e => Err e
      | Done c => try _ <- validate_config c;; Ok c
      end
  end.
End Loader.

(** ** Handles *)

#[local] Arguments join : simpl never.

Lemma join_one (p : string) : join "/" [p] = p.
Proof. done. Qed.

Definition good_part (p : string) : Prop := p ≠ "" ∧ has_char slash p = false.

Lemma join_cons2 (p q : string) (ps : list string) : join "/" (p :: q :: ps) = p +:+ String slash (join "/" (q :: ps)).
Proof. done. Qed.

(** Inside a part whose text so far has been consumed, and at the start of one. *)
Lemma is_handle_from_spec s c n :
  (is_handle_from s false c n = true ↔
   ∃ p ps, has_char slash p = false ∧ Forall good_part ps ∧ s = join "/" (p :: ps) ∧
           c + Z.of_nat (length ps) = n) ∧
  (is_handle_from s true c n = true ↔
   ∃ p ps, good_part p ∧ Forall good_part ps ∧ s = join "/" (p :: ps) ∧ c + Z.of_nat (length ps) = n).
Proof.
  revert c. induction s as [|a s IH]; intros c; simpl.
  - split.
    + rewrite bool_decide_eq_true. split.
      * intros ->. exists "", []. split_and!; try done. simpl. lia.
      * intros (p & ps & _ & Hf & Hs & Hc). destruct ps; [simpl in Hc; lia|].
        rewrite join_cons2 in Hs. by destruct p.
    + split; [done|]. intros (p & ps & [Hp _] & _ & Hs & _). destruct ps; [by rewrite join_one in Hs|].
      rewrite join_cons2 in Hs. by destruct p.
  - destruct (IH c) as [IHf IHt]. destruct (IH (c + 1)) as [_ IHt1].
    destruct (Ascii.eqb_spec a slash) as [->|Hne].
    + split; [|split; [done|]].
      * rewrite IHt1. split.
        -- intros (p & ps & Hp & Hf & -> & Hc). exists "", (p :: ps).
           split_and!; [done|by constructor|done|simpl in *; lia].
        -- intros (p & ps & Hp & Hf & Hs & Hc). destruct ps as [|q ps]; [rewrite join_one in Hs; subst; by simpl in Hp|].
           rewrite join_cons2 in Hs. destruct p as [|b p].
           ++ injection Hs as ->. apply Forall_cons in Hf as [? ?]. exists q, ps.
              split_and!; [done|done|done|simpl in *; lia].
           ++ injection Hs as <- _. by simpl in Hp.
      * intros (p & ps & [Hp1 Hp2] & _ & Hs & _). destruct p as [|b p]; [done|].
        assert (b = slash) as ->; [|by simpl in Hp2].
        destruct ps; [rewrite join_one in Hs; by injection Hs|]. rewrite join_cons2 in Hs. by injection Hs.
    + assert (Ascii.eqb a slash = false) as Ha by (by apply Ascii.eqb_neq).
      assert (is_handle_from s false c n = true ↔
        ∃ p ps, has_char slash (String a p) = false ∧ Forall good_part ps ∧
          String a s = join "/" (String a p :: ps) ∧ c + Z.of_nat (length ps) = n) as Hcons.
      { rewrite IHf. split; intros (p & ps & Hp & Hf & Hs & Hc); exists p, ps; (split_and!; [|done| |done]).
        - simpl. by rewrite Ha.
        - destruct ps; [rewrite !join_one in *; by f_equal|]. rewrite join_cons2 in *. by rewrite Hs, string_app_cons.
        - simpl in Hp. by rewrite Ha in Hp.
        - destruct ps; [rewrite !join_one in *; by injection Hs|]. rewrite join_cons2, string_app_cons in Hs. injection Hs as Hs. by rewrite join_cons2. }
      split; rewrite Hcons; split; intros (p & ps & Hp & Hf & Hs & Hc).
      * by exists (String a p), ps.
      * destruct p as [|b p]; [|assert (b = a) as ->; [|by exists p, ps]].
        -- destruct ps; [by rewrite join_one in Hs|]. rewrite join_cons2 in Hs. injection Hs as Hs _. by subst.
        -- destruct ps; [rewrite join_one in Hs; by injection Hs|]. rewrite join_cons2 in Hs. by injection Hs.
      * exists (String a p), ps. split; [by split|done].
      * destruct Hp as [Hp1 Hp2]. destruct p as [|b p]; [done|]. assert (b = a) as ->; [|by exists p, ps].
        destruct ps; [rewrite join_one in Hs; by injection Hs|]. rewrite join_cons2 in Hs. by injection Hs.
Qed.

(** The handle test accepts exactly the texts that are the given number of
    non-empty, slash-free parts joined by slashes. *)
Lemma is_handle_correct s n :
  is_handle s n = true ↔
  ∃ ps, ps ≠ [] ∧ Forall good_part ps ∧ s = join "/" ps ∧ Z.of_nat (length ps) = n.
Proof.
  unfold is_handle. rewrite (proj2 (is_handle_from_spec s 1 n)). split.
  - intros (p & ps & Hp & Hf & -> & Hc). exists (p :: ps). split_and!; [done|by constructor|done|simpl; lia].
  - intros (ps & Hne & Hf & -> & Hc). destruct ps as [|p ps]; [done|].
    apply Forall_cons in Hf as [Hp Hf]. exists p, ps. simpl in Hc. split_and!; [done..|lia].
Qed.

(** A device handle, in the form the rest of the runtime splits. *)
Lemma is_handle_2 s :
  is_handle s 2 = true ↔ ∃ p d, s = p +:+ String slash d ∧ good_part p ∧ good_part d.
Proof.
  rewrite is_handle_correct. split.
  - intros (ps & Hne & Hf & -> & Hl). destruct ps as [|p [|d [|]]]; try (simpl in Hl; lia).
    rewrite !Forall_cons in Hf. exists p, d. naive_solver.
  - intros (p & d & -> & Hp & Hd). exists [p; d]. split_and!; [done|by rewrite !Forall_cons|done|done].
Qed.

(** The two handle tests of the loader agree. *)
Lemma excluded_handle_is_handle s : is_excluded_handle s = is_handle s 2.
Proof.
  apply eq_true_iff_eq. rewrite is_handle_2. unfold is_excluded_handle. split.
  - destruct (split_first slash s) as [[p d]|] eqn:E; [|done]. apply split_first_sound in E as [-> Hp].
    intros Hx. bool_facts. exists p, d. unfold good_part. by rewrite <- !is_empty_false.
  - intros (p & d & -> & [Hp1 Hp2] & [Hd1 Hd2]). rewrite split_first_app by done.
    rewrite Hd2, (proj2 (is_empty_false _) Hp1), (proj2 (is_empty_false _) Hd1). done.
Qed.

(** ** What loading establishes *)

Lemma obind_Done {A B} (m : outcome A) (f : A → outcome B) b :
  obind m f = Done b ↔ ∃ a, m = Done a ∧ f a = Done b.
Proof. destruct m; simpl; naive_solver. Qed.

(** Take a successful load apart into its successful steps. *)
Ltac load_steps :=
  repeat match goal with
  | H : obind _ _ = Done _ |- _ => apply obind_Done in H as (? & ? & H)
  | H : (if negb ?b then Refuse _ else _) = Done _ |- _ => destruct b eqn:?; simpl in H; [|done]
  | H : Refuse _ = Done _ |- _ => done
  | H : Throw _ = Done _ |- _ => done
  end; simplify_eq.

Lemma ofold_each_inv {A S} (P : S → Prop) (f : Z → A → S → outcome S) i l s s' :
  (∀ j x s s', P s → f j x s = Done s' → P s') → P s → ofold_each f i l s = Done s' → P s'.
Proof.
  intros Hf. revert i s. induction l as [|x l IH]; simpl; intros i s Hs H; [by simplify_eq|]. load_steps. eauto.
Qed.

(** A chain the monitor can observe: distinct device handles, expectations only
    for devices in scope, and a signal of the form provider/device/signal. *)
Record chain_ok (c : StopChainConfig) : Prop := {
  ck_distinct : NoDup (sc_devices c);
  ck_handles : Forall (λ h, is_handle h 2 = true) (sc_devices c);
  ck_scope : ∀ h, is_Some (sc_expectations c !! h) → h ∈ sc_devices c;
  ck_signal : ∀ signal active, sc_status c = Some (signal, active) → is_handle signal 3 = true;
}.

Section LoadFacts.
Context `{YamlConvert} `{StdStod}.

Definition devices_ok (s : list string * gmap string StopChainExpect) : Prop :=
  NoDup s.1 ∧ Forall (λ h, is_handle h 2 = true) s.1 ∧ ∀ h, is_Some (s.2 !! h) → h ∈ s.1.

Lemma no_expectations h : ¬ is_Some ((∅ : gmap string StopChainExpect) !! h).
Proof. apply lookup_empty_is_Some. Qed.

Lemma listed_once_Done devices h path : listed_once devices h path = Done tt → h ∉ devices.
Proof.
  unfold listed_once. destruct (list_find _ _) as [[]|] eqn:E; [done|]. intros _ Hin.
  apply list_find_None in E. rewrite Forall_forall in E. by apply (E h).
Qed.

Lemma devices_ok_add devices m h :
  devices_ok (devices, m) → is_handle h 2 = true → h ∉ devices → devices_ok (devices ++ [h], m).
Proof.
  intros (Hn & Hf & Hs) Hh Hnin. split_and!; simpl in *.
  - apply NoDup_app. split_and!; [done|set_solver|apply NoDup_singleton].
  - apply Forall_app. split; [done|by constructor].
  - intros x Hx. apply elem_of_app. left. by apply Hs.
Qed.

Lemma parse_expect_Done path h e m m' :
  parse_expect path h e m = Done m' → ∃ x, m' = <[h := x]> m.
Proof. unfold parse_expect. intros Hp. load_steps. repeat case_decide; simplify_eq; eauto. Qed.

Lemma parse_chain_device_ok i entry s s' :
  devices_ok s → parse_chain_device i entry s = Done s' → devices_ok s'.
Proof.
  destruct s as [devices m]. intros Hok Hp. unfold parse_chain_device in Hp.
  destruct (is_scalar entry).
  - load_steps. destruct x0. apply devices_ok_add; [done|done|by eapply listed_once_Done].
  - load_steps. destruct (yget "handle" entry) as [hn|]; [|done]. load_steps.
    match goal with E : listed_once _ _ _ = Done ?u |- _ => destruct u; apply listed_once_Done in E end.
    destruct (yget "expect" entry) as [e|]; simplify_eq.
    + match goal with E : parse_expect _ _ _ _ = _ |- _ => apply parse_expect_Done in E as [ex ->] end.
      assert (devices_ok (devices ++ [x0], m)) as (Hn & Hf & Hs) by (by apply devices_ok_add).
      split_and!; [done|done|]. simpl in *. intros x'. destruct (decide (x0 = x')) as [->|Hne].
      * intros _. set_solver.
      * rewrite lookup_insert_ne by done. apply Hs.
    + by apply devices_ok_add.
Qed.

Lemma parse_status_Done n signal active :
  parse_status n = Done (signal, active) → is_handle signal 3 = true.
Proof.
  unfold parse_status. intros Hp. load_steps. destruct (yget "signal" n); [|done]. by load_steps.
Qed.

Lemma parse_stop_chain_ok n c : parse_stop_chain n = Done c → chain_ok c.
Proof.
  unfold parse_stop_chain. intros Hp. load_steps.
  match goal with E : match yget "devices" n with _ => _ end = Done ?de |- _ =>
    assert (devices_ok de) as (Hn & Hf & Hs) end.
  { destruct (yget "devices" n).
    - load_steps. eapply (ofold_each_inv devices_ok); [|split_and!|done].
      + intros ????. apply parse_chain_device_ok.
      + constructor.
      + constructor.
      + intros h Hh. destruct (no_expectations h Hh).
    - simplify_eq. split_and!; [constructor|constructor|]. intros h Hh. destruct (no_expectations h Hh). }
  constructor; simpl; try done.
  destruct (yget "status" n) as [s|]; simplify_eq; [|done]. load_steps.
  intros signal active [= ->]. by eapply parse_status_Done.
Qed.

Lemma load_root_chain_ok host path root c :
  load_root host path root = Done c → chain_ok (sf_stop_chain (c_safety c)).
Proof.
  intros E. unfold load_root in E. load_steps. simpl.
  match goal with E : load_safety root = _ |- _ => unfold load_safety, section in E; rename E into Es end.
  destruct (yget "safety" root) as [n|]; [|simplify_eq; simpl].
  - load_steps. simpl.
    match goal with E : field n "stop_chain" _ _ = _ |- _ => unfold field in E; rename E into Ef end.
    destruct (yget "stop_chain" n); [by eapply parse_stop_chain_ok|]. simplify_eq.
    constructor; simpl; [constructor|constructor| |done]. intros h Hh. destruct (no_expectations h Hh).
  - constructor; simpl; [constructor|constructor| |done]. intros h Hh. destruct (no_expectations h Hh).
Qed.

Lemma loaded_chain_ok host path file c :
  load_config host path file = Ok c → chain_ok (sf_stop_chain (c_safety c)).
Proof.
  destruct file as [| |root]; simpl; [done|done|].
  destruct (load_root host path root) as [c0|e|w] eqn:E; [|done|done].
  intros Hc. apply rbind_Ok in Hc as ([] & _ & [= <-]). by eapply load_root_chain_ok.
Qed.

(** A configuration that loads is valid in the sense of [valid_config], and
    its stop chain can be observed as configured: the signal and the devices
    are well-formed handles, none is listed twice, and expectations are only on
    devices in scope.  Anything else is an error, never a default. *)
Theorem loaded_config_valid host path file c :
  load_config host path file = Ok c → valid_config c ∧ chain_ok (sf_stop_chain (c_safety c)).
Proof.
  intros Hl. split; [|by eapply loaded_chain_ok]. destruct file as [| |root]; simpl in Hl; [done|done|].
  destruct (load_root host path root) as [c0|e|w] eqn:E; [|done|done].
  apply rbind_Ok in Hl as ([] & Hv & [= <-]). by apply validate_config_Ok.
Qed.
End LoadFacts.

(** ** Integer literals *)

(** The text of an integer denotes it. *)
Lemma int_literal_to_string z : int_literal (to_string z) = Some z.
Proof.
  assert (∀ z, 0 ≤ z → ∃ c d, to_string z = String c d ∧ is_digit c = true ∧
            span_digits (to_string z) = (to_string z, "") ∧ digits_value 0 (to_string z) = z) as Hpos.
  { intros y Hy. destruct (to_string_digits y Hy) as (d & -> & Hne & Ha & Hv).
    destruct d as [|c d]; [done|]. exists c, d. simpl in Ha. apply andb_true_iff in Ha as [Hc Ha'].
    split_and!; [done|done| |done]. apply span_digits_all. simpl. by rewrite Hc. }
  unfold int_literal. destruct (Z.neg_nonneg_cases z) as [Hneg|Hnn].
  - destruct z as [|p|p]; [lia|lia|]. rewrite to_string_neg.
    change (strip_sign (String "-" (to_string (Z.pos p)))) with (true, to_string (Z.pos p)). cbv beta iota.
    destruct (Hpos (Z.pos p)) as (c & d & Hs & Hc & Hsp & Hv); [lia|]. rewrite Hsp, Hv. rewrite Hs. done.
  - destruct (Hpos z Hnn) as (c & d & Hs & Hc & Hsp & Hv). rewrite Hs in *. rewrite strip_sign_digit by done.
    rewrite Hsp. by rewrite Hv.
Qed.

(** An argument written as an integer arrives as that integer: the loader
    reads the decimal text of every 64-bit integer back exactly, and refuses an
    integer out of that range rather than reading it as something else. *)
Theorem integer_argument_roundtrip `{YamlConvert} `{StdStod} z path :
  parse_scalar_parameter_value (YScalar (to_string z)) path =
  if (int64_min <=? z) && (z <=? int64_max) then Done (PInt64 z)
  else Refuse ("'" +:+ path +:+ "' integer value out of range").
Proof.
  unfold parse_scalar_parameter_value. simpl is_scalar. cbv iota. rewrite as_string_scalar. simpl obind.
  assert (to_string z ≠ "true" ∧ to_string z ≠ "false") as [Ht Hf].
  { pose proof (int_literal_to_string z) as Hl. split; intros He; by rewrite He in Hl. }
  rewrite !bool_decide_eq_false_2 by done. simpl orb. cbv iota. by rewrite int_literal_to_string.
Qed.

(** ** Omitted sections *)

Section Defaults.
Context `{YamlConvert} `{StdStod}.

Lemma section_missing {A} root key (d : A) body a :
  section root key d body = Done a → yget key root = None → a = d.
Proof. unfold section. intros Hs Hn. rewrite Hn in Hs. by simplify_eq. Qed.

Lemma load_runtime_default root a : load_runtime root = Done a → yget "runtime" root = None → a = default_runtime.
Proof. apply section_missing. Qed.
Lemma load_http_default host root a : load_http host root = Done a → yget "http" root = None → a = default_http.
Proof. apply section_missing. Qed.
Lemma load_polling_default root a : load_polling root = Done a → yget "polling" root = None → a = default_polling.
Proof. apply section_missing. Qed.
Lemma load_telemetry_default host root a : load_telemetry host root = Done a → yget "telemetry" root = None → a = default_telemetry.
Proof. apply section_missing. Qed.
Lemma load_logging_default root a : load_logging root = Done a → yget "logging" root = None → a = default_logging.
Proof. apply section_missing. Qed.
Lemma load_automation_default root a : load_automation root = Done a → yget "automation" root = None → a = default_automation.
Proof. apply section_missing. Qed.
Lemma load_safety_default root a : load_safety root = Done a → yget "safety" root = None → a = default_safety.
Proof. apply section_missing. Qed.
Lemma load_health_default root a : load_health root = Done a → yget "health" root = None → a = default_health.
Proof. apply section_missing. Qed.

Lemma load_providers_default root : yget "providers" root = None → load_providers root = Done [].
Proof. unfold load_providers. by intros ->. Qed.

(** A section the file leaves out has its documented default, whatever the
    rest of the file says; a loaded configuration without a data directory uses
    anolis-data beside the file. *)
Theorem omitted_sections_default host path root c :
  load_config host path (Loaded root) = Ok c →
  (yget "http" root = None → c_http c = default_http) ∧
  (yget "polling" root = None → c_polling_interval_ms c = 500) ∧
  (yget "telemetry" root = None → c_telemetry c = default_telemetry) ∧
  (yget "logging" root = None → c_logging_level c = "info") ∧
  (yget "automation" root = None → c_automation c = default_automation) ∧
  (yget "safety" root = None → c_safety c = default_safety) ∧
  (yget "health" root = None → c_health c = default_health) ∧
  (yget "runtime" root = None →
     c_runtime c = set_data_dir (lexically_normal host (path_append (canonical_dir host path) "anolis-data"))
                     default_runtime) ∧
  is_Some (yget "providers" root).
Proof.
  simpl. destruct (load_root host path root) as [c0|e|w] eqn:E; [|done|done].
  intros Hc. apply rbind_Ok in Hc as ([] & Hv & [= <-]). apply validate_config_Ok in Hv.
  unfold load_root in E. load_steps.
  simpl. split_and!; try solve [intros Hn; eauto using load_http_default, load_polling_default, load_telemetry_default, load_logging_default,
      load_automation_default, load_safety_default, load_health_default].
  - intros Hn. match goal with Hr : load_runtime _ = _ |- _ => by rewrite (load_runtime_default _ _ Hr Hn) end.
  - destruct (yget "providers" root) eqn:Hp; [done|].
    match goal with Hl : load_providers _ = _ |- _ => rewrite load_providers_default in Hl by done end.
    simplify_eq. by destruct (vc_some_provider _ Hv).
Qed.
End Defaults.

(** ** The loaded chain and its monitor *)

(** The monitor built from a loaded stop chain watches what the file names:
    its device handle is a well-formed provider/device handle and its signal id
    a plain name, and together they are the configured text. *)
Theorem loaded_chain_is_watched `{YamlConvert} `{StdStod} host path file c signal active stale_after :
  load_config host path file = Ok c →
  sc_status (sf_stop_chain (c_safety c)) = Some (signal, active) →
  let m := new_monitor (sf_stop_chain (c_safety c)) stale_after in
  is_handle (sm_device_handle m) 2 = true ∧ good_part (sm_signal_id m) ∧
  signal = sm_device_handle m +:+ "/" +:+ sm_signal_id m.
Proof.
  intros Hl Hs m.
  assert (chain_ok (sf_stop_chain (c_safety c))) as Hok by (by eapply loaded_chain_ok).
  pose proof (ck_signal _ Hok _ _ Hs) as Hh. apply is_handle_correct in Hh as (ps & _ & Hf & -> & Hlen).
  destruct ps as [|p [|d [|sg [|]]]]; try (simpl in Hlen; lia). rewrite !Forall_cons in Hf.
  destruct Hf as (Hp & Hd & [Hsg1 Hsg2] & _).
  unfold m, new_monitor. rewrite Hs. rewrite !join_cons2, join_one.
  replace (p +:+ String slash (d +:+ String slash sg)) with ((p +:+ String slash d) +:+ String slash sg)
    by (by rewrite string_app_assoc).
  rewrite split_last_app by done. simpl. split_and!; [|done|done].
  apply is_handle_2. by exists p, d.
Qed.

(** *** A file *)

Section Example.
Definition scalar_as {A} (conv : string → option A) (n : ynode) : outcome A :=
  match n with
  | YScalar s => match conv s with Some a => Done a | None => Throw "bad conversion" end
  | _ => Throw "bad conversion"
  end.

Definition int_within (lo hi : Z) (s : string) : option Z :=
  match int_literal s with
  | Some z => if (lo <=? z) && (z <=? hi) then Some z else None
  | None => None
  end.

#[local] Instance plain_yaml : YamlConvert := {
  as_string := scalar_as Some;
  as_bool := scalar_as (λ s, if decide (s = "true") then Some true else if decide (s = "false") then Some false else None);
  as_int := scalar_as (int_within (- 2 ^ 31) (2 ^ 31 - 1));
  as_int64 := scalar_as (int_within int64_min int64_max);
  as_uint32 := scalar_as (int_within 0 (2 ^ 32 - 1));
  as_size := scalar_as (int_within 0 uint64_max);
  as_double := λ _, Throw "bad conversion";
  as_string_scalar := λ s, eq_refl;
}.
#[local] Instance no_stod : StdStod := λ _, None.

Definition sc (s : string) : ynode := YScalar s.
Definition mp (l : list (string * ynode)) : ynode := YMap ((λ e, (YScalar e.1, e.2)) <$> l).

Definition sample_root : ynode := mp [
  ("providers", YSeq [mp [("id", sc "sim0"); ("command", sc "/opt/sim"); ("timeout_ms", sc "1500")]]);
  ("safety", mp [
     ("safe_state", mp [("hooks", YSeq [mp [("device_handle", sc "sim0/pump"); ("function_name", sc "stop");
                                            ("args", mp [("ramp", sc "-12"); ("mode", sc "fast")])]])]);
     ("stop_chain", mp [
        ("status", mp [("signal", sc "sim0/estop/active"); ("active", sc "false")]);
        ("devices", YSeq [sc "sim0/pump"; mp [("handle", sc "sim0/heater"); ("expect", sc "power_loss")]])])]);
  ("telemetry", mp [("influx_url", sc "http://old"); ("influxdb", mp [("url", sc "http://new")])])].

Definition sample_host : Host := mkHost (λ _, None) (λ _, "/etc/anolis") (λ p, p).

Definition sample_config : RuntimeConfig :=
  match load_config sample_host "/etc/anolis/runtime.yaml" (Loaded sample_root) with
  | Ok c => c
  | Err _ => default_config
  end.

(** The nested telemetry block overrides the flat keys, and arguments are typed. *)
Example sample_loaded :
  te_influx_url (c_telemetry sample_config) = "http://new" ∧
  rm_data_dir (c_runtime sample_config) = "/etc/anolis/anolis-data" ∧
  (ssc_hooks (sf_safe_state (c_safety sample_config)) ≫= λ c, map_items (cc_args c)) =
    [("mode", PString "fast"); ("ramp", PInt64 (-12))].
Proof. vm_compute. done. Qed.

Example loaded_config_valid_witness :
  valid_config sample_config ∧ chain_ok (sf_stop_chain (c_safety sample_config)).
Proof.
  apply (loaded_config_valid sample_host "/etc/anolis/runtime.yaml" (Loaded sample_root)).
  vm_compute. reflexivity.
Defined.

Example loaded_chain_is_watched_witness :
  is_handle "sim0/estop" 2 = true ∧ good_part "active" ∧
  "sim0/estop/active" = "sim0/estop" +:+ "/" +:+ "active".
Proof.
  apply (loaded_chain_is_watched sample_host "/etc/anolis/runtime.yaml" (Loaded sample_root) sample_config
           "sim0/estop/active" false 0); vm_compute; reflexivity.
Defined.

Example omitted_sections_default_witness :
  (yget "http" sample_root = None → c_http sample_config = default_http) ∧
  (yget "polling" sample_root = None → c_polling_interval_ms sample_config = 500) ∧
  (yget "telemetry" sample_root = None → c_telemetry sample_config = default_telemetry) ∧
  (yget "logging" sample_root = None → c_logging_level sample_config = "info") ∧
  (yget "automation" sample_root = None → c_automation sample_config = default_automation) ∧
  (yget "safety" sample_root = None → c_safety sample_config = default_safety) ∧
  (yget "health" sample_root = None → c_health sample_config = default_health) ∧
  (yget "runtime" sample_root = None →
     c_runtime sample_config =
       set_data_dir (lexically_normal sample_host
                       (path_append (canonical_dir sample_host "/etc/anolis/runtime.yaml") "anolis-data"))
         default_runtime) ∧
  is_Some (yget "providers" sample_root).
Proof.
  apply (omitted_sections_default sample_host "/etc/anolis/runtime.yaml"). vm_compute. reflexivity.
Defined.
End Example.
