(* ===== verification/Startup.v ===== *)
(** * Bringing the runtime up ([core/runtime/runtime.cpp])

    [Runtime::initialize] and its stages: starting the providers, priming the
    cache, reading the stop chain, driving the declared safe state, automation,
    and the HTTP server last, each stage under one deadline; and the checks made
    on the way: the devices a provider reports missing, and the dry run of every
    declared call.  The checks' only output is the log, so the lines they log are
    their results, as values.  Building the services' objects is building their
    states; the telemetry sink and the run journal may fail without consequence. *)

From S2P Require Import Prelude Protocol Interfaces ModeManager Registry Ownership Parameters ProviderRegistry.
From S2P Require Import EventEmitter Supervisor StateCache Health DeviceLossLatch Json LatchStore ArgCheck CallRouter.
From S2P Require Import SafeState ActuationGate StopChain RuntimeHooks Runtime Config.

(** ** Devices reported missing *)

Definition missing_reason (dh : DeviceHealth) : string :=
  if bool_decide (dh_message dh = "") then "reported unreachable by its provider" else dh_message dh.

Definition note_missing (r : DeviceRegistry) (pid : string) (absent : gmap string string) (dh : DeviceHealth)
    : gmap string string :=
  if negb (bool_decide (dh_state dh = STATE_UNREACHABLE)) ||
     bool_decide (is_Some (get_device_copy r pid (dh_device_id dh))) then absent
  else <[make_handle pid (dh_device_id dh) := missing_reason dh]> absent.

(** [devices_reported_missing], over the providers and what each answers. *)
Definition devices_reported_missing (providers : list (string * HealthView)) (r : DeviceRegistry)
    : gmap string string :=
  foldl (λ absent p, foldl (note_missing r p.1) absent (live_report p.2)) ∅ providers.

(** ** The dry run of the declared calls *)

Inductive Notice :=
| AbsentAtStartup (where_ device_handle target reason : string)
| Undispatchable (active : bool) (where_ device_handle target err : string)  (* ERROR when active, else WARN *)
| HookUncovered (function : string)
| WouldRunRung (rung : string)
| HooksNotRead          (* -> FAULT hooks, but no safety.safe_state *)
| NoSafeState           (* the e-stop would latch without driving outputs *)
| SomeFailed (failed checked : nat)
| SomeAbsent (absent checked : nat)
| AllDispatchable (checked : nat).

Record Declared := mkDeclared {
  dc_where : string;
  dc_active : bool;
  dc_call : ModeTransitionCallConfig;
}.

Definition declared_request (call : ModeTransitionCallConfig) : CallRequest :=
  mkRequest (cc_device_handle call) (cc_function_id call) (cc_function_name call) (to_provider_value <$> cc_args call)
    false false false false.

(** The hooks and the switch the gates read. *)
Definition automation_of (a : AutomationSection) : AutomationConfig :=
  mkAutomation (at_enabled a) (at_before_transition a) (at_after_transition a).

Definition any_mode (filter : string) : string := if bool_decide (filter = "") then "*" else filter.

Definition hook_group (group : string) (hooks : list ModeTransitionHookConfig) : list Declared :=
  h ← hooks;
  mkDeclared ("automation.mode_transition_hooks." +:+ group +:+ " (" +:+ any_mode (hk_from h) +:+ "->" +:+
              any_mode (hk_to h) +:+ ")") true <$> hk_calls h.

(** Every call the configuration declares, in the order they are checked. *)
Definition declared_calls (c : RuntimeConfig) (active_rung : string) : list Declared :=
  let safe := sf_safe_state (c_safety c) in
  (mkDeclared "safety.safe_state.hooks" (bool_decide (active_rung = "hooks")) <$> ssc_hooks safe) ++
  (mkDeclared "safety.safe_state.setpoints" (bool_decide (active_rung = "setpoints")) <$> ssc_setpoints safe) ++
  (if at_enabled (c_automation c) then
     hook_group "before_transition" (at_before_transition (c_automation c)) ++
     hook_group "after_transition" (at_after_transition (c_automation c))
   else []).

Section Preflight.
Context `{FloatText}.

(** [check]: nothing for a call that would be accepted. *)
Definition check_declared (r : DeviceRegistry) (absent : gmap string string) (x : Declared) : list Notice :=
  let call := dc_call x in
  match validate_call r (declared_request call) with
  | Ok _ => []
  | Err err =>
      let target := if bool_decide (cc_function_name call = "") then "#" +:+ to_string (cc_function_id call)
                    else cc_function_name call in
      match absent !! cc_device_handle call with
      | Some reason => [AbsentAtStartup (dc_where x) (cc_device_handle call) target reason]
      | None => [Undispatchable (dc_active x) (dc_where x) (cc_device_handle call) target err]
      end
  end.

Definition is_failure (n : Notice) : bool := match n with Undispatchable true _ _ _ _ => true | _ => false end.
Definition is_absence (n : Notice) : bool := match n with AbsentAtStartup _ _ _ _ => true | _ => false end.

(** The closing line, from the counters. *)
Definition summary (failed absent checked : nat) : list Notice :=
  if (0 <? failed)%nat then [SomeFailed failed checked]
  else if (0 <? absent)%nat then [SomeAbsent absent checked]
  else if (0 <? checked)%nat then [AllDispatchable checked]
  else [].

Definition preflight_declared_calls (c : RuntimeConfig) (r : DeviceRegistry)
    (providers : list (string * HealthView)) : list Notice :=
  let absent := devices_reported_missing providers r in
  let active_rung := safe_state_kind_to_string (planned_safe_state_kind r (sf_safe_state (c_safety c))) in
  let calls := declared_calls c active_rung in
  let lines := calls ≫= check_declared r absent in
  lines ++
  (if at_enabled (c_automation c) then
     HookUncovered <$> fault_hook_uncovered_functions r (automation_of (c_automation c)) else []) ++
  [WouldRunRung active_rung] ++
  (if bool_decide (active_rung = "none") then
     if at_enabled (c_automation c) && has_fault_safe_state_hook (automation_of (c_automation c))
     then [HooksNotRead] else [NoSafeState]
   else []) ++
  summary (length (filter (λ n, is_failure n = true) lines)) (length (filter (λ n, is_absence n = true) lines))
    (length calls).
End Preflight.

(** ** The checks on the stop chain's configuration *)

Inductive StopWarning :=
| StatusInScope (signal : string)
| StatusDeviceUnregistered (device_handle : string)
| StatusSignalUnknown (device_handle signal_id : string)
| StatusSignalNotPolled (signal : string)
| StatusDeviceActuates (device_handle function : string)
| NoPolledEstop (device_handle : string)
| NoPolledSignal (device_handle : string).

Definition warn_stop_chain_config (mon : StopChainMonitor) (r : DeviceRegistry) : list StopWarning :=
  match sc_status (sm_config mon) with
  | None => []
  | Some (signal, _) =>
      let '(device_handle, signal_id) := default (signal, signal) (split_last slash signal) in
      (if in_scope mon device_handle then [StatusInScope signal] else []) ++
      match get_device_by_handle_copy r device_handle with
      | None => [StatusDeviceUnregistered device_handle]
      | Some device =>
          (match alookup signal_id (signals_by_id (capabilities device)) with
           | None => [StatusSignalUnknown device_handle signal_id]
           | Some spec => if ss_is_default spec then [] else [StatusSignalNotPolled signal]
           end) ++
          (match list_find (λ p, is_actuating p.2 = true) (functions_by_id (capabilities device)) with
           | Some (_, (_, spec)) => [StatusDeviceActuates device_handle (fs_function_name spec)]
           | None => []
           end)
      end
  end.

Definition unjudgeable (r : DeviceRegistry) (handle : string) (expect : StopChainExpect) : list StopWarning :=
  match get_device_by_handle_copy r handle with
  | None => []
  | Some device =>
      let signals := signals_by_id (capabilities device) in
      match expect with
      | ReportsEstop =>
          match alookup "estop" signals with
          | Some estop =>
              if negb (ss_is_default estop) || negb (bool_decide (ss_type estop = VALUE_TYPE_BOOL))
              then [NoPolledEstop handle] else []
          | None => [NoPolledEstop handle]
          end
      | PowerLoss => if negb (existsb (λ p, ss_is_default p.2) signals) then [NoPolledSignal handle] else []
      end
  end.

Definition warn_unjudgeable_expectations (mon : StopChainMonitor) (r : DeviceRegistry) : list StopWarning :=
  if negb (configured mon) then []
  else map_items (sc_expectations (sm_config mon)) ≫= λ p, unjudgeable r p.1 p.2.

(** ** Starting the providers *)

Record ProviderBoot := mkProviderBoot {
  pb_handle : Handle;
  pb_start : result unit;                (* the message of [last_error()] *)
  pb_discovery : DiscoveryHandle;
}.

Record Inventory := mkInventory {
  in_registry : DeviceRegistry;
  in_providers : ProviderRegistry;
  in_supervisor : ProviderSupervisor;
}.

Fixpoint start_providers (boot : string → ProviderBoot) (cs : list ProviderConfig) (s : Inventory)
    : result unit * Inventory :=
  match cs with
  | [] => (Ok tt, s)
  | p :: rest =>
      let b := boot (pr_id p) in
      match pb_start b with
      | Err last_error => (Err ("Failed to start provider '" +:+ pr_id p +:+ "': " +:+ last_error), s)
      | Ok _ =>
          let sup := register_provider (pr_id p) (pr_restart_policy p) (in_supervisor s) in
          match discover_provider (pr_id p) (pb_discovery b) false (in_registry s) with
          | (false, r) =>
              (Err ("Discovery failed for provider '" +:+ pr_id p +:+ "': " +:+ error_ r),
               mkInventory r (in_providers s) sup)
          | (true, r) =>
              start_providers boot rest (mkInventory r (add_provider (pr_id p) (pb_handle b) (in_providers s)) sup)
          end
      end
  end.

Definition init_providers (boot : string → ProviderBoot) (cs : list ProviderConfig) (s : Inventory)
    : result unit * Inventory :=
  match start_providers boot cs s with
  | (Err error, s') => (Err error, s')
  | (Ok _, s') => (validate_ownership_claims (get_all_devices (in_registry s')), s')
  end.

(** ** Startup outputs and re-issues *)

Section Outputs.
Context {L D : Type} `{IActuationLatch L} `{IDeviceLossLatch D} `{FloatText} `{StatusNames} `{JsonText}.

(** The devices a startup run leaves alone: missing ones, and the devices behind
    a stop chain in force. *)
Definition startup_skips (missing : gmap string string) (config : StopChainConfig) (stop_chain : option StopChainMonitor)
    : gmap string string :=
  match stop_chain with
  | Some mon =>
      if bool_decide (sn_state (sm_current mon) = InForce) then
        foldl (λ skip h, match skip !! h with Some _ => skip | None => <[h := "stop chain in force"]> skip end)
          missing (sc_devices config)
      else missing
  | None => missing
  end.

(** [None]: outputs were left as they were. *)
Definition apply_startup_outputs (ctx : nat → CallCtx L D) (r : DeviceRegistry) (safety : SafetyConfig)
    (providers : list (string * HealthView)) (stop_chain : option StopChainMonitor) (w : SafeWorld)
    : option EstopResult * SafeWorld :=
  match sf_on_startup safety with
  | StartLeave => (None, w)
  | StartSafeState =>
      let skip := startup_skips (devices_reported_missing providers r) (sf_stop_chain safety) stop_chain in
      let '(result, w') := drive_safe_state ctx r (sf_safe_state safety) skip w in
      (Some result, w')
  end.

(** The re-issue worker's job: how many calls it issued. *)
Definition reissue_safe_state_for (ctx : nat → CallCtx L D) (r : DeviceRegistry) (safety : SafeStateConfig)
    (device_handle : string) (w : SafeWorld) : nat * SafeWorld :=
  let '(result, w') := reassert_for ctx r safety device_handle w in
  (length (filter (λ a, ao_success a = true) (er_actions result)), w').
End Outputs.

(** ** Parameters *)

Definition load_parameters `{FloatText} (ps : list ParameterConfig) : ParameterManager :=
  foldl (λ pm p,
    (define (pc_name p) (pc_type p) (pc_default p) (pc_min p) (pc_max p)
       (if bool_decide (pc_allowed_values p = []) then None else Some (pc_allowed_values p)) pm).2)
    (mkPM ∅ []) ps.

(** ** Initialisation *)

Inductive Stage :=
| CoreServices | Providers_ | CacheInitialize | CachePollOnce | OnStartup | Automation_ | Telemetry_ | Runs_ | Http_.

#[global] Instance Stage_eq_dec : EqDecision Stage.
Proof. solve_decision. Defined.

Definition stage_name (s : Stage) : string :=
  match s with
  | CoreServices => "init_core_services" | Providers_ => "init_providers"
  | CacheInitialize => "state_cache.initialize" | CachePollOnce => "state_cache.poll_once"
  | OnStartup => "safety.on_startup" | Automation_ => "init_automation" | Telemetry_ => "init_telemetry"
  | Runs_ => "init_runs" | Http_ => "init_http"
  end.

(** What start-up meets: the time elapsed at each check, the providers, the
    clocks, the latch file, the first poll, the stop-chain tick, the providers'
    health, the ladder's moments, and whether the tree loads, the sink starts, the
    journal opens and the HTTP server listens. *)
Record BootIO (L D : Type) := mkBootIO {
  bi_elapsed : Stage → Z;
  bi_boot : string → ProviderBoot;
  bi_now : Z;
  bi_steady : Z;
  bi_load : LoadIO;
  bi_poll : Providers;
  bi_tick : StopTick;
  bi_health : list (string * HealthView);
  bi_ctx : nat → CallCtx L D;
  bi_loss : DeviceLossLatch;             (* as the first poll left it *)
  bi_tid : nat;
  bi_publish : Publishing;
  bi_hold_ms : Z;
  bi_save : SaveIO;
  bi_tree_loads : bool;
  bi_sink_starts : bool;
  bi_journal_opens : bool;
  bi_http : result unit;
}.
Arguments mkBootIO {L D}. Arguments bi_elapsed {L D}. Arguments bi_boot {L D}. Arguments bi_now {L D}.
Arguments bi_steady {L D}. Arguments bi_load {L D}. Arguments bi_poll {L D}. Arguments bi_tick {L D}.
Arguments bi_health {L D}. Arguments bi_ctx {L D}. Arguments bi_loss {L D}. Arguments bi_tid {L D}. Arguments bi_publish {L D}. Arguments bi_hold_ms {L D}.
Arguments bi_save {L D}. Arguments bi_tree_loads {L D}. Arguments bi_sink_starts {L D}.
Arguments bi_journal_opens {L D}. Arguments bi_http {L D}.

Record Booting := mkBooting {
  bo_inventory : Inventory;
  bo_stop_chain : option StopChainMonitor;
  bo_mode : MM SafeWorld;
  bo_has_modes : bool;                  (* the controller has a mode manager *)
  bo_outputs : option EstopResult;      (* the startup run, when there was one *)
  bo_parameters : option ParameterManager;
  bo_telemetry : bool;
  bo_journal : bool;
  bo_http_open : bool;
  bo_done : list Stage;                 (* stages that passed their deadline *)
}.

Section Initialize.
Context {L D : Type} `{IActuationLatch L} `{IDeviceLossLatch D} `{FloatText} `{StatusNames} `{JsonText} `{QualityNames}.
Context `{JsonLines} (cast : double → Z).
Context (c : RuntimeConfig) (io : BootIO L D).

(** A stage's outcome: [None] is an exception. *)
Definition StageRun : Type := Booting → option (result unit) * Booting.

Definition data_dir : string := if is_empty (rm_data_dir (c_runtime c)) then "anolis-data" else rm_data_dir (c_runtime c).

Definition on_inventory (f : Inventory → result unit * Inventory) : StageRun := λ s,
  let '(res, i) := f (bo_inventory s) in
  (Some res, mkBooting i (bo_stop_chain s) (bo_mode s) (bo_has_modes s) (bo_outputs s) (bo_parameters s)
               (bo_telemetry s) (bo_journal s) (bo_http_open s) (bo_done s)).

Definition on_mode (f : MM SafeWorld → MM SafeWorld) (s : Booting) : Booting :=
  mkBooting (bo_inventory s) (bo_stop_chain s) (f (bo_mode s)) (bo_has_modes s) (bo_outputs s) (bo_parameters s)
    (bo_telemetry s) (bo_journal s) (bo_http_open s) (bo_done s).

Definition on_cache (f : StateCache → StateCache) : Booting → Booting :=
  on_mode (λ m, mkMM (current_mode_ m) (put_cache (f (sw_cache (world m))) (world m))).

(** [init_core_services], with the probe interval the supervisor is built with. *)
Definition init_core_services (probe_interval_ms : Z) (fs : FS) : StageRun := λ s,
  let w := mkWorld new_controller new_router (new_cache true true) fs [] 0 in
  let w1 := attach_latch_store (Some (new_store data_dir (c_config_dir c))) (bi_load io) (bi_now io) w in
  (Some (Ok tt),
   mkBooting (mkInventory empty_registry ∅ (mkSupervisor probe_interval_ms ∅ ∅))
     (Some (wire_stop_chain (sf_stop_chain (c_safety c)) (c_polling_interval_ms c)))
     (mkMM IDLE w1) false None None false false false (bo_done s)).

Definition cache_initialize : StageRun := λ s,
  (Some (Ok tt), on_cache (initialize (get_all_devices (in_registry (bo_inventory s))) (bi_now io)) s).

Definition cache_poll_once : StageRun := λ s,
  (Some (Ok tt), on_cache (poll_once (bi_poll io) (bi_now io) (bi_steady io) false) s).

(** The first reading of the stop chain, before there is a mode manager, then the
    startup outputs. *)
Definition startup_outputs : StageRun := λ s,
  let t := update_stop_chain (bi_tick io) None (bo_stop_chain s) (bo_mode s) in
  let s1 outputs m :=
    mkBooting (bo_inventory s) (tr_monitor t) m (bo_has_modes s) outputs (bo_parameters s)
      (bo_telemetry s) (bo_journal s) (bo_http_open s) (bo_done s) in
  if negb (tr_completed t) then (None, s1 (bo_outputs s) (tr_mode t))
  else
    let '(outputs, w) := apply_startup_outputs (bi_ctx io) (in_registry (bo_inventory s)) (c_safety c) (bi_health io)
                           (tr_monitor t) (world (tr_mode t)) in
    (Some (Ok tt), s1 outputs (mkMM (current_mode_ (tr_mode t)) w)).

(** What [init_automation] registers, as the controller sees it. *)
Definition boot_callbacks (s : Booting) : Callbacks SafeWorld :=
  safe_callbacks (mkRuntime (world (bo_mode s)) (bi_loss io) [] None)
    (init_automation (bi_ctx io) cast (bi_publish io) (automation_of (c_automation c)) (sf_safe_state (c_safety c))
       (bi_tid io) (λ _, in_registry (bo_inventory s))).

Definition init_automation_stage : StageRun := λ s,
  let s1 m modes params :=
    mkBooting (bo_inventory s) (bo_stop_chain s) m modes (bo_outputs s) params
      (bo_telemetry s) (bo_journal s) (bo_http_open s) (bo_done s) in
  if negb (at_enabled (c_automation c)) then (Some (Ok tt), s1 (bo_mode s) false None)
  else
    let params := Some (load_parameters (at_parameters (c_automation c))) in
    if negb (bi_tree_loads io) then
      (Some (Err ("Failed to load behavior tree: " +:+ at_behavior_tree (c_automation c))), s1 (bo_mode s) false params)
    else
      match bo_stop_chain s with
      | Some mon =>
          if configured mon && holds mon then
            let '(ok, m) := hold (Some (boot_callbacks s)) (bi_hold_ms io) (stop_hold_reason (sm_current mon))
                              (bi_save io) (bo_mode s) in
            (if ok then Some (Ok tt) else None, s1 m true params)
          else (Some (Ok tt), s1 (bo_mode s) true params)
      | None => (Some (Ok tt), s1 (bo_mode s) true params)
      end.

(** [init_telemetry], [init_runs] and [init_http]. *)
Definition with_services (telemetry journal http : bool) (s : Booting) : Booting :=
  mkBooting (bo_inventory s) (bo_stop_chain s) (bo_mode s) (bo_has_modes s) (bo_outputs s) (bo_parameters s)
    telemetry journal http (bo_done s).

Definition init_telemetry : StageRun := λ s,
  (Some (Ok tt), with_services (te_enabled (c_telemetry c) && bi_sink_starts io) (bo_journal s) (bo_http_open s) s).
Definition init_runs : StageRun := λ s,
  (Some (Ok tt), with_services (bo_telemetry s) (bi_journal_opens io) (bo_http_open s) s).
Definition init_http : StageRun := λ s,
  if negb (ht_enabled (c_http c)) then (Some (Ok tt), s)
  else match bi_http io with
       | Err http_error => (Some (Err ("HTTP server failed to start: " +:+ http_error)), s)
       | Ok _ => (Some (Ok tt), with_services (bo_telemetry s) (bo_journal s) true s)
       end.

Definition deadline_error (stage : Stage) (elapsed_ms : Z) : string :=
  "Runtime startup timeout exceeded after '" +:+ stage_name stage +:+ "' (" +:+ to_string elapsed_ms +:+ "ms >= " +:+
  to_string (rm_startup_timeout_ms (c_runtime c)) +:+ "ms)".

Definition mark_done (stage : Stage) (s : Booting) : Booting :=
  mkBooting (bo_inventory s) (bo_stop_chain s) (bo_mode s) (bo_has_modes s) (bo_outputs s) (bo_parameters s)
    (bo_telemetry s) (bo_journal s) (bo_http_open s) (bo_done s ++ [stage]).

(** The stages in order, each followed by [check_startup_deadline]. *)
Fixpoint run_stages (stages : list (Stage * StageRun)) (s : Booting) : option (result unit) * Booting :=
  match stages with
  | [] => (Some (Ok tt), s)
  | (stage, run) :: rest =>
      match run s with
      | (Some (Ok _), s1) =>
          if bi_elapsed io stage <? rm_startup_timeout_ms (c_runtime c) then run_stages rest (mark_done stage s1)
          else (Some (Err (deadline_error stage (bi_elapsed io stage))), s1)
      | failed => failed
      end
  end.

Definition boot_stages (probe_interval_ms : Z) (fs : FS) : list (Stage * StageRun) :=
  [(CoreServices, init_core_services probe_interval_ms fs);
   (Providers_, on_inventory (init_providers (bi_boot io) (c_providers c)));
   (CacheInitialize, cache_initialize); (CachePollOnce, cache_poll_once); (OnStartup, startup_outputs);
   (Automation_, init_automation_stage); (Telemetry_, init_telemetry); (Runs_, init_runs); (Http_, init_http)].

(** The runtime before [initialize]: nothing exists yet. *)
Definition unbooted (fs : FS) : Booting :=
  mkBooting (mkInventory empty_registry ∅ (mkSupervisor 0 ∅ ∅)) None
    (mkMM IDLE (mkWorld new_controller new_router (new_cache false false) fs [] 0)) false None None false false false [].

Definition initialize_runtime (probe_interval_ms : Z) (fs : FS) : option (result unit) * Booting :=
  run_stages (boot_stages probe_interval_ms fs) (unbooted fs).
End Initialize.

(** ** Missing devices *)

Lemma note_missing_lookup r pid l absent h :
  is_Some (foldl (note_missing r pid) absent l !! h) ↔
  is_Some (absent !! h) ∨
  ∃ dh, dh ∈ l ∧ dh_state dh = STATE_UNREACHABLE ∧ get_device_copy r pid (dh_device_id dh) = None ∧
        h = make_handle pid (dh_device_id dh).
Proof.
  revert absent. induction l as [|dh l IH]; intros absent; simpl.
  { split; [by left|]. by intros [?|(? & ?%not_elem_of_nil & _)]. }
  rewrite IH. unfold note_missing.
  destruct (bool_decide_reflect (dh_state dh = STATE_UNREACHABLE)) as [E|E]; simpl.
  2:{ setoid_rewrite elem_of_cons. split; intros [?|(dh' & Hin & Hdh)]; [by left|right; exists dh'; tauto|by left|].
      right. exists dh'. destruct Hin as [->|?]; [by destruct Hdh|done]. }
  destruct (get_device_copy r pid (dh_device_id dh)) as [d|] eqn:Ed; simpl.
  - setoid_rewrite elem_of_cons. split; [tauto || naive_solver|]. intros [?|(dh' & [->|?] & ? & Hn & ->)]; [by left| |].
    + rewrite Ed in Hn. done.
    + right. by exists dh'.
  - setoid_rewrite elem_of_cons. destruct (decide (h = make_handle pid (dh_device_id dh))) as [->|Hne].
    + rewrite lookup_insert_eq. split; [|by left; eauto]. intros _. right. exists dh. by split_and!; [left|..].
    + rewrite lookup_insert_ne by done. split; [naive_solver|].
      intros [?|(dh' & [->|?] & ? & Hn & ->)]; [by left|done|right; by exists dh'].
Qed.

(** A device is noted as missing exactly when an available provider reports it
    unreachable and the registry does not hold it. *)
Lemma missing_lookup ps r h :
  is_Some (devices_reported_missing ps r !! h) ↔
  ∃ pid v dh, (pid, v) ∈ ps ∧ dh ∈ live_report v ∧ dh_state dh = STATE_UNREACHABLE ∧
    get_device_copy r pid (dh_device_id dh) = None ∧ h = make_handle pid (dh_device_id dh).
Proof.
  unfold devices_reported_missing. induction ps as [|[pid v] ps IH] using rev_ind; simpl.
  - rewrite lookup_empty. split; [by intros []|]. by intros (? & ? & ? & ?%not_elem_of_nil & _).
  - rewrite foldl_snoc, note_missing_lookup, IH. simpl. setoid_rewrite elem_of_app. setoid_rewrite list_elem_of_singleton.
    split.
    + intros [(p & v' & dh & ? & Hdh)|(dh & Hdh)]; [exists p, v', dh; by split; [left|]|].
      exists pid, v, dh. split; [by right|done].
    + intros (p & v' & dh & [?|[= -> ->]] & Hdh); [left; by exists p, v', dh|right; by exists dh].
Qed.

Lemma missing_unregistered ps r h :
  is_Some (devices_reported_missing ps r !! h) → get_device_by_handle_copy r h = None.
Proof. intros (pid & v & dh & _ & _ & _ & Hn & ->)%missing_lookup. exact Hn. Qed.

(** ** What the preflight reports *)

Section PreflightFacts.
Context `{FloatText}.

Definition undispatchable (r : DeviceRegistry) (absent : gmap string string) (x : Declared) : Prop :=
  validate_call r (declared_request (dc_call x)) ≠ Ok tt ∧ absent !! cc_device_handle (dc_call x) = None.

Lemma check_declared_failure r absent x n :
  n ∈ check_declared r absent x ∧ is_failure n = true → dc_active x = true ∧ undispatchable r absent x.
Proof.
  unfold check_declared, undispatchable. destruct (validate_call _ _) as [[]|err]; [set_solver|].
  destruct (absent !! _); intros [->%list_elem_of_singleton Hf]; [done|]. simpl in Hf. by destruct (dc_active x).
Qed.

Lemma check_declared_fails r absent x :
  dc_active x = true → undispatchable r absent x → ∃ n, n ∈ check_declared r absent x ∧ is_failure n = true.
Proof.
  unfold check_declared, undispatchable. intros Ha [Hv Hn]. destruct (validate_call _ _) as [[]|err]; [done|].
  rewrite Hn. eexists. split; [by left|]. simpl. by rewrite Ha.
Qed.

Lemma preflight_line c r ps n :
  n ∈ preflight_declared_calls c r ps →
  let absent := devices_reported_missing ps r in
  let lines := declared_calls c (safe_state_kind_to_string (planned_safe_state_kind r (sf_safe_state (c_safety c))))
                 ≫= check_declared r absent in
  n ∈ lines ∨ (∃ f, n = HookUncovered f) ∨ (∃ k, n = WouldRunRung k) ∨ n = HooksNotRead ∨ n = NoSafeState ∨
  n ∈ summary (length (filter (λ n, is_failure n = true) lines)) (length (filter (λ n, is_absence n = true) lines))
        (length (declared_calls c (safe_state_kind_to_string (planned_safe_state_kind r (sf_safe_state (c_safety c)))))).
Proof.
  unfold preflight_declared_calls. cbv zeta. rewrite !elem_of_app, list_elem_of_singleton.
  intros [?|[Hu|[->|[Hn|Hs]]]]; [by left| | | |]; right.
  - left. destruct (at_enabled _); [|set_solver]. apply list_elem_of_fmap in Hu as (f & -> & _). by exists f.
  - right. left. by eexists.
  - right. right. case_bool_decide; [|set_solver]. destruct (_ && _); apply list_elem_of_singleton in Hn; auto.
  - right. right. right. by right.
Qed.

Lemma summary_cases failed absent checked n :
  n ∈ summary failed absent checked →
  match n with
  | SomeFailed _ _ => failed ≠ 0%nat
  | SomeAbsent _ _ => failed = 0%nat ∧ absent ≠ 0%nat
  | AllDispatchable k => failed = 0%nat ∧ absent = 0%nat ∧ k = checked
  | _ => False
  end.
Proof.
  unfold summary. destruct (Nat.ltb_spec 0 failed); [intros ->%list_elem_of_singleton; lia|].
  destruct (Nat.ltb_spec 0 absent); [intros ->%list_elem_of_singleton; lia|].
  destruct (0 <? checked)%nat; [intros ->%list_elem_of_singleton; lia|intros ?%not_elem_of_nil; done].
Qed.

Lemma check_declared_kind r absent x n : n ∈ check_declared r absent x → is_failure n = true ∨ is_absence n = true ∨
  ∃ w h t e, n = Undispatchable false w h t e.
Proof.
  unfold check_declared. destruct (validate_call _ _); [set_solver|].
  destruct (absent !! _); intros ->%list_elem_of_singleton; [by right; left|].
  destruct (dc_active x); [by left|right; right; by eexists _, _, _, _].
Qed.

Lemma failures_some r absent calls :
  length (filter (λ n, is_failure n = true) (calls ≫= check_declared r absent)) ≠ 0%nat ↔
  ∃ x, x ∈ calls ∧ dc_active x = true ∧ undispatchable r absent x.
Proof.
  split.
  - destruct (filter _ _) as [|n l] eqn:E; [done|]. intros _.
    assert (n ∈ n :: l) as Hin by (by left). rewrite <- E in Hin.
    apply list_elem_of_filter in Hin as [Hf (x & Hn & Hx)%list_elem_of_bind].
    exists x. split; [done|]. by apply (check_declared_failure r absent x n).
  - intros (x & Hx & Ha & Hu). destruct (check_declared_fails r absent x Ha Hu) as (n & Hn & Hfn).
    assert (n ∈ filter (λ n, is_failure n = true) (calls ≫= check_declared r absent)) as Hin.
    { apply list_elem_of_filter. split; [done|]. apply list_elem_of_bind. by exists x. }
    intros Hf%length_zero_iff_nil. rewrite Hf in Hin. by apply elem_of_nil in Hin.
Qed.

End PreflightFacts.

(** The preflight's verdict is right about the calls it counts: it closes with
    failures exactly when some declared call that is live, in the e-stop's rung or
    in a transition hook, would be refused by the router and its device is not
    one a provider reports missing; and when it closes by saying that everything
    is dispatchable, every live call is accepted as it stands. *)
Theorem preflight_reports_failures `{FloatText} (c : RuntimeConfig) (r : DeviceRegistry)
    (providers : list (string * HealthView)) :
  let notices := preflight_declared_calls c r providers in
  let rung := safe_state_kind_to_string (planned_safe_state_kind r (sf_safe_state (c_safety c))) in
  let absent := devices_reported_missing providers r in
  ((∃ failed checked, SomeFailed failed checked ∈ notices) ↔
   ∃ x, x ∈ declared_calls c rung ∧ dc_active x = true ∧
     validate_call r (declared_request (dc_call x)) ≠ Ok tt ∧ absent !! cc_device_handle (dc_call x) = None) ∧
  (∀ checked, AllDispatchable checked ∈ notices →
   checked = length (declared_calls c rung) ∧
   ∀ x, x ∈ declared_calls c rung → dc_active x = true → validate_call r (declared_request (dc_call x)) = Ok tt).
Proof.
  intros notices rung absent.
  pose proof (failures_some r absent (declared_calls c rung)) as Hz.
  set (lines := declared_calls c rung ≫= check_declared r absent) in *.
  set (nf := length (filter (λ n, is_failure n = true) lines)) in *.
  set (na := length (filter (λ n, is_absence n = true) lines)).
  assert (∀ n, n ∈ notices → (is_failure n = false) → (is_absence n = false) →
     (∀ w h t e, n ≠ Undispatchable false w h t e) → (∀ f, n ≠ HookUncovered f) → (∀ k, n ≠ WouldRunRung k) →
     n ≠ HooksNotRead → n ≠ NoSafeState → n ∈ summary nf na (length (declared_calls c rung))) as Hsum.
  { intros n Hn Hf Hab Hu Hh Hw Hr Hns. apply preflight_line in Hn as [Hl|[[f ->]|[[k ->]|[->|[->|Hs]]]]];
      [|by destruct (Hh f)|by destruct (Hw k)|done..].
    apply list_elem_of_bind in Hl as (x & [Hx|[Hx|(w & h & t & e & ->)]]%check_declared_kind & _);
      [congruence..|by destruct (Hu w h t e)]. }
  split; [split|].
  - intros (failed & checked & Hin). apply Hsum, summary_cases in Hin; [|done..].
    apply Hz in Hin as (x & Hx & Ha & Hu). by exists x.
  - intros (x & Hx & Ha & Hv & Hn). exists nf, (length (declared_calls c rung)).
    assert (nf ≠ 0%nat) as Hnz by (apply Hz; by exists x).
    unfold notices, preflight_declared_calls. fold rung absent lines. rewrite !elem_of_app. do 4 right. fold nf.
    unfold summary. destruct (Nat.ltb_spec 0 nf); [by left|lia].
  - intros checked Hin. apply Hsum, summary_cases in Hin as (E & Hna & ->); [|done..]. split; [done|].
    intros x Hx Ha. destruct (validate_call r (declared_request (dc_call x))) as [[]|err] eqn:Ev; [done|]. exfalso.
    assert (validate_call r (declared_request (dc_call x)) ≠ Ok tt) as Hv by (by rewrite Ev).
    destruct (absent !! cc_device_handle (dc_call x)) as [reason|] eqn:Eab;
      [|by apply (proj2 Hz); [exists x|]].
    assert (AbsentAtStartup (dc_where x) (cc_device_handle (dc_call x))
      (if bool_decide (cc_function_name (dc_call x) = "") then "#" +:+ to_string (cc_function_id (dc_call x))
       else cc_function_name (dc_call x)) reason ∈ filter (λ n, is_absence n = true) lines) as Hab.
    { apply list_elem_of_filter. split; [done|]. apply list_elem_of_bind. exists x. split; [|done].
      unfold check_declared. rewrite Eab. destruct (validate_call _ _) as [[]|]; [done|]. by left. }
    apply length_zero_iff_nil in Hna. rewrite Hna in Hab. by apply elem_of_nil in Hab.
Qed.

(** A configuration whose hooks rung is live and whose setpoints name a device
    that does not exist: the setpoint is warned about, and the closing line still
    counts it among the dispatchable calls. *)
Definition two_rungs : RuntimeConfig :=
  mkRuntimeConfig default_runtime default_http [] 500 default_telemetry default_logging default_automation
    (mkSafetyConfig
       (mkSafeStateConfig [LadderBench.setpoint 0] [mkCallConfig "sim0/ghost" 0 "set_duty" ∅] false)
       StartSafeState default_stop_chain)
    default_health "/etc/anolis".

Example inactive_failure_counted_dispatchable :
  preflight_declared_calls (H := plain_text) two_rungs LadderBench.registry [] =
  [Undispatchable false "safety.safe_state.setpoints" "sim0/ghost" "set_duty" "Device not found: sim0/ghost";
   WouldRunRung "hooks"; AllDispatchable 2].
Proof. vm_compute. reflexivity. Qed.

(** ** Starting the providers, in order and fail-fast *)

(** A provider that started and answered its discovery. *)
Definition comes_up (boot : string → ProviderBoot) (p : ProviderConfig) : Prop :=
  pb_start (boot (pr_id p)) = Ok tt ∧ ∃ dl, list_devices (pb_discovery (boot (pr_id p))) = Ok dl.

(** The devices it answered with. *)
Definition found_devices (boot : string → ProviderBoot) (p : ProviderConfig) : list RegisteredDevice :=
  match list_devices (pb_discovery (boot (pr_id p))) with
  | Ok dl => flat_map (inspect_device (pr_id p) (pb_discovery (boot (pr_id p)))) dl
  | Err _ => []
  end.

Definition handles_of (boot : string → ProviderBoot) (cs : list ProviderConfig) (m : ProviderRegistry) : ProviderRegistry :=
  foldl (λ m p, <[pr_id p := pb_handle (boot (pr_id p))]> m) m cs.

Lemma start_providers_spec boot cs s :
  let '(res, s') := start_providers boot cs s in
  match res with
  | Ok _ =>
      Forall (comes_up boot) cs ∧
      get_all_devices (in_registry s') = get_all_devices (in_registry s) ++ (cs ≫= found_devices boot) ∧
      in_providers s' = handles_of boot cs (in_providers s)
  | Err e =>
      ∃ up p rest, cs = up ++ p :: rest ∧ Forall (comes_up boot) up ∧ ¬ comes_up boot p ∧
        get_all_devices (in_registry s') = get_all_devices (in_registry s) ++ (up ≫= found_devices boot) ∧
        in_providers s' = handles_of boot up (in_providers s) ∧
        ((∃ why, pb_start (boot (pr_id p)) = Err why ∧
            e = "Failed to start provider '" +:+ pr_id p +:+ "': " +:+ why) ∨
         (∃ why, list_devices (pb_discovery (boot (pr_id p))) = Err why ∧
            e = "Discovery failed for provider '" +:+ pr_id p +:+ "': ListDevices failed: " +:+ why))
  end.
Proof.
  revert s. induction cs as [|p cs IH]; intros s; simpl; [by rewrite app_nil_r|].
  destruct (pb_start (boot (pr_id p))) as [[]|why] eqn:Es.
  2:{ exists [], p, cs. simpl. rewrite app_nil_r. unfold comes_up. rewrite Es.
      split_and!; try done; [by intros []|left; by exists why]. }
  unfold discover_provider, inspect_provider_devices.
  destruct (list_devices (pb_discovery (boot (pr_id p)))) as [dl|why] eqn:El.
  - match goal with |- context [start_providers boot cs ?x] => specialize (IH x); set (s1 := x) in * end.
    assert (comes_up boot p) as Hp by (split; eauto).
    assert (get_all_devices (in_registry s1) = get_all_devices (in_registry s) ++ found_devices boot p) as Hd.
    { unfold found_devices. rewrite El. done. }
    destruct (start_providers boot cs s1) as [[[]|e] s'].
    + destruct IH as (H1 & H2 & H3). split_and!; [by constructor|by rewrite H2, Hd, <- app_assoc|done].
    + destruct IH as (up & q & rest & -> & Hup & Hq & H2 & H3 & H4). exists (p :: up), q, rest.
      split_and!; [done|by constructor|done|by rewrite H2, Hd, <- app_assoc|done|done].
  - exists [], p, cs. simpl. rewrite app_nil_r. split_and!; try done; [|right; by exists why].
    intros [_ [dl Hdl]]. congruence.
Qed.

(** Start-up is in order and fail-fast: when it succeeds every configured
    provider started and answered, the inventory is what they answered, in order,
    each provider is registered under its id, and no two devices claim the same
    hardware; when it fails, the error names the first provider that did not come
    up, only the providers before it are registered, with their devices, or all
    came up and two devices claim the same key. *)
Theorem init_providers_outcome (boot : string → ProviderBoot) (cs : list ProviderConfig) (probe_ms : Z) :
  let '(res, s) := init_providers boot cs (mkInventory empty_registry ∅ (mkSupervisor probe_ms ∅ ∅)) in
  match res with
  | Ok _ =>
      Forall (comes_up boot) cs ∧ get_all_devices (in_registry s) = cs ≫= found_devices boot ∧
      in_providers s = handles_of boot cs ∅ ∧ ¬ claim_conflict (get_all_devices (in_registry s))
  | Err e =>
      (∃ up p rest, cs = up ++ p :: rest ∧ Forall (comes_up boot) up ∧ ¬ comes_up boot p ∧
         get_all_devices (in_registry s) = up ≫= found_devices boot ∧ in_providers s = handles_of boot up ∅ ∧
         ∃ why, e = "Failed to start provider '" +:+ pr_id p +:+ "': " +:+ why ∨
                e = "Discovery failed for provider '" +:+ pr_id p +:+ "': ListDevices failed: " +:+ why) ∨
      Forall (comes_up boot) cs ∧ claim_conflict (cs ≫= found_devices boot)
  end.
Proof.
  unfold init_providers. pose proof (start_providers_spec boot cs (mkInventory empty_registry ∅ (mkSupervisor probe_ms ∅ ∅))) as Hs.
  destruct (start_providers boot cs _) as [[[]|e] s]; simpl in Hs.
  - destruct Hs as (Hup & Hd & Hp). pose proof (validate_ownership_Ok (get_all_devices (in_registry s))) as Hv.
    destruct (validate_ownership_claims _) as [[]|e] eqn:Ev; [split_and!; try done; by apply Hv|].
    right. split; [done|]. rewrite <- Hd. by eapply validate_ownership_Err.
  - left. destruct Hs as (up & p & rest & -> & Hup & Hq & H2 & H3 & Hw). exists up, p, rest. split_and!; try done.
    destruct Hw as [(why & _ & ->)|(why & _ & ->)]; exists why; [by left|by right].
Qed.

(** ** What start-up sends *)

Lemma startup_skips_lookup missing config mon h :
  is_Some (startup_skips missing config mon !! h) ↔
  is_Some (missing !! h) ∨
  ∃ m, mon = Some m ∧ sn_state (sm_current m) = InForce ∧ h ∈ sc_devices config.
Proof.
  unfold startup_skips. destruct mon as [m|]; [|naive_solver].
  destruct (bool_decide_reflect (sn_state (sm_current m) = InForce)) as [E|E]; [|naive_solver].
  assert (∀ l acc, is_Some (foldl (λ skip h, match skip !! h with Some _ => skip
      | None => <[h := "stop chain in force"]> skip end) acc l !! h) ↔ is_Some (acc !! h) ∨ h ∈ l) as ->.
  { induction l as [|x l IH]; intros acc; simpl; [split; [by left|by intros [?|?%not_elem_of_nil]]|].
    rewrite IH, elem_of_cons. destruct (acc !! x) as [v|] eqn:Ex.
    - split; [tauto|]. intros [?|[->|?]]; [by left|left; by rewrite Ex|by right].
    - destruct (decide (h = x)) as [->|Hne]; [rewrite lookup_insert_eq|rewrite lookup_insert_ne by done]; [|tauto].
      split; [intros _; right; by left|intros _; left; by eexists]. }
  split; [intros [?|?]; [by left|right; by exists m]|intros [?|(m' & [= <-] & _ & ?)]; [by left|by right]].
Qed.

Section Sent.
Context {L D : Type} `{IActuationLatch L} `{IDeviceLossLatch D} `{FloatText} `{StatusNames} `{JsonText}.

(** Every call a rung makes answers an item that was due, and every skip it
    reports is of an absent device. *)
Lemma run_items_sent (ctx : nat → CallCtx L D) only absent items w :
  let '(acts, skips, w') := run_items ctx only absent items w in
  ∃ ds, sw_sent w' = sw_sent w ++ ds ∧ sw_ctl w' = sw_ctl w ∧
    (∀ d, d ∈ ds → ∃ i, i ∈ items ∧ due only absent i ∧ item_answered i d) ∧
    (∀ k, k ∈ skips → is_Some (absent !! sk_device_handle k)).
Proof.
  revert w. induction items as [|i items IH]; intros w; simpl.
  { exists []. rewrite app_nil_r. split_and!; try done; by intros ? ?%not_elem_of_nil. }
  assert (∀ (ds : list Dispatch), (∀ d, d ∈ ds → ∃ j, j ∈ items ∧ due only absent j ∧ item_answered j d) →
    ∀ d, d ∈ ds → ∃ j, j ∈ i :: items ∧ due only absent j ∧ item_answered j d) as Hmore.
  { intros ds Hds d Hd. destruct (Hds d Hd) as (j & ? & ? & ?). exists j. by split_and!; [right|..]. }
  destruct (wanted only (item_handle i)) eqn:Ew; simpl.
  2:{ specialize (IH w). destruct (run_items ctx only absent items w) as [[acts skips] w'].
      destruct IH as (ds & ? & ? & Hds & ?). exists ds. split_and!; [done|done|by apply Hmore|done]. }
  destruct (absent !! item_handle i) as [reason|] eqn:Ea.
  - specialize (IH w). destruct (run_items ctx only absent items w) as [[acts skips] w'].
    destruct IH as (ds & ? & ? & Hds & Hk). exists ds. split_and!; [done|done|by apply Hmore|].
    intros k [->|?]%elem_of_cons; [simpl; rewrite Ea; by eexists|by apply Hk].
  - destruct (run_item_spec ctx i w) as (a & od & w1 & -> & C1 & _ & S1 & _ & Hd).
    specialize (IH w1). destruct (run_items ctx only absent items w1) as [[acts skips] w'].
    destruct IH as (ds & S2 & C2 & Hds & Hk). exists (option_list od ++ ds).
    split_and!; [by rewrite S2, S1, app_assoc|congruence| |done].
    intros d [Hin|Hin]%elem_of_app; [|by apply (Hmore ds)]. exists i. split; [by left|]. split; [done|].
    destruct od as [d'|]; [|by apply not_elem_of_nil in Hin]. apply list_elem_of_singleton in Hin as ->. by apply Hd.
Qed.

Lemma item_answered_device i d : item_answered i d → d_handle d = item_handle i ∧ d_safe_state d = true.
Proof. destruct i; intros (? & ? & _); done. Qed.

End Sent.

(** Start-up drives the declared safe state and nothing else: with
    [on_startup: leave] nothing is sent and nothing changes; otherwise every call
    sent is a safe-state call to a device that no provider reports missing and
    that is not behind a stop chain in force, every device skipped is one of
    those, the report kept for the status surface is this run's, and the e-stop
    latch is as it was. *)
Theorem startup_outputs_spare {L D} `{IActuationLatch L} `{IDeviceLossLatch D} `{FloatText} `{StatusNames}
    `{JsonText} (ctx : nat → CallCtx L D) (r : DeviceRegistry) (safety : SafetyConfig)
    (providers : list (string * HealthView)) (mon : option StopChainMonitor) (w : SafeWorld) :
  let '(res, w') := apply_startup_outputs ctx r safety providers mon w in
  let spared h := is_Some (devices_reported_missing providers r !! h) ∨
                  (∃ m, mon = Some m ∧ sn_state (sm_current m) = InForce ∧ h ∈ sc_devices (sf_stop_chain safety)) in
  latched_flag (sw_ctl w') = latched_flag (sw_ctl w) ∧ latched_at_ms_ (sw_ctl w') = latched_at_ms_ (sw_ctl w) ∧
  match res with
  | None => sf_on_startup safety = StartLeave ∧ w' = w
  | Some result =>
      sf_on_startup safety = StartSafeState ∧
      (∃ ds, sw_sent w' = sw_sent w ++ ds ∧ ∀ d, d ∈ ds → d_safe_state d = true ∧ ¬ spared (d_handle d)) ∧
      (∀ k, k ∈ er_skipped result → spared (sk_device_handle k)) ∧
      rp_kind (startup_report_ (sw_ctl w')) = er_kind result ∧
      rp_safe_state_achieved (startup_report_ (sw_ctl w')) = er_safe_state_achieved result ∧
      rp_skipped_actions (startup_report_ (sw_ctl w')) = er_skipped result
  end.
Proof.
  unfold apply_startup_outputs. destruct (sf_on_startup safety); [|done].
  unfold drive_safe_state, run_ladder.
  set (skip := startup_skips _ _ _). set (items := ladder_items _ _ _).
  pose proof (run_items_sent ctx None skip items w) as Hs.
  destruct (run_items ctx None skip items w) as [[acts skips] w']. destruct Hs as (ds & Hsent & Hc & Hds & Hk).
  simpl. rewrite Hc. split_and!; try done.
  - exists ds. split; [done|]. intros d (i & _ & [_ Hno] & [Hh Hsafe]%item_answered_device)%Hds. split; [done|].
    rewrite Hh, <- startup_skips_lookup. fold skip. rewrite Hno. by intros [].
  - intros k Hin. by apply startup_skips_lookup, Hk.
Qed.

(** ** The stages *)

Section Stages.
Context {L D : Type} `{IActuationLatch L} `{IDeviceLossLatch D} `{FloatText} `{StatusNames} `{JsonText} `{QualityNames}.
Context `{JsonLines} (cast : double → Z).
Context (c : RuntimeConfig) (io : BootIO L D).
Implicit Types (s : Booting).

Definition in_time (stage : Stage) : Prop := bi_elapsed io stage < rm_startup_timeout_ms (c_runtime c).

Lemma run_stages_ok stage (run : StageRun) rest s s' :
  run_stages c io ((stage, run) :: rest) s = (Some (Ok tt), s') →
  ∃ s1, run s = (Some (Ok tt), s1) ∧ in_time stage ∧ run_stages c io rest (mark_done stage s1) = (Some (Ok tt), s').
Proof.
  simpl. destruct (run s) as [[[[]|e]|] s1]; try done.
  destruct (Z.ltb_spec (bi_elapsed io stage) (rm_startup_timeout_ms (c_runtime c))); [|done].
  intros E. by exists s1.
Qed.

Lemma run_stages_app l1 l2 s :
  run_stages c io (l1 ++ l2) s =
  match run_stages c io l1 s with (Some (Ok _), s1) => run_stages c io l2 s1 | failed => failed end.
Proof.
  revert s. induction l1 as [|[stage run] l1 IH]; intros s; simpl; [done|].
  destruct (run s) as [[[[]|e]|] s1]; [|done..]. by destruct (_ <? _).
Qed.

(** Stages that all leave something alone. *)
Lemma run_stages_keeps (P : Booting → Prop) l s :
  (∀ stage s, P s → P (mark_done stage s)) → Forall (λ p : Stage * StageRun, ∀ s, P s → P (p.2 s).2) l →
  P s → P (run_stages c io l s).2.
Proof.
  intros Hm Hl. revert s. induction Hl as [|[stage run] l Hr _ IH]; intros s Hs; simpl; [done|].
  specialize (Hr s Hs). simpl in Hr. destruct (run s) as [[[[]|e]|] s1]; simpl in *; [|done..].
  destruct (_ <? _); [|done]. by apply IH, Hm.
Qed.

(** The stages before the HTTP server. *)
Definition before_http (probe_interval_ms : Z) (fs : FS) : list (Stage * StageRun) :=
  take 8 (boot_stages cast c io probe_interval_ms fs).

Lemma before_http_closed probe_ms fs s :
  bo_http_open s = false → bo_http_open (run_stages c io (before_http probe_ms fs) s).2 = false.
Proof.
  apply (run_stages_keeps (λ s, bo_http_open s = false)); [done|].
  unfold before_http, boot_stages. cbn [take]. repeat first [apply Forall_nil_2|apply Forall_cons_2]; simpl; try done.
  - intros s0 Hs. unfold on_inventory. by destruct (init_providers _ _ _).
  - intros s0 Hs. unfold startup_outputs. destruct (tr_completed _); simpl; [|done].
    by destruct (apply_startup_outputs _ _ _ _ _ _).
  - intros s0 Hs. unfold init_automation_stage. destruct (negb (at_enabled _)); [done|].
    destruct (negb (bi_tree_loads io)); [done|]. destruct (bo_stop_chain s0) as [mon|]; [|done].
    destruct (_ && _); [|done]. by destruct (hold _ _ _ _ _).
Qed.

(** The devices start-up leaves alone: an available provider reports them
    unreachable and the registry does not hold them, or they are behind a stop
    chain in force. *)
Definition left_alone (r : DeviceRegistry) (mon : option StopChainMonitor) (h : string) : Prop :=
  (∃ pid v dh, (pid, v) ∈ bi_health io ∧ dh ∈ live_report v ∧ dh_state dh = STATE_UNREACHABLE ∧
     get_device_copy r pid (dh_device_id dh) = None ∧ h = make_handle pid (dh_device_id dh)) ∨
  (∃ m, mon = Some m ∧ sn_state (sm_current m) = InForce ∧ h ∈ sc_devices (sf_stop_chain (c_safety c))).

(** The declared safe state was driven, unless it is configured off: the planned
    rung ran, without the calls to devices left alone, and what it sent is part of
    what the runtime has sent. *)
Definition startup_driven (s : Booting) : Prop :=
  let r := in_registry (bo_inventory s) in
  match sf_on_startup (c_safety c) with
  | StartLeave => bo_outputs s = None
  | StartSafeState =>
      ∃ result absent, bo_outputs s = Some result ∧
        (∀ h, is_Some (absent !! h) ↔ left_alone r (bo_stop_chain s) h) ∧
        rung_ran (bi_ctx io) r (sf_safe_state (c_safety c)) absent result [] (sw_sent (world (bo_mode s)))
  end.

(** What the runtime is once everything before the HTTP server has succeeded. *)
Record booted (s : Booting) : Prop := {
  bt_in_time : Forall in_time [CoreServices; Providers_; CacheInitialize; CachePollOnce; OnStartup; Automation_;
                               Telemetry_; Runs_];
  bt_providers : Forall (comes_up (bi_boot io)) (c_providers c);
  bt_devices : get_all_devices (in_registry (bo_inventory s)) = c_providers c ≫= found_devices (bi_boot io);
  bt_handles : in_providers (bo_inventory s) = handles_of (bi_boot io) (c_providers c) ∅;
  bt_claims : ¬ claim_conflict (get_all_devices (in_registry (bo_inventory s)));
  bt_outputs : startup_driven s;
  bt_modes : bo_has_modes s = at_enabled (c_automation c);
  bt_held : stop_held (bo_stop_chain s, bo_mode s);
  bt_fault : ∀ mon, bo_stop_chain s = Some mon → holds mon = true → bo_has_modes s = true →
             current_mode_ (bo_mode s) = FAULT;
  bt_idle : current_mode_ (bo_mode s) = IDLE ∨ current_mode_ (bo_mode s) = FAULT;
}.

Lemma startup_outputs_latch (ctx : nat → CallCtx L D) r safety providers mon w :
  let '(res, w') := apply_startup_outputs ctx r safety providers mon w in
  latched_flag (sw_ctl w') = latched_flag (sw_ctl w) ∧
  match sf_on_startup safety with
  | StartLeave => res = None
  | StartSafeState =>
      ∃ result, res = Some result ∧
        rung_ran ctx r (sf_safe_state safety)
          (startup_skips (devices_reported_missing providers r) (sf_stop_chain safety) mon) result
          (sw_sent w) (sw_sent w')
  end.
Proof.
  unfold apply_startup_outputs. destruct (sf_on_startup safety); [|done].
  set (skip := startup_skips _ _ _). unfold drive_safe_state.
  destruct (run_ladder_keeps ctx r (sf_safe_state safety) None skip w) as [Hc _].
  pose proof (run_ladder_rung ctx r (sf_safe_state safety) skip w) as Hr.
  destruct (run_ladder ctx r (sf_safe_state safety) None skip w) as [result w'].
  simpl in *. rewrite Hc. split; [done|]. by exists result.
Qed.

(** Without a mode manager a tick sends nothing. *)
Lemma tick_sends_nothing t mon m : sw_sent (world (tr_mode (update_stop_chain t None mon m))) = sw_sent (world m).
Proof.
  unfold update_stop_chain. destruct mon as [mon|]; [|done]. destruct (configured mon); [|done]. simpl.
  destruct (update _ _ mon) as [change mon1].
  set (x := match change with Some _ => _ | None => _ end).
  assert (sw_sent (world x.2) = sw_sent (world m)) as Hx.
  { subst x. destruct change as [[b n]|]; [|done]. destruct (holds mon1); [|done]. unfold hold.
    destruct (latched_flag _); simpl; [done|]. set (w1 := put_ctl _ _).
    assert (∀ a r i, sw_sent (persist a r i w1).2 = sw_sent w1) as Hp.
    { intros a r i. unfold persist. destruct (latch_store_ _); [|done]. by destruct (save _ _ _ _ _). }
    specialize (Hp (st_hold_ms t) (stop_hold_reason n) (st_io t)). by destruct (persist _ _ _ _) as [[] w2]. }
  destruct x as [[] m1]; simpl in *; [|done]. by destruct (update_mismatches _ _ mon1).
Qed.

Lemma startup_outputs_ok s s' :
  startup_outputs c io s = (Some (Ok tt), s') → stop_held (bo_stop_chain s, bo_mode s) →
  sw_sent (world (bo_mode s)) = [] →
  bo_inventory s' = bo_inventory s ∧ stop_held (bo_stop_chain s', bo_mode s') ∧ startup_driven s' ∧
  current_mode_ (bo_mode s') = current_mode_ (bo_mode s).
Proof.
  intros E Hh Hsent. unfold startup_outputs in E.
  pose proof (stop_tick_held (bi_tick io) None (bo_stop_chain s) (bo_mode s) ltac:(done) Hh) as Ht.
  pose proof (tick_mode_alone (bi_tick io) (bo_stop_chain s) (bo_mode s)) as Hmode.
  pose proof (tick_sends_nothing (bi_tick io) (bo_stop_chain s) (bo_mode s)) as Hnone. rewrite Hsent in Hnone.
  set (t := update_stop_chain _ _ _ _) in *. destruct (tr_completed t); simpl in E; [|done].
  pose proof (startup_outputs_latch (bi_ctx io) (in_registry (bo_inventory s)) (c_safety c) (bi_health io)
    (tr_monitor t) (world (tr_mode t))) as Ho. rewrite Hnone in Ho.
  destruct (apply_startup_outputs _ _ _ _ _ _) as [outputs w]. destruct Ho as [Hl Ho]. injection E as <-. simpl.
  split; [done|]. split; [|split; [|done]].
  - intros mon Hm. destruct (Ht mon Hm) as [Hn Hw]. split; [done|].
    intros Hd. specialize (Hw Hd). unfold latched in *. simpl in *. by rewrite Hl.
  - unfold startup_driven. simpl. destruct (sf_on_startup _); [|done]. destruct Ho as (res & -> & Hr).
    eexists res, _. split; [done|]. split; [|exact Hr]. intros h. by rewrite startup_skips_lookup, missing_lookup.
Qed.

(** What happens later is sent later. *)
Lemma startup_driven_later s s' :
  bo_inventory s' = bo_inventory s → bo_outputs s' = bo_outputs s → bo_stop_chain s' = bo_stop_chain s →
  sw_sent (world (bo_mode s)) `prefix_of` sw_sent (world (bo_mode s')) → startup_driven s → startup_driven s'.
Proof.
  intros Hi Ho Hm Hs. unfold startup_driven. rewrite Hi, Ho, Hm. destruct (sf_on_startup _); [|done].
  intros (res & absent & ? & ? & Hr). exists res, absent. do 2 (split; [done|]). by eapply rung_ran_later.
Qed.

(** A hold keeps what was sent. *)
Lemma hold_sends cbs now_ms reason save_io m :
  (∀ sent, callbacks_keep (λ w, sent `prefix_of` sw_sent w) cbs) →
  sw_sent (world m) `prefix_of` sw_sent (world (hold (Some cbs) now_ms reason save_io m).2).
Proof.
  intros Hk. unfold hold.
  assert (∀ w1, sw_sent (persist now_ms reason save_io w1).2 = sw_sent w1) as Hp.
  { intros w1. unfold persist. destruct (latch_store_ _); [|done]. by destruct (save _ _ _ _ _). }
  assert (sw_sent (if latched_flag (sw_ctl (world m)) then (true, world m)
          else persist now_ms reason save_io (put_ctl (engage now_ms (sw_ctl (world m))) (world m))).2 = sw_sent (world m)) as Hw.
  { destruct (latched_flag _); [done|]. by rewrite Hp. }
  destruct (if latched_flag (sw_ctl (world m)) then _ else _) as [[] w1]; simpl in *; [|by rewrite Hw].
  rewrite <- Hw. by apply (set_mode_keeps (λ w, sw_sent w1 `prefix_of` sw_sent w)).
Qed.

Lemma init_automation_ok s s' :
  init_automation_stage cast c io s = (Some (Ok tt), s') → stop_held (bo_stop_chain s, bo_mode s) →
  bo_inventory s' = bo_inventory s ∧ (startup_driven s → startup_driven s') ∧
  bo_has_modes s' = at_enabled (c_automation c) ∧ stop_held (bo_stop_chain s', bo_mode s') ∧
  (∀ mon, bo_stop_chain s' = Some mon → holds mon = true → bo_has_modes s' = true → current_mode_ (bo_mode s') = FAULT) ∧
  (current_mode_ (bo_mode s') = current_mode_ (bo_mode s) ∨ current_mode_ (bo_mode s') = FAULT).
Proof.
  intros E Hh. unfold init_automation_stage in E.
  assert (after_keeps_mode (callbacks_ (boot_callbacks cast c io s))) as Ha by apply safe_callbacks_keep_mode.
  assert (keeps_latch (Some (boot_callbacks cast c io s))) as Hk.
  { intros cbs [= <-]. apply (safe_callbacks_keep _ _ _ _ _ _ _ _ (λ c, latched_flag c = true)). }
  destruct (at_enabled (c_automation c)); simpl in E;
    [|injection E as <-; split; [done|]; split; [by apply startup_driven_later|]; split_and!; by auto].
  destruct (bi_tree_loads io); simpl in E; [|done].
  destruct (bo_stop_chain s) as [mon|] eqn:Em;
    [|injection E as <-; split; [done|]; split; [by apply startup_driven_later|]; simpl; split_and!; by auto].
  destruct (configured mon && holds mon) eqn:Ec; bool_facts.
  - pose proof (hold_latches (Some (boot_callbacks cast c io s)) (bi_hold_ms io) (stop_hold_reason (sm_current mon)) (bi_save io)
      (bo_mode s) Hk) as Hl.
    pose proof (hold_faults (boot_callbacks cast c io s) (bi_hold_ms io) (stop_hold_reason (sm_current mon)) (bi_save io)
      (bo_mode s) Ha) as Hf.
    pose proof (hold_sends (boot_callbacks cast c io s) (bi_hold_ms io) (stop_hold_reason (sm_current mon)) (bi_save io)
      (bo_mode s) (safe_callbacks_send _ _ _ _ _ _ _ _)) as Hsent.
    destruct (hold _ _ _ _ (bo_mode s)) as [[] m]; [|done]. injection E as <-. simpl in *.
    split; [done|]. split; [by apply startup_driven_later|]. split; [done|]. split; [|split; [intros; by apply Hf|right; by apply Hf]].
    intros mon' [= <-]. destruct (Hh mon eq_refl) as [Hn _]. by split.
  - injection E as <-. split; [done|]. split; [by apply startup_driven_later|]. do 2 (split; [done|]).
    split; [|by left]. intros mon' [= <-] Hd _. exfalso.
    destruct Ec as [Ec|Ec]; [|by rewrite Ec in Hd]. destruct (Hh mon eq_refl) as [Hn _].
    unfold holds in Hd. by rewrite (Hn Ec) in Hd.
Qed.

Lemma before_http_booted probe_ms fs s s' :
  run_stages c io (before_http probe_ms fs) s = (Some (Ok tt), s') → booted s'.
Proof.
  intros E. unfold before_http, boot_stages in E. cbn [take] in E.
  apply run_stages_ok in E as (s1 & [= <-] & T1 & E).
  apply run_stages_ok in E as (s2 & E2 & T2 & E). unfold on_inventory in E2. simpl in E2.
  pose proof (init_providers_outcome (bi_boot io) (c_providers c) probe_ms) as Hp.
  destruct (init_providers _ _ _) as [[[]|e] inv]; [|done]. destruct Hp as (P1 & P2 & P3 & P4). injection E2 as <-.
  apply run_stages_ok in E as (s3 & [= <-] & T3 & E).
  apply run_stages_ok in E as (s4 & [= <-] & T4 & E).
  apply run_stages_ok in E as (s5 & E5 & T5 & E).
  apply startup_outputs_ok in E5 as (I5 & S5 & O5 & Q5).
  2:{ intros mon [= <-]. unfold wire_stop_chain, new_monitor, holds. simpl.
      by destruct (match sc_status (sf_stop_chain (c_safety c)) with Some _ => _ | None => _ end). }
  2:{ simpl. by destruct (load _ _ _) as [[] ? ?]. }
  apply run_stages_ok in E as (s6 & E6 & T6 & E).
  apply init_automation_ok in E6 as (I6 & O6 & M6 & S6 & F6 & Q6); [|done].
  apply run_stages_ok in E as (s7 & [= <-] & T7 & E).
  apply run_stages_ok in E as (s8 & [= <-] & T8 & [= <-]).
  simpl in *. split; simpl; try done; rewrite ?I6, ?I5; simpl; try done.
  - by repeat constructor.
  - by apply O6.
  - rewrite Q5 in Q6. destruct Q6 as [->|?]; [by left|by right].
Qed.
End Stages.

(** What a successful [initialize] leaves, beside the open HTTP server. *)
Lemma initialize_booted {L D} `{IActuationLatch L} `{IDeviceLossLatch D} `{FloatText} `{StatusNames} `{JsonText}
    `{QualityNames} `{JsonLines} cast c (io : BootIO L D) probe_interval_ms fs s :
  initialize_runtime cast c io probe_interval_ms fs = (Some (Ok tt), s) →
  ∃ s1, booted c io s1 ∧ bo_mode s = bo_mode s1 ∧ bo_stop_chain s = bo_stop_chain s1 ∧
        bo_inventory s = bo_inventory s1.
Proof.
  unfold initialize_runtime. rewrite <- (take_drop 8 (boot_stages cast c io probe_interval_ms fs)), run_stages_app.
  fold (before_http cast c io probe_interval_ms fs).
  pose proof (before_http_booted cast c io probe_interval_ms fs (unbooted fs)) as Hboot.
  destruct (run_stages c io (before_http cast c io probe_interval_ms fs) (unbooted fs)) as [[[[]|e]|] s1]; [|done..].
  intros E. exists s1. split; [by apply Hboot|]. revert E. cbn [drop boot_stages run_stages]. unfold init_http.
  destruct (negb _); [|destruct (bi_http io) as [[]|e]; [|done]]; destruct (_ <? _); simpl; intros [= <-]; done.
Qed.

(** C25. The HTTP surface opens last: whenever [initialize] has opened it, or has
    succeeded, every stage before it finished within the deadline, every
    configured provider came up, the inventory is what they answered and claims
    nothing twice, and the modes exist exactly when automation is enabled.  The
    planned safe-state rung was run on that inventory, unless it is configured off:
    every call of it in order, except those to devices reported missing or behind a
    stop chain in force, which are listed; a call reported done was sent, and on a
    connected inventory so was each the dry run accepts; the report says whether
    all succeeded.  When [initialize] succeeds, all nine stages were within the
    deadline. *)
Theorem http_opens_last {L D} `{IActuationLatch L} `{IDeviceLossLatch D} `{FloatText} `{StatusNames} `{JsonText}
    `{QualityNames} `{JsonLines} (cast : double → Z) (c : RuntimeConfig) (io : BootIO L D) (probe_interval_ms : Z) (fs : FS) :
  let '(res, s) := initialize_runtime cast c io probe_interval_ms fs in
  (bo_http_open s = true ∨ res = Some (Ok tt) →
   (∀ stage, stage ≠ Http_ → bi_elapsed io stage < rm_startup_timeout_ms (c_runtime c)) ∧
   Forall (comes_up (bi_boot io)) (c_providers c) ∧
   get_all_devices (in_registry (bo_inventory s)) = c_providers c ≫= found_devices (bi_boot io) ∧
   ¬ claim_conflict (get_all_devices (in_registry (bo_inventory s))) ∧
   startup_driven c io s ∧ bo_has_modes s = at_enabled (c_automation c)) ∧
  (res = Some (Ok tt) →
   bi_elapsed io Http_ < rm_startup_timeout_ms (c_runtime c) ∧ bo_http_open s = ht_enabled (c_http c)).
Proof.
  unfold initialize_runtime.
  rewrite <- (take_drop 8 (boot_stages cast c io probe_interval_ms fs)), run_stages_app.
  fold (before_http cast c io probe_interval_ms fs).
  pose proof (before_http_closed cast c io probe_interval_ms fs (unbooted fs) eq_refl) as Hclosed.
  pose proof (before_http_booted cast c io probe_interval_ms fs (unbooted fs)) as Hboot.
  destruct (run_stages c io (before_http cast c io probe_interval_ms fs) (unbooted fs)) as [[[[]|e]|] s1]; simpl in Hclosed;
    [|by split; [intros [E|E]; [rewrite Hclosed in E|]|]..].
  destruct (Hboot s1 eq_refl) as [Ht Hup Hd _ Hcl Ho Hm _ _ _].
  assert (∀ stage, stage ≠ Http_ → bi_elapsed io stage < rm_startup_timeout_ms (c_runtime c)) as Htime.
  { intros stage Hne. apply (proj1 (Forall_forall _ _) Ht). destruct stage; set_solver. }
  cbn [drop boot_stages run_stages]. unfold init_http. destruct (ht_enabled (c_http c)) eqn:Eh; simpl.
  - destruct (bi_http io) as [[]|http_error]; [|by split; [intros [E|E]; [rewrite Hclosed in E|]|]].
    destruct (Z.ltb_spec (bi_elapsed io Http_) (rm_startup_timeout_ms (c_runtime c))); by split_and!.
  - destruct (Z.ltb_spec (bi_elapsed io Http_) (rm_startup_timeout_ms (c_runtime c))); simpl; by split_and!.
Qed.

(** A stop in force at boot is obeyed before the first request: when [initialize]
    succeeds, or has opened the HTTP server, and the stop chain reads in force or
    unknown, the e-stop latch is engaged, and a machine with automation is in
    FAULT although the stop was first read before there was a mode manager. *)
Theorem boot_obeys_stop {L D} `{IActuationLatch L} `{IDeviceLossLatch D} `{FloatText} `{StatusNames} `{JsonText}
    `{QualityNames} `{JsonLines} (cast : double → Z) (c : RuntimeConfig) (io : BootIO L D) (probe_interval_ms : Z) (fs : FS) (mon : StopChainMonitor) :
  let '(res, s) := initialize_runtime cast c io probe_interval_ms fs in
  bo_http_open s = true ∨ res = Some (Ok tt) → bo_stop_chain s = Some mon → holds mon = true →
  latched_flag (sw_ctl (world (bo_mode s))) = true ∧
  (at_enabled (c_automation c) = true → current_mode_ (bo_mode s) = FAULT).
Proof.
  unfold initialize_runtime.
  rewrite <- (take_drop 8 (boot_stages cast c io probe_interval_ms fs)), run_stages_app.
  fold (before_http cast c io probe_interval_ms fs).
  pose proof (before_http_closed cast c io probe_interval_ms fs (unbooted fs) eq_refl) as Hclosed.
  pose proof (before_http_booted cast c io probe_interval_ms fs (unbooted fs)) as Hboot.
  destruct (run_stages c io (before_http cast c io probe_interval_ms fs) (unbooted fs)) as [[[[]|e]|] s1]; simpl in Hclosed;
    [|by intros [E|E]; [rewrite Hclosed in E|]..].
  destruct (Hboot s1 eq_refl) as [_ _ _ _ _ _ Hm Hheld Hfault _].
  assert (bo_stop_chain s1 = Some mon → holds mon = true → latched_flag (sw_ctl (world (bo_mode s1))) = true ∧
    (at_enabled (c_automation c) = true → current_mode_ (bo_mode s1) = FAULT)) as Hgoal.
  { intros Em Hh. split; [by apply (proj2 (Hheld mon Em))|]. intros Hen. apply (Hfault mon); congruence. }
  cbn [drop boot_stages run_stages]. unfold init_http. destruct (negb (ht_enabled (c_http c))).
  - destruct (_ <? _); intros _; exact Hgoal.
  - destruct (bi_http io) as [[]|http_error]; [|by intros [E|E]; [rewrite Hclosed in E|]].
    destruct (_ <? _); intros _; exact Hgoal.
Qed.

(** A machine with automation whose stop status cannot be read. *)
Definition sample_boot (elapsed : Z) : BootIO FixedLatch DeviceLossLatch.DeviceLossLatch :=
  mkBootIO (λ _, elapsed) (λ _, mkProviderBoot 0%nat (Ok tt) sample_discovery) 0 0 (mkLoadIO None true) ∅
    (sample_tick 0) [] LadderBench.ctx empty_loss_latch 1%nat sample_publishing 7 all_ok true true true (Ok tt).

Definition sample_config : RuntimeConfig :=
  mkRuntimeConfig default_runtime default_http
    [mkProviderConfig "sim0" "/opt/sim" [] 5000 5000 60000 default_restart_policy] 500 default_telemetry default_logging
    (mkAutomationSection true "tree.xml" 10 BLOCK REPEAT 3 [] [] [])
    (mkSafetyConfig LadderBench.safety StartSafeState StopBench.config) default_health "/etc/anolis".

Definition sample_booted (elapsed : Z) : option (result unit) * Booting :=
  initialize_runtime (H1 := plain_text) (H2 := Bench.names) (H3 := bit_text) (H4 := StopBench.q_names)
    (H5 := ascii_codec) (λ _, 0) sample_config (sample_boot elapsed) 60000 (empty_fs true).

Example http_opens_last_witness :
  let '(res, s) := sample_booted 10 in
  res = Some (Ok tt) ∧ bo_http_open s = true ∧ length (sw_sent (world (bo_mode s))) = 1%nat ∧
  startup_driven (H1 := plain_text) sample_config (sample_boot 10) s.
Proof.
  assert ((sample_booted 10).1 = Some (Ok tt)) as E by (vm_compute; reflexivity).
  assert (length (sw_sent (world (bo_mode (sample_booted 10).2))) = 1%nat) as El by (vm_compute; reflexivity).
  pose proof (http_opens_last (H1 := plain_text) (H2 := Bench.names) (H3 := bit_text) (H4 := StopBench.q_names)
    (H5 := ascii_codec) (λ _, 0) sample_config (sample_boot 10) 60000 (empty_fs true)) as Hb.
  fold (sample_booted 10) in Hb. destruct (sample_booted 10) as [res s]. destruct Hb as [Hall Hok].
  split; [exact E|]. split; [exact (proj2 (Hok E))|]. split; [exact El|].
  exact (proj1 (proj2 (proj2 (proj2 (proj2 (Hall (or_intror E))))))).
Defined.

Example boot_obeys_stop_witness :
  (sample_booted 10).1 = Some (Ok tt) ∧ latched_flag (sw_ctl (world (bo_mode (sample_booted 10).2))) = true ∧
  current_mode_ (bo_mode (sample_booted 10).2) = FAULT.
Proof.
  assert ((sample_booted 10).1 = Some (Ok tt)) as E by (vm_compute; reflexivity).
  destruct (bo_stop_chain (sample_booted 10).2) as [mon|] eqn:Em; [|vm_compute in Em; done].
  assert (holds mon = true) as Hh.
  { assert (match bo_stop_chain (sample_booted 10).2 with Some m => holds m | None => false end = true) as Hd
      by (vm_compute; reflexivity). by rewrite Em in Hd. }
  pose proof (boot_obeys_stop (H1 := plain_text) (H2 := Bench.names) (H3 := bit_text) (H4 := StopBench.q_names)
    (H5 := ascii_codec) (λ _, 0) sample_config (sample_boot 10) 60000 (empty_fs true) mon) as Hb.
  fold (sample_booted 10) in Hb. destruct (sample_booted 10) as [res s]. simpl in *.
  split; [exact E|]. destruct (Hb (or_intror E) Em Hh) as [Hl Hf]. split; [exact Hl|]. by apply Hf.
Defined.

(** A late stage: the error names it, and nothing after it was started. *)
Example late_boot_refused :
  (sample_booted 30000).1 =
    Some (Err "Runtime startup timeout exceeded after 'init_core_services' (30000ms >= 30000ms)") ∧
  in_providers (bo_inventory (sample_booted 30000).2) = ∅.
Proof. split; vm_compute; reflexivity. Qed.

(** ** Parameters *)

(** A configuration that is accepted may list a parameter whose default its own
    range refuses; it is then missing at run time. *)
Example accepted_parameter_dropped :
  let p := mkParameterConfig "speed" INT64 (PInt64 5) (Some (double_of_Z 10)) None [] in
  validate_parameter p = Ok tt ∧ parameters_ (load_parameters (H := plain_text) [p]) = ∅.
Proof. split; vm_compute; reflexivity. Qed.

Definition definition_of (p : ParameterConfig) : ParameterDef :=
  mkParameterDef (pc_name p) (pc_type p) (pc_default p) (pc_min p) (pc_max p)
    (if bool_decide (pc_allowed_values p = []) then None else Some (pc_allowed_values p)) false.

(** What the manager holds after start-up, for parameters with names of their
    own: a listed parameter as it is declared when its default satisfies its own
    constraints, and nothing else. *)
Theorem parameters_loaded `{FloatText} (ps : list ParameterConfig) (p : ParameterConfig) :
  NoDup (pc_name <$> ps) → p ∈ ps →
  parameters_ (load_parameters ps) !! pc_name p =
    if is_ok_b (validate (definition_of p) (pc_default p)) then Some (definition_of p) else None.
Proof.
  assert (∀ q qs, parameters_ (load_parameters (qs ++ [q])) =
    match parameters_ (load_parameters qs) !! pc_name q with
    | Some _ => parameters_ (load_parameters qs)
    | None => if is_ok_b (validate (definition_of q) (pc_default q))
              then <[pc_name q := definition_of q]> (parameters_ (load_parameters qs))
              else parameters_ (load_parameters qs)
    end) as Hsnoc.
  { intros q qs. unfold load_parameters. rewrite foldl_snoc. fold (load_parameters qs). unfold define.
    destruct (_ !! pc_name q); [done|]. fold (definition_of q). by destruct (validate _ _). }
  assert (∀ qs name, name ∉ pc_name <$> qs → parameters_ (load_parameters qs) !! name = None) as Hnew.
  { induction qs as [|q qs IH] using rev_ind; intros name Hn; [apply lookup_empty|].
    rewrite fmap_app, not_elem_of_app in Hn. destruct Hn as [Hn1 Hn2]. rewrite Hsnoc.
    destruct (_ !! pc_name q); [by apply IH|]. destruct (is_ok_b _); [|by apply IH].
    rewrite lookup_insert_ne; [by apply IH|]. intros <-. apply Hn2. by left. }
  induction ps as [|q qs IH] using rev_ind; [by intros _ ?%not_elem_of_nil|].
  rewrite fmap_app, NoDup_app. intros (Hnd & Hdis & _) Hin. rewrite Hsnoc.
  apply elem_of_app in Hin as [Hin| ->%list_elem_of_singleton].
  - assert (pc_name q ≠ pc_name p) as Hne.
    { intros E. apply (Hdis (pc_name p)); [by apply list_elem_of_fmap_2|]. rewrite <- E. by left. }
    rewrite <- IH by done. destruct (parameters_ (load_parameters qs) !! pc_name q); [done|].
    destruct (is_ok_b (validate (definition_of q) _)); [|done]. by rewrite lookup_insert_ne.
  - rewrite Hnew. 2:{ intros Hq. apply (Hdis _ Hq). by left. }
    destruct (is_ok_b _); [apply lookup_insert_eq|]. apply Hnew. intros Hq. apply (Hdis _ Hq). by left.
Qed.
