(* ===== verification/EntryPoint.v ===== *)
(** * The entry point ([core/src/main.cpp], [core/runtime/signal_handler.cpp])

    Command-line parsing, what each command does and its exit code, and the signal
    dispositions the runtime sets and hands on to its children.  Printing is left
    out; the file system's and the runtime's answers are arguments. *)

From S2P Require Import Prelude Config ConfigLoad.

(** ** Arguments *)

Inductive Command :=
| Run (config_path : string) (check_config_only : bool)
| Help
| Version
| UnknownArgument (arg : string).

(** The loop over [argv[1..]]. *)
Fixpoint parse_args (args : list string) (config_path : string) (check_only : bool) : Command :=
  match args with
  | [] => Run config_path check_only
  | arg :: rest =>
      match rest with
      | value :: rest' =>
          if bool_decide (arg = "--config") then parse_args rest' value check_only
          else if starts_with "--config=" arg then parse_args rest (str_drop 9 arg) check_only
          else if bool_decide (arg = "--check-config") then parse_args rest' value true
          else if bool_decide (arg = "--help") || bool_decide (arg = "-h") then Help
          else if bool_decide (arg = "--version") || bool_decide (arg = "-V") then Version
          else UnknownArgument arg
      | [] =>
          if starts_with "--config=" arg then parse_args rest (str_drop 9 arg) check_only
          else if bool_decide (arg = "--help") || bool_decide (arg = "-h") then Help
          else if bool_decide (arg = "--version") || bool_decide (arg = "-V") then Version
          else UnknownArgument arg
      end
  end.

(** ** What the process does *)

Inductive Step := Loaded_ (config_path : string) | Initialized | RanLoop.

(** The exit code and the steps reached. *)
Definition main (args : list string) (exists_ : string → bool) (load_file : string → result RuntimeConfig)
    (initialize : RuntimeConfig → result unit) : Z * list Step :=
  match parse_args args "anolis-runtime.yaml" false with
  | Help | Version => (0, [])
  | UnknownArgument _ => (1, [])
  | Run config_path check_only =>
      if negb (exists_ config_path) then (1, [])
      else match load_file config_path with
           | Err _ => (1, [])
           | Ok config =>
               if check_only then (0, [Loaded_ config_path])
               else match initialize config with
                    | Err _ => (1, [Loaded_ config_path])
                    | Ok _ => (0, [Loaded_ config_path; Initialized; RanLoop])
                    end
           end
  end.

(** ** Signals *)

Inductive Disposition := SigDfl | SigIgn | SigHandler (n : Z).

#[global] Instance Disposition_eq_dec : EqDecision Disposition.
Proof. solve_decision. Defined.

Record SignalState := mkSignals {
  shutdown_requested_ : bool;
  sigpipe : Disposition;
  sigint : Disposition;
  sigterm : Disposition;
  inherited_sigpipe : Disposition;
  sigpipe_saved : bool;             (* the once_flag *)
}.

Definition initial_signals (pipe int term : Disposition) : SignalState := mkSignals false pipe int term SigDfl false.

Definition handler : Disposition := SigHandler 1.   (* SignalHandler::handle_signal *)

Definition install (s : SignalState) : SignalState :=
  mkSignals false (sigpipe s) handler handler (inherited_sigpipe s) (sigpipe_saved s).

(** [std::signal(SIGPIPE, SIG_IGN)]: what it replaced, or [None] when it fails. *)
Definition signal_ignore (fails : bool) (s : SignalState) : SignalState * option Disposition :=
  if fails then (s, None)
  else (mkSignals (shutdown_requested_ s) SigIgn (sigint s) (sigterm s) (inherited_sigpipe s) (sigpipe_saved s),
        Some (sigpipe s)).

(** The first call saves the disposition it replaces; the arguments say whether
    its [signal] calls fail. *)
Definition ignore_broken_pipe (fails_first fails_then : bool) (s : SignalState) : SignalState :=
  let s1 :=
    if sigpipe_saved s then s
    else let '(s', previous) := signal_ignore fails_first s in
         mkSignals (shutdown_requested_ s') (sigpipe s') (sigint s') (sigterm s')
           (default (inherited_sigpipe s') previous) true in
  (signal_ignore fails_then s1).1.

Definition inherited_broken_pipe_disposition (s : SignalState) : Disposition := inherited_sigpipe s.

Definition is_shutdown_requested (s : SignalState) : bool := shutdown_requested_ s.

Definition handle_signal (s : SignalState) : SignalState :=
  mkSignals true (sigpipe s) (sigint s) (sigterm s) (inherited_sigpipe s) (sigpipe_saved s).

(** ** Theorems *)

Lemma main_cases args exists_ load_file initialize :
  main args exists_ load_file initialize =
  match parse_args args "anolis-runtime.yaml" false with
  | Run path check =>
      if exists_ path then
        match load_file path with
        | Err _ => (1, [])
        | Ok config => if check then (0, [Loaded_ path])
                       else match initialize config with Err _ => (1, [Loaded_ path])
                            | Ok _ => (0, [Loaded_ path; Initialized; RanLoop]) end
        end
      else (1, [])
  | UnknownArgument _ => (1, [])
  | _ => (0, [])
  end.
Proof. unfold main. destruct (parse_args _ _ _) as [path check| | |]; try done. by destruct (exists_ path). Qed.

(** The exit code says what happened: checking a configuration exits 0 exactly
    when the file exists and loads to a valid configuration, and starts nothing;
    running exits 0 only after the main loop ran, which it does exactly when the
    file exists, loads and the runtime initialises. *)
Theorem exit_code_means `{YamlConvert} `{StdStod} (args : list string) (exists_ : string → bool) (host : Host)
    (file : string → LoadedFile) (initialize : RuntimeConfig → result unit) (path : string) (check : bool) :
  parse_args args "anolis-runtime.yaml" false = Run path check →
  let '(code, steps) := main args exists_ (λ p, load_config host p (file p)) initialize in
  if check then
    (code = 0 ↔ exists_ path = true ∧ ∃ c, load_config host path (file path) = Ok c ∧ valid_config c) ∧
    (RanLoop ∉ steps) ∧ (Initialized ∉ steps)
  else
    (code = 0 ↔ RanLoop ∈ steps) ∧
    (RanLoop ∈ steps ↔ exists_ path = true ∧
       ∃ c, load_config host path (file path) = Ok c ∧ valid_config c ∧ initialize c = Ok tt).
Proof.
  intros Hp. rewrite main_cases, Hp.
  assert (∀ c, load_config host path (file path) = Ok c → valid_config c) as Hv.
  { intros c Hl. unfold load_config in Hl. destruct (file path) as [|what|root]; [done..|].
    destruct (load_root host path root) as [c'| |]; [|done..]. apply rbind_Ok in Hl as ([] & Hc & [= <-]).
    by apply validate_config_Ok. }
  assert (∀ x : Step, x ∈ [] ↔ False) as Hnil by set_solver.
  assert (∀ p : string, RanLoop ∈ [Loaded_ p] ↔ False) as Hone by set_solver.
  assert (∀ p : string, Initialized ∈ [Loaded_ p] ↔ False) as Hone' by set_solver.
  assert (∀ p : string, RanLoop ∈ [Loaded_ p; Initialized; RanLoop] ↔ True) as Hall by set_solver.
  destruct (exists_ path); [|destruct check; cbn; rewrite ?Hnil; clear; intuition discriminate].
  destruct (load_config host path (file path)) as [c|e].
  - specialize (Hv c eq_refl). destruct check; [|destruct (initialize c) as [[]|e] eqn:Ei];
      cbn; rewrite ?Hone, ?Hone', ?Hall; split; try (clear; intuition discriminate).
    + split; [intros _; split; [done|by exists c]|done].
    + split; [intros _; split; [done|by exists c]|done].
    + split; [done|]. intros (_ & c' & [= <-] & _ & Hi). congruence.
  - destruct check; cbn; rewrite ?Hnil; (split; [split|]); try (clear; easy).
    + intros (_ & c & Hl & _). discriminate Hl.
    + split; [done|]. intros (_ & c & Hl & _). discriminate Hl.
Qed.

Lemma saved_once (calls : list (bool * bool)) (int term kept now : Disposition) :
  let s := foldr (λ c, ignore_broken_pipe c.1 c.2) (mkSignals false now int term kept true) calls in
  inherited_sigpipe s = kept ∧ shutdown_requested_ s = false ∧ sigpipe_saved s = true ∧
  (now = SigIgn → sigpipe s = SigIgn).
Proof.
  intros s. subst s. induction calls as [|[f g] calls IH]; [by simpl|].
  cbn [foldr fst snd]. destruct (foldr _ _ calls) as [q p i t k d]. simpl in IH.
  destruct IH as (-> & -> & -> & Hi). by destruct g; simpl.
Qed.

(** The provider gets the disposition the runtime started with, however often
    SIGPIPE is ignored before it is spawned and whatever is installed later, unless
    the first [signal] fails; then it gets the default.  Once a first call
    succeeded the runtime itself ignores the signal. *)
Theorem broken_pipe_disposition_inherited (pipe int term : Disposition) (fails_first fails_then : bool)
    (again : list (bool * bool)) :
  let s := install (foldr (λ c, ignore_broken_pipe c.1 c.2)
                      (ignore_broken_pipe fails_first fails_then (initial_signals pipe int term)) again) in
  inherited_broken_pipe_disposition s = (if fails_first then SigDfl else pipe) ∧
  (fails_first = false → sigpipe s = SigIgn) ∧
  is_shutdown_requested s = false ∧ is_shutdown_requested (handle_signal s) = true.
Proof.
  assert (∃ now, ignore_broken_pipe fails_first fails_then (initial_signals pipe int term) =
      mkSignals false now int term (if fails_first then SigDfl else pipe) true ∧
      (fails_first = false → now = SigIgn)) as (now & Hn & Hi).
  { destruct fails_first, fails_then; eexists; (split; [reflexivity|done]). }
  intros s. subst s. rewrite Hn.
  destruct (saved_once again int term (if fails_first then SigDfl else pipe) now) as (Hk & Hq & _ & Hp).
  repeat split; [exact Hk|intros Hf; apply Hp, Hi, Hf].
Qed.

#[local] Existing Instance plain_yaml.
#[local] Existing Instance no_stod.

Example exit_code_means_witness :
  let '(code, steps) := main ["--check-config"; "/etc/anolis/runtime.yaml"] (λ _, true)
                          (λ p, load_config sample_host p (Loaded sample_root)) (λ _, Ok tt) in
  code = 0 ∧ (RanLoop ∉ steps).
Proof.
  pose proof (exit_code_means ["--check-config"; "/etc/anolis/runtime.yaml"] (λ _, true) sample_host
    (λ _, Loaded sample_root) (λ _, Ok tt) "/etc/anolis/runtime.yaml" true eq_refl) as He.
  assert (∃ c, load_config sample_host "/etc/anolis/runtime.yaml" (Loaded sample_root) = Ok c ∧ valid_config c) as Hc.
  { exists ConfigLoad.sample_config. split; [vm_compute; reflexivity|].
    apply validate_config_Ok. vm_compute. reflexivity. }
  destruct (main _ _ _ _) as [code steps]. destruct He as (He & Hn & _). split; [|exact Hn].
  apply He. split; [reflexivity|exact Hc].
Defined.
