(* ===== verification/HttpGate.v ===== *)
(** * The HTTP server's front ([core/http/auth.cpp], [core/http/server.cpp])

    What happens to a request before and after its handler: the Host, Origin and
    media-type checks, authentication, routing, the CORS headers and the error
    bodies, and starting and stopping the server.  The HTTP library is outside: a
    request gives its method, its path, the address it came from and, by name,
    the first value of each header. *)

From S2P Require Import Prelude Protocol Json Config.

(** ** Status codes ([core/http/errors.hpp]) *)

Inductive HttpCode :=
| HTTP_OK | HTTP_INVALID_ARGUMENT | HTTP_NOT_FOUND | HTTP_FAILED_PRECONDITION | HTTP_UNAVAILABLE
| HTTP_DEADLINE_EXCEEDED | HTTP_INTERNAL.

#[global] Instance HttpCode_eq_dec : EqDecision HttpCode.
Proof. solve_decision. Defined.

Definition status_code_to_http (code : HttpCode) : Z :=
  match code with
  | HTTP_OK => 200
  | HTTP_INVALID_ARGUMENT => 400
  | HTTP_NOT_FOUND => 404
  | HTTP_FAILED_PRECONDITION => 409
  | HTTP_UNAVAILABLE => 503
  | HTTP_DEADLINE_EXCEEDED => 504
  | HTTP_INTERNAL => 500
  end.

Definition status_code_to_string (code : HttpCode) : string :=
  match code with
  | HTTP_OK => "OK"
  | HTTP_INVALID_ARGUMENT => "INVALID_ARGUMENT"
  | HTTP_NOT_FOUND => "NOT_FOUND"
  | HTTP_FAILED_PRECONDITION => "FAILED_PRECONDITION"
  | HTTP_UNAVAILABLE => "UNAVAILABLE"
  | HTTP_DEADLINE_EXCEEDED => "DEADLINE_EXCEEDED"
  | HTTP_INTERNAL => "INTERNAL"
  end.

Definition make_status (code : HttpCode) (message : string) : json :=
  let msg := if bool_decide (message = "")
             then if bool_decide (code = HTTP_OK) then "ok" else status_code_to_string code
             else message in
  JObject [("code", JString (status_code_to_string code)); ("message", JString msg)].

Definition make_error_response (code : HttpCode) (message : string) : json :=
  JObject [("status", make_status code message)].

(** ** Authentication *)

Definition is_loopback (remote_addr : string) : bool :=
  bool_decide (remote_addr = "127.0.0.1") || bool_decide (remote_addr = "::1") ||
  bool_decide (remote_addr = "::ffff:127.0.0.1") || starts_with "127." remote_addr.

Definition byte_xor (a b : ascii) : Z := Z.lxor (Z.of_N (N_of_ascii a)) (Z.of_N (N_of_ascii b)).

(** The loop over the characters; equal lengths are checked before. *)
Fixpoint diff_of (diff : Z) (a b : string) : Z :=
  match a, b with
  | String x a', String y b' => diff_of (Z.lor diff (byte_xor x y)) a' b'
  | _, _ => diff
  end.

Definition constant_time_equals (a b : string) : bool :=
  if negb (String.length a =? String.length b)%nat then false else diff_of 0 a b =? 0.

Definition kPrefix : string := "Bearer ".

Definition authorize (auth_enabled exempt_loopback : bool) (expected_token remote_addr authorization_header : string)
    : bool :=
  if negb auth_enabled then true
  else if exempt_loopback && is_loopback remote_addr then true
  else if bool_decide (expected_token = "") then false
  else if (String.length authorization_header <=? String.length kPrefix)%nat ||
          negb (starts_with kPrefix authorization_header) then false
  else constant_time_equals (str_drop (String.length kPrefix) authorization_header) expected_token.

(** ** Origins and hosts *)

(** The text of [find_if]'s predicate. *)
Definition origin_matches (origin allowed : string) : bool :=
  if bool_decide (allowed = "*") then true
  else match split_first "*" allowed with
       | None => bool_decide (allowed = origin)
       | Some (prefix, suffix) =>
           if (String.length origin <? String.length prefix + String.length suffix)%nat then false
           else starts_with prefix origin && ends_with suffix origin
       end.

Definition allowed_origin_entry (allowed_origins : list string) (origin : string) : option string :=
  find (origin_matches origin) allowed_origins.

Definition tolower (c : ascii) : ascii :=
  let n := nat_of_ascii c in
  if ((65 <=? n) && (n <=? 90))%nat then ascii_of_nat (n + 32) else c.

Fixpoint string_tolower (s : string) : string :=
  match s with EmptyString => EmptyString | String c r => String (tolower c) (string_tolower r) end.

Definition host_name (host_header : string) : string :=
  string_tolower
    match host_header with
    | String "[" rest =>
        match split_first "]" rest with Some (name, _) => name | None => rest end
    | _ =>
        match split_first ":" host_header with
        | Some (name, rest) => if has_char ":" rest then host_header else name
        | None => host_header
        end
    end.

Definition host_allowed (host_header bind : string) : bool :=
  if bool_decide (host_header = "") then true
  else
    let name := host_name host_header in
    bool_decide (name = "localhost") || bool_decide (name = "127.0.0.1") || bool_decide (name = "::1") ||
    bool_decide (name = host_name bind).

Definition is_blank (c : ascii) : bool := Ascii.eqb c " " || Ascii.eqb c "009".

Fixpoint trim_start (s : string) : string :=
  match s with String c r => if is_blank c then trim_start r else s | EmptyString => EmptyString end.

(** Everything up to the last character that is not blank. *)
Fixpoint trim_end (s : string) : string :=
  match s with
  | EmptyString => EmptyString
  | String c r => match trim_end r with
                  | EmptyString => if is_blank c then EmptyString else char_string c
                  | t => String c t
                  end
  end.

Definition media_type (content_type : string) : string :=
  let type := match split_first ";" content_type with Some (t, _) => t | None => content_type end in
  string_tolower (trim_start (trim_end type)).

(** ** Requests and the guard *)

Record Request := mkRequest {
  rq_method : string;
  rq_path : string;
  rq_remote_addr : string;
  rq_header : string → option string;
}.

(** [get_header_value]. *)
Definition header_value (r : Request) (name : string) : string := default "" (rq_header r name).

(** The answer of a refused request: status, body, and whether a
    [WWW-Authenticate: Bearer] header goes with it. *)
Record Refusal := mkRefusal { rf_status : Z; rf_body : string; rf_challenge : bool }.

Definition dquote : string := char_string "034".

Definition refuse (status : Z) (message : string) : option Refusal :=
  Some (mkRefusal status ("{" +:+ dquote +:+ "error" +:+ dquote +:+ ":" +:+ dquote +:+ message +:+ dquote +:+ "}") false).

Definition is_guarded_post (r : Request) : bool :=
  bool_decide (rq_method r = "POST") && starts_with "/v0/" (rq_path r).

Definition declares_body (r : Request) : bool :=
  let length := header_value r "Content-Length" in
  (negb (bool_decide (length = "")) && negb (bool_decide (length = "0"))) ||
  bool_decide (is_Some (rq_header r "Transfer-Encoding")).

(** The checks of a POST below [/v0/]. *)
Definition check_post (origins : list string) (r : Request) : option Refusal :=
  if match rq_header r "Origin" with
     | Some origin => match allowed_origin_entry origins origin with None => true | Some _ => false end
     | None => false
     end
  then refuse 403 "origin not allowed"
  else if declares_body r && negb (bool_decide (media_type (header_value r "Content-Type") = "application/json"))
  then refuse 415 "a request body must be application/json"
  else None.

(** The pre-routing handler; [None] lets the request through. *)
Definition pre_routing (c : HttpConfig) (r : Request) : option Refusal :=
  let check_host := negb (ht_auth_enabled c) && negb (ht_allow_insecure_bind c) in
  if check_host && negb (host_allowed (header_value r "Host") (ht_bind c)) then refuse 403 "host not allowed"
  else
    match (if is_guarded_post r then check_post (ht_cors_allowed_origins c) r else None) with
    | Some refusal => Some refusal
    | None =>
        if authorize (ht_auth_enabled c) (ht_auth_exempt_loopback c) (ht_auth_token c) (rq_remote_addr r)
             (header_value r "Authorization") then None
        else match refuse 401 "unauthorized" with
             | Some f => Some (mkRefusal (rf_status f) (rf_body f) true)
             | None => None
             end
    end.

(** The headers added to every response. *)
Definition post_routing (c : HttpConfig) (r : Request) : list (string * string) :=
  match rq_header r "Origin" with
  | None => []
  | Some origin =>
      match allowed_origin_entry (ht_cors_allowed_origins c) origin with
      | None => []
      | Some allowed =>
          [("Access-Control-Allow-Origin", if bool_decide (allowed = "*") then "*" else origin);
           ("Access-Control-Allow-Methods", "GET, POST, OPTIONS");
           ("Access-Control-Allow-Headers", "Content-Type")] ++
          (if ht_cors_allow_credentials c then [("Access-Control-Allow-Credentials", "true")] else [])
      end
  end.

(** ** Error bodies *)

(** The error handler: the document it sends for a response without a body. *)
Definition error_document (r : Request) (status : Z) (body : string) : option json :=
  if negb (bool_decide (body = "")) then None
  else
    let '(code, message) :=
      if status =? 404 then (HTTP_NOT_FOUND, "Route not found: " +:+ rq_method r +:+ " " +:+ rq_path r)
      else if status =? 400 then (HTTP_INVALID_ARGUMENT, "Bad request")
      else (HTTP_INTERNAL, "Internal server error") in
    Some (make_error_response code message).

(** The exception handler; [what] is [None] for something that is no
    [std::exception]. *)
Definition exception_response (what : option string) : Z * json :=
  (500, make_error_response HTTP_INTERNAL (default "Unknown exception" what)).

(** ** Routes *)

Inductive Handler :=
| HGetDevices | HGetDeviceCapabilities | HGetState | HGetDeviceState | HPostCall | HPreflight
| HGetRuntimeStatus | HGetMode | HPostMode | HPostEstop | HPostEstopClear | HGetParameters | HPostParameters
| HGetAutomationTree | HGetAutomationStatus | HGetProvidersHealth | HGetTelemetryStatus
| HPostRuns | HGetRuns | HPostRunClose | HPostRunEvents | HGetRunEvents | HGetRun | HGetEvents.

(** A pattern is a path of literal segments and [([^/]+)]; [Tail] is a final [.*]. *)
Inductive Segment := Lit (s : string) | Any | Tail.

(** The text before and after each slash. *)
Fixpoint segments_from (cur s : string) : list string :=
  match s with
  | EmptyString => [cur]
  | String c r => if Ascii.eqb c slash then cur :: segments_from "" r else segments_from (cur +:+ char_string c) r
  end.

Fixpoint match_segments (pattern : list Segment) (path : list string) : bool :=
  match pattern, path with
  | [], [] => true
  | [Tail], _ :: _ => true
  | Lit s :: p, x :: q => bool_decide (s = x) && match_segments p q
  | Any :: p, x :: q => negb (bool_decide (x = "")) && match_segments p q
  | _, _ => false
  end.

Definition v0 (rest : list Segment) : list Segment := Lit "" :: Lit "v0" :: rest.

(** The routes in the order they are registered. *)
Definition routes : list (string * list Segment * Handler) :=
  [("GET", v0 [Lit "devices"], HGetDevices);
   ("GET", v0 [Lit "devices"; Any; Any; Lit "capabilities"], HGetDeviceCapabilities);
   ("GET", v0 [Lit "state"], HGetState);
   ("GET", v0 [Lit "state"; Any; Any], HGetDeviceState);
   ("POST", v0 [Lit "call"], HPostCall);
   ("OPTIONS", v0 [Lit "call"], HPreflight);
   ("OPTIONS", v0 [Tail], HPreflight);
   ("GET", v0 [Lit "runtime"; Lit "status"], HGetRuntimeStatus);
   ("GET", v0 [Lit "mode"], HGetMode);
   ("POST", v0 [Lit "mode"], HPostMode);
   ("POST", v0 [Lit "estop"], HPostEstop);
   ("POST", v0 [Lit "estop"; Lit "clear"], HPostEstopClear);
   ("GET", v0 [Lit "parameters"], HGetParameters);
   ("POST", v0 [Lit "parameters"], HPostParameters);
   ("GET", v0 [Lit "automation"; Lit "tree"], HGetAutomationTree);
   ("GET", v0 [Lit "automation"; Lit "status"], HGetAutomationStatus);
   ("GET", v0 [Lit "providers"; Lit "health"], HGetProvidersHealth);
   ("GET", v0 [Lit "telemetry"; Lit "status"], HGetTelemetryStatus);
   ("POST", v0 [Lit "runs"], HPostRuns);
   ("GET", v0 [Lit "runs"], HGetRuns);
   ("POST", v0 [Lit "runs"; Any; Lit "close"], HPostRunClose);
   ("POST", v0 [Lit "runs"; Any; Lit "events"], HPostRunEvents);
   ("GET", v0 [Lit "runs"; Any; Lit "events"], HGetRunEvents);
   ("GET", v0 [Lit "runs"; Any], HGetRun);
   ("GET", v0 [Lit "events"], HGetEvents)].

Definition route_matches (method path : string) (route : string * list Segment * Handler) : bool :=
  bool_decide (route.1.1 = method) && match_segments route.1.2 (segments_from "" path).

(** The library takes the first route that matches. *)
Definition dispatch_route (method path : string) : option Handler :=
  snd <$> find (route_matches method path) routes.

(** ** Starting and stopping *)

Record HttpServer := mkHttpServer { hs_running : bool; hs_port : Z }.

(** [ssl] is [None] in a build without TLS and otherwise whether the pair loads;
    [bind_any] and [bind_to] are the answers of the operating system. *)
Definition server_start (c : HttpConfig) (ssl : option bool) (bind_any : Z) (bind_to : bool) (s : HttpServer)
    : result unit * HttpServer :=
  if hs_running s then (Err "Server already running", s)
  else
    let tls := if bool_decide (ht_tls_cert_path c = "") then Ok tt
               else match ssl with
                    | None => Err "TLS configured (http.tls_cert_path) but this build lacks OpenSSL support"
                    | Some true => Ok tt
                    | Some false => Err ("Failed to load TLS certificate/key (cert='" +:+ ht_tls_cert_path c +:+
                                         "', key='" +:+ ht_tls_key_path c +:+ "')")
                    end in
    match tls with
    | Err e => (Err e, s)
    | Ok _ =>
        let bound_port := if ht_port c =? 0 then bind_any else if bind_to then ht_port c else -1 in
        if bound_port <? 0 then (Err ("Failed to bind to " +:+ ht_bind c +:+ ":" +:+ to_string (ht_port c)), s)
        else (Ok tt, mkHttpServer true bound_port)
    end.

Definition server_stop (s : HttpServer) : HttpServer := if hs_running s then mkHttpServer false (hs_port s) else s.

(** ** Authentication is equality of the presented token *)

Lemma byte_xor_eq a b : byte_xor a b = 0 ↔ a = b.
Proof.
  unfold byte_xor. rewrite Z.lxor_eq_0_iff. split; [|by intros ->].
  intros H. apply N2Z.inj in H. rewrite <- (ascii_N_embedding a), <- (ascii_N_embedding b). by f_equal.
Qed.

Lemma diff_of_eq d a b :
  String.length a = String.length b → diff_of d a b = 0 ↔ d = 0 ∧ a = b.
Proof.
  revert d b. induction a as [|x a IH]; intros d [|y b]; simpl; intros Hl; try done; [naive_solver|].
  rewrite IH by lia. rewrite Z.lor_eq_0_iff, byte_xor_eq. naive_solver.
Qed.

Lemma constant_time_equals_iff a b : constant_time_equals a b = true ↔ a = b.
Proof.
  unfold constant_time_equals. destruct (Nat.eqb_spec (String.length a) (String.length b)) as [Hl|Hl]; simpl.
  - rewrite Z.eqb_eq, diff_of_eq by done. naive_solver.
  - split; [done|by intros ->].
Qed.

(** The addresses of this machine itself. *)
Definition loopback_peer (addr : string) : Prop :=
  addr = "::1" ∨ addr = "::ffff:127.0.0.1" ∨ ∃ rest, addr = "127." +:+ rest.

Lemma is_loopback_iff addr : is_loopback addr = true ↔ loopback_peer addr.
Proof.
  unfold is_loopback, loopback_peer. rewrite !orb_true_iff, !bool_decide_eq_true. split.
  - intros [[[->|?]|?]|[rest ->]%starts_with_sound]; [|by auto..|by eauto]. right; right. by exists "0.0.1".
  - intros [?|[?|[rest ->]]]; [by auto..|right]. apply starts_with_app.
Qed.

(** What lets a request be: no authentication asked for, an exempt loopback peer,
    or the configured token, which is never empty. *)
Definition authorized (c : HttpConfig) (r : Request) : Prop :=
  ht_auth_enabled c = false ∨
  (ht_auth_exempt_loopback c = true ∧ loopback_peer (rq_remote_addr r)) ∨
  (ht_auth_token c ≠ "" ∧ header_value r "Authorization" = "Bearer " +:+ ht_auth_token c).

Lemma authorize_iff c r :
  authorize (ht_auth_enabled c) (ht_auth_exempt_loopback c) (ht_auth_token c) (rq_remote_addr r)
    (header_value r "Authorization") = true ↔ authorized c r.
Proof.
  unfold authorize, authorized. rewrite <- is_loopback_iff. destruct (ht_auth_enabled c); cbn [negb]; [|naive_solver].
  destruct (ht_auth_exempt_loopback c && is_loopback (rq_remote_addr r)) eqn:Hx.
  { apply andb_true_iff in Hx as [-> ->]. naive_solver. }
  assert (¬ (ht_auth_exempt_loopback c = true ∧ is_loopback (rq_remote_addr r) = true)) as Hx'
    by (intros [E1 E2]; by rewrite E1, E2 in Hx).
  case_bool_decide as Ht; [naive_solver|]. cbn [andb orb negb].
  destruct (starts_with kPrefix (header_value r "Authorization")) eqn:Hp; cbn [negb].
  - apply starts_with_sound in Hp as [t ->]. rewrite string_length_app, str_drop_app, orb_false_r.
    change (String.length kPrefix) with 7%nat. change kPrefix with "Bearer ".
    destruct (Nat.leb_spec (7 + String.length t) 7) as [Hl|Hl]; simpl.
    + destruct t; [|simpl in Hl; lia]. split; [done|]. intros [?|[?|[? He]]]; [done|naive_solver|].
      by apply string_app_inj_r in He.
    + rewrite constant_time_equals_iff. split; [intros ->; naive_solver|].
      intros [?|[?|[? He]]]; [done|naive_solver|]. by apply string_app_inj_r in He.
  - rewrite orb_true_r. split; [done|]. intros [?|[?|[? He]]]; [done|naive_solver|].
    rewrite He in Hp. by rewrite (starts_with_app "Bearer ") in Hp.
Qed.

(** ** Origins are matched as patterns *)

(** The origins an allowlist entry stands for. *)
Definition entry_admits (entry origin : string) : Prop :=
  match split_first "*" entry with
  | None => entry = origin
  | Some (prefix, suffix) => ∃ run, origin = prefix +:+ run +:+ suffix
  end.

Lemma app_same_length (p d a s : string) :
  String.length d = String.length s → p +:+ d = a +:+ s → p = a ∧ d = s.
Proof.
  intros Hl. revert a. induction p as [|x p IH]; intros [|y a]; rewrite ?string_app_cons; intros Ha; [done|..].
  - change ("" +:+ d) with d in Ha. subst d. simpl in Hl. rewrite string_length_app in Hl. lia.
  - change ("" +:+ s) with s in Ha. subst s. simpl in Hl. rewrite string_length_app in Hl. lia.
  - injection Ha as -> Ha. by destruct (IH a Ha) as [-> ->].
Qed.

Lemma origin_matches_iff origin entry : origin_matches origin entry = true ↔ entry_admits entry origin.
Proof.
  unfold origin_matches, entry_admits. case_bool_decide as He.
  { subst. split; [|done]. intros _. exists origin. simpl. by rewrite string_app_nil_r. }
  destruct (split_first "*" entry) as [[prefix suffix]|]; [|by rewrite bool_decide_eq_true].
  destruct (Nat.ltb_spec (String.length origin) (String.length prefix + String.length suffix)) as [Hl|Hl].
  - split; [done|]. intros [run ->]. rewrite !string_length_app in Hl. lia.
  - rewrite andb_true_iff, ends_with_iff. split.
    + intros [[b ->]%starts_with_sound [a Ha]]. rewrite string_length_app in Hl.
      destruct (str_split (String.length b - String.length suffix) b) as (run & Hb & Hrun); [lia|].
      exists run. f_equal. rewrite Hb. f_equal. rewrite Hb, <- string_app_assoc in Ha.
      assert (String.length (str_drop (String.length b - String.length suffix) b) = String.length suffix) as Hlen.
      { apply (f_equal String.length) in Hb. rewrite string_length_app in Hb. lia. }
      by apply (app_same_length _ _ _ _ Hlen) in Ha as [_ ?].
    + intros [run ->]. split; [apply starts_with_app|]. exists (prefix +:+ run). by rewrite string_app_assoc.
Qed.

Lemma allowed_origin_iff origins origin :
  is_Some (allowed_origin_entry origins origin) ↔ ∃ entry, entry ∈ origins ∧ entry_admits entry origin.
Proof.
  unfold allowed_origin_entry. split.
  - intros [e He]. apply find_some in He as [Hin He]. exists e.
    split; [by apply list_elem_of_In|by apply origin_matches_iff].
  - intros (e & Hin & He). apply origin_matches_iff in He. apply list_elem_of_In in Hin.
    destruct (find (origin_matches origin) origins) eqn:E; [by eexists|].
    by rewrite (find_none _ _ E e Hin) in He.
Qed.

(** ** Texts that differ in the case of their letters *)

Definition upper (c : ascii) : Prop := (65 ≤ nat_of_ascii c ≤ 90)%nat.
Definition same_letter (c d : ascii) : Prop :=
  c = d ∨ (upper c ∧ nat_of_ascii d = nat_of_ascii c + 32)%nat ∨ (upper d ∧ nat_of_ascii c = nat_of_ascii d + 32)%nat.
Fixpoint same_text (a b : string) : Prop :=
  match a, b with
  | EmptyString, EmptyString => True
  | String c a', String d b' => same_letter c d ∧ same_text a' b'
  | _, _ => False
  end.

Lemma nat_of_ascii_inj c d : nat_of_ascii c = nat_of_ascii d → c = d.
Proof. intros Hn. by rewrite <- (ascii_nat_embedding c), <- (ascii_nat_embedding d), Hn. Qed.

Lemma tolower_nat c :
  nat_of_ascii (tolower c) =
  (if bool_decide (65 ≤ nat_of_ascii c ≤ 90) then nat_of_ascii c + 32 else nat_of_ascii c)%nat.
Proof.
  unfold tolower. destruct (Nat.leb_spec 65 (nat_of_ascii c)), (Nat.leb_spec (nat_of_ascii c) 90); simpl;
    case_bool_decide; try lia; [|done..]. apply nat_ascii_embedding. lia.
Qed.

Lemma tolower_eq c d : tolower c = tolower d ↔ same_letter c d.
Proof.
  unfold same_letter, upper. trans (nat_of_ascii (tolower c) = nat_of_ascii (tolower d)).
  { split; [by intros ->|apply nat_of_ascii_inj]. }
  rewrite !tolower_nat. split.
  - case_bool_decide; case_bool_decide; intros; [left; apply nat_of_ascii_inj; lia|lia|lia|left; by apply nat_of_ascii_inj].
  - intros [->|[?|?]]; [done|..]; repeat case_bool_decide; lia.
Qed.

Lemma string_tolower_eq a b : string_tolower a = string_tolower b ↔ same_text a b.
Proof.
  revert b. induction a as [|c a IH]; intros [|d b]; simpl; try done.
  rewrite <- tolower_eq, <- IH. split; [by intros [= -> ->]|by intros [-> ->]].
Qed.

Lemma has_char_tolower c s : tolower c = c → has_char c s = true → has_char c (string_tolower s) = true.
Proof.
  intros Hc. induction s as [|d s IH]; simpl; [done|]. rewrite !orb_true_iff, !Ascii.eqb_eq.
  intros [->|?]; [by left|right; auto].
Qed.

(** ** Media types

    [application/json], in any case, within blanks, before any parameters. *)
Definition blanks (s : string) : Prop := ∀ c, has_char c s = true → c = " "%char ∨ c = "009"%char.

Definition names_json (content_type : string) : Prop :=
  ∃ a t b rest, content_type = a +:+ (t +:+ (b +:+ rest)) ∧ blanks a ∧ blanks b ∧
    same_text t "application/json" ∧ (rest = "" ∨ ∃ parameters, rest = String ";" parameters).

Lemma blanks_cons c s : blanks (String c s) ↔ is_blank c = true ∧ blanks s.
Proof.
  unfold blanks, is_blank. rewrite orb_true_iff, !Ascii.eqb_eq. split.
  - intros Hb. split; [apply Hb; simpl; by rewrite Ascii.eqb_refl|]. intros d Hd. apply Hb. simpl. by rewrite Hd, orb_true_r.
  - intros [Hc Hs] d [->%Ascii.eqb_eq|?]%orb_true_iff; [done|auto].
Qed.

Lemma trim_start_split s : ∃ a, s = a +:+ trim_start s ∧ blanks a.
Proof.
  induction s as [|c s (a & Hs & Ha)]; simpl; [by exists ""|].
  destruct (is_blank c) eqn:E; [|by exists ""]. exists (String c a). by rewrite string_app_cons, blanks_cons, <- Hs.
Qed.

Lemma trim_end_split s : ∃ b, s = trim_end s +:+ b ∧ blanks b.
Proof.
  induction s as [|c s (b & Hs & Hb)]; simpl; [by exists ""|].
  destruct (trim_end s) as [|d t] eqn:E; [|exists b; by rewrite string_app_cons, <- Hs].
  change ("" +:+ b) with b in Hs. subst b.
  destruct (is_blank c) eqn:Ec; [|by exists s]. exists (String c s). by rewrite blanks_cons.
Qed.

Lemma trim_start_blanks a s : blanks a → trim_start (a +:+ s) = trim_start s.
Proof. induction a as [|c a IH]; [done|]. rewrite blanks_cons, string_app_cons. simpl. intros [-> ?]. auto. Qed.

Lemma trim_end_blanks s b : blanks b → trim_end (s +:+ b) = trim_end s.
Proof.
  intros Hb. induction s as [|c s IH]; [|rewrite string_app_cons; simpl; by rewrite IH].
  change ("" +:+ b) with b. revert Hb. induction b as [|c b IH]; [done|]. rewrite blanks_cons. simpl.
  intros [-> Hb]. by rewrite IH.
Qed.

(** A text without blanks is kept. *)
Lemma trim_end_keeps a t :
  t ≠ "" → (∀ c, is_blank c = true → has_char c t = false) → trim_end (a +:+ t) = a +:+ t.
Proof.
  intros Hne Ht. induction a as [|c a IH].
  - change ("" +:+ t) with t. induction t as [|c t IH]; [done|]. simpl.
    destruct (is_blank c) eqn:Ec; [specialize (Ht c Ec); simpl in Ht; by rewrite Ascii.eqb_refl in Ht|].
    destruct t as [|d t]; [done|]. rewrite IH; [done|done|]. intros e He. specialize (Ht e He). by apply orb_false_iff in Ht as [_ ?].
  - rewrite string_app_cons. simpl. rewrite IH. destruct (a +:+ t) eqn:E; [|done]. by destruct a, t.
Qed.

Lemma trim_start_keeps t : (∀ c, is_blank c = true → has_char c t = false) → trim_start t = t.
Proof.
  destruct t as [|c t]; [done|]. intros Ht. simpl. destruct (is_blank c) eqn:Ec; [|done].
  specialize (Ht c Ec). simpl in Ht. by rewrite Ascii.eqb_refl in Ht.
Qed.

Lemma blanks_no_char c s : is_blank c = false → blanks s → has_char c s = false.
Proof.
  intros Hc Hs. apply not_true_is_false. intros [->| ->]%Hs; done.
Qed.

(** A character that lower-casing keeps is in a text if it is in its lower case. *)
Lemma json_no_char c t :
  same_text t "application/json" → tolower c = c → has_char c "application/json" = false → has_char c t = false.
Proof.
  intros Ht Hc Hn. apply not_true_is_false. intros Hin%has_char_tolower; [|done].
  apply string_tolower_eq in Ht. rewrite Ht in Hin. change (string_tolower "application/json") with "application/json" in Hin.
  congruence.
Qed.

Lemma media_type_iff s : media_type s = "application/json" ↔ names_json s.
Proof.
  unfold media_type, names_json. change "application/json" with (string_tolower "application/json") at 1.
  rewrite string_tolower_eq. split.
  - set (type := match split_first ";" s with Some (t, _) => t | None => s end). intros Ht.
    destruct (trim_end_split type) as (b & Hb & Hbb), (trim_start_split (trim_end type)) as (a & Ha & Hab).
    assert (∃ rest, s = type +:+ rest ∧ (rest = "" ∨ ∃ parameters, rest = String ";" parameters)) as (rest & Hs & Hr).
    { subst type. destruct (split_first ";" s) as [[x y]|] eqn:E; [|exists ""; by rewrite string_app_nil_r; auto].
      apply split_first_sound in E as [-> _]. eauto. }
    exists a, (trim_start (trim_end type)), b, rest. split_and!; try done.
    rewrite Hs, Hb at 1. rewrite Ha at 1. by rewrite !string_app_assoc.
  - intros (a & t & b & rest & -> & Ha & Hb & Ht & Hr).
    assert (has_char ";" (a +:+ (t +:+ b)) = false) as Hsemi.
    { rewrite !has_char_app, (blanks_no_char ";" a), (blanks_no_char ";" b), (json_no_char ";" t) by done. done. }
    assert ((match split_first ";" (a +:+ (t +:+ (b +:+ rest))) with Some (x, _) => x | None => a +:+ (t +:+ (b +:+ rest)) end)
            = a +:+ (t +:+ b)) as ->.
    { replace (a +:+ (t +:+ (b +:+ rest))) with ((a +:+ (t +:+ b)) +:+ rest) by (by rewrite !string_app_assoc).
      destruct Hr as [->|[ps ->]]; [|by rewrite split_first_app].
      rewrite string_app_nil_r. by rewrite (proj2 (split_first_None _ _) Hsemi). }
    assert (∀ c, is_blank c = true → has_char c t = false) as Hnb.
    { intros c [->%Ascii.eqb_eq| ->%Ascii.eqb_eq]%orb_true_iff; by eapply json_no_char. }
    rewrite <- string_app_assoc, trim_end_blanks, trim_end_keeps, trim_start_blanks, trim_start_keeps; try done.
    intros ->. done.
Qed.

(** ** Host names

    The name in a [Host] header or a bind address: the text in brackets, what
    stands before the port, or a bare IPv6 address, which has two colons. *)
Definition bracketed (s : string) : bool := match s with String c _ => Ascii.eqb c "[" | "" => false end.

Inductive names : string → string → Prop :=
| names_brackets n rest : has_char "]" n = false → names ("[" +:+ (n +:+ String "]" rest)) n
| names_unclosed n : has_char "]" n = false → names ("[" +:+ n) n
| names_port n port :
    bracketed (n +:+ String ":" port) = false → has_char ":" n = false → has_char ":" port = false →
    names (n +:+ String ":" port) n
| names_plain n : bracketed n = false → has_char ":" n = false → names n n
| names_ipv6 a b c :
    bracketed (a +:+ String ":" (b +:+ String ":" c)) = false →
    names (a +:+ String ":" (b +:+ String ":" c)) (a +:+ String ":" (b +:+ String ":" c)).

(** The host part, before its letters are lowered. *)
Lemma host_name_names host n : names host n → host_name host = string_tolower n.
Proof.
  assert (∀ s, bracketed s = false → host_name s = string_tolower
    match split_first ":" s with Some (name, rest) => if has_char ":" rest then s else name | None => s end) as Hplain.
  { intros [|c s] Hb; [done|]. simpl in Hb. unfold host_name. f_equal.
    destruct c as [[] [] [] [] [] [] [] []]; done. }
  assert (∀ s, host_name ("[" +:+ s) = string_tolower
    match split_first "]" s with Some (name, _) => name | None => s end) as Hbr by done.
  destruct 1 as [n rest Hn|n Hn|n port Hb Hn Hp|n Hb Hn|a b c Hb].
  - by rewrite Hbr, split_first_app.
  - by rewrite Hbr, (proj2 (split_first_None _ _) Hn).
  - rewrite Hplain, split_first_app by done. by rewrite Hp.
  - rewrite Hplain by done. by rewrite (proj2 (split_first_None _ _) Hn).
  - rewrite Hplain by done. destruct (split_first ":" _) as [[x y]|] eqn:E; [|done].
    destruct (has_char ":" a) eqn:Ha.
    + assert (has_char ":" y = true) as ->; [|done]. destruct (split_first ":" a) as [[u v]|] eqn:Eu.
      * apply split_first_sound in Eu as [-> Hu].
        rewrite string_app_assoc, string_app_cons, split_first_app in E by done. simplify_eq.
        rewrite has_char_app. simpl. by rewrite orb_true_r.
      * apply split_first_None in Eu. congruence.
    + rewrite split_first_app in E by done. simplify_eq. rewrite has_char_app. simpl. by rewrite orb_true_r.
Qed.

Lemma names_exists host : ∃ n, names host n.
Proof.
  destruct (bracketed host) eqn:Hb.
  - destruct host as [|c s]; [done|]. apply Ascii.eqb_eq in Hb as ->.
    destruct (split_first "]" s) as [[n rest]|] eqn:E.
    + apply split_first_sound in E as [-> ?]. exists n. by apply (names_brackets n rest).
    + exists s. by apply (names_unclosed s), split_first_None.
  - destruct (split_first ":" host) as [[n rest]|] eqn:E.
    + apply split_first_sound in E as [-> ?]. destruct (split_first ":" rest) as [[b c]|] eqn:E2.
      * apply split_first_sound in E2 as [-> ?]. eexists. by apply names_ipv6.
      * apply split_first_None in E2. exists n. by apply names_port.
    + exists host. by apply names_plain, split_first_None.
Qed.

(** ** Requests that are admitted *)

(** A request without a [Host], or one whose [Host] names loopback or the
    address the server is bound to, in any case and with any port. *)
Definition names_this_host (bind host : string) : Prop :=
  host = "" ∨ ∃ n m, names host n ∧ same_text n m ∧
    (m = "localhost" ∨ m = "127.0.0.1" ∨ m = "::1" ∨ names bind m).

Definition has_body (r : Request) : Prop :=
  (∃ v, rq_header r "Transfer-Encoding" = Some v) ∨
  ∃ v, rq_header r "Content-Length" = Some v ∧ v ≠ "" ∧ v ≠ "0".

Definition content_type_json (r : Request) : Prop :=
  ∃ v, rq_header r "Content-Type" = Some v ∧ names_json v.

(** A request that changes something: a POST below [/v0/]. *)
Definition is_command (r : Request) : Prop := rq_method r = "POST" ∧ ∃ rest, rq_path r = "/v0/" +:+ rest.

Definition admitted (c : HttpConfig) (r : Request) : Prop :=
  (ht_auth_enabled c = true ∨ ht_allow_insecure_bind c = true ∨ names_this_host (ht_bind c) (header_value r "Host")) ∧
  (is_command r →
     (∀ origin, rq_header r "Origin" = Some origin →
        ∃ entry, entry ∈ ht_cors_allowed_origins c ∧ entry_admits entry origin) ∧
     (has_body r → content_type_json r)) ∧
  authorized c r.

Lemma host_allowed_iff host bind : host_allowed host bind = true ↔ names_this_host bind host.
Proof.
  unfold host_allowed, names_this_host. case_bool_decide; [naive_solver|].
  rewrite !orb_true_iff, !bool_decide_eq_true.
  assert (∀ n m, names host n → same_text n m ↔ host_name host = string_tolower m) as Hsame.
  { intros n m Hn. by rewrite (host_name_names _ _ Hn), string_tolower_eq. }
  destruct (names_exists host) as [n Hn]. split.
  - intros Hor. right. exists n.
    destruct Hor as [[[E|E]|E]|E]; [exists "localhost"|exists "127.0.0.1"|exists "::1"|];
      try (split; [done|]; split; [by apply Hsame|by auto]).
    destruct (names_exists bind) as [m Hm]. exists m. split; [done|]. split; [|by auto].
    apply Hsame; [done|]. by rewrite E, (host_name_names _ _ Hm).
  - intros [?|(n' & m & Hn' & Hs & Hm)]; [done|]. apply (Hsame _ _ Hn') in Hs. rewrite Hs.
    destruct Hm as [->|[->|[->|Hm]]]; [by auto..|]. right. by rewrite (host_name_names _ _ Hm).
Qed.

Lemma declares_body_iff r : declares_body r = true ↔ has_body r.
Proof.
  unfold declares_body, has_body, header_value. rewrite orb_true_iff, andb_true_iff, !negb_true_iff, !bool_decide_eq_false, bool_decide_eq_true.
  destruct (rq_header r "Content-Length"); simpl; unfold is_Some; naive_solver.
Qed.

Lemma content_type_iff r :
  media_type (header_value r "Content-Type") = "application/json" ↔ content_type_json r.
Proof.
  unfold content_type_json, header_value. destruct (rq_header r "Content-Type") as [v|]; simpl.
  - rewrite media_type_iff. naive_solver.
  - split; [done|naive_solver].
Qed.

Lemma is_guarded_post_iff r : is_guarded_post r = true ↔ is_command r.
Proof.
  unfold is_guarded_post, is_command. rewrite andb_true_iff, bool_decide_eq_true. f_equiv. split.
  - apply starts_with_sound.
  - intros [rest ->]. apply starts_with_app.
Qed.

Lemma check_post_None origins r :
  check_post origins r = None ↔
  (∀ origin, rq_header r "Origin" = Some origin → ∃ entry, entry ∈ origins ∧ entry_admits entry origin) ∧
  (has_body r → content_type_json r).
Proof.
  unfold check_post. rewrite <- declares_body_iff, <- content_type_iff.
  assert ((if declares_body r && negb (bool_decide (media_type (header_value r "Content-Type") = "application/json"))
           then refuse 415 "a request body must be application/json" else None) = None ↔
          (declares_body r = true → media_type (header_value r "Content-Type") = "application/json")) as Hbody.
  { destruct (declares_body r); simpl; [|naive_solver]. case_bool_decide; simpl; naive_solver. }
  destruct (rq_header r "Origin") as [origin|] eqn:Ho; [|rewrite Hbody; naive_solver].
  pose proof (allowed_origin_iff origins origin) as Ha.
  destruct (allowed_origin_entry origins origin) as [e|] eqn:Ee.
  - rewrite Hbody. split; [|naive_solver]. intros Hb. split; [|done]. intros o [= <-]. by apply Ha.
  - split; [done|]. intros [H _]. exfalso. destruct (proj2 Ha) as [? ?]; [by apply H|done].
Qed.

(** C39. The check before routing lets a request through exactly when it is
    admitted.  With authentication off and no deliberate exposure it names this
    machine in [Host], or has no [Host] at all.  If it is a POST below [/v0/],
    then an [Origin] it carries is one the allowlist stands for, and a body it
    declares is declared [application/json], in any case, with or without
    parameters; one that carries no [Origin] or declares no body is not held to
    that.  And it is authorized: no authentication is configured, or the peer is
    an exempt loopback address, or it presents the configured, non-empty token.
    Every request not admitted is refused; one that is admitted goes on to
    routing, which may still answer that there is no such route. *)
Theorem only_admitted_requests_are_routed c r : pre_routing c r = None ↔ admitted c r.
Proof.
  unfold pre_routing, admitted. rewrite <- authorize_iff, <- host_allowed_iff, <- is_guarded_post_iff, <- check_post_None.
  assert ((ht_auth_enabled c = true ∨ ht_allow_insecure_bind c = true ∨
           host_allowed (header_value r "Host") (ht_bind c) = true) ↔
    negb (ht_auth_enabled c) && negb (ht_allow_insecure_bind c) &&
    negb (host_allowed (header_value r "Host") (ht_bind c)) = false) as ->.
  { destruct (ht_auth_enabled c), (ht_allow_insecure_bind c), (host_allowed _ _); naive_solver. }
  assert ((is_guarded_post r = true → check_post (ht_cors_allowed_origins c) r = None) ↔
    (if is_guarded_post r then check_post (ht_cors_allowed_origins c) r else None) = None) as ->
    by (destruct (is_guarded_post r); naive_solver).
  destruct (_ && _ && negb _); [naive_solver|]. destruct (if is_guarded_post r then _ else _); [naive_solver|].
  destruct (authorize _ _ _ _ _); naive_solver.
Qed.

(** With authentication off and no deliberate exposure, a page that re-points its
    own name at this machine does not get a request through. *)
Lemma rebound_name_refused c r :
  ht_auth_enabled c = false → ht_allow_insecure_bind c = false →
  ¬ names_this_host (ht_bind c) (header_value r "Host") → ∃ f, pre_routing c r = Some f ∧ rf_status f = 403.
Proof.
  intros Ha Hi Hn. rewrite <- host_allowed_iff in Hn. apply not_true_is_false in Hn.
  unfold pre_routing. rewrite Ha, Hi, Hn. simpl. eauto.
Qed.

(** Under a valid configuration only a page whose origin the allowlist stands
    for may read an answer, and one that may do so with credentials is named
    itself, by an entry other than the wildcard. *)
Theorem cors_answers_listed_origins c r origin :
  validate_http c = Ok tt → ht_enabled c = true → rq_header r "Origin" = Some origin →
  (post_routing c r ≠ [] → ∃ entry, entry ∈ ht_cors_allowed_origins c ∧ entry_admits entry origin) ∧
  (("Access-Control-Allow-Credentials", "true") ∈ post_routing c r →
     ("Access-Control-Allow-Origin", origin) ∈ post_routing c r ∧
     ∃ entry, entry ∈ ht_cors_allowed_origins c ∧ entry ≠ "*" ∧ entry_admits entry origin).
Proof.
  intros Hvalid Hen Ho. apply validate_http_Ok in Hvalid. destruct (Hvalid Hen) as (_ & _ & Hwild & _).
  unfold post_routing. rewrite Ho. pose proof (allowed_origin_iff (ht_cors_allowed_origins c) origin) as Ha.
  destruct (allowed_origin_entry _ _) as [e|] eqn:E; [|split; [done|by intros ?%elem_of_nil]].
  split; [intros _; by apply Ha|]. intros Hcred.
  assert (ht_cors_allow_credentials c = true) as Hc.
  { destruct (ht_cors_allow_credentials c); [done|]. rewrite app_nil_r in Hcred. set_solver. }
  apply find_some in E as [Hin He]. apply list_elem_of_In in Hin. apply origin_matches_iff in He.
  assert (e ≠ "*") as Hne by (intros ->; by apply Hwild).
  split; [|by exists e]. rewrite bool_decide_false by done. by left.
Qed.

(** ** Routes do not overlap *)

(** Whether some path matches both patterns. *)
Fixpoint overlap (p q : list Segment) : bool :=
  match p, q with
  | [], [] => true
  | Tail :: _, _ | _, Tail :: _ => true
  | Lit a :: p', Lit b :: q' => bool_decide (a = b) && overlap p' q'
  | Lit a :: p', Any :: q' | Any :: p', Lit a :: q' => negb (bool_decide (a = "")) && overlap p' q'
  | Any :: p', Any :: q' => overlap p' q'
  | _, _ => false
  end.

Lemma overlap_complete p q path :
  match_segments p path = true → match_segments q path = true → overlap p q = true.
Proof.
  revert q path. induction p as [|s p IH]; intros [|t q] path; simpl; try done.
  - by destruct t, path.
  - by destruct s as [| |], p, path.
  - destruct path as [|x path]; [by destruct s, p|].
    destruct s as [a| |], t as [b| |]; try done; intros Hp Hq; bool_facts; subst; rewrite ?bool_decide_true by done; simpl;
      try (rewrite (bool_decide_false _) by done; simpl); by eapply IH.
Qed.

Fixpoint no_overlap (l : list (string * list Segment * Handler)) : bool :=
  match l with
  | [] => true
  | r :: rest =>
      forallb (λ r', negb (bool_decide (r.1.1 = r'.1.1)) || bool_decide (r.1.1 = "OPTIONS") || negb (overlap r.1.2 r'.1.2)) rest &&
      no_overlap rest
  end.

Lemma no_overlap_unique method path l i j r r' :
  no_overlap l = true → method ≠ "OPTIONS" → l !! i = Some r → l !! j = Some r' →
  route_matches method path r = true → route_matches method path r' = true → i = j.
Proof.
  intros Hl Hm. revert i j. induction l as [|x l IH]; intros i j; [done|].
  simpl in Hl. apply andb_true_iff in Hl as [Hx Hl]. rewrite forallb_forall in Hx.
  assert (∀ y k, l !! k = Some y → route_matches method path x = true → route_matches method path y = true → False) as Hno.
  { intros y k Hk [Hm1 Hp1]%andb_true_iff [Hm2 Hp2]%andb_true_iff. bool_facts.
    specialize (Hx y (proj1 (list_elem_of_In _ _) (list_elem_of_lookup_2 _ _ _ Hk))).
    rewrite (overlap_complete _ _ _ Hp1 Hp2) in Hx. subst method. rewrite Hm2 in Hx.
    rewrite bool_decide_true, bool_decide_false in Hx by congruence. done. }
  destruct i as [|i], j as [|j]; simpl; intros Hi Hj Hr Hr'; simplify_eq; [done|exfalso; eauto..|].
  f_equal. by eapply IH.
Qed.

(** Apart from the preflight catch-all no two routes share a path, so which
    handler a request gets does not depend on the order they are registered in;
    and nothing outside [/v0/] is routed. *)
Theorem routes_unambiguous method path i j r r' :
  method ≠ "OPTIONS" → routes !! i = Some r → routes !! j = Some r' →
  route_matches method path r = true → route_matches method path r' = true →
  i = j ∧ dispatch_route method path = Some r.2 ∧ take 2 (segments_from "" path) = [""; "v0"].
Proof.
  intros Hm Hi Hj Hr Hr'. split_and!.
  - by eapply (no_overlap_unique method path routes).
  - unfold dispatch_route. destruct (find (route_matches method path) routes) as [x|] eqn:E.
    + apply find_some in E as [Hin Hx]. apply list_elem_of_In, list_elem_of_lookup in Hin as [k Hk].
      assert (i = k) as <- by (by eapply (no_overlap_unique method path routes)). simpl. congruence.
    + apply list_elem_of_lookup_2, list_elem_of_In in Hi. by rewrite (find_none _ _ E r Hi) in Hr.
  - apply list_elem_of_lookup_2 in Hi. apply andb_true_iff in Hr as [_ Hp].
    assert (Forall (λ r : string * list Segment * Handler, take 2 r.1.2 = [Lit ""; Lit "v0"]) routes) as Hall
      by (by repeat constructor).
    rewrite Forall_forall in Hall. specialize (Hall r Hi). destruct r as [[? pattern] ?]. simpl in *.
    destruct pattern as [|[?| |] [|[?| |] pattern]]; try done. simplify_eq.
    destruct (segments_from "" path) as [|x [|y q]]; [done|by apply andb_true_iff in Hp as [_ ?]|].
    apply andb_true_iff in Hp as [Hx Hp]. apply andb_true_iff in Hp as [Hy _]. bool_facts. simpl in Hall. simplify_eq. simpl. by destruct q.
Qed.

Lemma routes_unambiguous_witness : dispatch_route "GET" "/v0/runs/01J/events" = Some HGetRunEvents.
Proof.
  apply (routes_unambiguous "GET" "/v0/runs/01J/events" 22 22 ("GET", v0 [Lit "runs"; Any; Lit "events"], HGetRunEvents)
    ("GET", v0 [Lit "runs"; Any; Lit "events"], HGetRunEvents)); by vm_compute.
Defined.

Definition sample_http : HttpConfig :=
  mkHttpConfig true "127.0.0.1" 8080 ["https://*.lab.example"] true 40 false "" false false "" "".

Definition sample_request (origin : string) : Request :=
  mkRequest "POST" "/v0/mode" "10.0.0.7" (λ name,
    if bool_decide (name = "Origin") then Some origin
    else if bool_decide (name = "Host") then Some "LOCALHOST:8080"
    else if bool_decide (name = "Content-Length") then Some "17"
    else if bool_decide (name = "Content-Type") then Some "application/json ; charset=utf-8" else None).

Example sample_admitted : pre_routing sample_http (sample_request "https://a.lab.example") = None.
Proof. by vm_compute. Qed.

Example sample_refused : rf_status <$> pre_routing sample_http (sample_request "https://evil.example") = Some 403.
Proof. by vm_compute. Qed.

Lemma cors_answers_listed_origins_witness :
  ∃ entry, entry ∈ ht_cors_allowed_origins sample_http ∧ entry_admits entry "https://a.lab.example".
Proof.
  apply (cors_answers_listed_origins sample_http (sample_request "https://a.lab.example") "https://a.lab.example");
    by vm_compute.
Defined.
