(* ===== verification/HttpJson.v ===== *)
(** * The HTTP value codec ([core/http/json.cpp])

    Base64, values and call requests as JSON, and the documents that describe
    devices, signals and functions.  Bytes are strings of characters. *)

From S2P Require Import Prelude Protocol Json Registry StateCache CallRouter HttpGate.

(** ** Base64 *)

Definition base64_chars : string := "ABCDEFGHIJKLMNOPQRSTUVWXYZabcdefghijklmnopqrstuvwxyz0123456789+/".

Definition byte_Z (c : ascii) : Z := Z.of_N (N_of_ascii c).

(** [char(z & 0xFF)]. *)
Definition Z_byte (z : Z) : ascii := ascii_of_N (Z.to_N (Z.land z 255)).

Definition enc64 (z : Z) : ascii := default "="%char (String.get (Z.to_nat (Z.land z 63)) base64_chars).

(** The inner loop: one character per six bits at hand.  Between bytes fewer than
    six are left over, so two rounds are enough. *)
Fixpoint push_sextets (fuel : nat) (val bits : Z) (encoded : string) : Z * string :=
  match fuel with
  | O => (bits, encoded)
  | S fuel =>
      if 0 <=? bits then push_sextets fuel val (bits - 6) (encoded +:+ char_string (enc64 (Z.shiftr val bits)))
      else (bits, encoded)
  end.

(** The loop over the bytes, and the bits left at its end. *)
Fixpoint encode_bytes (bytes : string) (val bits : Z) (encoded : string) : Z * Z * string :=
  match bytes with
  | EmptyString => (val, bits, encoded)
  | String c rest =>
      let val' := to_uint32 (Z.shiftl val 8 + byte_Z c) in
      let '(bits', encoded') := push_sextets 2 val' (bits + 8) encoded in
      encode_bytes rest val' bits' encoded'
  end.

Fixpoint pad (fuel : nat) (encoded : string) : string :=
  match fuel with
  | O => encoded
  | S fuel => if (String.length encoded mod 4 =? 0)%nat then encoded else pad fuel (encoded +:+ "=")
  end.

(** The last partial sextet, and the padding. *)
Definition finish (register : Z * Z * string) : string :=
  let '(val, bits, encoded) := register in
  pad 3 (if -6 <? bits then encoded +:+ char_string (enc64 (Z.shiftr (to_uint32 (Z.shiftl val 8)) (bits + 8)))
         else encoded).

Definition base64_encode (bytes : string) : string := finish (encode_bytes bytes 0 (-6) "").

(** The table [T], [None] for -1. *)
Fixpoint index_in (c : ascii) (s : string) (i : Z) : option Z :=
  match s with
  | EmptyString => None
  | String x r => if Ascii.eqb x c then Some i else index_in c r (i + 1)
  end.

Fixpoint decode_chars (encoded : string) (val bits : Z) (decoded : string) : option string :=
  match encoded with
  | EmptyString => Some decoded
  | String c rest =>
      if Ascii.eqb c "=" then Some decoded
      else match index_in c base64_chars 0 with
           | None => None
           | Some t =>
               let val' := to_uint32 (Z.shiftl val 6 + t) in
               if 0 <=? bits + 6
               then decode_chars rest val' (bits + 6 - 8) (decoded +:+ char_string (Z_byte (Z.shiftr val' (bits + 6))))
               else decode_chars rest val' (bits + 6) decoded
           end
  end.

Definition base64_decode (encoded : string) : option string := decode_chars encoded 0 (-8) "".

(** ** Names of enumerators *)

Definition http_quality_to_string (q : Quality) : string :=
  match q with
  | QUALITY_OK => "OK"
  | QUALITY_STALE => "STALE"
  | QUALITY_UNKNOWN => "UNAVAILABLE"
  | QUALITY_FAULT => "FAULT"
  | _ => "UNAVAILABLE"
  end.

Definition http_value_type_to_string (t : ValueType) : string :=
  match t with
  | VALUE_TYPE_DOUBLE => "double"
  | VALUE_TYPE_INT64 => "int64"
  | VALUE_TYPE_UINT64 => "uint64"
  | VALUE_TYPE_BOOL => "bool"
  | VALUE_TYPE_STRING => "string"
  | VALUE_TYPE_BYTES => "bytes"
  | VALUE_TYPE_OTHER _ => "unknown"
  end.

Definition function_category_to_string (c : Category) : string :=
  match c with
  | CATEGORY_READ => "READ"
  | CATEGORY_CONFIG => "CONFIG"
  | CATEGORY_ACTUATE => "ACTUATE"
  | _ => "UNSPECIFIED"
  end.

(** ** Values *)

Definition encode_value (v : Value) : json :=
  JObject match v_type v with
          | VALUE_TYPE_DOUBLE => [("double", JFloat (double_value v)); ("type", JString "double")]
          | VALUE_TYPE_INT64 => [("int64", JInt (int64_value v)); ("type", JString "int64")]
          | VALUE_TYPE_UINT64 => [("type", JString "uint64"); ("uint64", JInt (uint64_value v))]
          | VALUE_TYPE_BOOL => [("bool", JBool (bool_value v)); ("type", JString "bool")]
          | VALUE_TYPE_STRING => [("string", JString (string_value v)); ("type", JString "string")]
          | VALUE_TYPE_BYTES => [("base64", JString (base64_encode (bytes_value v))); ("type", JString "bytes")]
          | VALUE_TYPE_OTHER _ => [("type", JString "unknown")]
          end.

Section Decode.
(** [cast] is the conversion of a double to an integer; [what] is the text of the
    exception the accessors throw on a document. *)
Context (cast : double → Z) (what : json → string).

(** One typed member, with the accessor's exception and the value's type. *)
Definition decode_member {A} (type field : string) (get : json → option A) (build : A → Value) (doc : json) : result Value :=
  match jget field doc with
  | None => Err ("Value type '" +:+ type +:+ "' missing '" +:+ field +:+ "' field")
  | Some j => match get j with
              | Some a => Ok (build a)
              | None => Err ("JSON parse error: " +:+ what doc)
              end
  end.

Definition decode_value (doc : json) : result Value :=
  match jget "type" doc with
  | None => Err "Value missing 'type' field"
  | Some t =>
      match jstring t with
      | None => Err ("JSON parse error: " +:+ what doc)
      | Some type =>
          if bool_decide (type = "double") then
            decode_member type "double" jdouble (λ d, mkValue VALUE_TYPE_DOUBLE (KDouble d)) doc
          else if bool_decide (type = "int64") then
            decode_member type "int64" (jnumber to_int64 cast) (λ z, mkValue VALUE_TYPE_INT64 (KInt64 z)) doc
          else if bool_decide (type = "uint64") then
            decode_member type "uint64" (jnumber to_uint64 cast) (λ z, mkValue VALUE_TYPE_UINT64 (KUint64 z)) doc
          else if bool_decide (type = "bool") then
            decode_member type "bool" jbool (λ b, mkValue VALUE_TYPE_BOOL (KBool b)) doc
          else if bool_decide (type = "string") then
            decode_member type "string" jstring (λ s, mkValue VALUE_TYPE_STRING (KString s)) doc
          else if bool_decide (type = "bytes") then
            try decoded <- decode_member type "base64" jstring (λ s, mkValue VALUE_TYPE_BYTES (KBytes s)) doc ;;
            match base64_decode (bytes_value decoded) with
            | Some bytes => Ok (mkValue VALUE_TYPE_BYTES (KBytes bytes))
            | None => Err "Invalid Base64 encoding in 'base64' field"
            end
          else Err ("Unknown value type: " +:+ type)
      end
  end.

(** ** Call requests *)

Record CallBody := mkCallBody {
  cb_provider_id : string;
  cb_device_id : string;
  cb_function_id : Z;
  cb_args : gmap string Value;
}.

Fixpoint decode_args (items : list (string * json)) (args : gmap string Value) : result (gmap string Value) :=
  match items with
  | [] => Ok args
  | (key, val) :: rest =>
      match decode_value val with
      | Ok v => decode_args rest (<[key := v]> args)
      | Err error => Err ("Invalid value for arg '" +:+ key +:+ "': " +:+ error)
      end
  end.

Definition decode_call_request (doc : json) : result CallBody :=
  match jget "provider_id" doc, jget "device_id" doc, jget "function_id" doc with
  | None, _, _ => Err "Missing 'provider_id'"
  | _, None, _ => Err "Missing 'device_id'"
  | _, _, None => Err "Missing 'function_id'"
  | Some p, Some d, Some f =>
      match jstring p, jstring d, jinteger to_uint32 cast f with
      | Some provider, Some device, Some function =>
          match jget "args" doc with
          | None => Ok (mkCallBody provider device function ∅)
          | Some (JObject items) =>
              try args <- decode_args items ∅ ;; Ok (mkCallBody provider device function args)
          | Some _ => Err "'args' must be an object"
          end
      | _, _, _ => Err ("JSON parse error: " +:+ what doc)
      end
  end.
End Decode.

(** ** Describing devices *)

(** An object from its members, whatever order they are written in. *)
Definition jobject (members : list (string * json)) : json := JObject (map_items (list_to_map members : gmap string json)).

Definition jtexts (l : list string) : json := JArray (JString <$> l).

Definition encode_signal_value (cached : CachedSignalValue) (signal_id : string) (now : Z) : json :=
  jobject [("signal_id", JString signal_id);
           ("value", encode_value (csv_value cached));
           ("timestamp_epoch_ms", JInt (ms_of_ns (csv_timestamp cached)));
           ("quality", JString (http_quality_to_string (csv_quality cached)));
           ("age_ms", JInt (ms_of_ns (now - csv_timestamp cached)))].

Section DeviceState.
(** The enumerators' numbers, and the order the signals' [unordered_map] is
    iterated in. *)
Context (quality_number : Quality → Z).

Definition worse (worst : Quality) (entry : string * CachedSignalValue) : Quality :=
  if quality_number worst <? quality_number (csv_quality entry.2) then csv_quality entry.2 else worst.

Definition device_quality (state : DeviceState) (signals : list (string * CachedSignalValue)) : string :=
  if ds_provider_available state then http_quality_to_string (foldl worse QUALITY_OK signals) else "UNAVAILABLE".

Definition encode_device_state (state : DeviceState) (signals : list (string * CachedSignalValue))
    (provider_id device_id : string) (now : Z) : json :=
  jobject [("provider_id", JString provider_id);
           ("device_id", JString device_id);
           ("quality", JString (device_quality state signals));
           ("values", JArray ((λ s, encode_signal_value s.2 s.1 now) <$> signals))].
End DeviceState.

Definition encode_device_info (d : RegisteredDevice) : json :=
  let p := proto (capabilities d) in
  jobject [("provider_id", JString (provider_id d));
           ("device_id", JString (device_id d));
           ("display_name", JString (if bool_decide (pd_label p = "") then device_id d else pd_label p));
           ("type", JString (if bool_decide (pd_type_id p = "") then "unknown" else pd_type_id p))].

(** A member that is left out when its text is empty. *)
Definition optional_text (key text : string) : list (string * json) :=
  if bool_decide (text = "") then [] else [(key, JString text)].

Definition encode_signal_spec (spec : SignalSpec) : json :=
  jobject ([("signal_id", JString (ss_signal_id spec));
            ("value_type", JString (http_value_type_to_string (ss_type spec)));
            ("label", JString (ss_label spec))] ++
           optional_text "unit" (ss_unit spec) ++ optional_text "description" (ss_description spec)).

Definition optional_bound {A} (key : string) (build : A → json) (bound : option A) : list (string * json) :=
  match bound with Some b => [(key, build b)] | None => [] end.

Definition encode_arg (position : nat) (arg : ArgSpec) : json :=
  jobject ([("type", JString (http_value_type_to_string (as_type arg)));
            ("required", JBool (as_required arg));
            ("position", JInt (Z.of_nat position))] ++
           optional_text "description" (as_description arg) ++ optional_text "unit" (as_unit arg) ++
           match as_type arg with
           | VALUE_TYPE_DOUBLE => optional_bound "min" JFloat (as_min_double arg) ++ optional_bound "max" JFloat (as_max_double arg)
           | VALUE_TYPE_INT64 => optional_bound "min" JInt (as_min_int64 arg) ++ optional_bound "max" JInt (as_max_int64 arg)
           | VALUE_TYPE_UINT64 => optional_bound "min" JInt (as_min_uint64 arg) ++ optional_bound "max" JInt (as_max_uint64 arg)
           | VALUE_TYPE_STRING =>
               if bool_decide (as_allowed_values arg = []) then [] else [("allowed_values", jtexts (as_allowed_values arg))]
           | _ => []
           end).

(** The arguments by name; a name declared twice keeps the last. *)
Fixpoint encode_args (position : nat) (args : list ArgSpec) (acc : gmap string json) : gmap string json :=
  match args with
  | [] => acc
  | arg :: rest => encode_args (S position) rest (<[as_name arg := encode_arg position arg]> acc)
  end.

Definition encode_function_spec (spec : FunctionSpec) : json :=
  jobject [("function_id", JInt (fs_function_id spec));
           ("name", JString (fs_function_name spec));
           ("label", JString (fs_label spec));
           ("args", JObject (map_items (encode_args 0 (fs_args spec) ∅)));
           ("category", JString (function_category_to_string (fs_category spec)));
           ("actuating", JBool (is_actuating spec));
           ("allowed_modes", jtexts (fs_allowed_modes spec));
           ("min_interval_ms", JInt (fs_min_interval_ms spec));
           ("requires_lease", JBool (fs_requires_lease spec))].

(** The comparisons of the two sorts. *)
Definition signal_le (a b : SignalSpec) : Prop := str_le (ss_signal_id a) (ss_signal_id b).
Definition function_le (a b : FunctionSpec) : Prop :=
  fs_function_id a < fs_function_id b ∨
  (fs_function_id a = fs_function_id b ∧ str_le (fs_function_name a) (fs_function_name b)).

#[global] Instance signal_le_dec a b : Decision (signal_le a b).
Proof. unfold signal_le. apply _. Defined.
#[global] Instance function_le_dec a b : Decision (function_le a b).
Proof. unfold function_le. apply _. Defined.

Definition encode_capabilities (caps : DeviceCapabilitySet) : json :=
  jobject [("signals", JArray (encode_signal_spec <$> merge_sort signal_le (signals_by_id caps).*2));
           ("functions", JArray (encode_function_spec <$> merge_sort function_le (functions_by_id caps).*2))].

(** ** Base64 decodes what it encodes *)

(** The character of a sextet is read back as the sextet. *)
Lemma index_enc64 n : 0 ≤ n < 64 →
  index_in (enc64 n) base64_chars 0 = Some n ∧ Ascii.eqb (enc64 n) "=" = false.
Proof.
  intros Hn. assert (forallb (λ k, let n := Z.of_nat k in
      bool_decide (index_in (enc64 n) base64_chars 0 = Some n) && negb (Ascii.eqb (enc64 n) "=")) (seq 0 64) = true) as H
    by (by vm_compute).
  rewrite forallb_forall in H. specialize (H (Z.to_nat n)). rewrite Z2Nat.id in H by lia.
  destruct (andb_true_iff (bool_decide (index_in (enc64 n) base64_chars 0 = Some n)) (negb (Ascii.eqb (enc64 n) "=")))
    as [Hand _]. destruct Hand as [H1 H2]; [|bool_facts; done].
  apply H. apply in_seq. lia.
Qed.

Lemma enc64_mod z : enc64 z = enc64 (z mod 64).
Proof. unfold enc64. change 63 with (Z.ones 6). rewrite !Z.land_ones by lia. by rewrite Zmod_mod. Qed.

Lemma byte_Z_range c : 0 ≤ byte_Z c < 256.
Proof. unfold byte_Z. pose proof (N_ascii_bounded c). lia. Qed.

Lemma Z_byte_of z c : z mod 256 = byte_Z c → Z_byte z = c.
Proof.
  intros H. unfold Z_byte. change 255 with (Z.ones 8). rewrite Z.land_ones by lia. change (2 ^ 8) with 256.
  rewrite H. unfold byte_Z. rewrite N2Z.id. apply ascii_N_embedding.
Qed.

(** Arithmetic on the shift register, with the wrap-around of [unsigned int]. *)
Ltac register_arith :=
  unfold to_uint32 in *; rewrite ?Z.shiftl_mul_pow2, ?Z.shiftr_div_pow2 by lia;
  change (2 ^ 32) with 4294967296 in *; change (2 ^ 8) with 256 in *; change (2 ^ 6) with 64 in *;
  change (2 ^ 4) with 16 in *; change (2 ^ 2) with 4 in *; change (2 ^ 0) with 1 in *;
  Z.to_euclidean_division_equations; lia.

(** The sextets of three bytes. *)
Definition sextet1 (a : Z) : Z := a / 4.
Definition sextet2 (a b : Z) : Z := a mod 4 * 16 + b / 16.
Definition sextet3 (b c : Z) : Z := b mod 16 * 4 + c / 64.
Definition sextet4 (c : Z) : Z := c mod 64.

Lemma enc_first val a : 0 ≤ a < 256 → enc64 (Z.shiftr (to_uint32 (Z.shiftl val 8 + a)) 2) = enc64 (sextet1 a).
Proof. intros. rewrite enc64_mod, (enc64_mod (sextet1 a)). f_equal. unfold sextet1. register_arith. Qed.

Lemma enc_second val a b : 0 ≤ a < 256 → 0 ≤ b < 256 →
  enc64 (Z.shiftr (to_uint32 (Z.shiftl (to_uint32 (Z.shiftl val 8 + a)) 8 + b)) 4) = enc64 (sextet2 a b).
Proof. intros. rewrite enc64_mod, (enc64_mod (sextet2 a b)). f_equal. unfold sextet2. register_arith. Qed.

Lemma enc_third val b c : 0 ≤ b < 256 → 0 ≤ c < 256 →
  enc64 (Z.shiftr (to_uint32 (Z.shiftl (to_uint32 (Z.shiftl val 8 + b)) 8 + c)) 6) = enc64 (sextet3 b c).
Proof. intros. rewrite enc64_mod, (enc64_mod (sextet3 b c)). f_equal. unfold sextet3. register_arith. Qed.

Lemma enc_fourth val c : 0 ≤ c < 256 → enc64 (Z.shiftr (to_uint32 (Z.shiftl val 8 + c)) 0) = enc64 (sextet4 c).
Proof. intros. rewrite enc64_mod, (enc64_mod (sextet4 c)). f_equal. unfold sextet4. register_arith. Qed.

Definition quad (a b c : ascii) : string :=
  String (enc64 (sextet1 (byte_Z a))) (String (enc64 (sextet2 (byte_Z a) (byte_Z b)))
    (String (enc64 (sextet3 (byte_Z b) (byte_Z c))) (char_string (enc64 (sextet4 (byte_Z c)))))).

(** One byte at each of the three positions of the register. *)
Lemma encode_first a rest val encoded :
  encode_bytes (String a rest) val (-6) encoded =
  encode_bytes rest (to_uint32 (Z.shiftl val 8 + byte_Z a)) (-4) (encoded +:+ char_string (enc64 (sextet1 (byte_Z a)))).
Proof.
  pose proof (byte_Z_range a). rewrite <- (enc_first val) by done. reflexivity.
Qed.

Lemma encode_second a b rest val encoded :
  0 ≤ a < 256 →
  encode_bytes (String b rest) (to_uint32 (Z.shiftl val 8 + a)) (-4) encoded =
  encode_bytes rest (to_uint32 (Z.shiftl (to_uint32 (Z.shiftl val 8 + a)) 8 + byte_Z b)) (-2)
    (encoded +:+ char_string (enc64 (sextet2 a (byte_Z b)))).
Proof. intros. pose proof (byte_Z_range b). rewrite <- (enc_second val) by done. reflexivity. Qed.

Lemma encode_third b c rest val encoded :
  0 ≤ b < 256 →
  encode_bytes (String c rest) (to_uint32 (Z.shiftl val 8 + b)) (-2) encoded =
  encode_bytes rest (to_uint32 (Z.shiftl (to_uint32 (Z.shiftl val 8 + b)) 8 + byte_Z c)) (-6)
    ((encoded +:+ char_string (enc64 (sextet3 b (byte_Z c)))) +:+ char_string (enc64 (sextet4 (byte_Z c)))).
Proof.
  intros. pose proof (byte_Z_range c).
  rewrite <- (enc_third val), <- (enc_fourth (to_uint32 (Z.shiftl val 8 + b))) by done. reflexivity.
Qed.

(** Three bytes are four characters, whatever is left in the register. *)
Lemma encode_three a b c rest val encoded :
  ∃ val', encode_bytes (String a (String b (String c rest))) val (-6) encoded =
          encode_bytes rest val' (-6) (encoded +:+ quad a b c).
Proof.
  pose proof (byte_Z_range a) as Ha. pose proof (byte_Z_range b) as Hb. pose proof (byte_Z_range c) as Hc.
  eexists. rewrite encode_first, encode_second, encode_third by done. by rewrite !string_app_assoc.
Qed.

(** The characters of a text decoded in front of the rest, from an aligned register. *)
Lemma decode_step n rest val bits decoded :
  0 ≤ n < 64 →
  decode_chars (String (enc64 n) rest) val bits decoded =
  let val' := to_uint32 (Z.shiftl val 6 + n) in
  if 0 <=? bits + 6
  then decode_chars rest val' (bits + 6 - 8) (decoded +:+ char_string (Z_byte (Z.shiftr val' (bits + 6))))
  else decode_chars rest val' (bits + 6) decoded.
Proof. intros Hn. destruct (index_enc64 n Hn) as [Hi He]. cbn [decode_chars]. by rewrite He, Hi. Qed.

Lemma decode_first n rest val decoded : 0 ≤ n < 64 →
  decode_chars (String (enc64 n) rest) val (-8) decoded = decode_chars rest (to_uint32 (Z.shiftl val 6 + n)) (-2) decoded.
Proof. intros. by rewrite decode_step. Qed.

Lemma decode_second n rest val decoded : 0 ≤ n < 64 →
  decode_chars (String (enc64 n) rest) val (-2) decoded =
  decode_chars rest (to_uint32 (Z.shiftl val 6 + n)) (-4)
    (decoded +:+ char_string (Z_byte (Z.shiftr (to_uint32 (Z.shiftl val 6 + n)) 4))).
Proof. intros. by rewrite decode_step. Qed.

Lemma decode_third n rest val decoded : 0 ≤ n < 64 →
  decode_chars (String (enc64 n) rest) val (-4) decoded =
  decode_chars rest (to_uint32 (Z.shiftl val 6 + n)) (-6)
    (decoded +:+ char_string (Z_byte (Z.shiftr (to_uint32 (Z.shiftl val 6 + n)) 2))).
Proof. intros. by rewrite decode_step. Qed.

Lemma decode_fourth n rest val decoded : 0 ≤ n < 64 →
  decode_chars (String (enc64 n) rest) val (-6) decoded =
  decode_chars rest (to_uint32 (Z.shiftl val 6 + n)) (-8)
    (decoded +:+ char_string (Z_byte (Z.shiftr (to_uint32 (Z.shiftl val 6 + n)) 0))).
Proof. intros. by rewrite decode_step. Qed.

Lemma sextets_range a b c : 0 ≤ a < 256 → 0 ≤ b < 256 → 0 ≤ c < 256 →
  0 ≤ sextet1 a < 64 ∧ 0 ≤ sextet2 a b < 64 ∧ 0 ≤ sextet3 b c < 64 ∧ 0 ≤ sextet4 c < 64.
Proof. unfold sextet1, sextet2, sextet3, sextet4. intros. Z.to_euclidean_division_equations; lia. Qed.

Lemma dec_first val a b : 0 ≤ byte_Z b < 256 →
  Z_byte (Z.shiftr (to_uint32 (Z.shiftl (to_uint32 (Z.shiftl val 6 + sextet1 (byte_Z a))) 6 +
    sextet2 (byte_Z a) (byte_Z b))) 4) = a.
Proof.
  intros. pose proof (byte_Z_range a). apply Z_byte_of. unfold sextet1, sextet2. register_arith.
Qed.

Lemma dec_second val a b c : 0 ≤ a < 256 → 0 ≤ byte_Z c < 256 →
  Z_byte (Z.shiftr (to_uint32 (Z.shiftl (to_uint32 (Z.shiftl val 6 + sextet2 a (byte_Z b))) 6 +
    sextet3 (byte_Z b) (byte_Z c))) 2) = b.
Proof.
  intros. pose proof (byte_Z_range b). apply Z_byte_of. unfold sextet2, sextet3. register_arith.
Qed.

Lemma dec_third val b c : 0 ≤ b < 256 →
  Z_byte (Z.shiftr (to_uint32 (Z.shiftl (to_uint32 (Z.shiftl val 6 + sextet3 b (byte_Z c))) 6 +
    sextet4 (byte_Z c))) 0) = c.
Proof.
  intros. pose proof (byte_Z_range c). apply Z_byte_of. unfold sextet3, sextet4. register_arith.
Qed.

Lemma decode_quad a b c rest val decoded :
  ∃ val', decode_chars (quad a b c +:+ rest) val (-8) decoded =
          decode_chars rest val' (-8) (decoded +:+ String a (String b (char_string c))).
Proof.
  pose proof (byte_Z_range a) as Ha. pose proof (byte_Z_range b) as Hb. pose proof (byte_Z_range c) as Hc.
  destruct (sextets_range _ _ _ Ha Hb Hc) as (H1 & H2 & H3 & H4).
  eexists. unfold quad, char_string at 1. rewrite !string_app_cons.
  rewrite decode_first, decode_second, decode_third, decode_fourth, dec_first, dec_second, dec_third by done.
  by rewrite !string_app_assoc.
Qed.

Lemma aligned_app a b : (String.length a mod 4 = 0)%nat → (String.length (a +:+ b) mod 4 = String.length b mod 4)%nat.
Proof. intros Ha. rewrite string_length_app, Nat.Div0.add_mod, Ha. apply Nat.Div0.mod_mod. Qed.

Lemma pad_app n encoded s :
  (String.length encoded mod 4 = 0)%nat → pad n (encoded +:+ s) = encoded +:+ pad n s.
Proof.
  intros He. revert s. induction n as [|n IH]; intros s; [done|]. cbn [pad].
  rewrite aligned_app by done. destruct (_ =? _)%nat; [done|]. by rewrite string_app_assoc, IH.
Qed.

Lemma Z_byte_zero : byte_Z "000" = 0.
Proof. done. Qed.

(** One and two bytes at the end, padded. *)
Lemma finish_one a val encoded :
  (String.length encoded mod 4 = 0)%nat →
  finish (encode_bytes (char_string a) val (-6) encoded) =
  encoded +:+ String (enc64 (sextet1 (byte_Z a))) (String (enc64 (sextet2 (byte_Z a) (byte_Z "000"))) "==").
Proof.
  intros He. unfold char_string at 1. rewrite encode_first. cbn [encode_bytes finish]. change (-6 <? -4) with true. cbv iota.
  change (-4 + 8) with 4. rewrite <- (enc_second val) by (done || apply byte_Z_range).
  rewrite Z_byte_zero, Z.add_0_r, string_app_assoc, pad_app by done. done.
Qed.

Lemma finish_two a b val encoded :
  (String.length encoded mod 4 = 0)%nat →
  finish (encode_bytes (String a (char_string b)) val (-6) encoded) =
  encoded +:+ String (enc64 (sextet1 (byte_Z a))) (String (enc64 (sextet2 (byte_Z a) (byte_Z b)))
    (String (enc64 (sextet3 (byte_Z b) (byte_Z "000"))) "=")).
Proof.
  intros He. unfold char_string at 1. rewrite encode_first, encode_second by apply byte_Z_range.
  cbn [encode_bytes finish]. change (-6 <? -2) with true. cbv iota. change (-2 + 8) with 6.
  rewrite <- (enc_third (to_uint32 (Z.shiftl val 8 + byte_Z a))) by (done || apply byte_Z_range).
  rewrite Z_byte_zero, Z.add_0_r, !string_app_assoc, pad_app by done. done.
Qed.

Lemma base64_from bytes val encoded :
  (String.length encoded mod 4 = 0)%nat →
  ∃ tail, finish (encode_bytes bytes val (-6) encoded) = encoded +:+ tail ∧ (String.length tail mod 4 = 0)%nat ∧
    ∀ dval decoded, decode_chars tail dval (-8) decoded = Some (decoded +:+ bytes).
Proof.
  remember (String.length bytes) as n eqn:Hn. revert bytes Hn val encoded.
  induction n as [n IH] using lt_wf_ind. intros bytes -> val encoded He.
  destruct bytes as [|a [|b [|c rest]]].
  - exists "". split_and!; [|done|].
    + cbn [encode_bytes finish]. change (-6 <? -6) with false. cbv iota. by rewrite <- (string_app_nil_r encoded) at 1; rewrite pad_app.
    + intros. simpl. by rewrite string_app_nil_r.
  - eexists. split_and!; [by apply (finish_one a)|done|]. intros dval decoded.
    destruct (sextets_range (byte_Z a) 0 0) as (H1 & H2 & _); [apply byte_Z_range|lia..|].
    rewrite decode_first, decode_second by done. rewrite dec_first by done. done.
  - eexists. split_and!; [by apply (finish_two a b)|done|]. intros dval decoded.
    destruct (sextets_range (byte_Z a) (byte_Z b) 0) as (H1 & H2 & H3 & _); [apply byte_Z_range..|lia|].
    rewrite decode_first, decode_second, decode_third, dec_first, dec_second by (done || apply byte_Z_range).
    cbn. by rewrite !string_app_assoc.
  - destruct (encode_three a b c rest val encoded) as [val' ->].
    destruct (IH (String.length rest)) with (bytes := rest) (val := val') (encoded := encoded +:+ quad a b c)
      as (tail & Htail & Hlen & Hdec); [simpl; lia|done| |].
    { by rewrite aligned_app. }
    exists (quad a b c +:+ tail). rewrite Htail, string_app_assoc. split_and!; [done| |].
    + by rewrite aligned_app.
    + intros dval decoded. destruct (decode_quad a b c tail dval decoded) as [dval' ->].
      rewrite Hdec. f_equal. rewrite !string_app_assoc. done.
Qed.

(** Base64 gives back what it was given: for every byte string, whatever its
    length and whatever wraps in the 32-bit shift register, the decoder accepts the
    encoder's text and returns the bytes; the text is padded to a multiple of
    four characters. *)
Theorem base64_roundtrip bytes :
  base64_decode (base64_encode bytes) = Some bytes ∧ (String.length (base64_encode bytes) mod 4 = 0)%nat.
Proof.
  destruct (base64_from bytes 0 "") as (tail & Ht & Hl & Hd); [done|].
  unfold base64_encode, base64_decode. rewrite Ht. change ("" +:+ tail) with tail. split; [by rewrite (Hd 0 "")|done].
Qed.

(** ** Values and call requests *)

(** A value whose declared type is the one it holds. *)
Definition well_typed (v : Value) : bool :=
  match v_type v, v_kind v with
  | VALUE_TYPE_DOUBLE, KDouble _ | VALUE_TYPE_BOOL, KBool _ | VALUE_TYPE_STRING, KString _
  | VALUE_TYPE_BYTES, KBytes _ => true
  | VALUE_TYPE_INT64, KInt64 z => (int64_min <=? z) && (z <=? int64_max)
  | VALUE_TYPE_UINT64, KUint64 z => (0 <=? z) && (z <=? uint64_max)
  | _, _ => false
  end.

(** The document a client sends for a call: the inverse of [decode_call_request]. *)
Definition call_document (b : CallBody) : json :=
  JObject [("args", JObject (map_items (encode_value <$> cb_args b)));
           ("device_id", JString (cb_device_id b));
           ("function_id", JInt (cb_function_id b));
           ("provider_id", JString (cb_provider_id b))].

Section RoundTrip.
Context (cast : double → Z) (what : json → string).

Lemma decode_encode_value v : well_typed v = true → decode_value cast what (encode_value v) = Ok v.
Proof.
  destruct v as [[] [b|z|z|d|t|bytes|]]; try done; intros Hr.
  - apply andb_true_iff in Hr as [?%Z.leb_le ?%Z.leb_le].
    trans (Ok (mkValue VALUE_TYPE_INT64 (KInt64 (to_int64 z)))); [done|by rewrite to_int64_id].
  - apply andb_true_iff in Hr as [?%Z.leb_le ?%Z.leb_le].
    trans (Ok (mkValue VALUE_TYPE_UINT64 (KUint64 (to_uint64 z)))); [done|by rewrite to_uint64_id].
  - trans (match base64_decode (base64_encode bytes) with
           | Some bytes => Ok (mkValue VALUE_TYPE_BYTES (KBytes bytes))
           | None => Err "Invalid Base64 encoding in 'base64' field"
           end); [done|by rewrite (proj1 (base64_roundtrip bytes))].
Qed.

Lemma decode_args_values items args :
  Forall (λ p, well_typed p.2 = true) items →
  decode_args cast what ((λ p, (p.1, encode_value p.2)) <$> items) args =
  Ok (foldl (λ m p, <[p.1 := p.2]> m) args items).
Proof.
  intros Hall. revert args. induction Hall as [|[k v] items Hv _ IH]; intros args; [done|].
  simpl in *. rewrite decode_encode_value by done. apply IH.
Qed.

Lemma foldl_insert_lookup {A} (items : list (string * A)) (m : gmap string A) :
  NoDup items.*1 → foldl (λ m p, <[p.1 := p.2]> m) m items = list_to_map items ∪ m.
Proof.
  revert m. induction items as [|[k v] items IH]; intros m Hnd; simpl; [by rewrite map_empty_union|].
  apply NoDup_cons in Hnd as [Hk Hnd]. rewrite IH by done.
  rewrite <- insert_union_l, <- insert_union_r; [done|]. by apply not_elem_of_list_to_map_1.
Qed.

(** What a client asks for is what is called: a request document with ids, a
    function id within 32 bits and well-typed argument values decodes to exactly
    those, every value with its type and its exact contents, bytes included. *)
Theorem call_request_roundtrip b :
  0 ≤ cb_function_id b < 2 ^ 32 → (∀ k v, cb_args b !! k = Some v → well_typed v = true) →
  decode_call_request cast what (call_document b) = Ok b.
Proof.
  intros Hf Hargs. unfold decode_call_request, call_document. simpl.
  unfold to_uint32. rewrite Z.mod_small by lia. rewrite map_items_fmap, decode_args_values.
  - simpl. rewrite foldl_insert_lookup by apply map_items_NoDup. rewrite map_union_empty.
    rewrite list_to_map_items. by destruct b.
  - apply Forall_forall. intros [k v] Hin%elem_of_map_items. by apply Hargs in Hin.
Qed.
End RoundTrip.

Lemma call_request_roundtrip_witness :
  let b := mkCallBody "sim0" "pump" 7 (<["duty" := mkValue VALUE_TYPE_UINT64 (KUint64 40)]>
             (<["blob" := mkValue VALUE_TYPE_BYTES (KBytes "hello")]> ∅)) in
  decode_call_request (λ _, 0) (λ _, "") (call_document b) = Ok b.
Proof.
  intros b. apply (call_request_roundtrip (λ _, 0) (λ _, "") b); [by split|].
  apply (bool_decide_unpack (map_Forall (λ _ v, well_typed v = true) (cb_args b))). by vm_compute.
Defined.

(** The function id is converted, not checked: it is taken modulo [2^32], and a
    boolean is one. *)
Example function_id_wraps :
  let call f := decode_call_request (λ _, 0) (λ _, "")
    (JObject [("device_id", JString "pump"); ("function_id", f); ("provider_id", JString "sim0")]) in
  call (JInt 4294967303) = Ok (mkCallBody "sim0" "pump" 7 ∅) ∧ call (JBool true) = Ok (mkCallBody "sim0" "pump" 1 ∅).
Proof. by split. Qed.

(** A negative number for a [uint64] argument is converted as well. *)
Example negative_uint64_wraps :
  decode_value (λ _, 0) (λ _, "") (JObject [("type", JString "uint64"); ("uint64", JInt (-1))]) =
  Ok (mkValue VALUE_TYPE_UINT64 (KUint64 uint64_max)).
Proof. by vm_compute. Qed.

(** ** Descriptions *)

Section Worst.
Context (quality_number : Quality → Z).

Lemma foldl_worse (l : list (string * CachedSignalValue)) q :
  quality_number q ≤ quality_number (foldl (worse quality_number) q l) ∧
  Forall (λ s, quality_number (csv_quality s.2) ≤ quality_number (foldl (worse quality_number) q l)) l ∧
  (foldl (worse quality_number) q l = q ∨ ∃ s, s ∈ l ∧ foldl (worse quality_number) q l = csv_quality s.2).
Proof.
  revert q. induction l as [|s l IH]; intros q; simpl; [split_and!; [done|done|by left]|].
  destruct (IH (worse quality_number q s)) as (H1 & H2 & H3).
  set (final := foldl (worse quality_number) (worse quality_number q s) l) in *. clearbody final.
  unfold worse in *. simpl in *.
  destruct (Z.ltb_spec (quality_number q) (quality_number (csv_quality s.2))).
  - split_and!; [lia|by constructor|]. right. destruct H3 as [->|(s' & Hs' & ->)].
    + exists s. split; [by left|done].
    + exists s'. split; [by right|done].
  - split_and!; [done|constructor; [lia|done]|]. destruct H3 as [->|(s' & Hs' & ->)]; [by left|right].
    exists s'. split; [by right|done].
Qed.
End Worst.

(** The state of a device is reported as bad as its worst signal and no worse,
    whatever order its signals are kept in, and as unavailable when its provider
    is: two orders give the same quality when no two enumerators share a number. *)
Theorem device_quality_is_worst quality_number state signals signals' :
  Inj (=) (=) quality_number → signals ≡ₚ map_to_list (ds_signals state) → signals' ≡ₚ signals →
  device_quality quality_number state signals' = device_quality quality_number state signals ∧
  (ds_provider_available state = false → device_quality quality_number state signals = "UNAVAILABLE") ∧
  (ds_provider_available state = true →
   ∃ q, device_quality quality_number state signals = http_quality_to_string q ∧
     (q = QUALITY_OK ∨ ∃ id v, ds_signals state !! id = Some v ∧ csv_quality v = q) ∧
     ∀ id v, ds_signals state !! id = Some v → quality_number (csv_quality v) ≤ quality_number q).
Proof.
  intros Hinj Hs Hs'. destruct (foldl_worse quality_number signals QUALITY_OK) as (A1 & A2 & A3).
  destruct (foldl_worse quality_number signals' QUALITY_OK) as (B1 & B2 & B3). unfold device_quality.
  rewrite Forall_forall in A2, B2. split_and!.
  - assert (foldl (worse quality_number) QUALITY_OK signals' = foldl (worse quality_number) QUALITY_OK signals) as ->; [|done].
    apply (inj quality_number). apply Z.le_antisymm.
    + destruct B3 as [->|(s & Hin & ->)]; [done|]. rewrite Hs' in Hin. by apply A2.
    + destruct A3 as [->|(s & Hin & ->)]; [done|]. rewrite <- Hs' in Hin. by apply B2.
  - by intros ->.
  - intros ->. eexists. split_and!; [done| |].
    + destruct A3 as [->|([id v] & Hin & ->)]; [by left|right]. exists id, v. split; [|done].
      rewrite Hs in Hin. by apply elem_of_map_to_list.
    + intros id v Hid. apply (A2 (id, v)). rewrite Hs. by apply elem_of_map_to_list.
Qed.

#[global] Instance signal_le_total : Total signal_le.
Proof. intros a b. apply str_le_total. Qed.
#[global] Instance signal_le_trans : Transitive signal_le.
Proof. intros a b c. apply str_le_trans. Qed.

#[global] Instance function_le_total : Total function_le.
Proof.
  intros a b. unfold function_le. destruct (Z.lt_trichotomy (fs_function_id a) (fs_function_id b)) as [?|[?|?]]; [auto| |auto].
  destruct (str_le_total (fs_function_name a) (fs_function_name b)); auto.
Qed.
#[global] Instance function_le_trans : Transitive function_le.
Proof.
  intros a b c [?|[? ?]] [?|[? ?]]; unfold function_le; [left; lia..|]. right. split; [lia|]. by etrans.
Qed.

(** Sorting lists with the same elements, told apart by the order, gives the same
    list. *)
Lemma merge_sort_unique {A} (R : relation A) `{∀ a b, Decision (R a b), !Total R, !Transitive R} (l1 l2 : list A) :
  (∀ a b, a ∈ l1 → b ∈ l1 → R a b → R b a → a = b) → l1 ≡ₚ l2 → merge_sort R l1 = merge_sort R l2.
Proof.
  intros Hanti Hp. apply (Sorted_unique_strong R).
  - intros a b Ha Hb. rewrite merge_sort_Permutation in Ha, Hb. rewrite <- Hp in Hb. by apply Hanti.
  - apply Sorted_merge_sort; apply _.
  - apply Sorted_merge_sort; apply _.
  - by rewrite !merge_sort_Permutation.
Qed.

(** Capabilities keyed by what they hold, as the registry builds them. *)
Definition keyed (caps : DeviceCapabilitySet) : Prop :=
  NoDup (signals_by_id caps).*1 ∧ NoDup (functions_by_id caps).*1 ∧
  (∀ k s, (k, s) ∈ signals_by_id caps → k = ss_signal_id s) ∧
  (∀ k f, (k, f) ∈ functions_by_id caps → k = fs_function_name f).

Lemma keyed_same_key {A} (l : list (string * A)) (key : A → string) a b :
  NoDup l.*1 → (∀ k x, (k, x) ∈ l → k = key x) → a ∈ l.*2 → b ∈ l.*2 → key a = key b → a = b.
Proof.
  intros Hnd Hkey Ha Hb Hab. apply list_elem_of_fmap in Ha as ([ka a'] & -> & Ha), Hb as ([kb b'] & -> & Hb).
  simpl in *. rewrite <- (Hkey _ _ Ha), <- (Hkey _ _ Hb) in Hab. subst kb.
  pose proof (elem_alookup _ _ _ Hnd Ha). pose proof (elem_alookup _ _ _ Hnd Hb). congruence.
Qed.

Lemma aset_from {A} k v (l : list (string * A)) k' v' : (k', v') ∈ aset k v l → (k' = k ∧ v' = v) ∨ (k', v') ∈ l.
Proof.
  induction l as [|[k1 v1] l IH]; simpl; [set_solver|]. case_decide; set_solver.
Qed.

Lemma foldl_aset_self {A B} (build : A → B) (key : B → string) (l : list A) :
  NoDup (foldl (λ m x, aset (key (build x)) (build x) m) [] l).*1 ∧
  ∀ k v, (k, v) ∈ foldl (λ m x, aset (key (build x)) (build x) m) [] l → k = key v.
Proof.
  induction l as [|x l IH] using rev_ind; simpl; [split; [by constructor|set_solver]|].
  rewrite foldl_app. simpl. destruct IH as [IH1 IH2]. split; [by apply aset_NoDup|].
  intros k v [[-> ->]|Hin]%aset_from; [done|by apply IH2].
Qed.

Lemma build_capabilities_keyed d p : keyed (build_capabilities d p).
Proof.
  unfold keyed, build_capabilities. simpl.
  destruct (foldl_aset_self build_signal ss_signal_id (pc_signals p)) as [? ?].
  destruct (foldl_aset_self build_function fs_function_name (pc_functions p)) as [? ?]. by split_and!.
Qed.

(** The capabilities of a device are shown in one order, whatever order the
    registry's hash tables happen to be iterated in: by signal id, and by function
    id and then name. *)
Theorem capabilities_order_independent d p caps :
  signals_by_id caps ≡ₚ signals_by_id (build_capabilities d p) →
  functions_by_id caps ≡ₚ functions_by_id (build_capabilities d p) →
  encode_capabilities caps = encode_capabilities (build_capabilities d p).
Proof.
  intros Hs Hf. destruct (build_capabilities_keyed d p) as (Ns & Nf & Ks & Kf).
  unfold encode_capabilities. symmetry.
  rewrite (merge_sort_unique signal_le (signals_by_id (build_capabilities d p)).*2 (signals_by_id caps).*2),
    (merge_sort_unique function_le (functions_by_id (build_capabilities d p)).*2 (functions_by_id caps).*2); [done| | | |].
  - intros a b Ha Hb Hab Hba. apply (keyed_same_key _ fs_function_name _ _ Nf Kf Ha Hb).
    destruct Hab as [?|[? Hab]], Hba as [?|[? Hba]]; try lia. by apply (anti_symm str_le).
  - by rewrite Hf.
  - intros a b Ha Hb Hab Hba. apply (keyed_same_key _ ss_signal_id _ _ Ns Ks Ha Hb). by apply (anti_symm str_le).
  - by rewrite Hs.
Qed.

Definition sample_caps : ProtoCaps :=
  mkProtoCaps [mkProtoSignal "b" "" "" "" VALUE_TYPE_BOOL double_zero 0; mkProtoSignal "a" "" "" "" VALUE_TYPE_BOOL double_zero 0] [].

Lemma capabilities_order_independent_witness :
  let d := mkProtoDevice "d" "" "" "" [] in
  let caps := mkCaps d (rev (signals_by_id (build_capabilities d sample_caps))) [] in
  signals_by_id caps ≠ signals_by_id (build_capabilities d sample_caps) ∧
  encode_capabilities caps = encode_capabilities (build_capabilities d sample_caps).
Proof.
  intros d caps. split; [done|]. apply (capabilities_order_independent d sample_caps caps); [|done].
  apply Permutation_sym, Permutation_rev.
Defined.

Lemma device_quality_is_worst_witness :
  let number q := match q with QUALITY_UNSPECIFIED => 0 | QUALITY_OK => 1 | QUALITY_STALE => 2 | QUALITY_FAULT => 3
                             | QUALITY_UNKNOWN => 4 | QUALITY_OTHER n => if decide (0 ≤ n) then 2 * n + 5 else 2 * n end in
  let v q := mkCached (mkValue VALUE_TYPE_BOOL (KBool true)) 0 q in
  let state := mkDeviceState "p/d" (<["a" := v QUALITY_STALE]> (<["b" := v QUALITY_OK]> ∅)) 0 true false false in
  device_quality number state (rev (map_to_list (ds_signals state))) = "STALE".
Proof.
  intros number v state.
  assert (Inj (=) (=) number) as Hinj.
  { intros [] []; unfold number; intros; try done; repeat case_decide; try (f_equal; lia); exfalso; lia. }
  rewrite (proj1 (device_quality_is_worst number state (map_to_list (ds_signals state)) (rev (map_to_list (ds_signals state)))
    Hinj (Permutation_refl _) (Permutation_sym (Permutation_rev _)))).
  by vm_compute.
Defined.
