(* ===== verification/HttpControl.v ===== *)
(** * The HTTP handlers that act ([core/http/handlers/])

    [POST /v0/call], the mode, the e-stop and its release, and the parameters.  A
    handler takes the request's body and the state of the component it calls and
    gives the response and the state after; an optional component that is not
    attached is [None].  The JSON parser and the text of its exceptions are
    arguments.  Log lines are left out. *)

From S2P Require Import Prelude Protocol Interfaces Json ModeManager Registry Parameters StateCache ArgCheck CallRouter.
From S2P Require Import LatchStore SafeState HttpGate HttpJson.

(** ** Responses *)

Record Response := mkResponse { rs_status : Z; rs_body : json }.

(** [send_json]. *)
Definition send_json (code : HttpCode) (body : json) : Response := mkResponse (status_code_to_http code) body.

Definition send_error (code : HttpCode) (message : string) : Response := send_json code (make_error_response code message).

(** A response that reports success: the status object and the handler's members. *)
Definition send_ok (members : list (string * json)) : Response :=
  send_json HTTP_OK (jobject (("status", make_status HTTP_OK "") :: members)).

(** What the exception handler answers when an exception leaves the handler. *)
Definition escaped (what : string) : Response :=
  let '(status, body) := exception_response (Some what) in mkResponse status body.

Section Bodies.
(** [json::parse]: a document, or the text of its exception. *)
Context (parse : string → string + json).

Definition parse_body (body : string) : result json :=
  match parse body with
  | inl what => Err ("Invalid JSON: " +:+ what)
  | inr doc => Ok doc
  end.
End Bodies.

(** ** [POST /v0/call] *)

Definition http_status_of (code : StatusCode) : HttpCode :=
  match code with
  | CODE_INVALID_ARGUMENT | CODE_OUT_OF_RANGE => HTTP_INVALID_ARGUMENT
  | CODE_NOT_FOUND => HTTP_NOT_FOUND
  | CODE_FAILED_PRECONDITION => HTTP_FAILED_PRECONDITION
  | CODE_UNAVAILABLE | CODE_RESOURCE_EXHAUSTED => HTTP_UNAVAILABLE
  | CODE_DEADLINE_EXCEEDED => HTTP_DEADLINE_EXCEEDED
  | _ => HTTP_INTERNAL
  end.

(** The request built from a decoded body; the other members keep their defaults. *)
Definition http_call_request (b : CallBody) : CallRequest :=
  ArgCheck.mkRequest (make_handle (cb_provider_id b) (cb_device_id b)) (cb_function_id b) "" (cb_args b)
    false false false false.

Definition call_response (b : CallBody) (res : CallResult) : Response :=
  if negb (cr_success res) then send_error (http_status_of (cr_status_code res)) (cr_error_message res)
  else send_ok [("provider_id", JString (cb_provider_id b));
                ("device_id", JString (cb_device_id b));
                ("function_id", JInt (cb_function_id b));
                ("post_call_poll_triggered", JBool true)].

Section PostCall.
Context (parse : string → string + json) (cast : double → Z) (what : json → string).
Context {L D : Type} `{IActuationLatch L} `{IDeviceLossLatch D} `{FloatText} `{StatusNames}.

(** The call a body asks for. *)
Definition requested_call (body : string) : result CallBody :=
  try doc <- parse_body parse body ;; decode_call_request cast what doc.

Definition handle_post_call (body : string) (env : Checkpoint → Env L D) (now wall : Z) (shutting_down : bool)
    (rt : CallRouter) (cache : StateCache) : Response * option Dispatch * CallRouter * StateCache :=
  match requested_call body with
  | Err error => (send_error HTTP_INVALID_ARGUMENT error, None, rt, cache)
  | Ok b =>
      let '(res, d, rt', cache') := execute_call (http_call_request b) env now wall shutting_down rt cache in
      (call_response b res, d, rt', cache')
  end.
End PostCall.

(** ** The mode *)

Definition handle_get_mode {W} (m : option (MM W)) : Response :=
  match m with
  | None => send_error HTTP_UNAVAILABLE "Automation layer not enabled"
  | Some m => send_ok [("mode", JString (mode_to_string (current_mode m)))]
  end.

(** The mode a body asks for. *)
Definition requested_mode (parse : string → string + json) (body : string) : result RuntimeMode :=
  try doc <- parse_body parse body ;;
  match jmember jstring "mode" doc with
  | None => Err "Missing or invalid 'mode' field (expected string: MANUAL, AUTO, IDLE, or FAULT)"
  | Some mode_str =>
      if negb (bool_decide (mode_str ∈ ["MANUAL"; "AUTO"; "IDLE"; "FAULT"])) then
        Err ("Invalid mode: '" +:+ mode_str +:+ "' (must be MANUAL, AUTO, IDLE, or FAULT)")
      else match string_to_mode mode_str with
           | None => Err "Invalid mode string"
           | Some mode => Ok mode
           end
  end.

Definition handle_post_mode {W} (parse : string → string + json) (cbs : option (Callbacks W)) (body : string)
    (m : MM W) : Response * MM W :=
  match cbs with
  | None => (send_error HTTP_UNAVAILABLE "Automation layer not enabled", m)
  | Some cbs =>
      match requested_mode parse body with
      | Err error => (send_error HTTP_INVALID_ARGUMENT error, m)
      | Ok new_mode =>
          match set_mode cbs new_mode m with
          | (Err error, m') => (send_error HTTP_FAILED_PRECONDITION error, m')
          | (Ok _, m') => (send_ok [("mode", JString (mode_to_string (current_mode m')))], m')
          end
      end
  end.

(** ** The e-stop *)

(** The reason recorded: the body's, or the default when there is none to read. *)
Definition estop_reason (parse : string → string + json) (body : string) : string :=
  if bool_decide (body = "") then "operator"
  else match parse body with
       | inr doc => default "operator" (jmember jstring "reason" doc)
       | inl _ => "operator"
       end.

Definition failure_cause_to_string (c : FailureCause) : string :=
  match c with CauseConfig => "config" | CauseRun => "run" end.

Definition encode_action (a : ActionOutcome) : json :=
  jobject ([("device_handle", JString (ao_device_handle a));
            ("function", JString (ao_function a));
            ("success", JBool (ao_success a))] ++
           optional_text "error" (ao_error a) ++
           (if ao_success a then [] else [("cause", JString (failure_cause_to_string (ao_cause a)))])).

Definition estop_response (result : EstopResult) : Response :=
  send_ok ([("latched", JBool true);
            ("software_safe_state", JString (safe_state_kind_to_string (er_kind result)));
            ("actions", JArray (encode_action <$> er_actions result));
            ("safe_state_achieved", JBool (er_safe_state_achieved result))] ++
           (if bool_decide (er_kind result = KNone)
            then [("warning", JString "No software safe-state declared; the hardware e-stop is the only safe-state path")]
            else []) ++
           (if er_fault_requested result then [("fault_engaged", JBool (er_fault_ok result))] else [])).

Section Estop.
(** [dump_error] is the text of the printer's exception. *)
Context (parse : string → string + json) (dump_error : string).
Context {L D : Type} `{IActuationLatch L} `{IDeviceLossLatch D} `{FloatText} `{StatusNames} `{JsonText}.

Definition handle_post_estop (attached : bool) (ctx : nat → CallCtx L D) (r : DeviceRegistry)
    (safety : SafeStateConfig) (cbs : option (Callbacks SafeWorld)) (tid : nat) (now_ms : Z) (io : SaveIO)
    (body : string) (m : MM SafeWorld) : Response * MM SafeWorld :=
  if negb attached then (send_error HTTP_UNAVAILABLE "Safe-state controller not available", m)
  else
    match trigger ctx r safety cbs tid now_ms (estop_reason parse body) io m with
    | (None, m') => (escaped dump_error, m')
    | (Some result, m') => (estop_response result, m')
    end.
End Estop.

Definition handle_post_estop_clear (attached : bool) (refusal unlink_error : option string) (sync : bool)
    (w : SafeWorld) : Response * SafeWorld :=
  if negb attached then (send_error HTTP_UNAVAILABLE "Safe-state controller not available", w)
  else
    match clear refusal unlink_error sync w with
    | (Some refusal, w') => (send_error HTTP_FAILED_PRECONDITION refusal, w')
    | (None, w') => (send_ok [("latched", JBool false)], w')
    end.

(** ** Parameters *)

Definition parameter_json (v : ParameterValue) : json :=
  match v with PDouble d => JFloat d | PInt64 z => JInt z | PBool b => JBool b | PString s => JString s end.

Definition encode_parameter (entry : string * ParameterDef) : json :=
  let '(name, def) := entry in
  jobject ([("name", JString name);
            ("type", JString (parameter_type_to_string (pd_type def)));
            ("value", parameter_json (pd_value def))] ++
           optional_bound "min" JFloat (pd_min def) ++ optional_bound "max" JFloat (pd_max def) ++
           match pd_allowed_values def with
           | Some (_ :: _ as allowed) => [("allowed_values", jtexts allowed)]
           | _ => []
           end ++
           [("source", JString (if pd_set_by_operator def then "operator" else "default"))]).

(** [defs] is the map's content in the order it is iterated. *)
Definition handle_get_parameters (pm : option (list (string * ParameterDef))) : Response :=
  match pm with
  | None => send_error HTTP_UNAVAILABLE "Parameter system not enabled"
  | Some defs => send_ok [("parameters", JArray (encode_parameter <$> defs))]
  end.

(** The value read for a parameter of a type. *)
Definition typed_value (type : ParameterType) (v : json) : result ParameterValue :=
  match type with
  | DOUBLE => match jdouble v with
              | Some d => Ok (PDouble d)
              | None => Err "Invalid value: Expected number for double parameter"
              end
  | INT64 => match v with
             | JInt z => Ok (PInt64 (to_int64 z))
             | _ => Err "Invalid value: Expected integer for int64 parameter"
             end
  | BOOL => match jbool v with
            | Some b => Ok (PBool b)
            | None => Err "Invalid value: Expected boolean for bool parameter"
            end
  | STRING => match jstring v with
              | Some s => Ok (PString s)
              | None => Err "Invalid value: Expected string for string parameter"
              end
  end.

Section PostParameters.
Context (parse : string → string + json) `{FloatText}.

(** The response, the callbacks notified, and the store after. *)
Definition set_parameter (name : string) (v : json) (pm : ParameterManager)
    : Response * list Notification * ParameterManager :=
  match get_definition name pm with
  | None => (send_error HTTP_NOT_FOUND ("Parameter '" +:+ name +:+ "' not found"), [], pm)
  | Some def =>
      match typed_value (pd_type def) v with
      | Err error => (send_error HTTP_INVALID_ARGUMENT error, [], pm)
      | Ok new_value =>
          match set name new_value pm with
          | (Err error, notes, pm') => (send_error HTTP_INVALID_ARGUMENT error, notes, pm')
          | (Ok _, notes, pm') =>
              let value_json := match get name pm' with Some v => parameter_json v | None => JNull end in
              (send_ok [("parameter", jobject [("name", JString name); ("value", value_json)])], notes, pm')
          end
      end
  end.

Definition handle_post_parameters (attached : bool) (body : string) (pm : ParameterManager)
    : Response * list Notification * ParameterManager :=
  if negb attached then (send_error HTTP_UNAVAILABLE "Parameter system not enabled", [], pm)
  else
    match parse_body parse body with
    | Err error => (send_error HTTP_INVALID_ARGUMENT error, [], pm)
    | Ok doc =>
        match jmember jstring "name" doc, jget "value" doc with
        | None, _ => (send_error HTTP_INVALID_ARGUMENT "Missing or invalid 'name' field (expected string)", [], pm)
        | Some _, None => (send_error HTTP_INVALID_ARGUMENT "Missing 'value' field", [], pm)
        | Some name, Some v => set_parameter name v pm
        end
    end.
End PostParameters.

(** ** Calls over HTTP *)

Lemma jget_jobject k members : jget k (jobject members) = alookup k members.
Proof.
  unfold jobject. simpl. rewrite alookup_map_items. induction members as [|[k' v] l IH]; simpl; [done|].
  rewrite lookup_insert. repeat case_decide; congruence.
Qed.

(** A member of a response that reports success. *)
Lemma send_ok_member k members : k ≠ "status" → jget k (rs_body (send_ok members)) = alookup k members.
Proof.
  intros Hk. trans (jget k (jobject (("status", make_status HTTP_OK "") :: members))); [done|].
  rewrite jget_jobject. simpl. by rewrite decide_False.
Qed.

Section CallFacts.
Context (parse : string → string + json) (cast : double → Z) (what : json → string).
Context {L D : Type} `{IActuationLatch L} `{IDeviceLossLatch D} `{FloatText} `{StatusNames}.
Implicit Types (env : Checkpoint → Env L D).

Lemma send_error_status code message : code ≠ HTTP_OK → rs_status (send_error code message) ≠ 200.
Proof. by destruct code. Qed.

Lemma http_status_not_ok code : http_status_of code ≠ HTTP_OK.
Proof. by destruct code. Qed.

Lemma call_response_status b res : rs_status (call_response b res) = 200 ↔ cr_success res = true.
Proof.
  unfold call_response. destruct (cr_success res); simpl; [done|]. split; [|done].
  intros Hs. by destruct (send_error_status _ (cr_error_message res) (http_status_not_ok (cr_status_code res))).
Qed.

(** The ways a request to call ends: not decoded, refused by the router, sent. *)
Lemma handle_post_call_cases body env now wall sd rt cache resp d rt' cache' :
  handle_post_call parse cast what body env now wall sd rt cache = (resp, d, rt', cache') →
  (∃ error, requested_call parse cast what body = Err error ∧ resp = send_error HTTP_INVALID_ARGUMENT error ∧
            d = None ∧ rt' = rt ∧ cache' = cache) ∨
  ∃ b res, requested_call parse cast what body = Ok b ∧ resp = call_response b res ∧
           execute_call (http_call_request b) env now wall sd rt cache = (res, d, rt', cache').
Proof.
  unfold handle_post_call. destruct (requested_call parse cast what body) as [b|error].
  - destruct (execute_call _ _ _ _ _ _ _) as [[[res d'] r1] c1] eqn:E. intros. simplify_eq. right. by exists b, res.
  - intros. simplify_eq. left. by exists error.
Qed.

(** What a dispatched HTTP call is. *)
Lemma http_dispatch_spec b env now wall sd rt cache res d rt' cache' :
  execute_call (http_call_request b) env now wall sd rt cache = (res, Some d, rt', cache') →
  d_handle d = make_handle (cb_provider_id b) (cb_device_id b) ∧
  fs_function_id (d_spec d) = cb_function_id b ∧ d_safe_state d = false ∧
  coerce_arguments (d_spec d) (cb_args b) = Ok (d_args d) ∧
  env_mode (env AtIdle) ≠ Some IDLE ∧
  (is_actuating (d_spec d) = true → ∀ l, env_latch (env AtLockedLatch) = Some l → is_engaged l = false).
Proof.
  intros (p & rt1 & Hp & (Hl & _)%locked_checks_ok & Hd)%execute_call_sent.
  destruct (dispatch_sent (http_call_request b) p env now wall sd rt1 cache) as (? & ? & ? & Hd' & _).
  rewrite Hd in Hd'. simplify_eq. simpl. destruct Hp as [Hidle _ _ _ _ (dev & _ & Hr) _ _ _ Hco _].
  split_and!; try done.
  - apply resolve_selects in Hr as (Hid & _ & [Hnz|?]); [by apply Hid|done].
  - unfold check_idle in Hidle. simpl in Hidle. by case_bool_decide.
  - intros Ha l Hl'. by destruct (check_latch_pass _ _ _ Hl eq_refl Ha l Hl') as [?|[? _]].
Qed.

(** A client gets 200 exactly when its call was sent and the provider accepted it. *)
Lemma handle_post_call_accepted body env now wall sd rt cache resp d rt' cache' :
  handle_post_call parse cast what body env now wall sd rt cache = (resp, d, rt', cache') →
  rs_status resp = 200 → is_Some d.
Proof.
  intros [(e & _ & -> & _)|(b & res & _ & -> & He)]%handle_post_call_cases; [done|].
  rewrite call_response_status. intros Hs. pose proof (execute_call_refused (http_call_request b) env now wall sd rt cache) as Hr.
  rewrite He in Hr. destruct d; [done|]. destruct Hr as (_ & _ & _ & Hr & _). congruence.
Qed.
End CallFacts.

(** [POST /v0/call] sends at most the call its body asks for.  When nothing is
    sent the router and the cache are as they were and the answer is an error;
    what is sent goes to the device named, selects the function with the id
    given, carries the arguments given after coercion, is never a safe-state call,
    was sent outside IDLE, and reaches a function that can actuate only while the
    e-stop latch is released. *)
Theorem post_call_sends_what_is_asked {L D} `{IActuationLatch L} `{IDeviceLossLatch D} `{FloatText} `{StatusNames}
    (parse : string → string + json) (cast : double → Z) (what : json → string) (body : string)
    (env : Checkpoint → Env L D) (now wall : Z) (sd : bool) (rt : CallRouter) (cache : StateCache) :
  match handle_post_call parse cast what body env now wall sd rt cache with
  | (resp, None, rt', cache') => rs_status resp ≠ 200 ∧ rt' = rt ∧ cache' = cache
  | (resp, Some d, _, _) =>
      ∃ b, requested_call parse cast what body = Ok b ∧
           d_handle d = make_handle (cb_provider_id b) (cb_device_id b) ∧
           fs_function_id (d_spec d) = cb_function_id b ∧
           coerce_arguments (d_spec d) (cb_args b) = Ok (d_args d) ∧ d_safe_state d = false ∧
           env_mode (env AtIdle) ≠ Some IDLE ∧
           (is_actuating (d_spec d) = true → ∀ l, env_latch (env AtLockedLatch) = Some l → is_engaged l = false)
  end.
Proof.
  destruct (handle_post_call _ _ _ _ _ _ _ _ _ _) as [[[resp d] rt'] cache'] eqn:E.
  pose proof (handle_post_call_accepted _ _ _ _ _ _ _ _ _ _ _ _ _ _ E) as Hok.
  apply handle_post_call_cases in E as [(e & Hb & -> & -> & -> & ->)|(b & res & Hb & -> & He)]; [done|].
  destruct d as [d|].
  - apply http_dispatch_spec in He as (? & ? & ? & ? & ? & ?). exists b. by split_and!.
  - split; [intros Hs; by apply Hok in Hs as [? ?]|].
    pose proof (execute_call_refused (http_call_request b) env now wall sd rt cache) as Hr.
    rewrite He in Hr. tauto.
Qed.

(** The status of an answer, by what the router reported. *)
Lemma call_response_error b res :
  cr_success res = false → rs_status (call_response b res) = status_code_to_http (http_status_of (cr_status_code res)).
Proof. unfold call_response. by intros ->. Qed.

Section CallBench.
#[local] Existing Instances Bench.names plain_text.

Definition pump_call (duty : Z) : json :=
  call_document (mkCallBody "sim0" "pump" 7 {[ "duty" := mkValue VALUE_TYPE_INT64 (KInt64 duty) ]}).

Definition bench_post (doc : json) (engaged : bool) : Z * bool :=
  let '(resp, d, _, _) := handle_post_call (λ _, inr doc) (λ _, 0) (λ _, "") "" (Bench.env 0 engaged) 0 0 false
                            new_router Bench.cache in
  (rs_status resp, bool_decide (is_Some d)).

Example sample_posts :
  bench_post (pump_call 40) false = (200, true) ∧ bench_post (pump_call 40) true = (409, false) ∧
  bench_post (pump_call (-1)) false = (400, false) ∧ bench_post JNull false = (400, false).
Proof. by vm_compute. Qed.
End CallBench.

(** ** Mode requests *)

(** A request that succeeds leaves the mode it asked for; one that fails leaves
    the mode alone and is not for FAULT. *)
Lemma set_mode_result {W} (cbs : Callbacks W) n (m : MM W) :
  before_keeps_mode (before_callbacks_ cbs) → after_keeps_mode (callbacks_ cbs) →
  match set_mode cbs n m with
  | (Ok _, m') => current_mode_ m' = n
  | (Err _, m') => n ≠ FAULT ∧ current_mode_ m' = current_mode_ m
  end.
Proof.
  intros Hb Ha. destruct (decide (n = FAULT)) as [->|Hn].
  { by destruct (set_mode_FAULT cbs m Ha) as (m' & -> & ?). }
  unfold set_mode. case_decide; [done|]. destruct (negb _); [done|].
  pose proof (run_before_mode _ (current_mode_ m) n m Hb) as Hm.
  destruct (run_before _ _ _ _) as [[e|] m1]; simpl in Hm; [done|].
  destruct (commit_mode _ _ _ _) as [[q| |e] m2] eqn:Ec.
  - apply commit_mode_Committed in Ec as (_ & -> & _). by rewrite run_after_mode.
  - revert Ec. unfold commit_mode, commit_from. intros. split_matches.
  - by apply commit_mode_Refused in Ec as ->.
Qed.

(** [POST /v0/mode] answers for what it did: 400 and nothing touched when the
    body names no mode, 200 with the mode in force being the one asked for, or
    409 with the mode as it was; a request for FAULT is never refused. *)
Theorem post_mode_answers {W} (parse : string → string + json) (cbs : Callbacks W) (body : string) (m : MM W) :
  before_keeps_mode (before_callbacks_ cbs) → after_keeps_mode (callbacks_ cbs) →
  let '(resp, m') := handle_post_mode parse (Some cbs) body m in
  match requested_mode parse body with
  | Err error => resp = send_error HTTP_INVALID_ARGUMENT error ∧ m' = m
  | Ok n =>
      (resp = send_ok [("mode", JString (mode_to_string n))] ∧ current_mode m' = n) ∨
      (rs_status resp = 409 ∧ n ≠ FAULT ∧ current_mode m' = current_mode m)
  end.
Proof.
  intros Hb Ha. unfold handle_post_mode. destruct (requested_mode parse body) as [n|error]; [|done].
  pose proof (set_mode_result cbs n m Hb Ha) as Hr. unfold current_mode.
  destruct (set_mode cbs n m) as [[u|e] m']; [left; by rewrite Hr|by right].
Qed.

(** Callbacks that refuse every transition they may refuse. *)
Definition refusing_callbacks : Callbacks nat :=
  mkCallbacks [(λ _ _ m, (Reject "not now", m))] [(λ _ _ _, Reject "no")] [(λ _ _ m, (Some "listener threw", m))].

Lemma post_mode_answers_witness :
  let '(resp, m') := handle_post_mode (λ _, inr (JObject [("mode", JString "FAULT")])) (Some refusing_callbacks) ""
                       (mkMM AUTO 0%nat) in
  rs_status resp = 200 ∧ current_mode m' = FAULT.
Proof.
  assert (before_keeps_mode (before_callbacks_ refusing_callbacks)) as Hb by (repeat constructor).
  assert (after_keeps_mode (callbacks_ refusing_callbacks)) as Ha by (repeat constructor).
  pose proof (post_mode_answers (λ _, inr (JObject [("mode", JString "FAULT")])) refusing_callbacks "" (mkMM AUTO 0%nat)
                Hb Ha) as Hp.
  destruct (handle_post_mode _ _ _ _) as [resp m'].
  destruct Hp as [[-> ->]|(_ & Hf & _)]; [by split|by destruct Hf].
Defined.

(** ** The e-stop over HTTP *)

(** C8. An e-stop request stops, whatever its body: with the controller attached
    the latch is engaged, the runtime is in FAULT and the answer is 200 with
    [latched]; from then on no [POST /v0/call] judged by that latch reaches a
    function that can actuate.  The one other answer is the 500 of the record's
    printer throwing, and the latch is engaged then too. *)
Theorem post_estop_stops {L D} `{IActuationLatch L} `{IDeviceLossLatch D} `{FloatText} `{StatusNames} `{JsonText}
    (parse : string → string + json) (dump_error : string) (ctx : nat → CallCtx L D) (r : DeviceRegistry)
    (safety : SafeStateConfig) (cbs : Callbacks SafeWorld) (tid : nat) (now_ms : Z) (io : SaveIO) (body : string)
    (m : MM SafeWorld) :
  after_keeps_mode (callbacks_ cbs) → callbacks_keep engaged_world cbs →
  let '(resp, m') := handle_post_estop parse dump_error true ctx r safety (Some cbs) tid now_ms io body m in
  engaged_world (world m') ∧
  ((rs_status resp = 200 ∧ jget "latched" (rs_body resp) = Some (JBool true) ∧ current_mode m' = FAULT) ∨
   (rs_status resp = 500 ∧ ∃ st, latch_store_ (sw_ctl (world m)) = Some st ∧
      json_dump (latch_doc (config_dir_ st) now_ms (estop_reason parse body)) = None)) ∧
  ∀ (cast : double → Z) (what : json → string) call (env : Checkpoint → Env (Controller * nat) D) now wall sd rt cache t,
    env_latch (env AtLockedLatch) = Some (sw_ctl (world m'), t) →
    ∀ d, (handle_post_call parse cast what call env now wall sd rt cache).1.1.2 = Some d →
         is_actuating (d_spec d) = false.
Proof.
  intros Ha Hk. unfold handle_post_estop. simpl negb. cbv iota.
  pose proof (trigger_spec ctx r safety (Some cbs) tid now_ms (estop_reason parse body) io m
    ltac:(by intros c [= <-])) as Ht.
  assert (∀ m', engaged_world (world m') → ∀ (cast : double → Z) (what : json → string) call env now wall sd rt cache t,
    env_latch (env AtLockedLatch) = Some (sw_ctl (world m'), t) →
    ∀ d, (handle_post_call (L := Controller * nat) (D := D) parse cast what call env now wall sd rt cache).1.1.2 = Some d →
         is_actuating (d_spec d) = false) as Hcalls.
  { intros m' [He _] cast what call env now wall sd rt cache t Hl d Hd.
    destruct (handle_post_call _ _ _ _ _ _ _ _ _ _) as [[[resp d'] rt'] cache'] eqn:E. simpl in Hd. subst d'.
    apply handle_post_call_cases in E as [(_ & _ & _ & [=] & _)|(b & res & _ & _ & Hx)].
    apply http_dispatch_spec in Hx as (_ & _ & _ & _ & _ & Hlatch).
    apply not_true_is_false. intros Hact. specialize (Hlatch Hact _ Hl). simpl in Hlatch. congruence. }
  destruct (trigger _ _ _ _ _ _ _ _ _) as [[res|] m'].
  - destruct Ht as (He & _ & Hm & _). split; [done|]. split; [left; split_and!; [done| |done]|by apply Hcalls].
    unfold estop_response. by rewrite send_ok_member.
  - destruct Ht as (He & Hst). split; [done|]. split; [by right|by apply Hcalls].
Qed.

Example post_estop_stops_witness :
  let '(resp, m') := handle_post_estop (H1 := plain_text) (H2 := Bench.names) (H3 := LadderBench.codec)
    (λ _, inl "not JSON") "type_error" true LadderBench.ctx LadderBench.registry LadderBench.safety
    (Some LadderBench.quiet) 1 1700000000000 all_ok "stop!" (mkMM AUTO LadderBench.w0) in
  rs_status resp = 200 ∧ latched_flag (sw_ctl (world m')) = true.
Proof.
  pose proof (post_estop_stops (H1 := plain_text) (H2 := Bench.names) (H3 := LadderBench.codec)
    (λ _, inl "not JSON") "type_error" LadderBench.ctx LadderBench.registry LadderBench.safety
    LadderBench.quiet 1 1700000000000 all_ok "stop!" (mkMM AUTO LadderBench.w0)
    ltac:(constructor) ltac:(split; constructor)) as Ht.
  set (x := handle_post_estop _ _ _ _ _ _ _ _ _ _ _ _) in *.
  assert (rs_status x.1 = 200) as Hs by (vm_compute; reflexivity).
  destruct x as [resp m']. split; [exact Hs|exact (proj1 (proj1 Ht))].
Defined.

(** ** Parameters over HTTP *)

(** A stored value as [GET /v0/parameters] shows it is read back as itself. *)
Lemma typed_parameter_json type v :
  parameter_value_matches_type type v = true → (∀ z, v = PInt64 z → in_int64 z) →
  typed_value type (parameter_json v) = Ok v.
Proof. destruct type, v; try done. intros _ Hz. simpl. by rewrite to_int64_id by (by apply Hz). Qed.

Section ParameterFacts.
Context (parse : string → string + json) `{FloatText}.

(** What a body asks to set, with the value read by the parameter's type. *)
Definition requested_value (body : string) (pm : ParameterManager) : option (string * ParameterDef * ParameterValue) :=
  match parse_body parse body with
  | Ok doc =>
      match jmember jstring "name" doc, jget "value" doc with
      | Some name, Some v =>
          match get_definition name pm with
          | Some def => match typed_value (pd_type def) v with Ok x => Some (name, def, x) | Err _ => None end
          | None => None
          end
      | _, _ => None
      end
  | Err _ => None
  end.
End ParameterFacts.

(** [POST /v0/parameters] changes one parameter or nothing.  It answers 200
    exactly when the body names a parameter that exists and gives a value of its
    type that passes its validation; then the value shown is the one stored, it
    equals the one sent by the type's own equality, and no other parameter moved.
    Otherwise the store is as it was and nobody is notified. *)
Theorem post_parameters_outcome (parse : string → string + json) `{FloatText} (body : string) (pm : ParameterManager) :
  let '(resp, notes, pm') := handle_post_parameters parse true body pm in
  if decide (rs_status resp = 200) then
    ∃ name def v, requested_value parse body pm = Some (name, def, v) ∧ validate def v = Ok tt ∧
      (∃ stored, get name pm' = Some stored ∧ (stored = v ∨ same_value stored v = true) ∧
         resp = send_ok [("parameter", jobject [("name", JString name); ("value", parameter_json stored)])]) ∧
      ∀ other, other ≠ name → get_definition other pm' = get_definition other pm
  else
    notes = [] ∧ pm' = pm ∧
    ∀ name def v, requested_value parse body pm = Some (name, def, v) → validate def v ≠ Ok tt.
Proof.
  unfold handle_post_parameters, requested_value. simpl negb. cbv iota.
  destruct (parse_body parse body) as [doc|e]; [|by split_and!].
  destruct (jmember jstring "name" doc) as [name|]; [|by split_and!].
  destruct (jget "value" doc) as [v|]; [|by split_and!]. unfold set_parameter.
  destruct (get_definition name pm) as [def|] eqn:Ed; [|by split_and!].
  destruct (typed_value (pd_type def) v) as [x|e]; [|by split_and!].
  unfold set, get, get_definition in *. rewrite Ed.
  destruct (validate def x) as [[]|e] eqn:Ev; [|split_and!; try done; intros ??? [= <- <- <-]; by rewrite Ev].
  destruct (same_value _ _) eqn:Es; simpl.
  - exists name, def, x. rewrite Ed. split_and!; try done. exists (pd_value def). by split_and!; auto.
  - exists name, def, x. rewrite lookup_insert_eq. split_and!; try done.
    + exists x. by split_and!; auto.
    + intros other Ho. by rewrite lookup_insert_ne.
Qed.

(** An integer above the [int64] range is still an integer to the check, and
    converting it wraps: a client that asks for [2^63] gets [-2^63], with 200. *)
Example large_integer_wraps :
  let pm := (define (H := plain_text) "count" INT64 (PInt64 0) None None None empty_pm).2 in
  let '(resp, _, pm') := handle_post_parameters (H := plain_text)
    (λ _, inr (JObject [("name", JString "count"); ("value", JInt (2 ^ 63))])) true "" pm in
  rs_status resp = 200 ∧ get "count" pm' = Some (PInt64 (-(2 ^ 63))).
Proof. by vm_compute. Qed.
