(* ===== verification/HttpViews.v ===== *)
(** * The HTTP handlers that report ([core/http/handlers/])

    Devices and their state, the runtime's status, automation, provider health and
    telemetry.  The code keeps several of these in hash maps and iterates them in
    an order of the library's; that order is an argument.  Log lines are left out. *)

From S2P Require Import Prelude Protocol Interfaces Json ModeManager Registry Parameters StateCache LatchStore ArgCheck.
From S2P Require Import CallRouter SafeState DeviceLossLatch StopChain Config Supervisor EventEmitter Health Telemetry.
From S2P Require Import BtNodes Automation HttpGate HttpJson HttpControl.

(** ** Path parameters *)

(** The text each [([^/]+)] of a pattern matched, in order. *)
Fixpoint captures (pattern : list Segment) (path : list string) : list string :=
  match pattern, path with
  | Any :: p, x :: q => x :: captures p q
  | _ :: p, _ :: q => captures p q
  | _, _ => []
  end.

(** [parse_path_params], of the captures. *)
Definition parse_path_params (matches : list string) : option (string * string) :=
  match matches with provider_id :: device_id :: _ => Some (provider_id, device_id) | _ => None end.

(** ** Devices *)

Definition handle_get_devices (r : DeviceRegistry) : Response :=
  send_ok [("devices", JArray (encode_device_info <$> get_all_devices r))].

Definition handle_get_device_capabilities (matches : list string) (r : DeviceRegistry) : Response :=
  match parse_path_params matches with
  | None => send_error HTTP_INVALID_ARGUMENT "Invalid path parameters"
  | Some (provider_id, device_id) =>
      match get_device_copy r provider_id device_id with
      | None => send_error HTTP_NOT_FOUND ("Device not found: " +:+ provider_id +:+ "/" +:+ device_id)
      | Some device =>
          send_ok [("provider_id", JString provider_id); ("device_id", JString device_id);
                   ("capabilities", encode_capabilities (capabilities device))]
      end
  end.

(** ** Device state *)

Section State.
(** The iteration order of a device's signals, and the quality enumerators' numbers. *)
Context (iter : gmap string CachedSignalValue → list (string * CachedSignalValue)) (quality_number : Quality → Z).

(** The devices in the registry's order; one without cached state is passed over. *)
Definition handle_get_state (r : DeviceRegistry) (cache : StateCache) (now : Z) : Response :=
  send_ok [("generated_at_epoch_ms", JInt (ms_of_ns now));
           ("devices", JArray (omap (λ d,
              (λ st, encode_device_state quality_number st (iter (ds_signals st)) (provider_id d) (device_id d) now)
                <$> get_device_state cache (get_handle d)) (get_all_devices r)))].

(** The signals a request asks for: all of them without a [signal_id] parameter. *)
Definition wanted_signal (filter_signals : list string) (entry : string * CachedSignalValue) : Prop :=
  filter_signals = [] ∨ entry.1 ∈ filter_signals.

#[global] Instance wanted_signal_dec l e : Decision (wanted_signal l e).
Proof. unfold wanted_signal. apply _. Defined.

(** [filter_signals] are the values of the [signal_id] parameters. *)
Definition handle_get_device_state (matches filter_signals : list string) (r : DeviceRegistry) (cache : StateCache)
    (now : Z) : Response :=
  match parse_path_params matches with
  | None => send_error HTTP_INVALID_ARGUMENT "Invalid path parameters"
  | Some (provider_id, device_id) =>
      match get_device_copy r provider_id device_id with
      | None => send_error HTTP_NOT_FOUND ("Device not found: " +:+ provider_id +:+ "/" +:+ device_id)
      | Some device =>
          match get_device_state cache (get_handle device) with
          | None => send_error HTTP_UNAVAILABLE "Device state not available"
          | Some state =>
              let shown := filter (wanted_signal filter_signals) (iter (ds_signals state)) in
              send_ok [("generated_at_epoch_ms", JInt (ms_of_ns now));
                       ("provider_id", JString provider_id);
                       ("device_id", JString device_id);
                       ("quality", JString (device_quality quality_number state shown));
                       ("values", JArray ((λ s, encode_signal_value s.2 s.1 now) <$> shown))]
          end
      end
  end.
End State.

(** ** The runtime's status *)

Definition optional_int (o : option Z) : json := match o with Some z => JInt z | None => JNull end.

(** One entry per provider: its id, whether it is available, how many devices it has. *)
Definition provider_entry (r : DeviceRegistry) (p : string * bool) : json :=
  jobject [("provider_id", JString p.1);
           ("state", JString (if p.2 then "AVAILABLE" else "UNAVAILABLE"));
           ("device_count", JInt (Z.of_nat (length (get_devices_for_provider r p.1))))].

Definition total_device_count (r : DeviceRegistry) (providers : list (string * bool)) : nat :=
  foldl (λ n p, n + length (get_devices_for_provider r p.1))%nat 0%nat providers.

Definition encode_estop (cap : EstopCapability) : json :=
  jobject ([("latched", JBool (cap_latched cap));
            ("software_safe_state", JString (safe_state_kind_to_string (cap_software_safe_state cap)));
            ("uncovered_actuating_functions", JInt (Z.of_nat (cap_uncovered_count cap)));
            ("uncovered_functions", jtexts (cap_uncovered_functions cap));
            ("latched_at_epoch_ms", optional_int (cap_latched_at_epoch_ms cap))] ++
           match cap_restored_reason cap with Some why => [("restored_reason", JString why)] | None => [] end).

Definition encode_skipped (s : SkippedAction) : json :=
  jobject [("device_handle", JString (sk_device_handle s)); ("function", JString (sk_function s));
           ("reason", JString (sk_reason s))].

Definition encode_startup (on_startup : StartupOutputs) (rep : StartupSafeStateReport) : json :=
  jobject [("on_startup", JString (match on_startup with StartLeave => "leave" | StartSafeState => "safe_state" end));
           ("ran", JBool (rp_ran rep));
           ("software_safe_state", JString (safe_state_kind_to_string (rp_kind rep)));
           ("safe_state_achieved", JBool (rp_safe_state_achieved rep));
           ("failed_actions", JArray (encode_action <$> rp_failed_actions rep));
           ("skipped_actions", JArray (encode_skipped <$> rp_skipped_actions rep))].

(** The devices whose loss the stop explains. *)
Definition expected_losses (m : StopChainMonitor) (loss : option DeviceLossLatch) : list string :=
  match sn_state (sm_current m), loss with
  | InForce, Some l => filter (λ h, in_scope m h = true) (latched l)
  | _, _ => []
  end.

Definition encode_mismatch (x : StopChainMismatch) : json :=
  jobject [("device", JString (mm_device x)); ("expect", JString (stop_chain_expect_to_string (mm_expect x)));
           ("reason", JString (mm_reason x)); ("since_epoch_ms", JInt (mm_since_epoch_ms x))].

Definition encode_stop_chain (m : StopChainMonitor) (signal : string) (loss : option DeviceLossLatch) : json :=
  jobject [("state", JString (stop_chain_state_to_string (sn_state (sm_current m))));
           ("reason", JString (sn_reason (sm_current m)));
           ("signal", JString signal);
           ("devices", jtexts (sc_devices (sm_config m)));
           ("expectations", JObject (map_items ((λ e, JString (stop_chain_expect_to_string e)) <$> sc_expectations (sm_config m))));
           ("expected_losses", jtexts (expected_losses m loss));
           ("mismatches", JArray (encode_mismatch <$> mismatches m));
           ("since_epoch_ms", optional_int (sn_since_epoch_ms (sm_current m)))].

(** What the handler reads; an absent component is [None]. *)
Record StatusInputs := mkStatusInputs {
  si_version : string;
  si_mode : option RuntimeMode;
  si_uptime_seconds : Z;
  si_polling_interval_ms : Z;
  si_providers : list (string * bool);
  si_fault_uncovered : option (list string);
  si_safe_state : option (EstopCapability * StartupOutputs * StartupSafeStateReport);
  si_loss : option DeviceLossLatch;
  si_stop_chain : option StopChainMonitor;
}.

Definition handle_get_runtime_status (i : StatusInputs) (r : DeviceRegistry) : Response :=
  send_ok ([("version", JString (si_version i));
            ("mode", JString (match si_mode i with Some m => mode_to_string m | None => "MANUAL" end));
            ("uptime_seconds", JInt (si_uptime_seconds i));
            ("polling_interval_ms", JInt (si_polling_interval_ms i));
            ("providers", JArray (provider_entry r <$> si_providers i));
            ("device_count", JInt (Z.of_nat (total_device_count r (si_providers i))))] ++
           match si_fault_uncovered i with Some l => [("fault_uncovered_functions", jtexts l)] | None => [] end ++
           match si_safe_state i with
           | Some (cap, on_startup, rep) =>
               [("estop", encode_estop cap); ("startup_safe_state", encode_startup on_startup rep)]
           | None => []
           end ++
           match si_loss i with Some l => [("device_loss_latched", jtexts (latched l))] | None => [] end ++
           match si_stop_chain i with
           | Some m => match sc_status (sm_config m) with
                       | Some (signal, _) => [("stop_chain", encode_stop_chain m signal (si_loss i))]
                       | None => []
                       end
           | None => []
           end).

(** ** Automation *)

(** [path] is the runtime's tree path, [None] without a behaviour-tree runtime;
    [read_file] gives the file's content when it opens. *)
Definition handle_get_automation_tree (path : option string) (read_file : string → option string) : Response :=
  match path with
  | None => send_error HTTP_UNAVAILABLE "Automation layer not enabled"
  | Some tree_path =>
      if bool_decide (tree_path = "") then send_error HTTP_NOT_FOUND "No behavior tree loaded"
      else match read_file tree_path with
           | None => send_error HTTP_INTERNAL ("Failed to read behavior tree file: " +:+ tree_path)
           | Some xml_content => send_ok [("tree", JString xml_content)]
           end
  end.

(** The reason that qualifies the status; empty for none.  [mode] is read after
    the view was taken. *)
Definition execution_reason (view : AutomationStatusView) (active : bool) (mode : RuntimeMode) : string :=
  if bool_decide (av_engine_kind (sv_version view) = "") then "no_definition"
  else if negb active then "stopped"
  else if bool_decide (sv_status view = Automation.Failed) then "terminal_failure"
  else if negb (bool_decide (mode = AUTO)) then "mode_gate"
  else if bool_decide (sv_status view = Blocked) then "waiting"
  else "".

Definition encode_version (v : AutomationVersion) : json :=
  if bool_decide (av_engine_kind v = "") then JNull
  else jobject [("engine_kind", JString (av_engine_kind v)); ("id", JString (av_id v));
                ("digest", JString (av_digest v)); ("digest_scope", JString (av_digest_scope v))].

Definition encode_call_failure (f : CallFailureView) : json :=
  jobject [("device_handle", JString (cf_device_handle f)); ("function", JString (cf_function f));
           ("consecutive_failures", JInt (cf_consecutive_failures f)); ("last_error", JString (cf_last_error f));
           ("last_failure_at_epoch_ms", JInt (cf_last_failure_ms f))].

(** [health_error] is [get_health().last_error], taken before the view. *)
Definition automation_status_response (health_error : string) (active : bool) (view : AutomationStatusView)
    (mode : RuntimeMode) (open_run : option string) : Response :=
  let reason := execution_reason view active mode in
  send_ok ([("execution_status", JString (automation_status_to_string (sv_status view)));
            ("automation_version", encode_version (sv_version view));
            ("last_evaluation_at_epoch_ms", JInt (sv_last_evaluation_ms view));
            ("engine_diagnostics", sv_engine_diagnostics view);
            ("run_id", match open_run with Some id => JString id | None => JNull end);
            ("last_error", if bool_decide (health_error = "") then JNull else JString health_error);
            ("call_failures", JArray (encode_call_failure <$> sv_call_failures view))] ++
           optional_text "execution_reason" reason).

(** The runtime as each read finds it: its health, whether it runs, its view with
    the mode the view saw, and the mode the handler reads last. *)
Record AutomationReads := mkReads {
  ar_health : BTRuntime;
  ar_running : BTRuntime;
  ar_view : BTRuntime;
  ar_view_mode : RuntimeMode;
  ar_mode : RuntimeMode;
}.

Definition handle_get_automation_status (bt mode_manager : bool) (a : AutomationReads) (open_run : option string) : Response :=
  if negb bt then send_error HTTP_UNAVAILABLE "Automation layer not enabled"
  else if negb mode_manager then send_error HTTP_UNAVAILABLE "Mode manager not available"
  else automation_status_response (ah_last_error (get_health (ar_health a))) (bt_running (ar_running a))
         (Automation.status (ar_view_mode a) (ar_view a)) (ar_mode a) open_run.

(** ** Provider health *)

Definition text_map (m : gmap string string) : json := JObject (map_items (JString <$> m)).

Definition reported_device_health_json (rd : ReportedDeviceHealth) : json :=
  jobject [("state", JString (rd_state rd)); ("message", JString (rd_message rd));
           ("metrics", text_map (rd_metrics rd)); ("last_seen_epoch_ms", optional_int (rd_last_seen_epoch_ms rd))].

Definition encode_device_health (ds : DeviceHealthSnapshot) : json :=
  jobject [("device_id", JString (dhs_device_id ds)); ("health", JString (dhs_health ds));
           ("last_poll_ms", JInt (dhs_last_poll_ms ds)); ("staleness_ms", JInt (dhs_staleness_ms ds));
           ("registered", JBool (dhs_registered ds)); ("stale_signal_count", JInt (dhs_stale_signal_count ds));
           ("fault_signal_count", JInt (dhs_fault_signal_count ds)); ("type_version", JString (dhs_type_version ds));
           ("descriptor_tags", text_map (dhs_descriptor_tags ds));
           ("reported", match dhs_reported ds with Some rd => reported_device_health_json rd | None => JNull end)].

Definition encode_supervision (s : SupervisionView) : json :=
  jobject [("enabled", JBool (sv_enabled s)); ("attempt_count", JInt (sv_attempt_count s));
           ("max_attempts", JInt (sv_max_attempts s)); ("crash_detected", JBool (sv_crash_detected s));
           ("circuit_open", JBool (sv_circuit_open s)); ("next_restart_in_ms", optional_int (sv_next_restart_in_ms s))].

Definition encode_reported_provider (rp : ReportedProviderHealth) : json :=
  jobject [("state", JString (rp_state rp)); ("message", JString (rp_message rp)); ("metrics", text_map (rp_metrics rp))].

Definition encode_provider_health (ps : ProviderHealthSnapshot) : json :=
  jobject [("provider_id", JString (phs_provider_id ps)); ("state", JString (phs_state ps));
           ("lifecycle_state", JString (phs_lifecycle_state ps)); ("last_seen_ago_ms", optional_int (phs_last_seen_ago_ms ps));
           ("uptime_seconds", JInt (phs_uptime_seconds ps)); ("device_count", JInt (phs_device_count ps));
           ("degraded", JBool (phs_degraded ps)); ("failed_device_count", JInt (phs_failed_device_count ps));
           ("reported", match phs_reported ps with Some rp => encode_reported_provider rp | None => JNull end);
           ("supervision", encode_supervision (phs_supervision ps));
           ("devices", JArray (encode_device_health <$> phs_devices ps))].

(** [snapshot] is what [collect_providers_health] gives. *)
Definition handle_get_providers_health (snapshot : list ProviderHealthSnapshot) : Response :=
  send_ok [("providers", JArray (encode_provider_health <$> snapshot))].

(** ** Telemetry *)

(** The subscription's queue, when there is one. *)
Definition sink_queue (s : InfluxSink) (h : Queues) : option SubscriberQueue := s_subscription s ≫= queue_at h.

Definition handle_get_telemetry_status (sink : option InfluxSink) (h : Queues) : Response :=
  send_ok match sink with
          | None =>
              [("enabled", JBool false); ("running", JBool false); ("connected", JBool false);
               ("total_written", JInt 0); ("total_failed", JInt 0); ("pending_batch", JInt 0);
               ("queue_depth", JInt 0); ("dropped_events", JInt 0)]
          | Some s =>
              [("enabled", JBool (in_enabled (s_config s)));
               ("running", JBool (s_running s));
               ("connected", JBool (s_connected s));
               ("total_written", JInt (s_total_written s));
               ("total_failed", JInt (s_total_failed s));
               ("pending_batch", JInt (Z.of_nat (length (s_batch s))));
               ("queue_depth", JInt (match sink_queue s h with Some q => queue_size q | None => 0 end));
               ("dropped_events", JInt (match sink_queue s h with Some q => dropped_count_ q | None => 0 end));
               ("backend", jobject [("url", JString (in_url (s_config s))); ("org", JString (in_org (s_config s)));
                                    ("bucket", JString (in_bucket (s_config s)))])]
          end.

(** ** Paths name devices *)

Lemma segments_from_app cur s rest :
  has_char slash s = false → segments_from cur (s +:+ rest) = segments_from (cur +:+ s) rest.
Proof.
  revert cur. induction s as [|c s IH]; intros cur; simpl; [by rewrite string_app_nil_r|].
  intros [Hc Hs]%orb_false_iff. rewrite Hc, IH by done. by rewrite string_app_assoc.
Qed.

Lemma segments_from_slash cur rest : segments_from cur (String slash rest) = cur :: segments_from "" rest.
Proof. done. Qed.

(** Two names, each a path segment. *)
Definition segment_name (s : string) : Prop := s ≠ "" ∧ has_char slash s = false.

Lemma device_segments prefix p d suffix :
  has_char slash prefix = false → segment_name p → segment_name d →
  segments_from "" ("/v0/" +:+ prefix +:+ "/" +:+ p +:+ "/" +:+ d +:+ suffix) =
  "" :: "v0" :: prefix :: p :: segments_from d suffix.
Proof.
  intros Hpre [_ Hp] [_ Hd].
  trans ("" :: "v0" :: segments_from "" (prefix +:+ String slash (p +:+ String slash (d +:+ suffix)))); [done|].
  by rewrite !segments_from_app, !segments_from_slash, !segments_from_app, !segments_from_slash, segments_from_app by done.
Qed.

(** A device's pages are its own: for any two names that can be path segments
    the state and capabilities paths reach their handlers, which read back exactly
    those two names; the answer to a malformed path is never given. *)
Theorem device_paths_roundtrip p d :
  segment_name p → segment_name d →
  let state_path := "/v0/state/" +:+ p +:+ "/" +:+ d in
  let caps_path := "/v0/devices/" +:+ p +:+ "/" +:+ d +:+ "/capabilities" in
  dispatch_route "GET" state_path = Some HGetDeviceState ∧
  parse_path_params (captures (v0 [Lit "state"; Any; Any]) (segments_from "" state_path)) = Some (p, d) ∧
  dispatch_route "GET" caps_path = Some HGetDeviceCapabilities ∧
  parse_path_params (captures (v0 [Lit "devices"; Any; Any; Lit "capabilities"]) (segments_from "" caps_path)) = Some (p, d).
Proof.
  intros Hp Hd. pose proof (device_segments "state" p d "" eq_refl Hp Hd) as Hs.
  pose proof (device_segments "devices" p d "/capabilities" eq_refl Hp Hd) as Hc.
  rewrite string_app_nil_r in Hs. cbv zeta. destruct Hp as [Hp _], Hd as [Hd _].
  assert (∀ x : string, x ≠ "" → bool_decide (x = "") = false) as Hne by (intros; by apply bool_decide_eq_false).
  split_and!.
  - unfold dispatch_route, routes, route_matches. change ("/v0/state/" +:+ p +:+ "/" +:+ d)
      with ("/v0/" +:+ "state" +:+ "/" +:+ p +:+ "/" +:+ d). rewrite Hs. simpl. by rewrite !Hne.
  - change ("/v0/state/" +:+ p +:+ "/" +:+ d) with ("/v0/" +:+ "state" +:+ "/" +:+ p +:+ "/" +:+ d). by rewrite Hs.
  - unfold dispatch_route, routes, route_matches. change ("/v0/devices/" +:+ p +:+ "/" +:+ d +:+ "/capabilities")
      with ("/v0/" +:+ "devices" +:+ "/" +:+ p +:+ "/" +:+ d +:+ "/capabilities"). rewrite Hc. simpl. by rewrite !Hne.
  - change ("/v0/devices/" +:+ p +:+ "/" +:+ d +:+ "/capabilities")
      with ("/v0/" +:+ "devices" +:+ "/" +:+ p +:+ "/" +:+ d +:+ "/capabilities"). by rewrite Hc.
Qed.

Lemma device_paths_roundtrip_witness :
  dispatch_route "GET" "/v0/state/sim0/pump" = Some HGetDeviceState ∧
  dispatch_route "GET" "/v0/devices/sim0/pump/capabilities" = Some HGetDeviceCapabilities.
Proof.
  assert (segment_name "sim0") as Hp by (by split). assert (segment_name "pump") as Hd by (by split).
  pose proof (device_paths_roundtrip "sim0" "pump" Hp Hd) as (H1 & _ & H2 & _). split; [exact H1|exact H2].
Defined.

(** ** What is shown *)

(** The telemetry status never depends on the API token: two sinks that differ
    in the token alone get the same answer. *)
Theorem telemetry_status_hides_token (s : InfluxSink) (token : string) (h : Queues) :
  let c := s_config s in
  let c' := mkInflux (in_enabled c) (in_url c) (in_org c) (in_bucket c) token (in_runtime_name c) (in_batch_size c)
              (in_flush_interval_ms c) (in_queue_size c) (in_max_retry_buffer_size c) in
  let s' := mkSink c' (s_subscription s) (s_running s) (s_connected s) (s_batch s) (s_retry_buffer s)
              (s_total_written s) (s_total_failed s) (s_total_rejected s) in
  handle_get_telemetry_status (Some s') h = handle_get_telemetry_status (Some s) h.
Proof. by destruct s as [[] ? ? ? ? ? ? ? ?]. Qed.

(** The reason explains the status.  With a definition loaded and the engine
    running, read at one moment: no reason is given exactly while it runs or has
    completed, a failure is always reported as one whatever the mode (so the FAULT
    it drove itself does not hide it), and the mode gate only ever explains an idle
    engine outside AUTO. *)
Theorem execution_reason_explains (mode : RuntimeMode) (b : BTRuntime) :
  df_loaded (bt_def b) = true → bt_running b = true → av_engine_kind (df_version (bt_def b)) ≠ "" →
  let view := Automation.status mode b in
  match execution_reason view (bt_running b) mode, sv_status view with
  | "", Automation.Running | "", Completed => True
  | "terminal_failure", Automation.Failed => True
  | "waiting", Blocked => mode = AUTO
  | "mode_gate", Idle => mode ≠ AUTO
  | _, _ => False
  end.
Proof.
  intros Hl Hr Hk. unfold execution_reason, Automation.status. simpl. rewrite Hl, Hr. simpl.
  rewrite (bool_decide_false (_ = "")) by done.
  destruct (_ && bool_decide (rn_last_tick_status _ = _)); simpl; [done|].
  destruct (bool_decide_reflect (mode = AUTO)); simpl; [|done].
  destruct (rn_run_ended _); simpl.
  - by destruct (bool_decide (rn_last_tick_status _ = _)).
  - by destruct (10 <? _).
Qed.

(** A runtime whose tree has just thrown. *)
Definition faulted_runtime : BTRuntime :=
  with_running true (with_run (mkRunStatus FAILURE false 1 0 "boom" [])
    (with_def (mkDefinition true "tree.xml" "<root/>" (mkVersion "bt" "tree.xml" "00" "top_level_file")) bt_runtime0)).

Lemma execution_reason_explains_witness :
  execution_reason (Automation.status FAULT faulted_runtime) true FAULT = "terminal_failure".
Proof.
  pose proof (execution_reason_explains FAULT faulted_runtime eq_refl eq_refl ltac:(done)) as H.
  vm_compute. reflexivity.
Defined.

(** *** Counting devices *)

Lemma total_device_count_from (r : DeviceRegistry) (providers : list (string * bool)) n :
  foldl (λ n p, n + length (get_devices_for_provider r p.1))%nat n providers =
  (n + total_device_count r providers)%nat.
Proof.
  unfold total_device_count. revert n. induction providers as [|p l IH]; intros n; simpl; [lia|].
  rewrite IH, (IH (length _)). lia.
Qed.

(** Splitting a list by a key: the parts of distinct keys that cover it add up. *)
Lemma filter_by_key_length {A} (key : A → string) (keys : list string) (l : list A) :
  NoDup keys → Forall (λ x, key x ∈ keys) l →
  length l = sum_list ((λ k, length (filter (λ x, key x = k) l)) <$> keys).
Proof.
  intros Hnd Hall. induction Hall as [|x l Hx _ IH]; simpl.
  { clear Hnd. induction keys; simpl; auto. }
  rewrite IH. clear IH. induction Hnd as [|k keys Hk Hnd IH]; [by apply not_elem_of_nil in Hx|]. simpl.
  rewrite filter_cons. destruct (decide (key x = k)) as [<-|Hne]; simpl.
  - do 3 f_equal. apply list_fmap_ext. intros i k' Hk'. simpl.
    rewrite filter_cons_False; [done|]. intros E. rewrite E in Hk. by apply Hk, (list_elem_of_lookup_2 _ i).
  - apply elem_of_cons in Hx as [?|Hx]; [done|]. specialize (IH Hx). rewrite plus_n_Sm. f_equal. exact IH.
Qed.

(** The device count of [GET /v0/runtime/status] is the registry's: when the
    providers listed are distinct and every device belongs to one of them, each
    device is counted exactly once. *)
Theorem status_counts_every_device (r : DeviceRegistry) (providers : list (string * bool)) :
  NoDup providers.*1 → Forall (λ d, provider_id d ∈ providers.*1) (get_all_devices r) →
  total_device_count r providers = device_count r.
Proof.
  intros Hnd Hall. unfold device_count. rewrite (filter_by_key_length provider_id providers.*1 (devices_ r)) by done.
  clear Hnd Hall. induction providers as [|p l IH]; simpl; [done|].
  unfold total_device_count. simpl. by rewrite total_device_count_from, IH.
Qed.

Lemma status_counts_every_device_witness : total_device_count LadderBench.registry [("sim0", true); ("sim1", false)] = 1%nat.
Proof.
  apply (status_counts_every_device LadderBench.registry [("sim0", true); ("sim1", false)]).
  - apply (bool_decide_unpack _). by vm_compute.
  - apply (bool_decide_unpack _). by vm_compute.
Defined.

(** *** Device state *)

(** [GET /v0/state/{provider}/{device}] shows the cache.  For a device that is
    registered and cached it answers 200 with one entry for each cached signal
    that is asked for and no others, each once, under any iteration order, and
    with the worst quality among the entries shown, or UNAVAILABLE when its
    provider is; 404 and 503 say which of the two is missing. *)
Theorem device_state_answers (iter : gmap string CachedSignalValue → list (string * CachedSignalValue))
    (quality_number : Quality → Z) (p d : string) (rest wanted : list string) (r : DeviceRegistry) (cache : StateCache)
    (now : Z) :
  (∀ m, iter m ≡ₚ map_to_list m) →
  let resp := handle_get_device_state iter quality_number (p :: d :: rest) wanted r cache now in
  match get_device_copy r p d with
  | None => rs_status resp = 404
  | Some device =>
      match get_device_state cache (get_handle device) with
      | None => rs_status resp = 503
      | Some state =>
          rs_status resp = 200 ∧
          ∃ shown q, NoDup shown.*1 ∧
            (∀ sid v, (sid, v) ∈ shown ↔ ds_signals state !! sid = Some v ∧ (wanted = [] ∨ sid ∈ wanted)) ∧
            jget "values" (rs_body resp) = Some (JArray ((λ s, encode_signal_value s.2 s.1 now) <$> shown)) ∧
            jget "quality" (rs_body resp) =
              Some (JString (if ds_provider_available state then http_quality_to_string q else "UNAVAILABLE")) ∧
            (q = QUALITY_OK ∨ ∃ sid v, (sid, v) ∈ shown ∧ csv_quality v = q) ∧
            ∀ sid v, (sid, v) ∈ shown → quality_number (csv_quality v) ≤ quality_number q
      end
  end.
Proof.
  intros Hiter. unfold handle_get_device_state. simpl parse_path_params. cbv iota beta.
  destruct (get_device_copy r p d) as [device|]; [|done].
  destruct (get_device_state cache (get_handle device)) as [state|]; [|done].
  set (shown := filter _ _). split; [done|]. exists shown, (foldl (worse quality_number) QUALITY_OK shown).
  destruct (foldl_worse quality_number shown QUALITY_OK) as (_ & Hmax & Hfrom).
  assert (∀ sid v, (sid, v) ∈ shown ↔ ds_signals state !! sid = Some v ∧ (wanted = [] ∨ sid ∈ wanted)) as Hin.
  { intros sid v. unfold shown. rewrite list_elem_of_filter, Hiter, elem_of_map_to_list. unfold wanted_signal. simpl. tauto. }
  split_and!; [| exact Hin| | | |].
  - apply (sublist_NoDup _ (iter (ds_signals state)).*1).
    + rewrite Hiter. apply NoDup_fst_map_to_list.
    + unfold shown. generalize (iter (ds_signals state)). intros l.
      induction l as [|x l IH]; [constructor|]. rewrite filter_cons. case_decide; by constructor.
  - apply send_ok_member. done.
  - rewrite send_ok_member by done. simpl. unfold device_quality. by destruct (ds_provider_available state).
  - destruct Hfrom as [->|([sid v] & Hs & ->)]; [by left|right; by exists sid, v].
  - intros sid v Hs. rewrite Forall_forall in Hmax. by apply (Hmax (sid, v)).
Qed.

Lemma device_state_answers_witness :
  rs_status (handle_get_device_state map_to_list (λ _, 0) ["sim0"; "a"] ["x"] 
    (commit_provider_devices "sim0" [polled_device "sim0" "a"] true empty_registry) sample_run 5) = 200.
Proof.
  pose proof (device_state_answers map_to_list (λ _, 0) "sim0" "a" [] ["x"]
    (commit_provider_devices "sim0" [polled_device "sim0" "a"] true empty_registry) sample_run 5 ltac:(done)) as H.
  cbv zeta in H. set (x := rs_status _) in H |- *.
  assert (is_Some (get_device_copy (commit_provider_devices "sim0" [polled_device "sim0" "a"] true empty_registry) "sim0" "a"
            ≫= λ d, get_device_state sample_run (get_handle d))) as [st Hst] by (vm_compute; by eexists).
  destruct (get_device_copy _ _ _) as [dev|]; [|discriminate Hst]. simpl in Hst. rewrite Hst in H. exact (proj1 H).
Defined.
