(* ===== verification/HttpRuns.v ===== *)
(** * The HTTP handlers of the run registry ([core/http/handlers/run_handlers.cpp])

    Opening, closing, listing and reading runs and their events, over the journal
    of [RunJournal].  A handler takes the journal, [None] when the registry is not
    enabled, and gives the response and the journal after.  What the file system
    answers and the clocks read are arguments, as in [RunJournal]; an exception of
    the JSON printer leaves the handler and is answered by the exception handler. *)

From S2P Require Import Prelude Protocol Json StateCache Automation RunJournal HttpGate HttpJson HttpControl.

(** ** Reading requests *)

(** [parse_size]: [std::from_chars] of the whole text, or the fallback. *)
Definition parse_size (s : string) (fallback : Z) : Z :=
  if negb (bool_decide (s = "")) && all_digits s && (digits_value 0 s <=? uint64_max) then digits_value 0 s else fallback.

(** A [limit] or [offset] parameter, [None] when it is absent. *)
Definition page_limit (param : option string) (fallback cap : Z) : Z :=
  match param with Some s => Z.min (parse_size s fallback) cap | None => fallback end.
Definition page_offset (param : option string) : Z :=
  match param with Some s => parse_size s 0 | None => 0 end.

Definition parse_str_array (j : json) (key : string) : list string :=
  match jget key j with Some (JArray l) => omap jstring l | _ => [] end.

Definition parse_tag_scope (j : json) : TagScope :=
  mkScope (parse_str_array j "provider_ids") (parse_str_array j "device_ids") (parse_str_array j "signal_ids").

Definition run_envelope (run : Run) : Response := send_ok [("run", run_to_json run)].

(** The run in a URL: the first capture, or nothing. *)
Definition run_id_of (matches : list string) : string := match matches with id :: _ => id | [] => "" end.

Definition not_enabled : Response := send_error HTTP_UNAVAILABLE "Run registry not enabled".

(** What the environment answers one operation: clocks, randomness, the two writes. *)
Record OpEnv := mkOpEnv {
  oe_mint_now : Z; oe_rng1 : Z; oe_rng2 : Z; oe_now : Z; oe_now1 : Z; oe_now2 : Z; oe_io1 : Io; oe_io2 : Io;
}.

Section Handlers.
Context (parse : string → string + json) (dump_error : string).
Context `{JsonLines} (cast : double → Z) (anolis_version : string).

(** A body that may be absent. *)
Definition optional_body (body : string) : result json :=
  if bool_decide (body = "") then Ok (JObject []) else parse_body parse body.

(** ** [POST /v0/runs] *)

Definition open_spec (body : json) : result RunOpenSpec :=
  try label <- label_from_open_request body ;;
  Ok (mkOpenSpec label (default (JObject []) (jmember as_object "params" body))
        (match jmember as_object "tag_scope" body with Some s => parse_tag_scope s | None => mkScope [] [] [] end)).

(** The automation version recorded, from the engine's when it has one. *)
Definition version_record (v : option AutomationVersion) : option AutomationVersionRecord :=
  match v with
  | Some v => if bool_decide (Automation.av_engine_kind v = "") then None
              else Some (RunJournal.mkVersion (Automation.av_engine_kind v) (Automation.av_id v) (Automation.av_digest v)
                           (Automation.av_digest_scope v))
  | None => None
  end.

Definition handle_post_runs (body : string) (engine : option AutomationVersion) (e : OpEnv) (journal : option RunJournal)
    : Response * option RunJournal :=
  match journal with
  | None => (not_enabled, None)
  | Some j =>
      match (try doc <- optional_body body ;; open_spec doc) with
      | Err error => (send_error HTTP_INVALID_ARGUMENT error, journal)
      | Ok spec =>
          match open cast anolis_version spec (version_record engine) (oe_mint_now e) (oe_rng1 e) (oe_rng2 e) (oe_now e)
                  (oe_now1 e) (oe_now2 e) (oe_io1 e) (oe_io2 e) j with
          | (None, j') => (escaped dump_error, Some j')
          | (Some (Err error), j') => (send_error HTTP_FAILED_PRECONDITION error, Some j')
          | (Some (Ok run), j') => (run_envelope run, Some j')
          end
      end
  end.

(** ** [POST /v0/runs/{run_id}/close] *)

Definition requested_reason (body : string) : result CloseReason :=
  if bool_decide (body = "") then Ok OperatorStop
  else
    try doc <- parse_body parse body ;;
    match jmember jstring "close_reason" doc with
    | None => Ok OperatorStop
    | Some s => match close_reason_from_string s with
                | None => Err "Invalid close_reason (expected operator_stop|completed|failed|superseded)"
                | Some reason => Ok reason
                end
    end.

Definition handle_post_run_close (matches : list string) (body : string) (e : OpEnv) (journal : option RunJournal)
    : Response * option RunJournal :=
  match journal with
  | None => (not_enabled, None)
  | Some j =>
      match requested_reason body with
      | Err error => (send_error HTTP_INVALID_ARGUMENT error, journal)
      | Ok reason =>
          match close cast (run_id_of matches) reason (oe_now e) (oe_now1 e) (oe_now2 e) (oe_io1 e) (oe_io2 e) j with
          | (None, j') => (escaped dump_error, Some j')
          | (Some (Err error), j') => (send_error HTTP_NOT_FOUND error, Some j')
          | (Some (Ok run), j') => (run_envelope run, Some j')
          end
      end
  end.

(** ** Reading runs *)

Definition handle_get_runs (limit offset : option string) (journal : option RunJournal) : Response :=
  match journal with
  | None => not_enabled
  | Some j =>
      let page := list_runs (Z.to_nat (page_limit limit 50 200)) (Z.to_nat (page_offset offset)) j in
      send_ok [("runs", JArray (run_to_json <$> page)); ("count", JInt (Z.of_nat (length page)))]
  end.

Definition handle_get_run (matches : list string) (journal : option RunJournal) : Response :=
  match journal with
  | None => not_enabled
  | Some j =>
      match get j (run_id_of matches) with
      | None => send_error HTTP_NOT_FOUND ("Unknown run: " +:+ run_id_of matches)
      | Some run => run_envelope run
      end
  end.

(** ** Events *)

(** The marker a body asks for: its type, payload and time. *)
Definition requested_marker (body : string) : result (string * json * Z) :=
  try doc <- optional_body body ;;
  match jmember jstring "type" doc with
  | None | Some "" => Err "marker requires a non-empty string 'type'"
  | Some type =>
      Ok (type, default (JObject []) (jmember as_object "payload" doc),
          default 0 (jmember as_unsigned "occurred_at_epoch_ms" doc))
  end.

Definition handle_post_run_events (matches : list string) (body : string) (e : OpEnv) (journal : option RunJournal)
    : Response * option RunJournal :=
  match journal with
  | None => (not_enabled, None)
  | Some j =>
      let id := run_id_of matches in
      match requested_marker body with
      | Err error => (send_error HTTP_INVALID_ARGUMENT error, journal)
      | Ok (type, payload, occurred_at) =>
          match append_event cast id Annotation type payload occurred_at (oe_now1 e) (oe_now2 e) (oe_io1 e) j with
          | (None, j') => (escaped dump_error, Some j')
          | (Some (Err error), j') =>
              (send_error (match get j' id with Some _ => HTTP_FAILED_PRECONDITION | None => HTTP_NOT_FOUND end) error, Some j')
          | (Some (Ok event), j') => (send_ok [("event", event_to_json event)], Some j')
          end
      end
  end.

Definition handle_get_run_events (matches : list string) (limit offset : option string) (journal : option RunJournal)
    : Response :=
  match journal with
  | None => not_enabled
  | Some j =>
      let id := run_id_of matches in
      match get j id with
      | None => send_error HTTP_NOT_FOUND ("Unknown run: " +:+ id)
      | Some _ =>
          let page := list_events cast id (Z.to_nat (page_limit limit 200 1000)) (Z.to_nat (page_offset offset)) j in
          send_ok [("events", JArray (event_to_json <$> page)); ("count", JInt (Z.of_nat (length page)))]
      end
  end.
End Handlers.

(** ** Pages *)

Lemma parse_size_digits n fallback : in_uint64 n → parse_size (to_string n) fallback = n.
Proof.
  intros [H0 H1]. destruct (to_string_digits n H0) as (d & -> & Hne & Hd & Hv). unfold parse_size.
  rewrite bool_decide_false by done. rewrite Hd, Hv. simpl. by rewrite (proj2 (Z.leb_le _ _)).
Qed.

Lemma page_limit_cap param fallback cap : fallback ≤ cap → page_limit param fallback cap ≤ cap.
Proof. destruct param; simpl; lia. Qed.

Lemma page_limit_exact n fallback cap : in_uint64 n → n ≤ cap → page_limit (Some (to_string n)) fallback cap = n.
Proof. intros. simpl. rewrite parse_size_digits by done. lia. Qed.

Lemma length_list_runs limit offset j : (length (list_runs limit offset j) ≤ limit)%nat.
Proof. unfold list_runs. case_match; simpl; [lia|]. rewrite length_take. lia. Qed.

Lemma length_list_events `{JsonLines} cast id limit offset j : (length (list_events cast id limit offset j) ≤ limit)%nat.
Proof. unfold list_events. rewrite length_take. lia. Qed.

(** No query makes a page unbounded: whatever text [limit] and [offset] hold,
    a page has at most 200 runs or 1000 events, its [count] is its length, and it
    is the journal's page; a number within the cap is taken as it is written. *)
Theorem pages_bounded `{JsonLines} (cast : double → Z) (matches : list string) (limit offset : option string)
    (j : RunJournal) :
  (∃ page, jget "runs" (rs_body (handle_get_runs limit offset (Some j))) = Some (JArray (run_to_json <$> page)) ∧
     jget "count" (rs_body (handle_get_runs limit offset (Some j))) = Some (JInt (Z.of_nat (length page))) ∧
     (length page ≤ 200)%nat ∧
     (∀ n o, limit = Some (to_string n) → offset = Some (to_string o) → 0 ≤ n ≤ 200 → in_uint64 o →
        page = list_runs (Z.to_nat n) (Z.to_nat o) j)) ∧
  (is_Some (get j (run_id_of matches)) →
   ∃ page, let resp := handle_get_run_events cast matches limit offset (Some j) in
     jget "events" (rs_body resp) = Some (JArray (event_to_json <$> page)) ∧
     jget "count" (rs_body resp) = Some (JInt (Z.of_nat (length page))) ∧
     (length page ≤ 1000)%nat ∧
     (∀ n o, limit = Some (to_string n) → offset = Some (to_string o) → 0 ≤ n ≤ 1000 → in_uint64 o →
        page = list_events cast (run_id_of matches) (Z.to_nat n) (Z.to_nat o) j)).
Proof.
  assert (∀ n cap, 0 ≤ n ≤ cap → cap < 2 ^ 32 → in_uint64 n) as Hsmall by (unfold in_uint64, uint64_max; lia).
  split.
  - eexists. unfold handle_get_runs. split_and!; [by rewrite send_ok_member|by rewrite send_ok_member| |].
    + etrans; [apply length_list_runs|]. pose proof (page_limit_cap limit 50 200 ltac:(lia)). lia.
    + intros n o -> -> Hn Ho. rewrite page_limit_exact; [|by apply (Hsmall n 200)|lia]. simpl page_offset. by rewrite parse_size_digits.
  - intros [run Hrun]. eexists. unfold handle_get_run_events. rewrite Hrun. cbv zeta.
    split_and!; [by rewrite send_ok_member|by rewrite send_ok_member| |].
    + etrans; [apply length_list_events|]. pose proof (page_limit_cap limit 200 1000 ltac:(lia)). lia.
    + intros n o -> -> Hn Ho. rewrite page_limit_exact; [|by apply (Hsmall n 1000)|lia]. simpl page_offset. by rewrite parse_size_digits.
Qed.

(** ** Read your writes *)

Section Lifecycle.
Context (parse : string → string + json) (dump_error : string).
Context `{JsonLines} (cast : double → Z) (anolis_version : string).

Lemma open_ok spec version mint_now rng1 rng2 now now1 now2 io1 io2 j run j' :
  open cast anolis_version spec version mint_now rng1 rng2 now now1 now2 io1 io2 j = (Some (Ok run), j') →
  j_open_run_id j' = Some (run_id run) ∧ get j' (run_id run) = Some run ∧ run_state run = Open ∧
  run_label run = os_label spec ∧ run_params run = os_params spec ∧ run_tag_scope run = os_tag_scope spec ∧
  run_automation_version run = version.
Proof.
  unfold open, mint_run_id. destruct (j_open_run_id j); [done|]. set (id := _ +:+ _). intros Ho.
  set (r := mkRunRecord _ _ _ _ _ _ _ _ _ _ _ _) in Ho.
  destruct (append_record r io1 _) as [[[u|?]|] j1]; [|done..].
  destruct (append_event_locked cast id _ _ _ _ _ _ _ _) as [ev j3] eqn:He.
  pose proof (append_event_frame _ _ _ _ _ _ _ _ _ _ _ _ He) as (files & seqs & -> & _).
  destruct ev; [|done]. simplify_eq. unfold get. simpl. by rewrite lookup_insert_eq.
Qed.

Lemma close_ok id reason now now1 now2 io1 io2 j run j' :
  close cast id reason now now1 now2 io1 io2 j = (Some (Ok run), j') →
  get j' id = Some run ∧ run_state run = Closed.
Proof.
  unfold close, get. destruct (j_runs j !! id) as [r|] eqn:Hr; [|done].
  destruct (run_state r) eqn:Hs; [|by intros; simplify_eq].
  destruct (append_record _ io1 j) as [[[u|?]|] j1]; [|done..].
  destruct (append_event_locked cast id _ _ _ _ _ _ _ _) as [ev j3] eqn:He.
  pose proof (append_event_frame _ _ _ _ _ _ _ _ _ _ _ _ He) as (files & seqs & -> & _).
  destruct ev; [|done]. intros. simplify_eq. case_bool_decide; simpl; by rewrite lookup_insert_eq.
Qed.

Lemma post_runs_200 body engine e j resp j' :
  handle_post_runs parse dump_error cast anolis_version body engine e (Some j) = (resp, j') → rs_status resp = 200 →
  ∃ doc spec run j1, optional_body parse body = Ok doc ∧ open_spec doc = Ok spec ∧ resp = run_envelope run ∧ j' = Some j1 ∧
    open cast anolis_version spec (version_record engine) (oe_mint_now e) (oe_rng1 e) (oe_rng2 e) (oe_now e) (oe_now1 e)
      (oe_now2 e) (oe_io1 e) (oe_io2 e) j = (Some (Ok run), j1).
Proof.
  unfold handle_post_runs. destruct (optional_body parse body) as [doc|?]; simpl; [|by intros [= <- _] [=]].
  destruct (open_spec doc) as [spec|?] eqn:Hsp; [|by intros [= <- _] [=]].
  destruct (open _ _ _ _ _ _ _ _ _ _ _ _ _) as [[[run|?]|] j1] eqn:Ho; intros [= <- <-]; [|by intros [=]..].
  intros _. by exists doc, spec, run, j1.
Qed.
End Lifecycle.

(** What the registry accepted is what it shows.  A run opened over HTTP has
    what the body asked for and the engine's version, is the run read back at its
    id, and while it is open another open request is refused with 409 and changes
    nothing; a run closed over HTTP is read back closed, and closing it again, for
    any reason, answers the same and changes nothing. *)
Theorem runs_read_back (parse : string → string + json) (dump_error : string) `{JsonLines} (cast : double → Z)
    (version : string) (matches : list string) (body : string) (engine : option AutomationVersion) (e : OpEnv)
    (j : RunJournal) :
  (let '(resp, j') := handle_post_runs parse dump_error cast version body engine e (Some j) in
   rs_status resp = 200 →
   ∃ doc spec run, optional_body parse body = Ok doc ∧ open_spec doc = Ok spec ∧ resp = run_envelope run ∧
     run_state run = Open ∧ run_label run = os_label spec ∧ run_params run = os_params spec ∧
     run_tag_scope run = os_tag_scope spec ∧ run_automation_version run = version_record engine ∧
     handle_get_run [run_id run] j' = resp ∧
     ∀ body2 doc2 spec2 engine2 e2, optional_body parse body2 = Ok doc2 → open_spec doc2 = Ok spec2 →
       let '(resp2, j2) := handle_post_runs parse dump_error cast version body2 engine2 e2 j' in
       rs_status resp2 = 409 ∧ j2 = j') ∧
  (let '(resp, j') := handle_post_run_close parse dump_error cast matches body e (Some j) in
   rs_status resp = 200 →
   ∃ run, resp = run_envelope run ∧ run_state run = Closed ∧ handle_get_run matches j' = resp ∧
     ∀ body2 reason2 e2, requested_reason parse body2 = Ok reason2 →
       handle_post_run_close parse dump_error cast matches body2 e2 j' = (resp, j')).
Proof.
  split.
  - destruct (handle_post_runs _ _ _ _ _ _ _ _) as [resp j'] eqn:E. intros Hs.
    destruct (post_runs_200 _ _ _ _ _ _ _ _ _ _ E Hs) as (doc & spec & run & j1 & Hd & Hsp & -> & -> & Ho).
    apply open_ok in Ho as (Hid & Hg & Hst & Hl & Hp & Ht & Hv). exists doc, spec, run. split_and!; try done.
    + unfold handle_get_run. simpl. by rewrite Hg.
    + intros body2 doc2 spec2 engine2 e2 Hd2 Hs2. unfold handle_post_runs. rewrite Hd2. simpl. rewrite Hs2.
      unfold open. by rewrite Hid.
  - unfold handle_post_run_close. destruct (requested_reason parse body) as [reason|?]; [|done].
    destruct (close _ _ _ _ _ _ _ _ _) as [[[run|?]|] j1] eqn:Hc; [|done..]. intros _.
    apply close_ok in Hc as [Hg Hst]. exists run. split_and!; try done.
    + unfold handle_get_run. by rewrite Hg.
    + intros body2 reason2 e2 ->. unfold close. unfold get in Hg. by rewrite Hg, Hst.
Qed.

Definition sample_op : OpEnv := mkOpEnv 1000 1 2 1000 1000 1001 good_io good_io.
Definition empty_object (_ : string) : string + json := inr (JObject []).

Lemma runs_read_back_witness :
  let '(resp, j') := handle_post_runs (H := bit_codec) empty_object "" no_cast "1.0" "{}" None sample_op (Some start_journal) in
  rs_status resp = 200 ∧
  (handle_post_runs (H := bit_codec) empty_object "" no_cast "1.0" "" None sample_op j').2 = j'.
Proof.
  destruct (runs_read_back (H := bit_codec) empty_object "" no_cast "1.0" [] "{}" None sample_op start_journal) as [Hx _].
  set (x := handle_post_runs _ _ _ _ "{}" _ _ _) in Hx |- *.
  assert (rs_status x.1 = 200) as Hs by (vm_compute; reflexivity).
  destruct x as [resp j']. split; [exact Hs|].
  destruct (Hx Hs) as (doc & spec & run & _ & _ & _ & _ & _ & _ & _ & _ & _ & Hagain).
  assert (open_spec (JObject []) = Ok (mkOpenSpec None (JObject []) (mkScope [] [] []))) as Hsp by reflexivity.
  pose proof (Hagain "" (JObject []) _ None sample_op eq_refl Hsp) as Hy.
  destruct (handle_post_runs _ _ _ _ "" _ _ j') as [resp2 j2]. exact (proj2 Hy).
Defined.

(** ** Markers *)

Lemma canonical_member k d v : canonical d = true → jget k d = Some v → canonical v = true.
Proof.
  destruct d; try done. intros Hd Hk. apply alookup_elem in Hk.
  change (forallb (λ p, canonical p.2) l && bool_decide (merge_sort str_le (fst <$> l) = fst <$> l) &&
          bool_decide (NoDup (fst <$> l)) = true) in Hd.
  apply andb_true_iff in Hd as [[Hd _]%andb_true_iff _]. rewrite forallb_forall in Hd.
  apply list_elem_of_In in Hk. by apply (Hd (k, v)).
Qed.

Lemma optional_body_canonical parse body doc :
  (∀ s d, parse s = inr d → canonical d = true) → optional_body parse body = Ok doc → canonical doc = true.
Proof.
  intros Hcan. unfold optional_body, parse_body. destruct (bool_decide (body = "")); [by intros [= <-]|].
  destruct (parse body) as [?|d] eqn:E; [done|]. intros [= <-]. by apply (Hcan body).
Qed.

(** The marker of a canonical document is one the journal can hold. *)
Lemma requested_marker_ok parse body type payload occurred :
  (∀ s d, parse s = inr d → canonical d = true) → requested_marker parse body = Ok (type, payload, occurred) →
  type ≠ "" ∧ canonical payload = true ∧ is_object payload = true ∧ in_uint64 occurred.
Proof.
  intros Hcan. unfold requested_marker. destruct (optional_body parse body) as [doc|?] eqn:E; simpl; [|done].
  apply optional_body_canonical in E; [|done].
  destruct (jmember jstring "type" doc) as [[|c t]|]; [done| |done]. intros [= <- <- <-]. split; [done|].
  unfold jmember, as_object. split; [|split].
  - destruct (jget "payload" doc) as [v|] eqn:Ep; simpl; [|done].
    destruct (is_object v); simpl; [by apply (canonical_member "payload" doc)|done].
  - destruct (jget "payload" doc) as [v|]; simpl; [|done]. by destruct (is_object v) eqn:Eo.
  - destruct (jget "occurred_at_epoch_ms" doc) as [v|] eqn:Ev; simpl; [|done].
    pose proof (canonical_member _ _ _ E Ev) as Hv. destruct v; simpl; try done.
    simpl in Hv. apply andb_true_iff in Hv as [_ Hv%Z.leb_le]. by destruct (Z.leb_spec 0 z).
Qed.

(** Operators write annotations and nothing else.  Whatever a request to
    [POST /v0/runs/{id}/events] holds, the streams of other runs and the runs
    themselves are untouched, and the named run's stream is as it was or has one
    event more at its end: an annotation of that run, with the type asked for.  A
    run that is closed or unknown gets nothing, with 409 or 404. *)
Theorem operators_append_annotations (parse : string → string + json) (dump_error : string) `{JsonLines}
    (cast : double → Z) (matches : list string) (body : string) (e : OpEnv) (j : RunJournal) :
  let id := run_id_of matches in
  (∀ s d, parse s = inr d → canonical d = true) →
  seq_ok cast j id → next_sequence cast id j < uint64_max → in_uint64 (oe_now1 e) → in_uint64 (oe_now2 e) →
  clean_failure cast (oe_io1 e) (j_events j !! id) →
  let '(resp, oj) := handle_post_run_events parse dump_error cast matches body e (Some j) in
  ∃ j', oj = Some j' ∧ j_runs j' = j_runs j ∧ (∀ id', id' ≠ id → stream cast j' id' = stream cast j id') ∧
    (stream cast j' id = stream cast j id ∨
     ∃ ev payload occurred, requested_marker parse body = Ok (ev_type ev, payload, occurred) ∧
       stream cast j' id = stream cast j id ++ [ev] ∧ ev_category ev = Annotation ∧ ev_run_id ev = id ∧
       ∃ run, get j id = Some run ∧ run_state run = Open) ∧
    (rs_status resp = 200 → ∃ ev, resp = send_ok [("event", event_to_json ev)] ∧
       stream cast j' id = stream cast j id ++ [ev]) ∧
    (∀ m, requested_marker parse body = Ok m →
       match get j id with
       | None => rs_status resp = 404
       | Some run => run_state run = Closed → rs_status resp = 409
       end).
Proof.
  cbv zeta. set (id := run_id_of matches). intros Hcan Hseq Hnext H1 H2 Hclean. unfold handle_post_run_events. fold id.
  destruct (requested_marker parse body) as [[[type payload] occurred]|error] eqn:Em.
  2: { exists j. split_and!; try done. by left. }
  destruct (requested_marker_ok _ _ _ _ _ Hcan Em) as (_ & Hp & _ & Ho).
  unfold append_event, get. destruct (j_runs j !! id) as [run|] eqn:Hr.
  2: { exists j. rewrite Hr. split_and!; try done. by left. }
  destruct (run_state run) eqn:Hst.
  2: { exists j. rewrite Hr. split_and!; try done. by left. }
  destruct (append_event_locked _ _ _ _ _ _ _ _ _ _) as [res j'] eqn:Ha.
  destruct (append_event_frame _ _ _ _ _ _ _ _ _ _ _ _ Ha) as (files & seqs & Hj' & Hf & _).
  assert (∀ id', id' ≠ id → stream cast j' id' = stream cast j id') as Hother
    by (intros id' Hne; unfold stream; rewrite Hj'; simpl; by rewrite Hf).
  destruct (append_event_cases cast _ _ _ _ _ _ _ _ _ _ _ Hseq Hnext Ho H1 H2 Hp Hclean Ha)
    as [(Hs & _ & Hres)|(Hs & _ & Hres)].
  - destruct res as [[ev|msg]|]; [by destruct (Hres ev)| |];
      (exists j'; split_and!; [done|by rewrite Hj'|done|by left| |by intros]); [by destruct (j_runs j' !! id)|done].
  - assert (stream cast j' id = stream cast j id ++ [built_event cast id Annotation type payload occurred (oe_now1 e) (oe_now2 e) j])
      as Hs' by exact Hs.
    destruct res as [[ev|msg]|]; (exists j'; split_and!; [done|by rewrite Hj'|done| | |by intros]);
      try (right; eexists _, payload, occurred; split_and!; [|exact Hs'|done|done|by exists run]; done).
    + intros _. exists ev. by rewrite (Hres ev eq_refl).
    + by destruct (j_runs j' !! id).
    + done.
Qed.

Definition marker_request (_ : string) : string + json := inr (JObject [("type", JString "sample")]).

Lemma operators_append_annotations_witness :
  let id := default "" (j_open_run_id opened_journal) in
  let x := handle_post_run_events (H := bit_codec) marker_request "" no_cast [id] "{}" sample_op (Some opened_journal) in
  rs_status x.1 = 200 ∧
  ∃ j', x.2 = Some j' ∧ ∃ ev, stream (H := bit_codec) no_cast j' id = stream (H := bit_codec) no_cast opened_journal id ++ [ev].
Proof.
  intros id x. assert (rs_status x.1 = 200) as Hs by (vm_compute; reflexivity). split; [exact Hs|].
  assert (seq_ok (H := bit_codec) no_cast opened_journal id) as Hok.
  { assert (ev_sequence <$> stream (H := bit_codec) no_cast opened_journal id = [1]) as Hseq by (vm_compute; reflexivity).
    assert (j_next_seq opened_journal !! id = Some 2) as Hnext by (vm_compute; reflexivity).
    refine (seq_ok_intro (H := bit_codec) no_cast opened_journal id [1] 2 Hseq _ _ Hnext _ _); by repeat constructor. }
  assert (next_sequence (H := bit_codec) no_cast id opened_journal = 2) as Hn by (vm_compute; reflexivity).
  assert (2 < uint64_max) as H2' by reflexivity.
  pose proof (eq_ind_r (λ z, z < uint64_max) H2' Hn) as Hlt.
  assert (in_uint64 1000 ∧ in_uint64 1001) as [H1 H2] by (vm_compute; repeat split; discriminate).
  assert (clean_failure (H := bit_codec) no_cast good_io (j_events opened_journal !! id)) as Hc
    by (intros part Hp; discriminate Hp).
  assert (∀ s d, marker_request s = inr d → canonical d = true) as Hcan by (intros s d [= <-]; reflexivity).
  pose proof (operators_append_annotations (H := bit_codec) marker_request "" no_cast [id] "{}" sample_op opened_journal
    Hcan Hok Hlt H1 H2 Hc) as Ht.
  fold x in Ht. clearbody x. destruct x as [resp oj].
  destruct Ht as (j' & -> & _ & _ & _ & Hr & _). exists j'. split; [reflexivity|].
  destruct (Hr Hs) as (ev & _ & Hev). exists ev. exact Hev.
Defined.

(** The contract's request schema has four close reasons; the fifth, which recovery
    records for a run it finds open, is accepted from a client too. *)
Example client_can_abandon :
  requested_reason (λ _, inr (JObject [("close_reason", JString "abandoned")])) "{}" = Ok Abandoned.
Proof. reflexivity. Qed.
