(* ===== verification/Sse.v ===== *)
(** * The event stream ([GET /v0/events], [core/http/handlers/state_handlers.cpp])

    The text of one event, the loop that writes a stream, and the admission of
    clients.  Handlers and streams run on several threads: the test of the client
    count, the subscription and the increment are separate steps, and so are the
    decrement at the end of a stream and the release of its subscription.
    Response headers and log lines are left out. *)

From S2P Require Import Prelude Protocol Json Parameters EventEmitter StateCache.
From S2P Require Import HttpGate HttpJson HttpControl.
From S2P Require Telemetry.

(** ** The text of an event *)

Definition sse_event_name (e : Event) : string :=
  match e with
  | StateUpdate _ _ _ _ _ _ _ => "state_update"
  | QualityChange _ _ _ _ _ _ _ => "quality_change"
  | DeviceAvailability _ _ _ _ _ => "device_availability"
  | DeviceRemoved _ _ _ _ => "device_removed"
  | ModeChange _ _ _ _ => "mode_change"
  | StopChainChange _ _ _ _ _ => "stop_chain_change"
  | StopChainMismatchChange _ _ _ _ _ _ => "stop_chain_mismatch"
  | ParameterChange _ _ _ _ _ => "parameter_change"
  | AutomationCallFailed _ _ _ _ _ _ => "automation_call_failed"
  | AutomationFault _ _ _ _ => "automation_fault"
  end.

Definition encode_typed_value (v : TypedValue) : json :=
  match v with
  | TDouble d => jobject [("type", JString "double"); ("double", JFloat d)]
  | TInt64 z => jobject [("type", JString "int64"); ("int64", JInt z)]
  | TUint64 z => jobject [("type", JString "uint64"); ("uint64", JInt z)]
  | TBool b => jobject [("type", JString "bool"); ("bool", JBool b)]
  | TString s => jobject [("type", JString "string"); ("string", JString s)]
  end.

Definition event_quality_json (q : EQuality) : json := JString (Telemetry.quality_to_string q).

(** The document of the [data:] line. *)
Definition event_data (e : Event) : json :=
  jobject
    match e with
    | StateUpdate _ p d s v q t =>
        [("provider_id", JString p); ("device_id", JString d); ("signal_id", JString s); ("timestamp_ms", JInt t);
         ("quality", event_quality_json q); ("value", encode_typed_value v)]
    | QualityChange _ p d s o n t =>
        [("provider_id", JString p); ("device_id", JString d); ("signal_id", JString s);
         ("old_quality", event_quality_json o); ("new_quality", event_quality_json n); ("timestamp_ms", JInt t)]
    | DeviceAvailability _ p d a t =>
        [("provider_id", JString p); ("device_id", JString d); ("available", JBool a); ("timestamp_ms", JInt t)]
    | DeviceRemoved _ p d t => [("provider_id", JString p); ("device_id", JString d); ("timestamp_ms", JInt t)]
    | ModeChange _ o n t => [("previous_mode", JString o); ("new_mode", JString n); ("timestamp_ms", JInt t)]
    | StopChainChange _ o n r t =>
        [("previous_state", JString o); ("new_state", JString n); ("reason", JString r); ("timestamp_ms", JInt t)]
    | StopChainMismatchChange _ d x b r t =>
        [("device", JString d); ("expect", JString x); ("raised", JBool b); ("reason", JString r); ("timestamp_ms", JInt t)]
    | ParameterChange _ n o v t =>
        [("parameter_name", JString n); ("old_value", JString o); ("new_value", JString v); ("timestamp_ms", JInt t)]
    | AutomationCallFailed _ h f err n t =>
        [("device_handle", JString h); ("function", JString f); ("error", JString err);
         ("consecutive_failures", JInt n); ("timestamp_ms", JInt t)]
    | AutomationFault _ l err t => [("locus", JString l); ("error", JString err); ("timestamp_ms", JInt t)]
    end.

Definition nl : string := char_string LF.

(** One event's lines, and the blank line that ends them. *)
Definition sse_text (name id data : string) : string :=
  "event: " +:+ name +:+ nl +:+ "id: " +:+ id +:+ nl +:+ "data: " +:+ data +:+ nl +:+ nl.

Definition keepalive : string := ": keepalive" +:+ nl +:+ nl.

Section Stream.
Context `{JsonLines}.

(** [None] is the exception of [dump()]. *)
Definition format_sse_event (e : Event) : option string :=
  (λ data, sse_text (sse_event_name e) (to_string (get_event_id e)) data) <$> line_dump (event_data e).

(** ** One turn of the content provider *)

(** Whether the stream goes on, what was written, and the idle count. *)
Inductive Turn :=
| Threw
| Ended (written : option string)
| Goes (written : option string) (keepalive_counter : Z).

(** [event_opt] is what [pop(1000)] gave, [write_ok] the sink's answer. *)
Definition provider_turn (running : bool) (event_opt : option Event) (write_ok : bool) (counter : Z) : Turn :=
  if negb running then Ended None
  else
    match event_opt with
    | Some e =>
        match format_sse_event e with
        | None => Threw
        | Some text => if write_ok then Goes (Some text) 0 else Ended (Some text)
        end
    | None =>
        if 15 <=? counter + 1 then if write_ok then Goes (Some keepalive) 0 else Ended (Some keepalive)
        else Goes None (counter + 1)
    end.

(** The turns of a stream whose writes succeed: the text written and the idle count. *)
Fixpoint provider_run (events : list (option Event)) (counter : Z) : option (string * Z) :=
  match events with
  | [] => Some ("", counter)
  | e :: rest =>
      match provider_turn true e true counter with
      | Goes written counter' =>
          '(text, n) ← provider_run rest counter'; Some (default "" written +:+ text, n)
      | _ => None
      end
  end.
End Stream.

(** ** Admission *)

Definition MAX_SSE_CLIENTS : Z := 32.

(** The filter of a request; an absent parameter filters nothing. *)
Definition request_filter (provider_id device_id signal_id : option string) : EventFilter :=
  mkFilter (default "" provider_id) (default "" device_id) (default "" signal_id).

(** The server's streams.  A handler that passed the test is in [sv_passed], one
    that has subscribed in [sv_subscribed]; a stream that ended and was counted
    down still holds its subscription in [sv_closing].  [sv_others] are the
    subscriptions of other parts of the program. *)
Record SseServer := mkSse {
  sv_emitter : EventEmitter;
  sv_queues : Queues;
  sv_count : Z;
  sv_passed : list Z;          (* the counts they read *)
  sv_subscribed : list Subscription;
  sv_streams : list Subscription;
  sv_closing : list Subscription;
  sv_others : list Subscription;
}.

Inductive SseOp :=
| Arrive                          (* the test of the client count *)
| Subscribe (f : EventFilter)
| CountUp
| StreamEnds (i : nat)            (* the resource releaser *)
| StreamFreed (i : nat)           (* the captures are destroyed *)
| OtherSubscribes (queue_size : Z) (name : string)
| OtherLeaves (i : nat).

(** The answer of a refused client. *)
Definition too_many_clients : Response := send_error HTTP_UNAVAILABLE "Too many SSE clients".
Definition subscribe_failed : Response := send_error HTTP_UNAVAILABLE "Failed to subscribe to events".

(** A subscription's destructor. *)
Definition free_subscription (s : Subscription) (x : SseServer) : option SseServer :=
  match sub_unsubscribe s (Some (sv_emitter x)) (sv_queues x) with
  | Some (_, Some em, h) =>
      Some (mkSse em h (sv_count x) (sv_passed x) (sv_subscribed x) (sv_streams x) (sv_closing x) (sv_others x))
  | _ => None
  end.

Definition with_lists (count : Z) (passed : list Z) (subscribed streams closing others : list Subscription) (x : SseServer) :=
  mkSse (sv_emitter x) (sv_queues x) count passed subscribed streams closing others.

(** One step: the answer it gives a client, if any, and the server after;
    [None] is a step that cannot be taken. *)
Definition sse_step (op : SseOp) (x : SseServer) : option (option Response * SseServer) :=
  match op with
  | Arrive =>
      if MAX_SSE_CLIENTS <=? sv_count x then Some (Some too_many_clients, x)
      else Some (None, with_lists (sv_count x) (sv_passed x ++ [sv_count x]) (sv_subscribed x) (sv_streams x) (sv_closing x) (sv_others x) x)
  | Subscribe f =>
      match sv_passed x with
      | [] => None
      | current_clients :: passed =>
          let '(s, em, h) := subscribe f 100 ("sse-" +:+ to_string (current_clients + 1)) (sv_emitter x) (sv_queues x) in
          Some (match s with Some _ => None | None => Some subscribe_failed end,
                mkSse em h (sv_count x) passed (sv_subscribed x ++ option_list s) (sv_streams x) (sv_closing x) (sv_others x))
      end
  | CountUp =>
      match sv_subscribed x with
      | [] => None
      | s :: rest => Some (None, with_lists (sv_count x + 1) (sv_passed x) rest (sv_streams x ++ [s]) (sv_closing x) (sv_others x) x)
      end
  | StreamEnds i =>
      s ← sv_streams x !! i;
      Some (None, with_lists (sv_count x - 1) (sv_passed x) (sv_subscribed x) (delete i (sv_streams x)) (sv_closing x ++ [s]) (sv_others x) x)
  | StreamFreed i =>
      s ← sv_closing x !! i;
      x' ← free_subscription s x;
      Some (None, with_lists (sv_count x') (sv_passed x') (sv_subscribed x') (sv_streams x') (delete i (sv_closing x')) (sv_others x') x')
  | OtherSubscribes size name =>
      let '(s, em, h) := subscribe all size name (sv_emitter x) (sv_queues x) in
      Some (None, mkSse em h (sv_count x) (sv_passed x) (sv_subscribed x) (sv_streams x) (sv_closing x) (sv_others x ++ option_list s))
  | OtherLeaves i =>
      s ← sv_others x !! i;
      x' ← free_subscription s x;
      Some (None, with_lists (sv_count x') (sv_passed x') (sv_subscribed x') (sv_streams x') (sv_closing x') (delete i (sv_others x')) x')
  end.

Fixpoint sse_run (ops : list SseOp) (x : SseServer) : option SseServer :=
  match ops with
  | [] => Some x
  | op :: rest => '(_, x') ← sse_step op x; sse_run rest x'
  end.

Definition sse_start (default_queue_size max_subscribers : Z) : SseServer :=
  mkSse (new_emitter default_queue_size max_subscribers) [] 0 [] [] [] [] [].

(** ** What a client reads

    A reader of the stream, as a client of the protocol works: fields up to a blank
    line make an event when there was data, and lines that start with a colon are
    comments. *)

Record Frame := mkFrame { fr_event : string; fr_id : string; fr_data : option string }.

Definition empty_frame : Frame := mkFrame "" "" None.

(** One field line; the value is what follows the first colon and space. *)
Definition read_field (line : string) (f : Frame) : Frame :=
  if starts_with "event: " line then mkFrame (str_drop 7 line) (fr_id f) (fr_data f)
  else if starts_with "id: " line then mkFrame (fr_event f) (str_drop 4 line) (fr_data f)
  else if starts_with "data: " line then mkFrame (fr_event f) (fr_id f) (Some (str_drop 6 line))
  else f.

Fixpoint read_frames (lines : list string) (f : Frame) : list Frame :=
  match lines with
  | [] => []
  | line :: rest =>
      if bool_decide (line = "") then
        match fr_data f with Some _ => f :: read_frames rest empty_frame | None => read_frames rest empty_frame end
      else read_frames rest (read_field line f)
  end.

Definition read_stream (text : string) : list Frame := read_frames (read_lines text) empty_frame.

Lemma to_string_no_LF z : has_char LF (to_string z) = false.
Proof.
  assert (∀ s, all_digits s = true → has_char LF s = false) as Hd.
  { induction s as [|c s IH]; simpl; [done|]. intros [Hc Hs]%andb_true_iff. rewrite (IH Hs), orb_false_r.
    unfold is_digit in Hc. apply andb_true_iff in Hc as [Hc _]. apply Nat.leb_le in Hc.
    destruct (Ascii.eqb_spec c LF) as [->|]; [|done]. change (nat_of_ascii LF) with 10%nat in Hc. lia. }
  destruct (Z.le_gt_cases 0 z) as [Hz|Hz].
  - destruct (to_string_digits z Hz) as (d & -> & _ & Ha & _). by apply Hd.
  - destruct z as [|p|p]; [lia|lia|]. rewrite to_string_neg.
    trans (has_char LF (to_string (Z.pos p))); [done|].
    destruct (to_string_digits (Z.pos p) ltac:(lia)) as (d & -> & _ & Ha & _). by apply Hd.
Qed.

Lemma sse_name_no_LF e : has_char LF (sse_event_name e) = false.
Proof. by destruct e. Qed.

(** The field lines of an event. *)
Lemma read_field_lines name id data :
  read_field ("data: " +:+ data) (read_field ("id: " +:+ id) (read_field ("event: " +:+ name) empty_frame)) =
  mkFrame name id (Some data).
Proof.
  unfold read_field at 3. rewrite starts_with_app, (str_drop_app "event: ").
  unfold read_field at 2. rewrite starts_with_app, (str_drop_app "id: ").
  unfold read_field. by rewrite starts_with_app, (str_drop_app "data: ").
Qed.

(** Reading an event's text, and a keep-alive. *)
Lemma read_sse_text name id data rest :
  has_char LF name = false → has_char LF id = false → has_char LF data = false →
  read_stream (sse_text name id data +:+ rest) = mkFrame name id (Some data) :: read_stream rest.
Proof.
  intros Hn Hi Hd. unfold read_stream, read_lines, sse_text, nl.
  assert (∀ a b : string, (a +:+ char_string LF) +:+ b = a +:+ String LF b) as Hnl
    by (intros; by rewrite string_app_assoc).
  assert (∀ p v : string, has_char LF p = false → has_char LF v = false → has_char LF (p +:+ v) = false) as Happ
    by (intros p v Hp Hv; by rewrite has_char_app, Hp, Hv).
  replace (("event: " +:+ name +:+ char_string LF +:+ "id: " +:+ id +:+ char_string LF +:+ "data: " +:+ data +:+
            char_string LF +:+ char_string LF) +:+ rest)
    with (("event: " +:+ name) +:+ String LF (("id: " +:+ id) +:+ String LF (("data: " +:+ data) +:+ String LF ("" +:+ String LF rest))))
    by (by rewrite !string_app_assoc).
  rewrite !read_line by (done || by apply Happ).
  change ("" +:+ ?x) with x. rewrite <- (read_field_lines name id data). cbn [read_frames].
  by rewrite !bool_decide_false, read_field_lines by done.
Qed.

Lemma read_keepalive rest : read_stream (keepalive +:+ rest) = read_stream rest.
Proof. done. Qed.

(** The frame of an event. *)
Definition event_frame `{JsonLines} (e : Event) : Frame :=
  mkFrame (sse_event_name e) (to_string (get_event_id e)) (line_dump (event_data e)).

Lemma read_formatted `{JsonLines} e text rest :
  format_sse_event e = Some text → read_stream (text +:+ rest) = event_frame e :: read_stream rest.
Proof.
  unfold format_sse_event, event_frame. destruct (line_dump (event_data e)) as [data|] eqn:E; [|done]. intros [= <-].
  apply line_dump_one in E as [Hd _]. apply read_sse_text; [apply sse_name_no_LF|apply to_string_no_LF|done].
Qed.

(** C40. The stream says what happened.  Whatever events a client is sent and
    whenever keep-alives fall between them, with every write succeeding, reading
    the text back gives exactly those events in order, each with its name, its id
    and its document on one line; no text inside an event starts another, and a
    document the JSON library can hold reads back as itself. *)
Theorem stream_roundtrip `{JsonLines} (events : list (option Event)) (counter n : Z) (text : string) :
  provider_run events counter = Some (text, n) →
  read_stream text = event_frame <$> omap id events ∧
  ∀ e d, Some e ∈ events → fr_data (event_frame e) = Some d → canonical (event_data e) = true →
         line_parse d = Some (event_data e).
Proof.
  intros Hr. split; [|intros e d _ Hd Hc; by apply line_parse_dump].
  revert counter text n Hr. induction events as [|ev events IH]; intros counter text n Hr; simpl in Hr; [by simplify_eq|].
  unfold provider_turn in Hr. simpl in Hr. destruct ev as [e|].
  - destruct (format_sse_event e) as [t|] eqn:Ef; [|done].
    destruct (provider_run events 0) as [[text' n']|] eqn:Er; [|done]. simpl in Hr. simplify_eq.
    rewrite (read_formatted e t _ Ef). simpl. f_equal. by eapply IH.
  - destruct (15 <=? counter + 1).
    + destruct (provider_run events 0) as [[text' n']|] eqn:Er; [|done]. cbn [mbind option_bind default from_option] in Hr.
      simplify_eq. rewrite read_keepalive. simpl. by eapply IH.
    + destruct (provider_run events (counter + 1)) as [[text' n']|] eqn:Er; [|done]. simpl in Hr. simplify_eq.
      simpl. by eapply IH.
Qed.

Lemma stream_roundtrip_witness :
  match provider_run (H := bit_codec) [Some ev1; None; Some ev2] 14 with
  | Some (text, n) => fr_event <$> read_stream text = ["mode_change"; "parameter_change"]
  | None => False
  end.
Proof.
  destruct (provider_run (H := bit_codec) [Some ev1; None; Some ev2] 14) as [[text n]|] eqn:E; [|discriminate E].
  rewrite (proj1 (stream_roundtrip (H := bit_codec) _ _ _ _ E)). reflexivity.
Defined.

(** ** An event the printer refuses *)

Lemma printable_member ok k members v :
  printable ok (jobject members) = true → alookup k members = Some v → printable ok v = true.
Proof.
  intros Hp Hk. rewrite <- jget_jobject in Hk. unfold jobject in *. apply alookup_elem in Hk.
  change (forallb (λ p, ok p.1 && printable ok p.2) (map_items (list_to_map members : gmap string json)) = true) in Hp.
  rewrite forallb_forall in Hp. apply list_elem_of_In in Hk. by apply Hp, andb_true_iff in Hk as [_ ?].
Qed.

(** A signal's bytes can end a stream.  The cache puts the raw bytes of a
    [BYTES] signal into its update event as text; when they are not text the
    printer accepts, formatting the event throws inside the content provider,
    where every other response replaces such bytes. *)
Theorem raw_bytes_throw_in_stream `{JsonLines} (v : Value) (i : Z) (p d s : string) (q : EQuality) (t : Z)
    (write_ok : bool) (counter : Z) :
  v_type v = VALUE_TYPE_BYTES → text_ok (bytes_value v) = false →
  provider_turn true (Some (StateUpdate i p d s (typed_of_value v) q t)) write_ok counter = Threw.
Proof.
  intros Hv Hb. unfold provider_turn. simpl negb. cbv iota. set (e := StateUpdate _ _ _ _ _ _ _).
  destruct (format_sse_event e) as [text|] eqn:E; [|done]. exfalso. unfold format_sse_event in E.
  destruct (line_dump (event_data e)) as [data|] eqn:Ed; [|done].
  assert (printable text_ok (event_data e) = true) as Hp by (apply line_dump_is_Some; by eexists).
  apply (printable_member _ "value" _ (encode_typed_value (TString (bytes_value v)))) in Hp.
  - apply (printable_member _ "string" _ (JString (bytes_value v))) in Hp; [|done]. simpl in Hp. congruence.
  - simpl. unfold typed_of_value. by rewrite Hv.
Qed.

(** The byte 0xFF alone. *)
Definition not_text : Value := mkValue VALUE_TYPE_BYTES (KBytes (char_string "255")).

Lemma raw_bytes_throw_in_stream_witness :
  provider_turn (H := ascii_codec) true (Some (StateUpdate 1 "sim0" "cam" "frame" (typed_of_value not_text) Q_OK 0)) true 0 = Threw.
Proof. exact (raw_bytes_throw_in_stream (H := ascii_codec) not_text 1 "sim0" "cam" "frame" Q_OK 0 true 0 eq_refl eq_refl). Defined.

(** ** Admission *)

(** The subscriptions the server's handlers and streams, and others, hold. *)
Definition held (x : SseServer) : list Subscription := sv_subscribed x ++ sv_streams x ++ sv_closing x ++ sv_others x.

(** The count is the number of streams, and every held subscription has its own
    registration. *)
Record sse_ok (m : Z) (n : nat) (x : SseServer) : Prop := {
  so_count : sv_count x = Z.of_nat (length (sv_streams x));
  so_ids : NoDup (sub_id <$> held x);
  so_registered : Forall (λ s, is_Some (subscribers_ (sv_emitter x) !! sub_id s)) (held x);
  so_emitter : emitter_fits m n (sv_emitter x);
}.

(** Distinct registered ids are no more than the registrations. *)
Lemma held_capacity m n x : sse_ok m n x → 0 < m → Z.of_nat (length (held x)) ≤ m.
Proof.
  intros [_ Hnd Hreg [Hm Hc _ _]] Hpos. specialize (Hc Hpos). unfold subscriber_count in Hc.
  assert (length (held x) ≤ size (subscribers_ (sv_emitter x)))%nat; [|lia].
  rewrite <- (length_fmap sub_id (held x)). rewrite <- size_dom.
  rewrite <- (size_list_to_set (C := gset Z)) by done. apply subseteq_size.
  intros id Hid%elem_of_list_to_set. apply list_elem_of_fmap in Hid as (s & -> & Hs).
  rewrite Forall_forall in Hreg. by apply elem_of_dom, Hreg.
Qed.

(** Registering a new subscription. *)
Lemma subscribe_adds m n f sz name s em em' h h' (l : list Subscription) :
  emitter_fits m n em → Z.of_nat n + 1 < uint64_max → subscribe f sz name em h = (s, em', h') →
  NoDup (sub_id <$> l) → Forall (λ s, is_Some (subscribers_ em !! sub_id s)) l →
  emitter_fits m (S n) em' ∧ NoDup (sub_id <$> l ++ option_list s) ∧
  Forall (λ s, is_Some (subscribers_ em' !! sub_id s)) (l ++ option_list s).
Proof.
  intros Hf Hn Hs Hnd Hreg.
  assert (life_ok m n (mkLife (Some em) h [])) as Hlife by (constructor; simpl; [constructor|by intros ? [= <-]|constructor]).
  pose proof (subscribe_life_ok _ _ _ _ _ _ _ _ _ _ _ Hlife Hn Hs) as Hlife'. split; [by apply (lo_emitter _ _ _ Hlife')|].
  unfold subscribe in Hs. destruct (at_capacity em); simplify_eq; simpl; rewrite ?app_nil_r; [done|].
  rewrite Forall_forall in Hreg. split.
  - rewrite fmap_app. apply NoDup_app. split_and!; [done| |apply NoDup_singleton].
    intros id Hid ->%list_elem_of_singleton. apply list_elem_of_fmap in Hid as (s & Hid & Hs).
    destruct (Hreg s Hs) as [i Hi]. apply (ef_fresh _ _ _ Hf) in Hi. simpl in Hid. lia.
  - apply Forall_app. split; [|by constructor; [simpl; rewrite lookup_insert_eq|]].
    apply Forall_forall. intros s Hs. rewrite lookup_insert. case_decide; [done|]. by apply Hreg.
Qed.

(** Releasing one leaves the others registered. *)
Lemma free_keeps m n s x x' (l : list Subscription) :
  emitter_fits m n (sv_emitter x) → free_subscription s x = Some x' →
  NoDup (sub_id <$> s :: l) → Forall (λ s, is_Some (subscribers_ (sv_emitter x) !! sub_id s)) l →
  emitter_fits m n (sv_emitter x') ∧ Forall (λ s, is_Some (subscribers_ (sv_emitter x') !! sub_id s)) l ∧
  sv_count x' = sv_count x ∧ sv_passed x' = sv_passed x ∧ sv_subscribed x' = sv_subscribed x ∧
  sv_streams x' = sv_streams x ∧ sv_closing x' = sv_closing x ∧ sv_others x' = sv_others x.
Proof.
  intros Hf Hfree Hnd Hreg. unfold free_subscription in Hfree.
  destruct (sub_unsubscribe s _ _) as [[[s' [em|]] h]|] eqn:E; [|done..]. simplify_eq. simpl.
  destruct (sub_unsubscribe_spec m n _ _ _ _ _ _ E) as (_ & _ & _ & _ & _ & Hfits).
  split; [apply Hfits; [by intros ? [= <-]|done]|]. split; [|done].
  assert (em = sv_emitter x ∨ em = (emitter_unsubscribe (sub_id s) (sv_emitter x) (sv_queues x)).1) as [->| ->]; [|done|].
  { unfold sub_unsubscribe in E. repeat case_match; simplify_eq; auto. }
  apply NoDup_cons in Hnd as [Hs _]. rewrite Forall_forall in *. intros s2 H2. specialize (Hreg s2 H2).
  unfold emitter_unsubscribe. destruct (subscribers_ (sv_emitter x) !! sub_id s); simpl; [|done].
  rewrite lookup_delete_ne; [done|]. intros Heq. apply Hs. rewrite Heq. by apply list_elem_of_fmap_2.
Qed.

Lemma sse_ok_perm m n x (l : list Subscription) :
  sv_count x = Z.of_nat (length (sv_streams x)) → held x ≡ₚ l → NoDup (sub_id <$> l) →
  Forall (λ s, is_Some (subscribers_ (sv_emitter x) !! sub_id s)) l → emitter_fits m n (sv_emitter x) → sse_ok m n x.
Proof. intros Hc Hl Hnd Hreg Hf. constructor; [done|by rewrite Hl|by rewrite Hl|done]. Qed.

Lemma emitter_fits_mono m n em : emitter_fits m n em → emitter_fits m (S n) em.
Proof. intros [? ? ? ?]. constructor; try done. lia. Qed.

Lemma free_fields s x x' : free_subscription s x = Some x' →
  x' = mkSse (sv_emitter x') (sv_queues x') (sv_count x) (sv_passed x) (sv_subscribed x) (sv_streams x) (sv_closing x) (sv_others x).
Proof. unfold free_subscription. repeat case_match; naive_solver. Qed.

(** A step that frees a held subscription. *)
Lemma free_ok m n s x x' x2 :
  sse_ok m n x → free_subscription s x = Some x' → sv_emitter x2 = sv_emitter x' →
  sv_count x2 = Z.of_nat (length (sv_streams x2)) → held x ≡ₚ s :: held x2 → sse_ok m (S n) x2.
Proof.
  intros [Hc Hnd Hreg Hf] Hfree Hem Hc2 Hp. rewrite Hp in Hnd, Hreg.
  destruct (free_keeps m n s x x' (held x2) Hf Hfree Hnd) as (Hf' & Hreg' & _); [by apply Forall_cons in Hreg as [_ ?]|].
  apply (sse_ok_perm _ _ _ (held x2)); rewrite ?Hem; try done; [by apply NoDup_cons in Hnd as [_ ?]|by apply emitter_fits_mono].
Qed.

(** A step that subscribes. *)
Lemma subscribe_ok' m n f sz name s em h x x2 :
  sse_ok m n x → Z.of_nat n + 1 < uint64_max → subscribe f sz name (sv_emitter x) (sv_queues x) = (s, em, h) →
  sv_emitter x2 = em → sv_count x2 = Z.of_nat (length (sv_streams x2)) → held x2 ≡ₚ held x ++ option_list s →
  sse_ok m (S n) x2.
Proof.
  intros [Hc Hnd Hreg Hf] Hn Hs Hem Hc2 Hp.
  destruct (subscribe_adds m n _ _ _ _ _ _ _ _ (held x) Hf Hn Hs Hnd Hreg) as (Hf' & Hnd' & Hreg').
  apply (sse_ok_perm _ _ _ (held x ++ option_list s)); by rewrite ?Hem.
Qed.

Lemma sse_step_ok m n op x r x' :
  sse_ok m n x → Z.of_nat n + 1 < uint64_max → sse_step op x = Some (r, x') → sse_ok m (S n) x'.
Proof.
  intros Hok Hn Hs. pose proof Hok as [Hc Hnd Hreg Hf].
  assert (∀ i (l : list Subscription) s, l !! i = Some s → l ≡ₚ s :: delete i l) as Hdel by (intros; by apply delete_Permutation).
  assert (∀ x2, sv_emitter x2 = sv_emitter x → sv_count x2 = Z.of_nat (length (sv_streams x2)) → held x2 ≡ₚ held x →
    sse_ok m (S n) x2) as Hsame.
  { intros x2 He Hc2 Hp. apply (sse_ok_perm _ _ _ (held x)); rewrite ?He; [done..|by apply emitter_fits_mono]. }
  destruct op as [|f| |i|i|size name|i]; simpl in Hs.
  - destruct (_ <=? _); simplify_eq; by apply Hsame.
  - destruct (sv_passed x) as [|c passed]; [done|].
    destruct (subscribe _ _ _ _ _) as [[s em] h] eqn:E. simplify_eq.
    eapply (subscribe_ok' m n f _ _ s em h x); try done. unfold held. simpl. solve_Permutation.
  - destruct (sv_subscribed x) as [|s rest] eqn:El; [done|]. simplify_eq. apply Hsame; [done| |].
    + simpl. rewrite length_app, Hc. simpl. lia.
    + unfold held. simpl. rewrite El. solve_Permutation.
  - destruct (sv_streams x !! i) as [s|] eqn:Ei; simpl in Hs; [|done]. simplify_eq. apply Hsame; [done| |].
    + simpl. rewrite length_delete by done. apply lookup_lt_Some in Ei. rewrite Hc. lia.
    + unfold held. simpl. rewrite (Hdel i (sv_streams x) s Ei) at 2. solve_Permutation.
  - destruct (sv_closing x !! i) as [s|] eqn:Ei; simpl in Hs; [|done].
    destruct (free_subscription s x) as [x1|] eqn:Ef; simpl in Hs; [|done]. simplify_eq.
    apply (free_ok m n s x x1); [done..| |]; rewrite (free_fields _ _ _ Ef); [done|].
    unfold held. simpl. rewrite (Hdel i (sv_closing x) s Ei) at 1. solve_Permutation.
  - destruct (subscribe _ _ _ _ _) as [[s em] h] eqn:E. simplify_eq.
    eapply (subscribe_ok' m n _ _ _ s em h x); try done. unfold held. simpl. solve_Permutation.
  - destruct (sv_others x !! i) as [s|] eqn:Ei; simpl in Hs; [|done].
    destruct (free_subscription s x) as [x1|] eqn:Ef; simpl in Hs; [|done]. simplify_eq.
    apply (free_ok m n s x x1); [done..| |]; rewrite (free_fields _ _ _ Ef); [done|].
    unfold held. simpl. rewrite (Hdel i (sv_others x) s Ei) at 1. solve_Permutation.
Qed.

Lemma sse_run_ok m n ops x x' :
  sse_ok m n x → Z.of_nat n + Z.of_nat (length ops) < uint64_max → sse_run ops x = Some x' → sse_ok m (n + length ops) x'.
Proof.
  revert n x. induction ops as [|op ops IH]; intros n x Hok Hn Hr; simpl in Hr; [simplify_eq; by rewrite Nat.add_0_r|].
  destruct (sse_step op x) as [[r x1]|] eqn:E; simpl in Hr; [|done].
  cbn [length] in *. rewrite <- plus_n_Sm. apply (IH (S n) x1); [eapply sse_step_ok; [done| |done]; lia|lia|done].
Qed.

(** The clients are counted and bounded, however handlers and streams
    interleave: the count is always the number of streams, and streams and other
    subscribers together never exceed the emitter's limit, so with the 33 the
    runtime gives it and the telemetry sink subscribed there are at most 32. *)
Theorem sse_clients_bounded d m ops x :
  0 < m → Z.of_nat (length ops) < uint64_max → sse_run ops (sse_start d m) = Some x →
  sv_count x = Z.of_nat (length (sv_streams x)) ∧
  sv_count x + Z.of_nat (length (sv_others x)) ≤ m.
Proof.
  intros Hm Hn Hr.
  assert (sse_ok m 0 (sse_start d m)) as H0.
  { constructor; simpl; [done|constructor|constructor|]. constructor; simpl; [done| |lia|done].
    unfold subscriber_count; simpl. rewrite map_size_empty. lia. }
  pose proof (sse_run_ok m 0 ops _ _ H0 ltac:(simpl; lia) Hr) as Hok. split; [by apply so_count in Hok|].
  pose proof (held_capacity _ _ _ Hok Hm) as Hc. apply so_count in Hok. unfold held in Hc. rewrite !length_app in Hc. lia.
Qed.

Definition one_client : list SseOp := [Arrive; Subscribe all; CountUp].

Lemma sse_clients_bounded_witness :
  match sse_run (OtherSubscribes 0 "telemetry-sink" :: one_client) (sse_start 100 33) with
  | Some x => sv_count x + 1 ≤ 33
  | None => False
  end.
Proof.
  destruct (sse_run (OtherSubscribes 0 "telemetry-sink" :: one_client) (sse_start 100 33)) as [x|] eqn:E; [|discriminate E].
  assert (Z.of_nat (length (OtherSubscribes 0 "telemetry-sink" :: one_client)) < uint64_max) as Hl by reflexivity.
  pose proof (proj2 (sse_clients_bounded 100 33 _ x eq_refl Hl E)) as H.
  assert (length (sv_others x) = 1%nat) as Ho by (vm_compute in E; injection E as <-; reflexivity).
  rewrite Ho in H. exact H.
Defined.

(** Without another subscriber the limit of 32 is not the bound: the test and the
    increment are two steps, and two clients that arrive together at 31 both pass. *)
Example clients_can_exceed_limit :
  let ops := concat (replicate 31 one_client) ++ [Arrive; Arrive; Subscribe all; Subscribe all; CountUp; CountUp] in
  sv_count <$> sse_run ops (sse_start 100 33) = Some (MAX_SSE_CLIENTS + 1).
Proof. vm_compute. reflexivity. Qed.
