(* ===== verification/System.v ===== *)
(** * The whole control core in motion

    The components of the other files put together as [Runtime] holds them: the
    mode with the safe-state controller's world, the stop-chain monitor, and what
    is deployed.  A step is one operation of one thread, an HTTP request, a tick of
    the main loop, a restart, a poll, a call or a fault of the behaviour tree, with
    the callbacks [init_automation] registered and in any order.  What an operation
    does to what other threads see in its middle is in its own file; here the
    question is what holds between operations, from start-up on. *)

From S2P Require Import Prelude Protocol Interfaces ModeManager Registry Ownership Parameters ProviderRegistry.
From S2P Require Import RunJournal EventEmitter Supervisor StateCache Health DeviceLossLatch Json LatchStore ArgCheck.
From S2P Require Import CallRouter SafeState ActuationGate StopChain RuntimeHooks Runtime Config Startup.
From S2P Require Import HttpGate HttpJson HttpControl.

(** The parts of [Runtime] that its operations share.  An exception that leaves a
    tick leaves [run()] with it: the main loop is over, and the other threads go on
    until the process is down. *)
Record System := mkSystem {
  sy_runtime : MM RuntimeWorld;              (* mode manager, controller, router, cache, loss latch *)
  sy_stop_chain : option StopChainMonitor;
  sy_deployment : Deployment;                (* device registry, provider handles, processes *)
  sy_loop : bool;                            (* no tick of the main loop has thrown *)
}.

Definition put_runtime (m : MM RuntimeWorld) (s : System) : System :=
  mkSystem m (sy_stop_chain s) (sy_deployment s) (sy_loop s).

Definition put_world (w : SafeWorld) (s : System) : System := put_runtime (put_safe w (sy_runtime s)) s.

(** What one operation meets: its routed calls' moments, its publication, its thread. *)
Record Moment (L D : Type) := mkMoment {
  mo_ctx : nat → CallCtx L D;
  mo_pub : Publishing;
  mo_tid : nat;
}.
Arguments mkMoment {L D}.
Arguments mo_ctx {L D}.
Arguments mo_pub {L D}.
Arguments mo_tid {L D}.

Section System.
Context {L D : Type} `{IActuationLatch L} `{IDeviceLossLatch D} `{FloatText} `{StatusNames} `{JsonText} `{QualityNames}.
Context `{JsonLines} (cast : double → Z) (parse : string → string + json) (what : json → string) (dump_error : string).
Context (c : RuntimeConfig).

Definition automation : AutomationConfig := automation_of (c_automation c).
Definition safety : SafeStateConfig := sf_safe_state (c_safety c).

(** The mode manager's callbacks, when automation is enabled: they read the
    inventory that is live. *)
Definition callbacks (mo : Moment L D) (s : System) : option (Callbacks RuntimeWorld) :=
  if au_enabled automation then
    Some (init_automation (mo_ctx mo) cast (mo_pub mo) automation safety (mo_tid mo)
            (λ _, dp_registry (sy_deployment s)))
  else None.

(** An operation of the safe-state controller, with the mode manager it was given. *)
Definition with_controller {A} (mo : Moment L D) (s : System)
    (operation : option (Callbacks SafeWorld) → MM SafeWorld → A * MM SafeWorld) : A * MM RuntimeWorld :=
  match callbacks mo s with
  | Some cbs => on_controller cast (mo_pub mo) cbs (λ quiet, operation (Some quiet)) (sy_runtime s)
  | None =>
      let '(x, ms) := operation None (safe_view (sy_runtime s)) in (x, full_view (world (sy_runtime s)) ms)
  end.

(** [POST /v0/mode], [/v0/estop], [/v0/estop/clear] and [/v0/call]. *)
Definition post_mode (mo : Moment L D) (body : string) (s : System) : Response * System :=
  let '(resp, m) := handle_post_mode parse (callbacks mo s) body (sy_runtime s) in (resp, put_runtime m s).

Definition post_estop (mo : Moment L D) (now_ms : Z) (io : SaveIO) (body : string) (s : System) : Response * System :=
  let '(resp, m) := with_controller mo s (λ cbs,
      handle_post_estop parse dump_error true (mo_ctx mo) (dp_registry (sy_deployment s)) safety cbs (mo_tid mo)
        now_ms io body) in
  (resp, put_runtime m s).

Definition post_estop_clear (unlink_error : option string) (sync : bool) (s : System) : Response * System :=
  let '(resp, w) := handle_post_estop_clear true (clear_guard (sy_stop_chain s)) unlink_error sync
                      (rw_safe (world (sy_runtime s))) in
  (resp, put_world w s).

Definition post_call (body : string) (env : Checkpoint → Env L D) (now wall : Z) (shutting_down : bool) (s : System)
    : Response * option Dispatch * System :=
  let w := rw_safe (world (sy_runtime s)) in
  let '(resp, d, rt, cache) := handle_post_call parse cast what body env now wall shutting_down (sw_router w) (sw_cache w) in
  (resp, d, put_world (mkWorld (sw_ctl w) rt cache (sw_fs w) (sw_sent w ++ option_list d) (sw_calls w)) s).

(** A call a tree node makes, and the FAULT a throwing tick enters. *)
Definition tree_call (mo : Moment L D) (request : CallRequest) (s : System) : CallResult * System :=
  let '(res, w) := route (mo_ctx mo) request (rw_safe (world (sy_runtime s))) in (res, put_world w s).

Definition tree_fault (mo : Moment L D) (s : System) : System :=
  match callbacks mo s with
  | Some cbs => put_runtime (set_mode cbs FAULT (sy_runtime s)).2 s
  | None => s
  end.

(** [update_stop_chain] and [restart_provider], as the main loop runs them. *)
Definition stop_chain_tick (mo : Moment L D) (t : StopTick) (s : System) : System :=
  let '(r, m) := with_controller mo s (λ cbs ms,
      let r := update_stop_chain t cbs (sy_stop_chain s) ms in (r, tr_mode r)) in
  mkSystem m (tr_monitor r) (sy_deployment s) (tr_completed r).

Definition restart (mo : Moment L D) (pid : string) (timeout_ms : Z) (io : RestartIO) (s : System) : bool * System :=
  let '((ok, d), m) := with_controller mo s (λ cbs ms,
      restart_provider automation safety pid timeout_ms io cbs (sy_deployment s) ms) in
  (ok, mkSystem m (sy_stop_chain s) d (sy_loop s)).

(** The polling thread, the edges it delivers and the re-issue they ask for. *)
Definition poll (providers : Providers) (now steady_now : Z) (shutting_down : bool) (s : System) : System :=
  let w := rw_safe (world (sy_runtime s)) in
  put_world (put_cache (poll_once providers now steady_now shutting_down (sw_cache w)) w) s.

Definition deliver_edge (e : Edge) (s : System) : System :=
  let m := sy_runtime s in
  let w := world m in
  put_runtime (mkMM (current_mode_ m)
                 (mkRuntime (rw_safe w) (apply_edge e (rw_loss w)).2 (rw_events w) (rw_journal w))) s.

Definition reissue (mo : Moment L D) (device_handle : string) (s : System) : nat * System :=
  let '(n, w) := reissue_safe_state_for (mo_ctx mo) (dp_registry (sy_deployment s)) safety device_handle
                   (rw_safe (world (sy_runtime s))) in
  (n, put_world w s).

(** One operation of one thread. *)
Inductive sys_step : System → System → Prop :=
| sys_mode mo body s : sys_step s (post_mode mo body s).2
| sys_estop mo now_ms io body s : sys_step s (post_estop mo now_ms io body s).2
| sys_clear unlink_error sync s : sys_step s (post_estop_clear unlink_error sync s).2
| sys_call body env now wall sd s : sys_step s (post_call body env now wall sd s).2
| sys_tree_call mo request s : sys_step s (tree_call mo request s).2
| sys_tree_fault mo s : sys_step s (tree_fault mo s)
| sys_tick mo t s : sy_loop s = true → sys_step s (stop_chain_tick mo t s)
| sys_restart mo pid timeout_ms io s : sys_step s (restart mo pid timeout_ms io s).2
| sys_poll providers now steady sd s : sys_step s (poll providers now steady sd s)
| sys_edge e s : sys_step s (deliver_edge e s)
| sys_reissue mo handle s : sys_step s (reissue mo handle s).2.

(** The system [initialize] leaves: what it built, beside the loss latch, the
    publications and the processes as they are by then. *)
Definition started (b : Booting) (rest : RuntimeWorld) (running : gmap Handle string) : System :=
  mkSystem (full_view rest (bo_mode b)) (bo_stop_chain b)
    (mkDeployment (in_registry (bo_inventory b)) (in_providers (bo_inventory b)) running) true.
End System.

(** ** What every operation keeps *)

Section Keeping.
Context {L D : Type} `{IActuationLatch L} `{IDeviceLossLatch D} `{FloatText} `{StatusNames} `{JsonText} `{QualityNames}.
Context `{JsonLines} (cast : double → Z) (parse : string → string + json) (what : json → string) (dump_error : string).
Context (c : RuntimeConfig).
Implicit Types (s : System) (mo : Moment L D).

(** The controller's view of the runtime's callbacks. *)
Definition controlled (cbs : option (Callbacks SafeWorld)) : Prop :=
  match cbs with
  | None => au_enabled (automation c) = false
  | Some q => after_keeps_mode (callbacks_ q) ∧ ∀ P : Controller → Prop, callbacks_keep (λ w, P (sw_ctl w)) q
  end.

Lemma controlled_keeps_latch cbs : controlled cbs → keeps_latch cbs.
Proof. intros Hc q ->. by apply (proj2 Hc (λ ctl, latched_flag ctl = true)). Qed.

Lemma on_controller_view {A} pub cbs (op : Callbacks SafeWorld → MM SafeWorld → A * MM SafeWorld) m :
  let r := on_controller cast pub cbs op m in
  let r' := op (safe_callbacks (world m) cbs) (safe_view m) in
  r.1 = r'.1 ∧ safe_view r.2 = r'.2.
Proof.
  unfold on_controller. destruct (op _ _) as [x ms]. simpl. split; [done|].
  case_bool_decide; [by destruct ms|]. unfold safe_view.
  destruct (publish_keeps cast pub (current_mode_ m) (current_mode_ ms) (full_view (world m) ms)) as (-> & -> & _).
  by destruct ms.
Qed.

(** A controller operation is one on its view, with callbacks it can rely on. *)
Lemma with_controller_view {A} mo s (op : option (Callbacks SafeWorld) → MM SafeWorld → A * MM SafeWorld) :
  ∃ cbs, controlled cbs ∧ (with_controller cast c mo s op).1 = (op cbs (safe_view (sy_runtime s))).1 ∧
         safe_view (with_controller cast c mo s op).2 = (op cbs (safe_view (sy_runtime s))).2.
Proof.
  unfold with_controller, callbacks. destruct (au_enabled (automation c)) eqn:Ha.
  - eexists (Some (safe_callbacks (world (sy_runtime s)) _)).
    split; [|apply (on_controller_view (mo_pub mo) _ (λ quiet, op (Some quiet)))].
    split; [apply safe_callbacks_keep_mode|intros P; apply safe_callbacks_keep].
  - exists None. split; [done|]. destruct (op None _) as [x ms]. split; [done|]. by destruct ms.
Qed.

(** A [POST /v0/estop] whose latch record cannot be printed: it engages the latch,
    answers with an error, and neither runs the ladder nor enters FAULT. *)
Definition estop_throws (ctl : Controller) : Prop :=
  ∃ st now_ms body, latch_store_ ctl = Some st ∧
    json_dump (latch_doc (config_dir_ st) now_ms (estop_reason parse body)) = None.

(** The invariant, on what the controller sees. *)
Record sys_ok (mon : option StopChainMonitor) (r : DeviceRegistry) (loop : bool) (m : MM SafeWorld) : Prop := {
  ok_auto : current_mode_ m = AUTO →
            gate_refused (evaluate_hookless_auto_gate r (automation c) (safety c)) = false ∧
            au_enabled (automation c) = true;
  ok_free : current_mode_ m = AUTO → loop = true →
            (latched_flag (sw_ctl (world m)) = false ∨ estop_throws (sw_ctl (world m))) ∧
            ∀ q, mon = Some q → holds q = false;
  ok_held : stop_held (mon, m);
}.

Definition ok s : Prop :=
  sys_ok (sy_stop_chain s) (dp_registry (sy_deployment s)) (sy_loop s) (safe_view (sy_runtime s)).

Lemma sys_ok_quiet mon r l m m' :
  current_mode_ m' = current_mode_ m → sw_ctl (world m') = sw_ctl (world m) → sys_ok mon r l m → sys_ok mon r l m'.
Proof.
  intros Hm Hc [Ha Hf Hh]. split; [by rewrite Hm|by rewrite Hm, Hc|]. intros q E. destruct (Hh q E) as [Hn Hl].
  split; [done|]. unfold latched in *. simpl in *. by rewrite Hc.
Qed.

(** Outside AUTO only the latch counts. *)
Lemma sys_ok_not_auto mon r l m m' :
  current_mode_ m' ≠ AUTO → (latched m → latched m') → sys_ok mon r l m → sys_ok mon r l m'.
Proof.
  intros Hm Hl [_ _ Hh]. split; [done..|]. intros q E. destruct (Hh q E) as [Hn Hq]. split; [done|]. auto.
Qed.

Lemma gate_of_devices r r' :
  devices_ r' = devices_ r →
  evaluate_hookless_auto_gate r' (automation c) (safety c) = evaluate_hookless_auto_gate r (automation c) (safety c).
Proof. intros E. unfold evaluate_hookless_auto_gate, gate_functions, planned_safe_state_kind, actuating_functions_for, get_all_devices. by rewrite E. Qed.

Lemma set_mode_latched q n m : controlled (Some q) → latched m → latched (set_mode q n m).2.
Proof. intros [_ Hk] Hl. apply (set_mode_keeps (λ w, latched_flag (sw_ctl w) = true)); [apply (Hk (λ ctl, latched_flag ctl = true))|done]. Qed.

(** A request for any mode. *)
Lemma ok_set_mode mo s n cbs :
  callbacks cast c mo s = Some cbs → ok s → ok (put_runtime (set_mode cbs n (sy_runtime s)).2 s).
Proof.
  unfold callbacks. destruct (au_enabled (automation c)) eqn:Hen; [|done]. intros [= <-] Hok.
  set (cbs := init_automation _ _ _ _ _ _ _).
  destruct (init_automation_keeps_mode (mo_ctx mo) cast (mo_pub mo) (automation c) (safety c) (mo_tid mo)
    (λ _, dp_registry (sy_deployment s))) as [Hb Ha]. fold cbs in Hb, Ha.
  pose proof (init_automation_keeps (mo_ctx mo) cast (mo_pub mo) (automation c) (safety c) (mo_tid mo)
    (λ _, dp_registry (sy_deployment s))) as Hk. fold cbs in Hk.
  pose proof (init_automation_guards (mo_ctx mo) cast (mo_pub mo) (automation c) (safety c) (mo_tid mo)
    (λ _, dp_registry (sy_deployment s))) as Hgs. fold cbs in Hgs. clearbody cbs.
  pose proof (set_mode_keeps (λ w, sw_ctl (rw_safe w) = sw_ctl (rw_safe (world (sy_runtime s)))) cbs n (sy_runtime s)
    (Hk (λ ctl, ctl = sw_ctl (rw_safe (world (sy_runtime s))))) eq_refl) as Hc.
  pose proof (set_mode_kept cbs n (sy_runtime s) Hb Ha) as Hs. unfold ok in *. simpl.
  destruct (set_mode cbs n (sy_runtime s)) as [r m']. simpl in *.
  destruct Hs as [[Hm _]|(_ & Hm & _ & mb & Eb & Hg & ->)];
    [by apply (sys_ok_quiet _ _ _ (safe_view (sy_runtime s)))|].
  assert (sw_ctl (rw_safe (world mb)) = sw_ctl (rw_safe (world (sy_runtime s)))) as Hcb.
  { pose proof (run_before_keeps (λ w, sw_ctl (rw_safe w) = sw_ctl (rw_safe (world (sy_runtime s))))
      (before_callbacks_ cbs) (current_mode_ (sy_runtime s)) n (sy_runtime s)
      (proj1 (Hk (λ ctl, ctl = sw_ctl (rw_safe (world (sy_runtime s)))))) eq_refl) as Hcb. by rewrite Eb in Hcb. }
  destruct (decide (n = AUTO)) as [->|Hn].
  - specialize (Hg ltac:(done)). rewrite Hgs in Hg.
    apply Forall_cons in Hg as [Hg1 [Hg2 _]%Forall_cons].
    unfold hookless_check in Hg1. unfold estop_check in Hg2. simpl in Hg1, Hg2. rewrite Hcb in Hg2.
    split; simpl; rewrite ?Hc.
    + intros _. by destruct (gate_refused _).
    + intros _ _. split; [left; by destruct (latched_flag _)|]. intros q E. apply not_true_is_false. intros Hh.
      pose proof (proj2 (ok_held _ _ _ _ Hok q E) Hh) as Hl. unfold latched in Hl. simpl in Hl. by rewrite Hl in Hg2.
    + intros q E. destruct (ok_held _ _ _ _ Hok q E) as [Hnc Hl]. split; [done|]. unfold latched in *. simpl in *. by rewrite Hc.
  - split; [simpl; by rewrite Hm..|].
    intros q E. destruct (ok_held _ _ _ _ Hok q E) as [Hnc Hl]. split; [done|]. unfold latched in *. simpl in *. by rewrite Hc.
Qed.

Lemma not_auto mon r l m : au_enabled (automation c) = false → sys_ok mon r l m → current_mode_ m ≠ AUTO.
Proof. intros He [Ha _ _] Hm. destruct (Ha Hm) as (_ & E). congruence. Qed.

Lemma ok_quiet s w :
  sw_ctl w = sw_ctl (rw_safe (world (sy_runtime s))) → ok s → ok (put_world w s).
Proof. intros Hc. by apply (sys_ok_quiet _ _ _ (safe_view (sy_runtime s))). Qed.

(** A trigger that throws has engaged the latch and done nothing else. *)
Lemma trigger_thrown ctx r cbs tid now_ms reason io m m' :
  trigger (L := L) (D := D) ctx r (safety c) cbs tid now_ms reason io m = (None, m') →
  current_mode_ m' = current_mode_ m ∧ sw_ctl (world m') = engage now_ms (sw_ctl (world m)).
Proof.
  unfold trigger. set (w1 := put_ctl _ _). pose proof (persist_ctl now_ms reason io w1) as Hc.
  destruct (persist _ _ _ _) as [[] w2]; simpl in *.
  - destruct (run_ladder _ _ _ _ _ _) as [res w3]. destruct cbs as [cbs|]; [|done]. by destruct (fault_entry _ _ _ _).
  - by intros [= <-].
Qed.

Lemma ok_estop mo now_ms io body s : ok s → ok (post_estop cast parse dump_error c mo now_ms io body s).2.
Proof.
  intros Hok. unfold post_estop.
  match goal with |- context [with_controller cast c mo s ?op] =>
    destruct (with_controller_view mo s op) as (cbs & Hc & _ & Hv); destruct (with_controller cast c mo s op) as [resp m'] end.
  unfold ok in *. cbn [snd put_runtime sy_stop_chain sy_deployment sy_runtime] in *. rewrite Hv.
  unfold handle_post_estop. cbn [negb].
  pose proof (trigger_spec (mo_ctx mo) (dp_registry (sy_deployment s)) (safety c) cbs (mo_tid mo) now_ms
    (estop_reason parse body) io (safe_view (sy_runtime s))) as Ht.
  pose proof (trigger_thrown (mo_ctx mo) (dp_registry (sy_deployment s)) cbs (mo_tid mo) now_ms
    (estop_reason parse body) io (safe_view (sy_runtime s))) as Hth.
  destruct (trigger _ _ _ _ _ _ _ _ _) as [[res|] m2]; [|destruct (Hth m2 eq_refl) as [Em Ec]].
  - destruct Ht as ([Hl _] & _ & Hm).
    { intros q ->. split; [apply Hc|]. apply (proj2 Hc (λ ctl, latched_flag ctl = true ∧ is_Some (latched_at_ms_ ctl))). }
    apply (sys_ok_not_auto _ _ _ (safe_view (sy_runtime s))); [|done..]. simpl.
    destruct cbs as [q|]; [by destruct Hm as (-> & _)|]. rewrite Hm. by eapply not_auto.
  - destruct Ht as ([Hl _] & st & Hst & Hn).
    { intros q ->. split; [apply Hc|]. apply (proj2 Hc (λ ctl, latched_flag ctl = true ∧ is_Some (latched_at_ms_ ctl))). }
    pose proof Hok as [Ha Hf _]. split.
    + cbn [snd]. rewrite Em. exact Ha.
    + cbn [snd]. rewrite Em. intros Hm Hloop. destruct (Hf Hm Hloop) as [_ Hq]. split; [right|exact Hq].
      exists st, now_ms, body. split; [by rewrite Ec|done].
    + intros q E. destruct (ok_held _ _ _ _ Hok q E) as [Hnc _]. by split.
Qed.

Lemma ok_clear unlink_error sync s : ok s → ok (post_estop_clear unlink_error sync s).2.
Proof.
  intros [Ha Hf Hh]. unfold post_estop_clear, handle_post_estop_clear. cbn [negb].
  pose proof (stop_step_held _ _ (stop_clear unlink_error sync (sy_stop_chain s) (safe_view (sy_runtime s))) Hh) as Hh'.
  assert (latched_flag (sw_ctl (rw_safe (world (sy_runtime s)))) = false ∨
          estop_throws (sw_ctl (rw_safe (world (sy_runtime s)))) →
          let ctl := sw_ctl (SafeState.clear (clear_guard (sy_stop_chain s)) unlink_error sync
                       (rw_safe (world (sy_runtime s)))).2 in
          latched_flag ctl = false ∨ estop_throws ctl) as Hl.
  { unfold SafeState.clear. destruct (clear_guard _); [done|]. intros _. left. by destruct (latch_store_ _). }
  change (world (safe_view (sy_runtime s))) with (rw_safe (world (sy_runtime s))) in Hh'.
  destruct (SafeState.clear _ _ _ _) as [refused w]. cbn [fst snd] in *.
  assert (ok (put_world w s)) as Hok; [|by destruct refused]. split; [done| |done].
  simpl. intros Hm Hloop. destruct (Hf Hm Hloop) as [Hx Hq]. split; [by apply Hl|done].
Qed.

Lemma ok_tick mo t s : sy_loop s = true → ok s → ok (stop_chain_tick cast c mo t s).
Proof.
  intros Hloop Hok. unfold stop_chain_tick.
  match goal with |- context [with_controller cast c mo s ?op] =>
    destruct (with_controller_view mo s op) as (cbs & Hc & Hr & Hv); destruct (with_controller cast c mo s op) as [r m'] end.
  unfold ok in *. cbn [fst snd sy_stop_chain sy_deployment sy_runtime] in *. rewrite Hv, Hr.
  destruct Hok as [Ha Hf Hh]. pose proof (λ Hm, Hf Hm Hloop) as Hf'. clear Hf.
  pose proof (stop_tick_held t cbs (sy_stop_chain s) (safe_view (sy_runtime s)) (controlled_keeps_latch cbs Hc) Hh) as Hh'.
  destruct cbs as [q|].
  - pose proof (tick_outcome t q (sy_stop_chain s) (safe_view (sy_runtime s)) (proj1 Hc)) as Ho. cbv zeta in Ho.
    set (r' := update_stop_chain _ _ _ _) in *. destruct (tr_completed r').
    + destruct Ho as [Ho|[Ho Hq]]; [split; [by rewrite Ho..|done]|]. split; [by rewrite Ho| |done].
      rewrite Ho. intros Hm _. destruct (Hf' Hm) as [Hx Hn]. split; [done|]. intros q' E.
      apply not_true_is_false. intros Hd. destruct (Hq q' E Hd) as (q0 & E0 & Hq0). by rewrite (Hn q0 E0) in Hq0.
    + split; [rewrite Ho; exact Ha|done|done].
  - unfold controlled in Hc. assert (current_mode_ (safe_view (sy_runtime s)) ≠ AUTO) as Hn.
    { intros Hm. destruct (Ha Hm) as [_ E]. congruence. }
    split; [by rewrite tick_mode_alone..|done].
Qed.

Lemma ok_restart mo pid timeout_ms io s : ok s → ok (restart cast c mo pid timeout_ms io s).2.
Proof.
  intros Hok. unfold restart.
  match goal with |- context [with_controller cast c mo s ?op] =>
    destruct (with_controller_view mo s op) as (cbs & Hc & Hr & Hv); destruct (with_controller cast c mo s op) as [[done_ d'] m'] end.
  unfold ok in *. cbn [fst snd sy_stop_chain sy_deployment sy_runtime] in *.
  destruct (restart_cases (automation c) (safety c) pid timeout_ms io cbs (sy_deployment s) (safe_view (sy_runtime s)))
    as [(d2 & E & (Hd & _ & _) & _)|(replacement & running & _ & _ & E & _)]; rewrite E in Hr, Hv;
    simpl in Hr, Hv; injection Hr as -> ->; rewrite Hv.
  - destruct Hok as [Ha Hf Hh]. split; [|done|done]. by rewrite (gate_of_devices _ _ Hd).
  - set (r' := commit_provider_devices _ _ _ _). set (m1 := rebuild_cache _ _ _ _).
    assert (sys_ok (sy_stop_chain s) (dp_registry (sy_deployment s)) (sy_loop s) m1) as [Ha Hf Hh]
      by (by apply (sys_ok_quiet _ _ _ (safe_view (sy_runtime s)))).
    clearbody m1. unfold recheck_auto. simpl (dp_registry _). destruct cbs as [q|].
    2:{ split; [|done|done]. intros Hm. destruct (Ha Hm) as (_ & En). unfold controlled in Hc. congruence. }
    destruct (au_enabled (automation c)) eqn:En.
    2:{ split; [|done|done]. intros Hm. by destruct (Ha Hm) as (_ & ?). }
    unfold enforce_hookless_gate_in_auto. case_bool_decide as Hauto; simpl; [|by split].
    destruct (gate_refused (evaluate_hookless_auto_gate r' (automation c) (safety c))) eqn:Eg; simpl; [|by split].
    destruct (set_mode_FAULT q m1 (proj1 Hc)) as (m2 & E2 & Hm2).
    pose proof (λ Hl, set_mode_latched q FAULT m1 Hc Hl) as Hl. rewrite E2 in Hl |- *. simpl in *.
    split; [by rewrite Hm2..|]. intros mon Em. destruct (Hh mon Em) as [Hn Hq]. split; [done|]. auto.
Qed.
End Keeping.

Section Reach.
Context {L D : Type} `{IActuationLatch L} `{IDeviceLossLatch D} `{FloatText} `{StatusNames} `{JsonText} `{QualityNames}.
Context `{JsonLines} (cast : double → Z) (parse : string → string + json) (what : json → string) (dump_error : string).
Context (c : RuntimeConfig).

Lemma ok_step s s' :
  sys_step (L := L) (D := D) cast parse what dump_error c s s' → ok parse c s → ok parse c s'.
Proof.
  intros Hs Hok. destruct Hs.
  - unfold post_mode, handle_post_mode. destruct (callbacks cast c mo s) as [cbs|] eqn:Ec; [|by destruct s].
    destruct (requested_mode parse body) as [n|e]; [|by destruct s].
    pose proof (ok_set_mode cast parse c mo s n cbs Ec Hok) as Hm. by destruct (set_mode cbs n (sy_runtime s)) as [[[]|e] m].
  - by apply ok_estop.
  - by apply ok_clear.
  - unfold post_call. destruct (handle_post_call _ _ _ _ _ _ _ _ _ _) as [[[resp d] rt] cache]. by apply ok_quiet.
  - unfold tree_call. destruct (route_spec (mo_ctx mo) request (rw_safe (world (sy_runtime s))))
      as (res & od & w & -> & Hc & _). by apply ok_quiet.
  - unfold tree_fault. destruct (callbacks cast c mo s) as [cbs|] eqn:Ec; [exact (ok_set_mode cast parse c mo s FAULT cbs Ec Hok)|done].
  - by apply ok_tick.
  - by apply ok_restart.
  - by apply ok_quiet.
  - by apply (sys_ok_quiet parse c _ _ _ (safe_view (sy_runtime s))).
  - unfold reissue, reissue_safe_state_for, reassert_for.
    match goal with |- context [run_ladder ?a ?b ?x ?y ?z ?w] =>
      destruct (run_ladder_keeps a b x y z w) as [Hc _]; destruct (run_ladder a b x y z w) as [res w'] end.
    by apply ok_quiet.
Qed.

Lemma ok_started (io : BootIO L D) probe_interval_ms fs b rest running :
  initialize_runtime cast c io probe_interval_ms fs = (Some (Ok tt), b) → ok parse c (started b rest running).
Proof.
  intros (b1 & Hb & Em & Es & Ei)%initialize_booted. split.
  - simpl. rewrite Em. destruct (bt_idle _ _ _ Hb) as [->| ->]; done.
  - simpl. rewrite Em. destruct (bt_idle _ _ _ Hb) as [->| ->]; done.
  - simpl. unfold safe_view, full_view. simpl. rewrite Em, Es. pose proof (bt_held _ _ _ Hb) as Hh.
    by destruct (bo_mode b1).
Qed.
End Reach.

(** ** Theorems *)

(** Past the locked checks with the latch engaged, an ordinary call does not actuate. *)
Lemma latched_call_reads {D} `{IDeviceLossLatch D} `{FloatText} `{StatusNames} request
    (env : Checkpoint → Env (Controller * nat) D) now wall sd rt cache ctl tid d :
  rq_safe_state request = false → rq_fault_entry_hook request = false →
  env_latch (env AtLockedLatch) = Some (ctl, tid) → latched_flag ctl = true →
  (execute_call request env now wall sd rt cache).1.1.2 = Some d → is_actuating (d_spec d) = false.
Proof.
  intros Hs Hf Hl Hc Hd. destruct (execute_call _ _ _ _ _ _ _) as [[[res d'] rt'] cache'] eqn:E. simpl in Hd. subst d'.
  apply execute_call_sent in E as (p & rt1 & _ & (Hlatch & _)%locked_checks_ok & Hd).
  destruct (dispatch_sent request p env now wall sd rt1 cache) as (? & ? & ? & Hd' & _). rewrite Hd in Hd'. simplify_eq.
  apply not_true_is_false. simpl. intros Ha.
  destruct (check_latch_pass _ _ _ Hlatch Hs Ha _ Hl) as [Hn|[Hn _]]; simpl in Hn; congruence.
Qed.

(** C1. A stop that is observed is obeyed by the whole runtime: on a system that
    started up, after any operations of any threads in any order, while the stop
    chain reads in force or unknown the e-stop latch is engaged; a request to clear
    it is refused and changes nothing; neither a client's call nor a tree's call,
    judged by that latch, reaches a function that can actuate; and the mode is not
    AUTO, unless a tick of the main loop threw, which ends the loop and the
    process: a hold throws when its record cannot be printed, before it enters
    FAULT. *)
Theorem observed_stop_obeyed {D} `{IDeviceLossLatch D} `{FloatText} `{StatusNames} `{JsonText} `{QualityNames} `{JsonLines}
    (cast : double → Z) (parse : string → string + json) (what : json → string) (dump_error : string)
    (c : RuntimeConfig) (io : BootIO (Controller * nat) D) (probe_interval_ms : Z) (fs : FS) (b : Booting)
    (rest : RuntimeWorld) (running : gmap Handle string) (s : System) (mon : StopChainMonitor) :
  initialize_runtime cast c io probe_interval_ms fs = (Some (Ok tt), b) →
  rtc (sys_step (L := Controller * nat) (D := D) cast parse what dump_error c) (started b rest running) s →
  sy_stop_chain s = Some mon → holds mon = true →
  let w := rw_safe (world (sy_runtime s)) in
  latched_flag (sw_ctl w) = true ∧ (sy_loop s = true → current_mode_ (sy_runtime s) ≠ AUTO) ∧
  (∀ unlink_error sync, rs_status (post_estop_clear unlink_error sync s).1 ≠ 200 ∧
                        (post_estop_clear unlink_error sync s).2 = s) ∧
  (∀ body env now wall sd tid d,
     env_latch (env AtLockedLatch) = Some (sw_ctl w, tid) →
     (post_call (L := Controller * nat) (D := D) cast parse what body env now wall sd s).1.2 = Some d →
     is_actuating (d_spec d) = false) ∧
  (∀ (mo : Moment (Controller * nat) D) request tid,
     rq_safe_state request = false → rq_fault_entry_hook request = false →
     env_latch (cx_env (mo_ctx mo (sw_calls w)) AtLockedLatch) = Some (sw_ctl w, tid) →
     ∃ ds, sw_sent (rw_safe (world (sy_runtime (tree_call mo request s).2))) = sw_sent w ++ ds ∧
           Forall (λ d, is_actuating (d_spec d) = false) ds).
Proof.
  intros Hboot Hr Em Hh w.
  assert (ok parse c s) as [_ Hfree Hheld].
  { eapply (rtc_invariant _ (ok parse c)); [|by intros ? ? ? ?; eapply ok_step|exact Hr]. by eapply ok_started. }
  destruct (Hheld mon Em) as [Hn Hl]. specialize (Hl Hh). unfold latched in Hl. simpl in Hl. fold w in Hl.
  split_and!; [done| | | |].
  - intros Hloop Hm. destruct (Hfree Hm Hloop) as [_ Hn']. rewrite (Hn' mon Em) in Hh. discriminate.
  - intros unlink_error sync. unfold post_estop_clear, handle_post_estop_clear. cbn [negb]. rewrite Em. simpl (clear_guard _).
    destruct (configured mon) eqn:Hc; [|unfold holds in Hh; by rewrite (Hn eq_refl) in Hh].
    unfold clear_refusal. unfold holds in Hh.
    destruct (sn_state (sm_current mon)); simpl in *; try done; (split; [done|]); by destruct s as [[? []] ? ?].
  - intros body env now wall sd tid d He. unfold post_call. fold w.
    destruct (handle_post_call _ _ _ _ _ _ _ _ _ _) as [[[resp d'] rt] cache] eqn:E. simpl. intros ->.
    apply handle_post_call_cases in E as [(_ & _ & _ & [=] & _)|(bd & res & _ & _ & Hx)].
    eapply (latched_call_reads (http_call_request bd)); [done..|exact He|done|]. by rewrite Hx.
  - intros mo request tid Hs Hf He. unfold tree_call, route. fold w.
    pose proof (λ d, latched_call_reads request (cx_env (mo_ctx mo (sw_calls w))) (cx_now (mo_ctx mo (sw_calls w)))
      (cx_wall (mo_ctx mo (sw_calls w))) (cx_shutting_down (mo_ctx mo (sw_calls w))) (sw_router w) (sw_cache w)
      (sw_ctl w) tid d Hs Hf He Hl) as Hno.
    destruct (execute_call _ _ _ _ _ _ _) as [[[res d] rt] cache]. simpl in *. exists (option_list d).
    split; [done|]. destruct d as [d|]; [|done]. apply Forall_singleton. by apply Hno.
Qed.

(** C2. AUTO is only ever in force on a machine that may run by itself: on a system
    that started up, after any operations of any threads in any order, restarts
    included, a runtime in AUTO has automation enabled and either a declared hook
    that fires on AUTO to FAULT or no function that could actuate in the inventory
    as it is now; and as long as no tick of the main loop has thrown it observes no
    stop and its e-stop latch is released, unless the latch record of some
    [POST /v0/estop] cannot be printed: such a request latches and throws before
    it enters FAULT. *)
Theorem auto_always_allowed {L D} `{IActuationLatch L} `{IDeviceLossLatch D} `{FloatText} `{StatusNames} `{JsonText}
    `{QualityNames} `{JsonLines} (cast : double → Z) (parse : string → string + json) (what : json → string)
    (dump_error : string) (c : RuntimeConfig) (io : BootIO L D) (probe_interval_ms : Z) (fs : FS) (b : Booting)
    (rest : RuntimeWorld) (running : gmap Handle string) (s : System) :
  initialize_runtime cast c io probe_interval_ms fs = (Some (Ok tt), b) →
  rtc (sys_step (L := L) (D := D) cast parse what dump_error c) (started b rest running) s →
  current_mode_ (sy_runtime s) = AUTO →
  at_enabled (c_automation c) = true ∧
  (sy_loop s = true →
     (∀ mon, sy_stop_chain s = Some mon → holds mon = false) ∧
     (latched_flag (sw_ctl (rw_safe (world (sy_runtime s)))) = false ∨
      estop_throws parse (sw_ctl (rw_safe (world (sy_runtime s)))))) ∧
  ((∃ h, h ∈ at_before_transition (c_automation c) ++ at_after_transition (c_automation c) ∧
         hook_covers_auto_to_fault h = true) ∨
   ¬ has_actuating_function (dp_registry (sy_deployment s))).
Proof.
  intros Hboot Hr Hm.
  assert (ok parse c s) as [Ha Hfree _].
  { eapply (rtc_invariant _ (ok parse c)); [|by intros ? ? ? ?; eapply ok_step|exact Hr]. by eapply ok_started. }
  destruct (Ha Hm) as (Hg & He). split_and!; [done| |].
  - intros Hloop. by destruct (Hfree Hm Hloop).
  - destruct (existsb hook_covers_auto_to_fault (au_before_transition (automation c) ++ au_after_transition (automation c)))
      eqn:Eh.
    + left. apply existsb_exists in Eh as (h & Hin & Hc). exists h. split; [by apply list_elem_of_In|done].
    + right. intros Hact. rewrite (proj2 (gate_refused_iff _ _ _)) in Hg; [done|]. split_and!; [done| |done].
      intros h Hin. destruct (hook_covers_auto_to_fault h) eqn:Ec; [|done].
      rewrite (proj2 (existsb_exists _ _)) in Eh; [done|]. exists h. split; [by apply list_elem_of_In|done].
Qed.

(** ** A sample machine *)

Module SystemBench.
#[export] Existing Instance plain_text.
#[export] Existing Instance Bench.names.
#[export] Existing Instance bit_text.
#[export] Existing Instance StopBench.q_names.
#[export] Existing Instance ascii_codec.

Definition ctx (latch : option (Controller * nat)) (n : nat) : CallCtx (Controller * nat) DeviceLossLatch :=
  mkCtx (λ _, mkEnv (Some MANUAL) "BLOCK" latch None empty_registry ∅) (Z.of_nat n) 0 false.

Definition io : BootIO (Controller * nat) DeviceLossLatch :=
  mkBootIO (λ _, 10) (λ _, mkProviderBoot 0%nat (Ok tt) sample_discovery) 0 0 (mkLoadIO None true) ∅
    (sample_tick 0) [] (ctx None) empty_loss_latch 1%nat sample_publishing 7 all_ok true true true (Ok tt).

(** With a stop chain whose status cannot be read, and without a stop chain. *)
Definition config (stop_chain : bool) : RuntimeConfig :=
  mkRuntimeConfig default_runtime default_http (c_providers Startup.sample_config) 500 default_telemetry default_logging
    (mkAutomationSection true "tree.xml" 10 BLOCK REPEAT 3 [] [] [])
    (if stop_chain then c_safety Startup.sample_config else default_safety) default_health "/etc/anolis".

Definition booted (stop_chain : bool) : option (result unit) * Booting :=
  initialize_runtime (λ _, 0) (config stop_chain) io 60000 (empty_fs true).

Definition rest : RuntimeWorld :=
  mkRuntime (mkWorld new_controller new_router (new_cache true true) (empty_fs true) [] 0) empty_loss_latch [] None.

(** Bodies are the mode's name. *)
Definition parse (body : string) : string + json := inr (jobject [("mode", JString body)]).

Definition start (stop_chain : bool) : System := started (booted stop_chain).2 rest ∅.

Definition moment : Moment (Controller * nat) DeviceLossLatch := mkMoment (ctx None) sample_publishing 1%nat.

Definition ask (body : string) (s : System) : System :=
  (post_mode (λ _, 0) parse (config false) moment body s).2.

(** A request for AUTO while the stop cannot be read. *)
Definition asked : System := (post_mode (λ _, 0) parse (config true) moment "AUTO" (start true)).2.
End SystemBench.

Example observed_stop_obeyed_witness :
  latched_flag (sw_ctl (rw_safe (world (sy_runtime (SystemBench.asked))))) = true ∧
  current_mode_ (sy_runtime (SystemBench.asked)) ≠ AUTO.
Proof.
  destruct (sy_stop_chain (SystemBench.asked)) as [mon|] eqn:Em; [|vm_compute in Em; done].
  assert (holds mon = true) as Hh.
  { assert (match sy_stop_chain (SystemBench.asked) with Some m => holds m | None => false end = true) as Hd
      by (vm_compute; reflexivity). by rewrite Em in Hd. }
  assert ((SystemBench.booted true).1 = Some (Ok tt)) as Eb by (vm_compute; reflexivity).
  destruct (observed_stop_obeyed (H0 := plain_text) (H1 := Bench.names) (H2 := bit_text) (H3 := StopBench.q_names)
    (H4 := ascii_codec) (λ _, 0) SystemBench.parse (λ _, "") "" (SystemBench.config true)
    SystemBench.io 60000 (empty_fs true) (SystemBench.booted true).2 SystemBench.rest ∅ (SystemBench.asked) mon)
    as (Hl & Hm & _).
  - rewrite <- Eb. apply surjective_pairing.
  - apply rtc_once, (sys_mode _ _ _ _ _ SystemBench.moment "AUTO").
  - exact Em.
  - exact Hh.
  - split; [exact Hl|apply Hm; vm_compute; reflexivity].
Defined.

Example auto_always_allowed_witness :
  let s := SystemBench.ask "AUTO" (SystemBench.ask "MANUAL" (SystemBench.start false)) in
  current_mode_ (sy_runtime s) = AUTO ∧ latched_flag (sw_ctl (rw_safe (world (sy_runtime s)))) = false ∧
  ¬ has_actuating_function (dp_registry (sy_deployment s)).
Proof.
  set (s := SystemBench.ask _ _).
  assert (current_mode_ (sy_runtime s) = AUTO) as Hm by (vm_compute; reflexivity).
  assert ((SystemBench.booted false).1 = Some (Ok tt)) as Eb by (vm_compute; reflexivity).
  destruct (auto_always_allowed (L := Controller * nat) (D := DeviceLossLatch) (H1 := plain_text) (H2 := Bench.names)
    (H3 := bit_text) (H4 := StopBench.q_names) (H5 := ascii_codec) (λ _, 0) SystemBench.parse (λ _, "") ""
    (SystemBench.config false) SystemBench.io 60000 (empty_fs true) (SystemBench.booted false).2 SystemBench.rest ∅ s)
    as (_ & Hl & Hf).
  - rewrite <- Eb. apply surjective_pairing.
  - eapply rtc_l; [apply (sys_mode _ _ _ _ _ SystemBench.moment "MANUAL")|].
    apply rtc_once, (sys_mode _ _ _ _ _ SystemBench.moment "AUTO").
  - exact Hm.
  - split; [exact Hm|]. split.
    { assert (sy_loop s = true) as Hloop by (vm_compute; reflexivity).
      destruct (Hl Hloop) as [_ [El|(st & now & body & _ & Ed)]]; [exact El|]. simpl in Ed. discriminate Ed. }
    destruct Hf as [(h & Hh & _)|Hf]; [|exact Hf].
    change (h ∈ []) in Hh. exact (False_ind _ (not_elem_of_nil h Hh)).
Defined.
