(* ===== verification/Workers.v ===== *)
(** * The service threads

    The threads behind [StateCache::start_polling] and [stop_polling]
    ([core/state/state_cache.cpp]), [HealthSnapshotTask]
    ([core/telemetry/health_snapshot_task.cpp]) and [InfluxSink]'s flush loop
    ([core/telemetry/influx_sink.hpp]): how they start, what one turn of each loop
    does, and how the main thread stops them, in the order of [Runtime::shutdown].
    The polling and health threads are instances of one loop guarded by a flag;
    the flush loop is taken apart at every lock it takes and at the post between
    them.  What the clocks, the providers and the server answer are inputs of the
    steps. *)

From S2P Require Import Prelude Parameters Config Json EventEmitter StateCache Health Telemetry.

(** ** A thread that runs while its flag is set *)

(** [NotStarted]: not joinable. *)
Inductive Phase := NotStarted | AtCheck | InPass | Exited.

#[export] Instance Phase_eq_dec : EqDecision Phase.
Proof. solve_decision. Defined.

Record Worker (W : Type) := mkWorker {
  wk_active : bool;
  wk_phase : Phase;
  wk_world : W;
}.
Arguments mkWorker {W}.
Arguments wk_active {W}.
Arguments wk_phase {W}.
Arguments wk_world {W}.

Section Worker.
Context {W I : Type} (pass : I → W → W).

(** The flag set and the thread assigned; [None]: a joinable thread is assigned to,
    which ends the process. *)
Definition launch (k : Worker W) : option (Worker W) :=
  match wk_phase k with
  | NotStarted => Some (mkWorker true AtCheck (wk_world k))
  | _ => None
  end.

(** One move of the thread. *)
Definition worker_move (i : I) (k : Worker W) : Worker W :=
  match wk_phase k with
  | AtCheck => mkWorker (wk_active k) (if wk_active k then InPass else Exited) (wk_world k)
  | InPass => mkWorker (wk_active k) AtCheck (pass i (wk_world k))
  | NotStarted | Exited => k
  end.

Definition request_stop (k : Worker W) : Worker W := mkWorker false (wk_phase k) (wk_world k).

(** [if (thread.joinable()) thread.join()]; [None]: it waits. *)
Definition join (k : Worker W) : option (Worker W) :=
  match wk_phase k with
  | NotStarted => Some k
  | Exited => Some (mkWorker (wk_active k) NotStarted (wk_world k))
  | AtCheck | InPass => None
  end.
End Worker.

(** ** The polling thread *)

Record PollInput := mkPollInput {
  pi_providers : Providers;
  pi_now : Z;
  pi_steady : Z;
  pi_shutting_down : bool;
}.

Definition polling_pass (i : PollInput) (c : StateCache) : StateCache :=
  poll_once (pi_providers i) (pi_now i) (pi_steady i) (pi_shutting_down i) c.

(** [start_polling]: refused when active or not initialized. *)
Definition start_polling (k : Worker StateCache) : option (Worker StateCache) :=
  if wk_active k then Some k
  else if negb (initialized_ (wk_world k)) then Some k
  else launch k.

(** How long the loop sleeps after a poll that took [duration_ns], if it does. *)
Definition sleep_time (poll_interval_ms duration_ns : Z) : option Z :=
  let sleep := poll_interval_ms - ms_of_ns duration_ns in
  if 0 <? sleep then Some sleep else None.

(** ** The health snapshot task

    Its world is the sink it enqueues on; [stop_requested_] is the flag's negation. *)

Record SnapshotInput := mkSnapshot {
  hs_snapshot : list ProviderHealthSnapshot;   (* collect_providers_health *)
  hs_timestamp_ms : Z;
}.

Definition task_rows (runtime_name : string) (i : SnapshotInput) : list string :=
  health_task_rows (hs_snapshot i) runtime_name (hs_timestamp_ms i).

Definition task_start {W} (k : Worker W) : option (Worker W) :=
  match wk_phase k with NotStarted => launch k | _ => Some k end.

(** ** The flush loop *)

(** Where the thread is; [flush] is the loop's flush with the clock it read, or the
    final one. *)
Inductive SinkPhase :=
| SinkIdle                                   (* not started, or joined *)
| SinkCheck                                  (* while (running_) *)
| SinkPop
| SinkCollect (event : Event)
| SinkDecide
| SinkTake (flush : option Z)                (* flush_batch: the lines are taken *)
| SinkPost (flush : option Z) (lines : list string)
| SinkExited.

Record SinkThread := mkSinkThread {
  sk_phase : SinkPhase;
  sk_last_flush : Z;
  sk_queue : SubscriberQueue;
  sk_run : SinkRun;                          (* the sink, with what was handed to it and what came of it *)
}.

Definition sink_of (t : SinkThread) : InfluxSink := run_sink (sk_run t).

Definition set_sink (f : InfluxSink → InfluxSink) (x : SinkRun) : SinkRun :=
  mkRun (f (run_sink x)) (run_posting x) (run_enqueued x) (run_accepted x) (run_dropped x) (run_rejected x).

Definition set_running (b : bool) (s : InfluxSink) : InfluxSink :=
  mkSink (s_config s) (s_subscription s) b (s_connected s) (s_batch s) (s_retry_buffer s) (s_total_written s)
    (s_total_failed s) (s_total_rejected s).

(** [enqueue_lines], by any thread. *)
Definition run_enqueue (lines : list string) (x : SinkRun) : SinkRun :=
  mkRun (enqueue_lines lines (run_sink x)) (run_posting x) (run_enqueued x ++ lines) (run_accepted x)
    (run_dropped x) (run_rejected x).

Definition rows_of (to_chars : double → string) (e : Event) (s : InfluxSink) : list string :=
  option_list (event_row to_chars (in_runtime_name (s_config s)) e).

(** Back from [flush_batch]. *)
Definition flushed (flush : option Z) (last_flush : Z) : SinkPhase * Z :=
  match flush with Some now => (SinkCheck, now) | None => (SinkExited, last_flush) end.

(** What a move reads: the steady clock and the server's answer. *)
Record SinkInput := mkSinkInput { si_now : Z; si_answer : PostOutcome }.

Definition sink_move (to_chars : double → string) (i : SinkInput) (t : SinkThread) : SinkThread :=
  let '(mkSinkThread phase last q x) := t in
  let s := run_sink x in
  match phase with
  | SinkCheck => mkSinkThread (if s_running s then SinkPop else SinkTake None) last q x
  | SinkPop =>
      let '(e, q') := pop q in
      mkSinkThread (match e with Some event => SinkCollect event | None => SinkDecide end) last q' x
  | SinkCollect event => mkSinkThread SinkDecide last q (run_enqueue (rows_of to_chars event s) x)
  | SinkDecide =>
      mkSinkThread (if should_flush (ms_of_ns (si_now i - last)) s then SinkTake (Some (si_now i)) else SinkCheck)
        last q x
  | SinkTake flush =>
      let '(lines, s') := take_lines s in
      match lines with
      | [] => let '(phase', last') := flushed flush last in mkSinkThread phase' last' q (set_sink (λ _, s') x)
      | _ => mkSinkThread (SinkPost flush lines) last q
               (mkRun s' (Some lines) (run_enqueued x) (run_accepted x) (run_dropped x) (run_rejected x))
      end
  | SinkPost flush lines =>
      let o := si_answer i in
      let '(phase', last') := flushed flush last in
      mkSinkThread phase' last' q
        (mkRun (settle lines o s) None (run_enqueued x)
           (match classify o with Written => run_accepted x ++ lines | _ => run_accepted x end)
           (run_dropped x + dropped_by s lines o)
           (match classify o with Rejected => run_rejected x + Z.of_nat (length lines) | _ => run_rejected x end))
  | SinkIdle | SinkExited => t
  end.

(** The emitter pushes into the sink's queue; [None]: undefined behaviour. *)
Definition sink_push (e : Event) (t : SinkThread) : option SinkThread :=
  match push e (sk_queue t) with
  | Some (_, q) => Some (mkSinkThread (sk_phase t) (sk_last_flush t) q (sk_run t))
  | None => None
  end.

(** [stop] up to its join: the flag, and the queue closed by [unsubscribe]. *)
Definition sink_request_stop (t : SinkThread) : SinkThread :=
  mkSinkThread (sk_phase t) (sk_last_flush t) (close (sk_queue t)) (set_sink (set_running false) (sk_run t)).

Definition sink_joined (t : SinkThread) : option SinkThread :=
  match sk_phase t with
  | SinkExited | SinkIdle => Some (mkSinkThread SinkIdle (sk_last_flush t) (sk_queue t) (sk_run t))
  | _ => None
  end.

(** ** The telemetry threads and the main thread

    The health task hands its rows to the sink; [Runtime::shutdown] stops the task
    and then the sink. *)

Inductive MainPc := Serving | StoppingTask | StoppingSink | Down.

#[export] Instance MainPc_eq_dec : EqDecision MainPc.
Proof. solve_decision. Defined.

Record Telemetering := mkTelemetering {
  tm_main : MainPc;
  tm_task : Worker unit;
  tm_sink : SinkThread;
}.

(** Who moves: a thread, the main thread, or whoever emits an event. *)
Inductive Move :=
| MoveTask (i : SnapshotInput)
| MoveSink (i : SinkInput)
| MovePush (e : Event)
| MoveMain.

Section Telemetering.
Context (to_chars : double → string) (runtime_name : string).

(** The task's move, on the sink it shares. *)
Definition task_move (i : SnapshotInput) (s : Telemetering) : Telemetering :=
  let t := tm_sink s in
  let k := worker_move (λ i, run_enqueue (task_rows runtime_name i)) i
             (mkWorker (wk_active (tm_task s)) (wk_phase (tm_task s)) (sk_run t)) in
  mkTelemetering (tm_main s) (mkWorker (wk_active k) (wk_phase k) tt)
    (mkSinkThread (sk_phase t) (sk_last_flush t) (sk_queue t) (wk_world k)).

(** The main thread waits where a join does not return. *)
Definition main_move (s : Telemetering) : Telemetering :=
  match tm_main s with
  | Serving => mkTelemetering StoppingTask (request_stop (tm_task s)) (tm_sink s)
  | StoppingTask =>
      match join (tm_task s) with
      | Some k => mkTelemetering StoppingSink k (sink_request_stop (tm_sink s))
      | None => s
      end
  | StoppingSink =>
      match sink_joined (tm_sink s) with
      | Some t => mkTelemetering Down (tm_task s) t
      | None => s
      end
  | Down => s
  end.

Definition move (m : Move) (s : Telemetering) : option Telemetering :=
  match m with
  | MoveTask i => Some (task_move i s)
  | MoveSink i => Some (mkTelemetering (tm_main s) (tm_task s) (sink_move to_chars i (tm_sink s)))
  | MovePush e => mkTelemetering (tm_main s) (tm_task s) <$> sink_push e (tm_sink s)
  | MoveMain => Some (main_move s)
  end.

(** A schedule of moves. *)
Fixpoint moves (l : list Move) (s : Telemetering) : option Telemetering :=
  match l with
  | [] => Some s
  | m :: rest => match move m s with Some s' => moves rest s' | None => None end
  end.

(** The sink's settings, as [init_telemetry] takes them from the configuration. *)
Definition influx_config (c : RuntimeConfig) : InfluxConfig :=
  let te := c_telemetry c in
  mkInflux true (te_influx_url te) (te_influx_org te) (te_influx_bucket te) (te_influx_token te)
    (if is_empty (rm_name (c_runtime c)) then "default" else rm_name (c_runtime c))
    (te_batch_size te) (te_flush_interval_ms te) (te_queue_size te) (te_max_retry_buffer_size te).

(** After [init_telemetry]: the sink [sink_start] left, its thread, its queue, and
    the task when it is configured. *)
Definition telemetering (sink : InfluxSink) (q : SubscriberQueue) (now : Z) (with_task : bool) : Telemetering :=
  mkTelemetering Serving
    (if with_task then mkWorker true AtCheck tt else mkWorker false NotStarted tt)
    (mkSinkThread SinkCheck now q (mkRun sink None [] [] 0 0)).
End Telemetering.

(** ** Facts *)

(** What is left of a worker's run once its flag is cleared. *)
Lemma worker_moves_end {W I} (pass : I → W → W) (inputs : list I) (k : Worker W) :
  wk_active k = false → (2 ≤ length inputs)%nat →
  let k' := foldl (λ k i, worker_move pass i k) k inputs in
  (∃ k'', join k' = Some k'') ∧
  (wk_world k' = wk_world k ∨ ∃ i, i ∈ inputs ∧ wk_world k' = pass i (wk_world k)).
Proof.
  intros Ha Hl k'. destruct inputs as [|i1 [|i2 rest]]; simpl in Hl; [lia..|].
  assert (∀ l k, wk_phase k = NotStarted ∨ wk_phase k = Exited → foldl (λ k i, worker_move pass i k) k l = k) as Hdone.
  { clear. induction l as [|i l IH]; intros k Hk; [done|]. simpl.
    assert (worker_move pass i k = k) as -> by (unfold worker_move; by destruct Hk as [-> | ->]). by apply IH. }
  destruct k as [act ph w]. simpl in Ha. subst act. subst k'. simpl.
  destruct ph; simpl; (rewrite Hdone by (simpl; auto)); simpl.
  - split; [by eexists|by left].
  - split; [by eexists|by left].
  - split; [by eexists|]. right. exists i1. split; [left|done].
  - split; [by eexists|by left].
Qed.

Section Facts.
Context (to_chars : double → string) (runtime_name : string).
Abbreviation moves := (moves to_chars runtime_name).
Abbreviation move := (move to_chars runtime_name).
Abbreviation sink_move := (sink_move to_chars).

Lemma moves_app l1 l2 s : moves (l1 ++ l2) s = match moves l1 s with Some s' => moves l2 s' | None => None end.
Proof. revert s. induction l1 as [|m l1 IH]; intros s; simpl; [done|]. destruct (move m s); [apply IH|done]. Qed.

(** A move of the flush loop is one of [Telemetry.sink_step], or leaves the sink's
    content alone. *)
Lemma sink_move_refines i t :
  (∀ f lines, sk_phase t = SinkPost f lines → run_posting (sk_run t) = Some lines) →
  ((∀ f lines, sk_phase t ≠ SinkPost f lines) → run_posting (sk_run t) = None) →
  sk_run (sink_move i t) = sk_run t ∨ sink_step to_chars (sk_run t) (sk_run (sink_move i t)).
Proof.
  intros Hp Hn. destruct t as [phase last q [s p enq acc d r]]. unfold sink_move. simpl in *.
  destruct phase as [| | |e| |f|f lines|]; simpl; auto.
  - destruct (pop q) as [[e|] q']; simpl; auto.
  - right. unfold run_enqueue, rows_of. simpl.
    pose proof (sink_event to_chars e s p enq acc d r) as Hs. unfold collect_event in Hs.
    destruct (event_row _ _ _); simpl in *; [exact Hs|exact Hs].
  - rewrite Hn in * by done. unfold take_lines, set_sink. simpl. destruct (s_retry_buffer s ++ s_batch s) as [|x l] eqn:El.
    + left. destruct (flushed f last) as [phase' last']. simpl. apply app_eq_nil in El as [Hr Hb].
      destruct s. simpl in *. by subst.
    + right. simpl. eapply sink_take; [|done]. unfold take_lines. by rewrite El.
  - right. rewrite (Hp f lines eq_refl). destruct (flushed f last) as [phase' last']. simpl. apply sink_settle.
Qed.

Lemma settle_keeps lines o s :
  s_batch (settle lines o s) = s_batch s ∧ s_running (settle lines o s) = s_running s ∧
  (s_retry_buffer s = [] → s_retry_buffer (settle lines o s) = [] ∨ s_connected (settle lines o s) = false).
Proof.
  unfold settle. destruct (classify o); simpl; [by auto..|].
  destruct (keep_for_retry _ _ _) as [retry dropped]. simpl. by auto.
Qed.

Lemma enqueue_keeps lines s :
  s_running (enqueue_lines lines s) = s_running s ∧ (lines = [] → enqueue_lines lines s = s).
Proof. destruct lines; split; done || (intros; done). Qed.

Definition stopping (m : MainPc) : bool := match m with StoppingSink | Down => true | _ => false end.

(** What each place in the flush loop says of the sink. *)
Definition phase_ok (m : MainPc) (phase : SinkPhase) (x : SinkRun) : Prop :=
  let s := run_sink x in
  match phase with
  | SinkPost flush lines => run_posting x = Some lines ∧ (flush = None → stopping m = true ∧ s_batch s = [])
  | SinkTake flush => run_posting x = None ∧ (flush = None → stopping m = true)
  | SinkExited | SinkIdle =>
      run_posting x = None ∧ stopping m = true ∧ s_batch s = [] ∧ (s_retry_buffer s = [] ∨ s_connected s = false)
  | SinkCheck | SinkPop | SinkCollect _ | SinkDecide => run_posting x = None
  end.

Record tele_ok (max : Z) (s : Telemetering) : Prop := {
  tele_sink : sink_inv max (sk_run (tm_sink s));
  tele_running : s_running (sink_of (tm_sink s)) = negb (stopping (tm_main s));
  tele_phase : phase_ok (tm_main s) (sk_phase (tm_sink s)) (sk_run (tm_sink s));
  tele_task : stopping (tm_main s) = true → wk_phase (tm_task s) = NotStarted;
  tele_down : tm_main s = Down → sk_phase (tm_sink s) = SinkIdle;
}.

Lemma sink_inv_view max s s' p enq acc d r :
  s_config s' = s_config s → s_batch s' = s_batch s → s_retry_buffer s' = s_retry_buffer s →
  s_total_written s' = s_total_written s → s_total_failed s' = s_total_failed s →
  s_total_rejected s' = s_total_rejected s →
  sink_inv max (mkRun s p enq acc d r) → sink_inv max (mkRun s' p enq acc d r).
Proof.
  intros E1 E2 E3 E4 E5 E6 [Hm Ho Hc Hr Hp Hw Hf Hj Hl]. unfold held_rows in *. simpl in *.
  constructor; unfold held_rows; simpl; rewrite ?E1, ?E2, ?E3, ?E4, ?E5, ?E6; done.
Qed.

(** The task's rows reach the sink only while it is not joined. *)
Lemma tele_ok_task max i s : tele_ok max s → tele_ok max (task_move runtime_name i s).
Proof.
  intros [Hs Hr Hp Ht Hd]. destruct s as [m [act ph []] [phase last q x]]. unfold task_move, worker_move. simpl in *.
  destruct ph; simpl; try (by constructor).
  - constructor; simpl; try done. intros Hm. by specialize (Ht Hm).
  - assert (stopping m = false) as Hm by (destruct (stopping m); [by specialize (Ht eq_refl)|done]).
    constructor; simpl; try done.
    + destruct x. by apply sink_inv_enqueue.
    + unfold sink_of in *. simpl in *. by rewrite (proj1 (enqueue_keeps _ _)).
    + destruct phase; simpl in *; try done; rewrite Hm in *.
      * by destruct Hp as (_ & ? & _).
      * destruct flush; [by destruct Hp|]. by destruct Hp as [_ [? _]].
      * by destruct Hp as (_ & ? & _).
    + by rewrite Hm.
Qed.

Lemma tele_ok_sink max i s :
  tele_ok max s → tele_ok max (mkTelemetering (tm_main s) (tm_task s) (sink_move i (tm_sink s))).
Proof.
  intros [Hs Hr Hp Ht Hd]. destruct s as [m k t]. simpl in *.
  assert (sink_inv max (sk_run (sink_move i t))) as Hs'.
  { destruct (sink_move_refines i t) as [-> |Hstep].
    - intros f lines E. rewrite E in Hp. apply Hp.
    - intros Hn. unfold phase_ok in Hp. destruct (sk_phase t); try done; try apply Hp. by edestruct Hn.
    - done.
    - by eapply sink_inv_step. }
  destruct t as [phase last q [s p enq acc d r]]. unfold sink_of in *. simpl in *.
  destruct phase as [| | |e| |f|f lines|]; simpl in *.
  - by constructor.
  - constructor; simpl; try done; [|by intros E; specialize (Hd E)].
    rewrite Hr. destruct (stopping m) eqn:Em; simpl; [by rewrite Em|done].
  - destruct (pop q) as [[e|] q']; constructor; simpl in *; try done; intros E; by specialize (Hd E).
  - constructor; simpl in *; try done; [|by intros E; specialize (Hd E)].
    unfold sink_of. simpl. by rewrite (proj1 (enqueue_keeps _ _)).
  - constructor; simpl in *; try done; [|by intros E; specialize (Hd E)].
    by destruct (should_flush _ _); simpl.
  - destruct Hp as [Hp Hf]. destruct (s_retry_buffer s ++ s_batch s) as [|y l] eqn:El; simpl in *.
    + destruct f as [now|]; constructor; simpl in *; try done; try (intros E; by specialize (Hd E)). auto.
    + constructor; simpl in *; try done; [|by intros E; specialize (Hd E)]. auto.
  - destruct Hp as [Hp Hf]. destruct (settle_keeps lines (si_answer i) s) as (Hb & Hrun & Hret).
    assert (s_retry_buffer s = []) as Hre by (apply (inv_posting _ _ Hs); by eexists).
    destruct f as [now|]; constructor; simpl in *; try done; try (intros E; by specialize (Hd E));
      try (unfold sink_of; simpl; congruence).
    destruct Hf as [Hm Hb0]; [done|]. rewrite Hb. auto.
  - by constructor.
Qed.

Lemma tele_ok_main max s : tele_ok max s → tele_ok max (main_move s).
Proof.
  intros Hok. pose proof Hok as [Hs Hr Hp Ht Hd]. destruct s as [m k t]. unfold main_move. simpl in *. destruct m.
  - by constructor.
  - destruct k as [act ph []]. unfold join. simpl. destruct ph; simpl; try done.
    all: constructor; simpl; try done;
      [destruct (sk_run t); by eapply sink_inv_view; [..|exact Hs]
      |destruct (sk_phase t); simpl in *; try done; try tauto; destruct flush; naive_solver].
  - destruct t as [phase last q x]. unfold sink_joined. simpl in *. destruct phase; simpl; done || by constructor.
  - done.
Qed.

Lemma tele_ok_move max m s s' : move m s = Some s' → tele_ok max s → tele_ok max s'.
Proof.
  destruct m; simpl; intros E Hok; simplify_eq.
  - by apply tele_ok_task.
  - by apply tele_ok_sink.
  - destruct (sink_push e (tm_sink s)) as [t|] eqn:Ep; [|done]. simpl in E. simplify_eq.
    unfold sink_push in Ep. destruct (push e _) as [[o q]|]; [|done]. simplify_eq. by destruct Hok.
  - by apply tele_ok_main.
Qed.

Lemma tele_ok_moves max l s s' : moves l s = Some s' → tele_ok max s → tele_ok max s'.
Proof.
  revert s. induction l as [|m l IH]; simpl; intros s E Hok; [by simplify_eq|].
  destruct (move m s) as [s1|] eqn:Em; [|done]. eapply IH; [done|]. by eapply tele_ok_move.
Qed.

Lemma tele_ok_start config em h sink em' h' q now with_task :
  sink_start (new_sink config) em h = (true, sink, em', h') →
  tele_ok (in_max_retry_buffer_size config) (telemetering sink q now with_task).
Proof.
  unfold sink_start. simpl. destruct (in_enabled config); [|done]. simpl. case_bool_decide; [done|].
  destruct (subscribe _ _ _ _ _) as [[[sub|] e1] h1]; [|done]. intros [= <- <- <-].
  constructor; simpl; try done.
  apply (sink_inv_view _ (new_sink config)); try done. apply sink_inv_start.
Qed.

(** A schedule of moves brings down what each chosen move brings down by one. *)
Lemma moves_count (Q : nat → Telemetering → Prop) (sel : Move → bool) :
  (∀ m n s, Q n s → ∃ s', move m s = Some s' ∧ Q (if sel m then pred n else n) s') →
  ∀ l n s, Q n s → ∃ s', moves l s = Some s' ∧ Q (n - length (filter (λ m, sel m = true) l))%nat s'.
Proof.
  intros Hstep l. induction l as [|m l IH]; intros n s Hq; simpl; [exists s; by rewrite Nat.sub_0_r|].
  destruct (Hstep m n s Hq) as (s1 & -> & Hq1). destruct (IH _ _ Hq1) as (s2 & -> & Hq2).
  exists s2. split; [done|]. rewrite filter_cons. destruct (sel m) eqn:E.
  - rewrite decide_True by done. simpl. replace (n - S _)%nat with (pred n - length (filter (λ m, sel m = true) l))%nat by lia.
    done.
  - by rewrite decide_False.
Qed.

(** How many moves a thread still needs once its flag is cleared. *)
Definition task_left (phase : Phase) : nat :=
  match phase with AtCheck => 1 | InPass => 2 | NotStarted | Exited => 0 end.

Definition sink_left (phase : SinkPhase) : nat :=
  match phase with
  | SinkPop => 8 | SinkCollect _ => 7 | SinkDecide => 6
  | SinkTake (Some _) => 5 | SinkPost (Some _) _ => 4 | SinkCheck => 3
  | SinkTake None => 2 | SinkPost None _ => 1
  | SinkExited | SinkIdle => 0
  end.

Definition is_task_move (m : Move) : bool := match m with MoveTask _ => true | _ => false end.
Definition is_sink_move (m : Move) : bool := match m with MoveSink _ => true | _ => false end.

Definition ending (s : Telemetering) : Prop :=
  s_running (sink_of (tm_sink s)) = false ∧ stopping (tm_main s) = true.

(** What both stages keep. *)
Definition bounded (s : Telemetering) : Prop := wk_active (tm_task s) = false ∧ 0 < max_size_ (sk_queue (tm_sink s)).

Definition first_stage (n : nat) (s : Telemetering) : Prop :=
  bounded s ∧ (ending s ∨ tm_main s = StoppingTask ∧ (task_left (wk_phase (tm_task s)) ≤ n)%nat).

Definition second_stage (n : nat) (s : Telemetering) : Prop :=
  bounded s ∧ ending s ∧ (tm_main s = Down ∨ (sink_left (sk_phase (tm_sink s)) ≤ n)%nat).

Lemma sink_push_some e t :
  0 < max_size_ (sk_queue t) →
  ∃ q, sink_push e t = Some (mkSinkThread (sk_phase t) (sk_last_flush t) q (sk_run t)) ∧ max_size_ q = max_size_ (sk_queue t).
Proof.
  intros Hm. unfold sink_push, push, queue_size.
  destruct (Z.leb_spec (max_size_ (sk_queue t)) (Z.of_nat (length (queue_ (sk_queue t))))) as [Hl|Hl].
  - destruct (queue_ (sk_queue t)); simpl in Hl; [lia|]. by eexists.
  - by eexists.
Qed.

Lemma sink_move_keeps i t :
  s_running (sink_of (sink_move i t)) = s_running (sink_of t) ∧
  max_size_ (sk_queue (sink_move i t)) = max_size_ (sk_queue t) ∧
  (s_running (sink_of t) = false → (sink_left (sk_phase (sink_move i t)) ≤ pred (sink_left (sk_phase t)))%nat).
Proof.
  destruct t as [phase last q [s p enq acc d r]]. unfold sink_of. simpl. destruct phase as [| | |e| |f|f lines|]; simpl; auto.
  - split_and!; [done..|]. by intros ->.
  - unfold pop. destruct (queue_ q) as [|e rest]; simpl; auto with lia.
  - split_and!; [apply (enqueue_keeps _ s)|done|auto with lia].
  - split_and!; [done..|]. destruct (should_flush _ _); simpl; auto with lia.
  - destruct (s_retry_buffer s ++ s_batch s), f; simpl; auto with lia.
  - pose proof (proj1 (proj2 (settle_keeps lines (si_answer i) s))) as Hr. destruct f; simpl; auto with lia.
Qed.

Lemma task_move_keeps i s :
  let s' := task_move runtime_name i s in
  tm_main s' = tm_main s ∧ wk_active (tm_task s') = wk_active (tm_task s) ∧
  sk_queue (tm_sink s') = sk_queue (tm_sink s) ∧ sk_phase (tm_sink s') = sk_phase (tm_sink s) ∧
  s_running (sink_of (tm_sink s')) = s_running (sink_of (tm_sink s)) ∧
  (wk_active (tm_task s) = false → (task_left (wk_phase (tm_task s')) ≤ pred (task_left (wk_phase (tm_task s))))%nat).
Proof.
  destruct s as [m [act ph []] [phase last q x]]. unfold task_move, sink_of. simpl.
  destruct ph; simpl; split_and!; try done; try lia; try (by intros ->).
  apply (enqueue_keeps _ (run_sink x)).
Qed.

Lemma main_move_bounded s : bounded s → bounded (main_move s).
Proof.
  intros [Ha Hm]. destruct s as [m [act ph []] [phase last q x]]. unfold main_move, bounded in *. simpl in *.
  destruct m, ph, phase; done.
Qed.

Lemma main_move_ending s : ending s → ending (main_move s).
Proof.
  intros [Hr Hm]. destruct s as [m [act ph []] [phase last q x]]. unfold main_move, ending in *. simpl in *.
  destruct m, phase; done.
Qed.

Lemma bounded_move m s : bounded s → ∃ s', move m s = Some s' ∧ bounded s' ∧ (ending s → ending s').
Proof.
  intros Hb. pose proof Hb as [Ha Hm]. destruct m; simpl.
  - eexists. split; [done|]. destruct (task_move_keeps i s) as (E1 & E2 & E3 & _ & E5 & _).
    unfold bounded, ending. by rewrite E1, E2, E3, E5.
  - eexists. split; [done|]. destruct (sink_move_keeps i (tm_sink s)) as (E1 & E2 & _).
    unfold bounded, ending. simpl. by rewrite E1, E2.
  - destruct (sink_push_some e (tm_sink s) Hm) as (q & -> & Eq). simpl. eexists. split; [done|].
    unfold bounded, ending, sink_of. simpl. by rewrite Eq.
  - eexists. split; [done|]. auto using main_move_bounded, main_move_ending.
Qed.

Lemma first_stage_move m n s :
  first_stage n s → ∃ s', move m s = Some s' ∧ first_stage (if is_task_move m then pred n else n) s'.
Proof.
  intros [Hb Hc]. destruct (bounded_move m s Hb) as (s' & Hm & Hb' & He). exists s'. split; [done|]. split; [done|].
  destruct Hc as [Hc|[Hs Hn]]; [auto|]. destruct m; simpl in Hm |- *.
  - injection Hm as <-. destruct (task_move_keeps i s) as (E1 & _ & _ & _ & _ & E6). specialize (E6 (proj1 Hb)).
    right. rewrite E1. split; [done|lia].
  - injection Hm as <-. by right.
  - destruct (sink_push e (tm_sink s)); [|done]. injection Hm as <-. by right.
  - injection Hm as <-. destruct s as [m [act ph []] t]. unfold main_move. simpl in *. subst m.
    destruct ph; simpl; auto; by left.
Qed.

Lemma second_stage_move m n s :
  second_stage n s → ∃ s', move m s = Some s' ∧ second_stage (if is_sink_move m then pred n else n) s'.
Proof.
  intros (Hb & He & Hc). destruct (bounded_move m s Hb) as (s' & Hm & Hb' & He'). exists s'. split; [done|].
  split_and!; [done|auto|]. destruct m; simpl in Hm |- *.
  - injection Hm as <-. destruct (task_move_keeps i s) as (E1 & _ & _ & E4 & _). by rewrite E1, E4.
  - injection Hm as <-. simpl. destruct (sink_move_keeps i (tm_sink s)) as (_ & _ & E3). specialize (E3 (proj1 He)).
    destruct Hc as [Hc|Hc]; [by left|right; lia].
  - destruct (sink_push_some e (tm_sink s) (proj2 Hb)) as (q & Eq & _). rewrite Eq in Hm. simpl in Hm. injection Hm as <-.
    done.
  - injection Hm as <-. destruct s as [m k [phase last q x]]. unfold main_move. simpl in *.
    destruct He as [_ Hm]. destruct m; simpl in *; auto; try done.
    destruct phase; simpl; auto.
Qed.
End Facts.

(** The queue a started sink reads is bounded and not of size zero, whatever the
    configuration says, and no thread starts without telemetry and a token. *)
Lemma started_sink_queue (c : RuntimeConfig) em em' h h' sink :
  sink_start (new_sink (influx_config c)) em h = (true, sink, em', h') → 0 < default_queue_size_ em →
  te_influx_token (c_telemetry c) ≠ "" ∧
  ∃ q, h' !! length h = Some q ∧ 0 < max_size_ q ∧ queue_ q = [] ∧
       s_subscription sink = Some (mkSubscription (next_subscription_id_ em) (Some (length h)) true).
Proof.
  unfold sink_start, subscribe. simpl. case_bool_decide; [done|]. destruct (at_capacity em); [done|].
  intros [= <- <- <-] Hd. split; [done|]. eexists. split; [by apply list_lookup_middle|]. split_and!; [|done|done].
  simpl. by destruct (Z.ltb_spec 0 (te_queue_size (c_telemetry c))).
Qed.

(** ** Theorems *)

(** Stopping the poller ends it: once [stop_polling] has cleared the flag, the
    thread, wherever it was, makes at most the poll it had begun, reaches its end
    within two moves, and is then joined for good; the cache is as the last poll
    left it, and the poller can be started again. *)
Theorem polling_stops (k : Worker StateCache) (inputs : list PollInput) :
  (2 ≤ length inputs)%nat →
  let k' := foldl (λ k i, worker_move polling_pass i k) (request_stop k) inputs in
  (wk_world k' = wk_world k ∨ ∃ i, i ∈ inputs ∧ wk_world k' = polling_pass i (wk_world k)) ∧
  ∃ joined, join k' = Some joined ∧ wk_phase joined = NotStarted ∧ wk_world joined = wk_world k' ∧
            (initialized_ (wk_world joined) = true → start_polling joined = Some (mkWorker true AtCheck (wk_world joined))).
Proof.
  intros Hl k'. destruct (worker_moves_end polling_pass inputs (request_stop k) eq_refl Hl) as [[joined Hj] Hw].
  split; [exact Hw|]. exists joined. split; [exact Hj|].
  assert (wk_active k' = false) as Ha.
  { subst k'. assert (∀ (l : list PollInput) (k0 : Worker StateCache), wk_active k0 = false →
      wk_active (foldl (λ k i, worker_move polling_pass i k) k0 l) = false) as Hgen; [|by apply Hgen].
    clear. induction l as [|i l IH]; intros k0 H0; [done|]. simpl. apply IH. unfold worker_move. by destruct (wk_phase k0). }
  unfold join in Hj. fold k' in Hj. destruct k' as [act ph c]. simpl in *. subst act.
  destruct ph; simplify_eq; simpl; (split_and!; [done..|]); unfold start_polling; simpl; by intros ->.
Qed.

(** A poll and the sleep after it never take less than the interval, so polls
    start at least an interval apart. *)
Lemma polls_spaced poll_interval_ms duration_ns :
  0 ≤ duration_ns → poll_interval_ms * 1000000 ≤ duration_ns + default 0 (sleep_time poll_interval_ms duration_ns) * 1000000.
Proof.
  intros Hd. unfold sleep_time, ms_of_ns. pose proof (Z.mul_quot_le duration_ns 1000000 Hd ltac:(lia)) as Hq.
  destruct (Z.ltb_spec 0 (poll_interval_ms - duration_ns ÷ 1000000)); simpl; lia.
Qed.

(** C27. Shutting telemetry down returns: after the main thread asks for it, however
    the threads and the emitting ones are scheduled, two moves of the health task
    and then eight of the flush loop are enough for both to be joined. *)
Theorem telemetry_stop_returns (to_chars : double → string) (runtime_name : string) (s : Telemetering) (a b : list Move) :
  tm_main s = Serving → 0 < max_size_ (sk_queue (tm_sink s)) →
  (2 ≤ length (filter (λ m, is_task_move m = true) a))%nat →
  (8 ≤ length (filter (λ m, is_sink_move m = true) b))%nat →
  ∃ s', moves to_chars runtime_name (MoveMain :: a ++ MoveMain :: b ++ [MoveMain]) s = Some s' ∧ tm_main s' = Down.
Proof.
  intros Hs Hm Ha Hb. simpl. unfold main_move. rewrite Hs.
  edestruct (moves_count to_chars runtime_name first_stage is_task_move (first_stage_move to_chars runtime_name) a 2
    (mkTelemetering StoppingTask (request_stop (tm_task s)) (tm_sink s))) as (s1 & E1 & Hb1 & H1).
  { split; [done|]. right. split; [done|]. simpl. destruct (wk_phase (tm_task s)); simpl; lia. }
  rewrite moves_app, E1. simpl.
  assert (second_stage 8 (main_move s1)) as H2.
  { assert (ending (main_move s1)) as He.
    { destruct H1 as [He|[Em Hl]]; [by apply main_move_ending|]. unfold main_move, join. rewrite Em.
      destruct s1 as [m [act ph []] t]. simpl in *. by destruct ph; simpl in *; try lia. }
    split_and!; [by apply main_move_bounded|done|]. right.
    destruct (sk_phase _) as [| | | | |[]|[]|]; simpl; lia. }
  destruct (moves_count to_chars runtime_name second_stage is_sink_move (second_stage_move to_chars runtime_name) b 8 _ H2)
    as (s2 & E2 & Hb2 & [Hr2 Hst] & H3).
  rewrite moves_app, E2. simpl. eexists. split; [done|].
  destruct s2 as [m k [phase last q x]]. unfold main_move. simpl in *.
  destruct H3 as [-> |Hl]; [done|]. destruct m; try done. destruct phase as [| | | | |[]|[]|]; simpl in *; done || lia.
Qed.

(** C28. What shutting telemetry down leaves: once both threads are joined, however
    they, the emitter and the server's answers interleaved before, no row is in a
    batch or being posted; every row either thread handed to the sink was accepted
    by the server or counted as failed, except those that the last post, which
    failed transiently, without a connection or with a 429 or 5xx answer, left in
    the retry buffer; what was accepted and what is left keeps the order it was
    handed over in. *)
Theorem shutdown_accounts_for_rows (to_chars : double → string) (runtime_name : string) (config : InfluxConfig)
    (em em' : EventEmitter) (h h' : Queues) (sink : InfluxSink) (q : SubscriberQueue) (now : Z) (with_task : bool)
    (l : list Move) (s : Telemetering) :
  sink_start (new_sink config) em h = (true, sink, em', h') →
  moves to_chars runtime_name l (telemetering sink q now with_task) = Some s → tm_main s = Down →
  Z.of_nat (length (run_enqueued (sk_run (tm_sink s)))) ≤ uint64_max →
  let x := sk_run (tm_sink s) in
  wk_phase (tm_task s) = NotStarted ∧ sk_phase (tm_sink s) = SinkIdle ∧
  s_batch (run_sink x) = [] ∧ run_posting x = None ∧
  (s_retry_buffer (run_sink x) = [] ∨ s_connected (run_sink x) = false) ∧
  Z.of_nat (length (run_enqueued x)) =
    s_total_written (run_sink x) + s_total_failed (run_sink x) + Z.of_nat (length (s_retry_buffer (run_sink x))) ∧
  sublist (run_accepted x ++ s_retry_buffer (run_sink x)) (run_enqueued x).
Proof.
  intros Hstart Hl Hd Hmax x.
  destruct (tele_ok_moves to_chars runtime_name (in_max_retry_buffer_size config) l _ s Hl) as [Hs Hr Hp Ht Hi];
    [by eapply tele_ok_start|].
  rewrite (Hi Hd) in Hp. destruct Hp as (Hpo & _ & Hb & Hret). fold x in Hs, Hpo, Hb, Hret, Hmax.
  destruct Hs as [_ Ho Hc _ _ Hw Hf _ Hle]. unfold held_rows in *. rewrite Hpo, Hb in *. simpl in *.
  rewrite app_nil_r in *. rewrite Hw, Hf, !to_uint64_id by (unfold in_uint64; lia).
  split_and!; try done; try lia; [apply Ht; by rewrite Hd|auto..].
Qed.

(** ** A sample shutdown *)

Module WorkersBench.
Definition emitter : EventEmitter := new_emitter 100 32.
Definition started : bool * InfluxSink * EventEmitter * Queues := sink_start (new_sink sample_influx) emitter [].
Definition queue : SubscriberQueue := nth 0 started.2 (new_queue 1 "").
Definition serving : Telemetering := telemetering started.1.1.2 queue 0 true.
Definition answer (o : PostOutcome) : Move := MoveSink (mkSinkInput 5 o).
Definition wake : Move := MoveTask (mkSnapshot [] 5).
Definition ok : Move := answer (Answered 204).

(** One event is collected, the next still waits when the stop comes. *)
Definition schedule : list Move :=
  [MovePush ev1; MovePush ev2; ok; ok; ok; MoveMain; wake; wake; MoveMain] ++ replicate 8 ok ++ [MoveMain].
Definition stopped : option Telemetering := moves (λ _, "") "r" schedule serving.
End WorkersBench.

Example polling_stops_witness :
  let k := mkWorker true InPass (new_cache false false) in
  let i := mkPollInput ∅ 0 0 false in
  ∃ joined, join (foldl (λ k i, worker_move polling_pass i k) (request_stop k) [i; i]) = Some joined ∧
            wk_phase joined = NotStarted.
Proof.
  destruct (polling_stops (mkWorker true InPass (new_cache false false)) [mkPollInput ∅ 0 0 false; mkPollInput ∅ 0 0 false])
    as (_ & joined & Hj & Hp & _); [simpl; lia|]. by exists joined.
Defined.

Example telemetry_stop_returns_witness :
  ∃ s', moves (λ _, "") "r" (MoveMain :: [WorkersBench.wake; WorkersBench.wake] ++ MoveMain ::
          replicate 8 WorkersBench.ok ++ [MoveMain]) WorkersBench.serving = Some s' ∧ tm_main s' = Down.
Proof. apply telemetry_stop_returns; [reflexivity|vm_compute; reflexivity|simpl; lia|simpl; lia]. Defined.

Example shutdown_accounts_for_rows_witness :
  ∃ s, WorkersBench.stopped = Some s ∧ run_enqueued (sk_run (tm_sink s)) = run_accepted (sk_run (tm_sink s)) ∧
       s_batch (run_sink (sk_run (tm_sink s))) = [].
Proof.
  assert (∃ s, WorkersBench.stopped = Some s ∧ tm_main s = Down ∧ length (run_enqueued (sk_run (tm_sink s))) = 1%nat ∧
    run_enqueued (sk_run (tm_sink s)) = run_accepted (sk_run (tm_sink s))) as (s & Hs & Hd & Hl & He)
    by (vm_compute; by eexists).
  exists s. split; [exact Hs|]. split; [exact He|].
  destruct (WorkersBench.started) as [[[ok sink] em'] h'] eqn:Est.
  assert (ok = true) as -> by (vm_compute in Est; congruence).
  eapply (shutdown_accounts_for_rows (λ _, "") "r" sample_influx WorkersBench.emitter em' [] h'
    WorkersBench.started.1.1.2 WorkersBench.queue 0 true WorkersBench.schedule s); [|exact Hs|exact Hd|].
  - change (WorkersBench.started = (true, WorkersBench.started.1.1.2, em', h')). by rewrite Est.
  - rewrite Hl. vm_compute. discriminate.
Defined.

(** [stop] is documented to flush the remaining events, but the loop leaves as
    soon as the flag is cleared: what still waits in the subscriber queue is
    neither written nor counted. *)
Lemma stop_drops_queued_events :
  ∃ s, WorkersBench.stopped = Some s ∧ tm_main s = Down ∧ length (queue_ (sk_queue (tm_sink s))) = 1%nat ∧
       s_total_failed (run_sink (sk_run (tm_sink s))) = 0 ∧ s_total_written (run_sink (sk_run (tm_sink s))) = 1.
Proof. vm_compute. by eexists. Qed.
