(* ===== verification/Logging.v ===== *)
(** * The logger ([core/logging/logger.cpp])

    Levels and the threshold, the name a configuration gives it, and the line a
    message becomes.  The clock, its local time text and the stream are arguments:
    a line is the text written, and whether the stream is flushed after it. *)

From S2P Require Import Prelude Config.

Inductive Level := LVL_DEBUG | LVL_INFO | LVL_WARN | LVL_ERROR | LVL_NONE.

#[export] Instance Level_eq_dec : EqDecision Level.
Proof. solve_decision. Defined.

(** The enumerators' values, which [<] and [>=] compare. *)
Definition level_value (l : Level) : Z :=
  match l with LVL_DEBUG => 0 | LVL_INFO => 1 | LVL_WARN => 2 | LVL_ERROR => 3 | LVL_NONE => 4 end.

(** The threshold before [set_level]. *)
Definition default_threshold : Level := LVL_INFO.

Definition string_to_level (level_str : string) : Level :=
  let s := string_toupper level_str in
  if bool_decide (s = "DEBUG") then LVL_DEBUG
  else if bool_decide (s = "INFO") then LVL_INFO
  else if bool_decide (s = "WARN") then LVL_WARN
  else if bool_decide (s = "ERROR") then LVL_ERROR
  else LVL_INFO.

Definition level_tag (l : Level) : string :=
  match l with
  | LVL_DEBUG => " [DEBUG] "
  | LVL_INFO => " [INFO]  "
  | LVL_WARN => " [WARN]  "
  | LVL_ERROR => " [ERROR] "
  | LVL_NONE => ""
  end.

(** [std::setfill('0') << std::setw(3)]. *)
Definition setw3 (z : Z) : string :=
  let s := to_string z in
  (if (String.length s <? 3)%nat then String.concat "" (replicate (3 - String.length s) "0") else "") +:+ s.

Definition milliseconds (now_ms : Z) : Z := Z.rem now_ms 1000.

(** [log]: the line and whether it is flushed, or nothing. *)
Definition log (threshold level : Level) (time_text : string) (now_ms : Z) (message : string)
    : option (string * bool) :=
  if level_value level <? level_value threshold then None
  else Some ("[" +:+ time_text +:+ "." +:+ setw3 (milliseconds now_ms) +:+ "]" +:+ level_tag level +:+ message +:+ char_string LF,
             level_value LVL_ERROR <=? level_value level).

(** ** What a configuration's level prints *)

(** The names [validate_config] accepts name the levels in order: each prints the
    messages at or above the level it names and no other, an error always, flushed. *)
Lemma configured_level_prints level :
  validate_logging level = Ok tt →
  ∃ named, (level, named) ∈ [("debug", LVL_DEBUG); ("info", LVL_INFO); ("warn", LVL_WARN); ("error", LVL_ERROR)] ∧
    string_to_level level = named ∧
    (∀ l t ms m, is_Some (log (string_to_level level) l t ms m) ↔ level_value named ≤ level_value l) ∧
    (∀ t ms m, ∃ line, log (string_to_level level) LVL_ERROR t ms m = Some (line, true)).
Proof.
  rewrite validate_logging_Ok. intros Hl.
  assert (∃ named, (level, named) ∈ [("debug", LVL_DEBUG); ("info", LVL_INFO); ("warn", LVL_WARN); ("error", LVL_ERROR)] ∧
    string_to_level level = named) as (named & Hin & Hn).
  { rewrite !elem_of_cons, elem_of_nil in Hl. destruct Hl as [-> |[-> |[-> |[-> |[]]]]]; eexists;
      (split; [|vm_compute; reflexivity]); rewrite !elem_of_cons; auto. }
  exists named. split_and!; [done|done| |].
  - intros l t ms m. rewrite Hn. unfold log. destruct (Z.ltb_spec (level_value l) (level_value named)).
    + split; [by intros []|lia].
    + split; [done|]. intros _. by eexists.
  - intros t ms m. rewrite Hn. unfold log. destruct named; simpl; try (by eexists).
    rewrite !elem_of_cons, elem_of_nil in Hin. naive_solver.
Qed.

(** A millisecond part below 1000 is printed in three places. *)
Lemma setw3_length z : 0 ≤ z < 1000 → String.length (setw3 z) = 3%nat.
Proof.
  intros Hz. assert (forallb (λ z, (String.length (setw3 z) =? 3)%nat) (seqZ 0 1000) = true) as Hall by (vm_compute; reflexivity).
  rewrite forallb_forall in Hall. apply Nat.eqb_eq, (Hall z), list_elem_of_In, elem_of_seqZ. lia.
Qed.

(** Any other name falls back to the default, not to silence. *)
Lemma unknown_level_is_info level :
  string_toupper level ∉ ["DEBUG"; "INFO"; "WARN"; "ERROR"] → string_to_level level = default_threshold.
Proof.
  intros Hn. unfold string_to_level. rewrite !bool_decide_false; [done|intros E; apply Hn; rewrite E; set_solver..].
Qed.
