(* ===== verification/JournalWriter.v ===== *)
(** * The run journal's writer thread ([core/runs/run_journal.cpp])

    [RunJournal::writer_loop] as a thread beside the journal of [RunJournal.v]: it
    waits for a queued event or for the stop, takes the oldest event off the queue,
    and persists it under the journal's lock.  The destructor sets the stop and joins
    the thread.  A move that throws ends the process, since nothing on the thread
    catches it: [None]. *)

From S2P Require Import Prelude Json RunJournal.

Inductive WriterPhase := WriterWaits | WriterHolds (item : QueuedEvent) | WriterExited.

Record JournalWriter := mkWriter {
  jw_stop : bool;                  (* writer_stop_ *)
  jw_phase : WriterPhase;
  jw_journal : RunJournal;
}.

(** What a move reads: the clock of the append, and the file system's answers. *)
Record WriteInput := mkWriteInput { wi_now1 : Z; wi_now2 : Z; wi_io : Io }.

(** The events the thread still owes. *)
Definition pending (w : JournalWriter) : list QueuedEvent :=
  match jw_phase w with WriterHolds item => [item] | _ => [] end ++ j_fault_queue (jw_journal w).

Definition destroy (w : JournalWriter) : JournalWriter := mkWriter true (jw_phase w) (jw_journal w).

Section Writer.
Context `{JsonLines} (cast : double → Z).

Definition writer_move (i : WriteInput) (w : JournalWriter) : option JournalWriter :=
  match jw_phase w with
  | WriterWaits =>
      match writer_pop (jw_journal w) with
      | Some (item, j) => Some (mkWriter (jw_stop w) (WriterHolds item) j)
      | None => Some (if jw_stop w then mkWriter true WriterExited (jw_journal w) else w)
      end
  | WriterHolds item =>
      match writer_persist cast item (wi_now1 i) (wi_now2 i) (wi_io i) (jw_journal w) with
      | (Some _, j) => Some (mkWriter (jw_stop w) WriterWaits j)
      | (None, _) => None
      end
  | WriterExited => Some w
  end.

Fixpoint writer_run (inputs : list WriteInput) (w : JournalWriter) : option JournalWriter :=
  match inputs with
  | [] => Some w
  | i :: rest => match writer_move i w with Some w' => writer_run rest w' | None => None end
  end.

(** An event the printer and the reader handle, and an append that meets no failure. *)
Definition item_ok (q : QueuedEvent) : Prop :=
  in_uint64 (qe_occurred_at q) ∧ canonical (qe_payload q) = true ∧ text_ok (qe_type q) = true ∧
  printable text_ok (qe_payload q) = true.

Definition input_ok (i : WriteInput) : Prop := in_uint64 (wi_now1 i) ∧ in_uint64 (wi_now2 i) ∧ wi_io i = good_io.

(** The journal's record of a queued event. *)
Definition records (id : string) (q : QueuedEvent) (e : RunEvent) : Prop :=
  ev_run_id e = id ∧ ev_category e = qe_category q ∧ ev_type e = qe_type q ∧
  ev_payload e = (if is_object (qe_payload q) then qe_payload q else JObject []) ∧
  (qe_occurred_at q ≠ 0 → ev_occurred_at e = qe_occurred_at q).

(** How many moves the thread needs to its end. *)
Definition moves_left (w : JournalWriter) : nat :=
  2 * length (j_fault_queue (jw_journal w)) +
  match jw_phase w with WriterHolds _ => 2 | WriterWaits => 1 | WriterExited => 0 end.

(** ** Facts *)

Lemma good_append_Ok id category type payload occurred now1 now2 j r :
  (append_event_locked cast id category type payload occurred now1 now2 good_io j).1 = Some r → ∃ e, r = Ok e.
Proof.
  unfold append_event_locked, append_line. simpl. destruct (line_dump _); simpl; [|done].
  rewrite andb_false_r. simpl. intros [= <-]. by eexists.
Qed.

Lemma persist_good id item i j :
  j_open_run_id j = Some id → text_ok id = true → seq_ok cast j id → next_sequence cast id j < uint64_max →
  item_ok item → input_ok i →
  ∃ j' e, writer_persist cast item (wi_now1 i) (wi_now2 i) (wi_io i) j = (Some tt, j') ∧
    j_fault_queue j' = j_fault_queue j ∧ j_open_run_id j' = Some id ∧ seq_ok cast j' id ∧
    next_sequence cast id j' = next_sequence cast id j + 1 ∧
    stream cast j' id = stream cast j id ++ [e] ∧ records id item e.
Proof.
  intros Hid Htid Hj Hlt (Ho & Hc & Ht & Hp) (H1 & H2 & Hio). unfold writer_persist. rewrite Hid, Hio.
  pose proof (append_event_no_throw cast id (qe_category item) (qe_type item) (qe_payload item) (qe_occurred_at item)
    (wi_now1 i) (wi_now2 i) good_io j Htid Ht Hp) as [r Hr].
  pose proof (good_append_Ok _ _ _ _ _ _ _ _ _ Hr) as [e0 ->].
  destruct (append_event_locked _ _ _ _ _ _ _ _ _ _) as [res j'] eqn:Ha. simpl in Hr. subst res.
  assert (clean_failure cast good_io (j_events j !! id)) as Hclean by (by intros part).
  destruct (append_event_frame _ _ _ _ _ _ _ _ _ _ _ _ Ha) as (files & seqs & Ej & _).
  destruct (append_event_cases cast _ _ _ _ _ _ _ _ _ _ _ Hj Hlt Ho H1 H2 Hc Hclean Ha) as [(_ & _ & Hn)|(Hst & Hns & _)];
    [by destruct (Hn e0)|].
  destruct (next_sequence_fresh cast j id Hj) as [Hpos _].
  eexists j', _. split; [done|]. rewrite Ej at 1 2. split_and!; [done|done| | |exact Hst|].
  - by eapply seq_ok_append.
  - unfold next_sequence at 1. rewrite Hns. simpl. by rewrite to_uint64_id by (unfold in_uint64; lia).
  - unfold records, built_event. simpl. split_and!; [done..|]. intros Hne. by rewrite (proj2 (Z.eqb_neq _ _) Hne).
Qed.
End Writer.

Lemma writer_pop_view j item j' :
  writer_pop j = Some (item, j') →
  ∃ rest, j_fault_queue j = item :: rest ∧ j' = with_queue rest (j_events_dropped j) j.
Proof. unfold writer_pop. destruct (j_fault_queue j) as [|x rest]; [done|]. intros [= <- <-]. by exists rest. Qed.

(** A stopped writer, move by move. *)
Lemma writer_drains `{JsonLines} cast id inputs v :
  text_ok id = true → Forall input_ok inputs →
  j_open_run_id (jw_journal v) = Some id → seq_ok cast (jw_journal v) id →
  next_sequence cast id (jw_journal v) + Z.of_nat (length (pending v)) ≤ uint64_max →
  Forall item_ok (pending v) → (moves_left v ≤ length inputs)%nat →
  (jw_phase v = WriterExited → j_fault_queue (jw_journal v) = []) → jw_stop v = true →
  ∃ w' es, writer_run cast inputs v = Some w' ∧ jw_phase w' = WriterExited ∧ pending w' = [] ∧
    stream cast (jw_journal w') id = stream cast (jw_journal v) id ++ es ∧ Forall2 (records id) (pending v) es ∧
    StronglySorted Z.lt (ev_sequence <$> stream cast (jw_journal w') id).
Proof.
  intros Htid Hi. revert v. induction Hi as [|i inputs Hin Hi IH]; intros v Hid Hj Hlt Hq Hleft Hdone Hstop.
  - unfold moves_left in Hleft. destruct (jw_phase v) eqn:Ep; simpl in Hleft; [lia..|].
    exists v, []. unfold pending. rewrite Ep, Hdone by done. simpl.
    split_and!; try done; [by rewrite app_nil_r|apply Hj].
  - destruct v as [stop phase j]. simpl in *. subst stop. unfold writer_move, moves_left, pending in *. simpl in *.
    destruct phase as [|item|]; simpl in *.
    + destruct (writer_pop j) as [[item j']|] eqn:Ep.
      * apply writer_pop_view in Ep as (rest & Eq & ->). rewrite Eq in *. simpl in *.
        apply (IH (mkWriter true (WriterHolds item) (with_queue rest (j_events_dropped j) j))); simpl; try done; [|lia].
        by apply (seq_ok_same cast j).
      * unfold writer_pop in Ep. destruct (j_fault_queue j) eqn:Eq; [|done].
        specialize (IH (mkWriter true WriterExited j)). simpl in IH. rewrite Eq in IH. simpl in *. apply IH; done || lia.
    + apply Forall_cons in Hq as [Hitem Hq].
      destruct (persist_good cast id item i j Hid Htid Hj ltac:(lia) Hitem Hin)
        as (j' & e & -> & Hqj & Hid' & Hj' & Hn & Hst & He).
      destruct (IH (mkWriter true WriterWaits j')) as (w' & es & Hr & Hp' & Hpe & Hst' & Hes & Hs);
        unfold pending, moves_left; simpl; rewrite ?Hqj, ?Hn; try done; try lia.
      exists w', (e :: es). unfold pending in Hes. simpl in Hes, Hst'. rewrite Hqj in Hes. rewrite Hst, <- app_assoc in Hst'.
      split_and!; try done. by constructor.
    + apply (IH (mkWriter true WriterExited j)); try done. simpl. rewrite Hdone by done. simpl. lia.
Qed.

(** An event that cannot be printed into a run's stream. *)
Definition unprintable `{JsonLines} (id : string) (q : QueuedEvent) : Prop :=
  text_ok id && text_ok (qe_type q) && printable text_ok (qe_payload q) = false.

Lemma persist_throws `{JsonLines} cast item i j j' :
  writer_persist cast item (wi_now1 i) (wi_now2 i) (wi_io i) j = (None, j') →
  ∃ id, j_open_run_id j = Some id ∧ unprintable id item.
Proof.
  unfold writer_persist. destruct (j_open_run_id j) as [id|]; [|done].
  pose proof (append_event_no_throw cast id (qe_category item) (qe_type item) (qe_payload item) (qe_occurred_at item)
    (wi_now1 i) (wi_now2 i) (wi_io i) j) as Hok.
  destruct (append_event_locked _ _ _ _ _ _ _ _ _ _) as [[r|] j1]; [done|]. intros _. exists id. split; [done|].
  unfold unprintable. destruct (text_ok id); [|done]. destruct (text_ok (qe_type item)); [|done]. simpl.
  apply not_true_is_false. intros Hp. by destruct (Hok eq_refl eq_refl Hp).
Qed.

Lemma persist_keeps `{JsonLines} cast item i j res j' :
  writer_persist cast item (wi_now1 i) (wi_now2 i) (wi_io i) j = (res, j') →
  j_fault_queue j' = j_fault_queue j ∧ j_open_run_id j' = j_open_run_id j.
Proof.
  unfold writer_persist. destruct (j_open_run_id j) as [id|] eqn:Hid; [|intros [= <- <-]; by case_bool_decide].
  destruct (append_event_locked _ _ _ _ _ _ _ _ _ _) as [r j1] eqn:Ha. intros [= <- <-].
  apply append_event_frame in Ha as (files & seqs & -> & _). done.
Qed.

(** A stopped writer gets to its end with nothing owed, or a print throws. *)
Lemma writer_ends `{JsonLines} cast inputs v :
  (moves_left v ≤ length inputs)%nat → (jw_phase v = WriterExited → j_fault_queue (jw_journal v) = []) →
  jw_stop v = true →
  match writer_run cast inputs v with
  | Some w' => jw_phase w' = WriterExited ∧ pending w' = []
  | None => ∃ id item, j_open_run_id (jw_journal v) = Some id ∧ item ∈ pending v ∧ unprintable id item
  end.
Proof.
  revert v. induction inputs as [|i inputs IH]; intros [stop phase j] Hleft Hdone Hstop; simpl in *; subst stop.
  { unfold moves_left in Hleft. unfold pending. destruct phase; simpl in *; [lia..|]. by rewrite Hdone. }
  unfold writer_move, moves_left, pending in *. destruct phase as [|item|]; simpl in *.
  - unfold writer_pop. destruct (j_fault_queue j) as [|item rest] eqn:Eq.
    + specialize (IH (mkWriter true WriterExited j)). simpl in *. rewrite Eq in IH. apply IH; [simpl; lia|done|done].
    + specialize (IH (mkWriter true (WriterHolds item) (with_queue rest (j_events_dropped j) j))). simpl in *.
      apply IH; [lia|done|done].
  - destruct (writer_persist cast item (wi_now1 i) (wi_now2 i) (wi_io i) j) as [[[]|] j'] eqn:Ep.
    + apply persist_keeps in Ep as [Eq Ei]. specialize (IH (mkWriter true WriterWaits j')). simpl in *.
      rewrite Eq, Ei in IH. specialize (IH ltac:(lia) ltac:(done) eq_refl).
      destruct (writer_run cast inputs _); [done|]. destruct IH as (id & it & ? & ? & ?). exists id, it.
      split_and!; [done|by right|done].
    + apply persist_throws in Ep as (id & Hid & Hun). exists id, item. split_and!; [done|left|done].
  - specialize (IH (mkWriter true WriterExited j)). simpl in *. rewrite Hdone in IH |- * by done. apply IH; [simpl; lia|done|done].
Qed.

(** ** Theorems *)

(** C32. Closing the journal leaves nothing queued: once the destructor has asked the
    writer to stop, whatever the clock and the files answer, twice as many moves
    as events are queued, and two more, take it to its end with nothing queued or
    in hand; unless a run is open and one of those events cannot be printed into its
    stream, and then what the printer throws has ended the process.  With a run
    open, events that can be printed and files that accept what is written, no
    event is lost: the run's stream has by then grown by exactly the events that
    were queued or in hand, in that order, with rising sequences.  (Without an open
    run the writer has nowhere to put them, and a failed write is logged.) *)
Theorem closing_drains_the_queue `{JsonLines} (cast : double → Z) (inputs : list WriteInput) (w : JournalWriter) :
  jw_phase w ≠ WriterExited → (2 * length (j_fault_queue (jw_journal w)) + 2 ≤ length inputs)%nat →
  match writer_run cast inputs (destroy w) with
  | Some w' => jw_phase w' = WriterExited ∧ pending w' = []
  | None => ∃ id item, j_open_run_id (jw_journal w) = Some id ∧ item ∈ pending w ∧ unprintable id item
  end ∧
  ∀ id, j_open_run_id (jw_journal w) = Some id → text_ok id = true → seq_ok cast (jw_journal w) id →
    next_sequence cast id (jw_journal w) + Z.of_nat (length (pending w)) ≤ uint64_max →
    Forall item_ok (pending w) → Forall input_ok inputs →
    ∃ w' es, writer_run cast inputs (destroy w) = Some w' ∧
      stream cast (jw_journal w') id = stream cast (jw_journal w) id ++ es ∧ Forall2 (records id) (pending w) es ∧
      StronglySorted Z.lt (ev_sequence <$> stream cast (jw_journal w') id).
Proof.
  intros Hx Hlen.
  assert (jw_phase (destroy w) = WriterExited → j_fault_queue (jw_journal (destroy w)) = []) as Hdone by done.
  assert (moves_left (destroy w) ≤ length inputs)%nat as Hleft.
  { unfold moves_left. simpl. destruct (jw_phase w); lia. }
  split; [by apply (writer_ends cast inputs (destroy w))|]. intros id Hid Htid Hj Hlt Hq Hi.
  destruct (writer_drains cast id inputs (destroy w)) as (w' & es & ? & _ & _ & ?); try done. by exists w', es.
Qed.

(** A fault whose text the printer refuses takes the runtime down.  The engine hands
    the text of an exception to [enqueue_fault] as it is; the writer prints it with
    the strict [dump()], and what that throws leaves the thread. *)
Theorem raw_fault_ends_process `{JsonLines} (cast : double → Z) (id locus message : string) (occurred : Z)
    (i1 i2 : WriteInput) (stop : bool) (j : RunJournal) :
  j_open_run_id j = Some id → j_fault_queue j = [] → text_ok message = false → io_open_ok (wi_io i2) = true →
  writer_run cast [i1; i2] (mkWriter stop WriterWaits (enqueue_fault locus message occurred j)) = None.
Proof.
  intros Hid Hq Hm Hio. unfold enqueue_fault, enqueue_event. rewrite Hq. simpl. unfold writer_move. simpl.
  unfold writer_persist. simpl. rewrite Hid.
  match goal with |- context [append_event_locked cast id ?c ?t ?p ?o ?n1 ?n2 ?io ?j0] =>
    assert ((append_event_locked cast id c t p o n1 n2 io j0).1 = None) as Hn;
      [|destruct (append_event_locked cast id c t p o n1 n2 io j0) as [res j'] eqn:Ha; simpl in Hn; by subst] end.
  unfold append_event_locked, append_line. rewrite Hio. simpl.
  match goal with |- context [line_dump ?d] => destruct (line_dump d) as [text|] eqn:Ed; [|done] end.
  exfalso. apply mk_is_Some in Ed. apply line_dump_is_Some in Ed. unfold event_to_json in Ed. simpl in Ed.
  rewrite Hm in Ed. repeat (rewrite ?andb_false_r, ?andb_false_l in Ed; simpl in Ed). done.
Qed.

(** ** Samples *)

Module WriterBench.
Definition id : string := default "" (j_open_run_id opened_journal).
Definition input : WriteInput := mkWriteInput 1500 1501 good_io.
Definition stuck : QueuedEvent := mkQueued AutomationFault "tick" (JObject [("message", JString "stuck")]) 1400.
Definition closing : JournalWriter := mkWriter false WriterWaits (enqueue_event stuck opened_journal).
End WriterBench.

Example closing_drains_the_queue_witness :
  ∃ w' e, writer_run (H := bit_codec) no_cast (replicate 4 WriterBench.input) (destroy WriterBench.closing) = Some w' ∧
    pending w' = [] ∧ stream (H := bit_codec) no_cast (jw_journal w') WriterBench.id =
                      stream (H := bit_codec) no_cast opened_journal WriterBench.id ++ [e] ∧ ev_type e = "tick".
Proof.
  assert (j_open_run_id (jw_journal WriterBench.closing) = Some WriterBench.id) as Hid by (vm_compute; reflexivity).
  assert (seq_ok (H := bit_codec) no_cast (jw_journal WriterBench.closing) WriterBench.id) as Hj.
  { assert (ev_sequence <$> stream (H := bit_codec) no_cast (jw_journal WriterBench.closing) WriterBench.id = [1]) as Hs
      by (vm_compute; reflexivity).
    assert (j_next_seq (jw_journal WriterBench.closing) !! WriterBench.id = Some 2) as Hn by (vm_compute; reflexivity).
    refine (seq_ok_intro (H := bit_codec) no_cast _ WriterBench.id [1] 2 Hs _ _ Hn _ _); by repeat constructor. }
  destruct (closing_drains_the_queue (H := bit_codec) no_cast (replicate 4 WriterBench.input) WriterBench.closing)
    as [Hend Hgood].
  - discriminate.
  - vm_compute. repeat constructor.
  - destruct (Hgood WriterBench.id) as (w' & es & Hr & Hst & Hes & _).
    + exact Hid.
    + reflexivity.
    + exact Hj.
    + vm_compute. discriminate.
    + change (Forall (item_ok (H := bit_codec)) [WriterBench.stuck]).
      apply Forall_singleton.
      split; [split; vm_compute; discriminate|]. split; [reflexivity|]. split; reflexivity.
    + apply Forall_replicate. do 2 (split; [split; vm_compute; discriminate|]). reflexivity.
    + rewrite Hr in Hend. change (pending WriterBench.closing) with [WriterBench.stuck] in Hes.
      apply Forall2_cons_inv_l in Hes as (e & es' & He & Hes' & ->). apply Forall2_nil_inv_l in Hes' as ->.
      exists w', e. split; [exact Hr|]. split; [exact (proj2 Hend)|]. split; [exact Hst|]. apply He.
Defined.

(** A message of one byte that is not text. *)
Example raw_fault_ends_process_witness :
  writer_run (H := ascii_codec) no_cast [WriterBench.input; WriterBench.input]
    (mkWriter false WriterWaits (enqueue_fault "tick" (char_string "255") 1400 opened_journal)) = None.
Proof.
  apply (raw_fault_ends_process (H := ascii_codec) no_cast WriterBench.id);
    [vm_compute; reflexivity|vm_compute; reflexivity|reflexivity|reflexivity].
Defined.
